(* ===== verification/_CoqProject ===== *)
-Q . S2P
Prelude.v
Text.v
F64.v
Json.v
Calendar.v
Cidr.v
Addr.v
Codec.v
Policy.v
RateLimit.v
Metrics.v
Exposition.v
AuditLog.v
Backends.v
Background.v
Store.v
Cloudflare.v
Tunnel.v
HandleClient.v
Sessions.v
Http.v
Ingress.v
Admin.v
Passthrough.v
Acme.v
Router.v
Issuance.v
Client.v
ClientFile.v
Config.v
Tls.v
Start.v
Listeners.v
EndToEnd.v
