(* ===== verification/Prelude.v ===== *)
(** * Seamless: a verification library for the reverse-tunnel relay and client

    Seamless gives a service behind a firewall a public address.  A client
    ([crates/seamless-client]) connects to a relay ([crates/seamless-relay]) over
    an encrypted multiplexed connection and registers an HTTP name or a TCP port;
    the relay hands public connections for that name or port to the client over
    streams of the connection.  Both speak the frames of
    [crates/seamless-common].  This library translates the program's own logic
    into executable definitions, one file per component, and proves what makes
    each component, and their composition, correct.

    ** How a definition reads

    A Rust string or byte slice is the list of its bytes ([str]).  An integer of
    a machine type is a [Z] whose wrap-around, saturation or cast is written out
    where the code has it ([wrap], [u64_add], [i64_sat_sub], [i64_as_u64]).  A
    [Result] is [result], a panic an [option] or the outcome [Panic].  A
    [HashMap] is a [gmap] from stdpp, an [f64] a primitive float.  Code that
    takes locks, sends frames or writes logs is a function of its state in a
    small monad that collects effects and may stop with an error ([Tunnel.M],
    [Issuance.acme], [Admin.handler]); one lock section is one step.  What the
    code gets from outside (clocks, random draws, the answers of sockets, files
    and services) is an argument.  Libraries are parameters: a section variable
    or a class, with the documented laws the code relies on
    ([Codec] for bincode, [Json.JsonText] and [Store.JsonFile] for serde_json,
    [Policy] for constant-time comparison and the MaxMind reader, [Text.Unicode]
    for case mapping outside ASCII, [Router.Axum] for the matching of paths,
    [Listeners.Handshake] for rustls, [ClientFile.TomlDoc] for TOML,
    [Start.Libraries] for all a start needs, and the parameters of [Acme],
    [Issuance], [Tls], [Cloudflare] and [Config]).

    ** The files, and the code each one models

    - [Prelude], [Text], [F64], [Json], [Calendar]: results, integers, rings and
      tactics; the operations on strings of the standard library that the code
      uses; float conversions; [serde_json::Value]; the two date computations of
      [audit.rs] and [acme.rs].
    - [Cidr]: [denylist.rs], and the address filter of the admin port in
      [main.rs]; [Addr]: how an address is printed, which is how the limiter and
      the tunnels know it.
    - [Codec]: [seamless-common/src/lib.rs], [write_frame] and [read_frame].
    - [Policy]: the rules for names, tokens and countries ([tunnel.rs],
      [geoip.rs], and their set-up in [main.rs]).
    - [RateLimit]: [RateLimiter] and [DDoSProtection] of [tunnel.rs].
    - [Metrics]: [metrics.rs]; [Exposition]: the text of [/metrics] ([metrics.rs],
      [admin.rs]), with the printing of floats; [AuditLog]: [audit.rs], [logs.rs] and the rings of
      [main.rs], with the writer task and its daily rotation.
    - [Backends]: weighted selection and health checks ([tunnel.rs], [admin.rs]);
      [Background]: the health tasks of a tunnel interleaved probe by probe, and
      the delivery of webhooks.
    - [Tunnel]: the registry (names to shared entries), the expiry, shutdown and
      statistics tasks of [main.rs].  [HandleClient]: [handle_client],
      [serve_http], [serve_tcp] and the forwarding of [tunnel.rs].
      [Sessions]: the same code cut at its lock sections, the tries for an
      automatic port included, as a step relation of any number of sessions with
      the other tasks of the relay.
    - [Http]: the parsing and writing of HTTP text in [ingress.rs]; [Ingress]:
      [route_http] and the HTTPS wrapper.
    - [Store]: [store.rs], with [save] step by step over a file system.
    - [Cloudflare]: [cloudflare.rs]; [Admin]: [admin.rs], every handler with the
      token check it begins with; [Router]: its route table, request types and
      layers, from the HTTP request on.
    - [Passthrough]: [tcp_passthrough.rs].
    - [Acme] and [Issuance]: [acme.rs], the checks and the challenge server, and
      the issuance and renewal of certificates.
    - [Client]: [seamless-client/src], configuration and reconnect loop;
      [ClientFile]: the configuration file and the [config] command on it.
    - [Config]: the merge of flags and file, the identity and the reloads of
      [main.rs]; [Tls]: [tls.rs] and the rotation of certificates; [Start]:
      [main], what it loads and checks, the tasks it spawns with their state, and
      the accept loop of the Seam port.
    - [Listeners]: the accept loops of the ingress, the TCP tunnels, the
      passthrough ports, the challenge server and the admin port, on the state a
      start has built.
    - [EndToEnd]: no code of its own; from the start of a relay to a request that
      reaches a client.

    The parts meet as in the code: [HandleClient] calls [Policy], [RateLimit] and
    [Metrics] and works on the registry of [Tunnel]; [Sessions] interleaves its
    sections; [Ingress] and [Admin] work on the same registry, [Ingress] through
    the routes of [Store] and the texts of [Http]; [Issuance] fills the token map
    that [Acme]'s challenge server reads; [Config] and [Tls] say what a relay
    starts with, [Start] puts it together, and [Listeners] runs the ports on it:
    its theorems speak of a relay that [Start.main] has started, with
    [HandleClient]'s admission, [Passthrough]'s checks, [RateLimit]'s limiter,
    [Tls]'s acceptors and [Router]'s service as they are.  What the parts do to
    the outside is a list of effects: frames and bytes with the mux they go out
    on, audit events, webhooks, saves, requests to Cloudflare, connections to
    upstreams.

    ** What the theorems show

    - Admission and registration: a client is admitted exactly when every test
      passes and otherwise gets the first failing test's frame
      ([admission_verdict]); a registration refuses with one frame and changes
      nothing, or adds one tunnel under a free name, and when its answer cannot
      be written the tunnel stays ([http_register_spec], [bind_random_port_spec]).
    - Interleaving: [machine_runs_handle_client] ties the machine of [Sessions] to
      [handle_client]; in every reachable state the registry is well formed,
      whatever is registered, recorded or bound belongs to a session that has
      still to give it back ([nothing_left_behind]), and names are exclusive as
      long as nothing expires; the races that break the limits and the
      exclusivity are runs of the machine.
    - Ingress: the address given out works ([tunnel_url_reaches]); what becomes of
      a connection, on every path ([route_http_fate]); added headers hide nothing
      ([inject_preserves]).
    - Codec: frames written are the frames read, and every error of a stream.
    - Policies: the token loop decides membership, reloads keep the relay closed,
      the limiter refines the log of all admitted calls, the deny list denies its
      blocks.
    - Metrics: the histogram is cumulative and monotone, every float printed
      reads back, and a scraper gets exactly the relay's numbers from the page
      ([histogram_monotone], [shortest_digits_reads_back],
      [metrics_text_readings]).
    - Logs and dates: the ring keeps the last 1024 events whatever the
      interleaving, rotation loses nothing, dates are Gregorian.
    - Persistence: a save is atomic alone and not against another, documents are
      read back as written, the identity persists from start to start through
      the file ([identity_persists]).
    - Certificates: when renewal is due, what a run of issuance leaves, that it
      ends, that a failed one keeps the pair, that challenges are served; the
      admin port is as strict as configured; rotation serves the last good pair.
    - The start: a relay runs with the configuration it was given
      ([runs_as_configured]), and nothing is opened before everything is loaded
      ([tasks_justified]).
    - Composition: a tunnel of a started relay works ([started_tunnel_works]), who
      it admits ([admitted_hold_tokens]), one budget per address over
      registrations and passthrough connections ([one_budget_per_address], by way
      of [parse_show_ip_run]), which certificate a connection meets
      ([https_presents_last_good]), who gets to the admin interface
      ([admin_gate]), which listeners outlive an error
      ([accept_error_ends_ingress]).
    - Admin requests: each operation has its request
      ([every_operation_has_its_request]), who gets through to which
      ([admin_access]), what the controls of a tunnel do ([tunnel_controls]), and
      looking changes nothing ([reads_change_nothing]).
    - Background tasks: no backend is taken out without cause
      ([unhealthy_backend_blamed]); an event is posted once or twice
      ([fire_task_spec]).
    - Client: the reconnect schedule, which errors are final, and that
      [config init] is remembered.

    Theorems that show a defect are proved like the others, on a concrete run or
    for all states they arise in, and are named after what goes wrong.

    ** Bounds and fuel

    The fifty draws of [bind_random_port], the twenty-four polls of an order and
    the ring sizes are those of the code.  [Text.show] has twenty digits of fuel,
    enough for a [u64]; [Exposition.shortest] tries every position from above the
    largest float to its last binary digit; [Acme.scan_times] and [Acme.words] have the length of
    their input, of which every turn consumes a byte; [Sessions.drive] needs 112
    steps for a session, at most two for each of the fifty tries of an automatic
    port, as [machine_runs_handle_client] shows.  Loops that wait for the
    outside consume a list of answers, and what happens when the list ends is
    part of the result ([Waiting], [None]).

    ** Not modelled

    The Seam transport, the TLS handshake itself, the headers of the CORS layer
    and the texts of axum's own refusals, the timing of tokio's intervals, logging
    through [tracing], the page of the admin interface and the command-line
    parser: I/O and libraries with no decisions of the program in them.  Tests,
    packaging and documents are not code of the program.  Which ports the
    operating system lets the relay bind is an argument ([os_bind]); that it
    lets no port be bound twice is not assumed. *)

From stdpp Require Export base tactics decidable list gmap strings sorting.
From Stdlib Require Export Ascii ZArith Lia.

(** ** Text

    A Rust [String], [&str] or [&[u8]] is the list of its bytes; a text value
    is one for which [Text.utf8_valid] holds. *)

Abbreviation str := (list ascii).

Declare Scope str_scope.
Delimit Scope str_scope with str.

(** [§"abc"] is the byte string of the literal. *)
Notation "§ x" := (String.list_ascii_of_string x%string)
  (at level 1, x at level 0, format "§ x").

(** The numeric value of a byte. *)
Definition code (c : ascii) : Z := Z.of_nat (nat_of_ascii c).

(** [ascii_of_nat] on a [Z] below 256. *)
Definition chr (z : Z) : ascii := ascii_of_nat (Z.to_nat z).

(** ** Results

    [Result<A, E>]: fallible code returns [Ok] or [Err]; [x ← r; k] is the
    [?] operator. *)

Inductive result (E A : Type) : Type :=
| Ok (a : A)
| Err (e : E).
Arguments Ok {E A} a.
Arguments Err {E A} e.

#[export] Instance result_ret E : MRet (result E) := λ A, Ok.
#[export] Instance result_bind E : MBind (result E) := λ A B f r,
  match r with Ok a => f a | Err e => Err e end.

Definition is_ok {E A} (r : result E A) : bool :=
  match r with Ok _ => true | Err _ => false end.

Definition ok_or {E A} (e : E) (o : option A) : result E A :=
  match o with Some a => Ok a | None => Err e end.

(** ** Machine integers

    A [uN] is a [Z] with its wrap-around written out. *)

Definition wrap (w z : Z) : Z := z mod 2 ^ w.
Definition u8_max : Z := 255.
Definition u16_max : Z := 65535.
Definition u32_max : Z := 4294967295.
Definition u64_max : Z := 18446744073709551615.
Definition i64_max : Z := 9223372036854775807.
Definition i64_min : Z := -9223372036854775808.

(** [AtomicU64::fetch_add] wraps. *)
Definition u64_add (a b : Z) : Z := wrap 64 (a + b).
Definition u64_sub (a b : Z) : Z := wrap 64 (a - b).

(** [i64::saturating_sub], and the [as u64] cast of an [i64]. *)
Definition i64_sat_sub (a b : Z) : Z := Z.max i64_min (Z.min i64_max (a - b)).
Definition i64_as_u64 (a : Z) : Z := wrap 64 a.

Lemma wrap_range w z : (0 ≤ w)%Z → (0 ≤ wrap w z < 2 ^ w)%Z.
Proof. intros. apply Z.mod_pos_bound. by apply Z.pow_pos_nonneg. Qed.

Lemma wrap_small w z : (0 ≤ z < 2 ^ w)%Z → wrap w z = z.
Proof. apply Z.mod_small. Qed.

Lemma wrap_add_l w a b : wrap w (wrap w a + b) = wrap w (a + b).
Proof. apply Zplus_mod_idemp_l. Qed.

Lemma u64_add_small a b : (0 ≤ a + b ≤ u64_max)%Z → u64_add a b = (a + b)%Z.
Proof. intros. apply wrap_small. unfold u64_max in *. lia. Qed.

(** ** Tactics *)

(** Case analysis on every [match] and [if] of the goal, or of a hypothesis. *)
Ltac case_all := repeat (case_match; simplify_eq/=; try done).

(** Turns the boolean tests of the context into propositions. *)
Ltac bool_to_prop :=
  repeat match goal with
  | H : context [andb _ _ = true] |- _ => rewrite andb_true_iff in H
  | H : context [andb _ _ = false] |- _ => rewrite andb_false_iff in H
  | H : context [orb _ _ = true] |- _ => rewrite orb_true_iff in H
  | H : context [orb _ _ = false] |- _ => rewrite orb_false_iff in H
  | H : context [negb _ = true] |- _ => rewrite negb_true_iff in H
  | H : context [negb _ = false] |- _ => rewrite negb_false_iff in H
  | H : context [bool_decide _ = true] |- _ => rewrite bool_decide_eq_true in H
  | H : context [bool_decide _ = false] |- _ => rewrite bool_decide_eq_false in H
  | H : context [Z.eqb _ _ = true] |- _ => rewrite Z.eqb_eq in H
  | H : context [Z.eqb _ _ = false] |- _ => rewrite Z.eqb_neq in H
  | H : context [Z.ltb _ _ = true] |- _ => rewrite Z.ltb_lt in H
  | H : context [Z.ltb _ _ = false] |- _ => rewrite Z.ltb_ge in H
  | H : context [Z.leb _ _ = true] |- _ => rewrite Z.leb_le in H
  | H : context [Z.leb _ _ = false] |- _ => rewrite Z.leb_gt in H
  end.

(** ** Bytes *)

Create HintDb seamless.
Create Rewrite HintDb seamless.

Lemma code_range c : (0 ≤ code c < 256)%Z.
Proof. unfold code. pose proof (nat_ascii_bounded c). lia. Qed.

Lemma code_chr z : (0 ≤ z < 256)%Z → code (chr z) = z.
Proof. intros. unfold code, chr. rewrite nat_ascii_embedding; lia. Qed.

Lemma chr_code c : chr (code c) = c.
Proof. unfold code, chr. by rewrite Nat2Z.id, ascii_nat_embedding. Qed.

Lemma code_inj c d : code c = code d → c = d.
Proof. intros H. by rewrite <-(chr_code c), H, chr_code. Qed.

#[export] Hint Resolve code_range : seamless.
#[export] Hint Rewrite chr_code : seamless.

(** ** Lists *)

Section lists.
Context {A : Type}.
Implicit Types l : list A.

(** The last [n] elements, in order. *)
Definition last_n (n : nat) (l : list A) : list A := drop (length l - n) l.

Lemma last_n_short n l : length l ≤ n → last_n n l = l.
Proof. intros. unfold last_n. by replace (length l - n) with 0 by lia. Qed.

Lemma length_last_n n l : length (last_n n l) = n `min` length l.
Proof. unfold last_n. rewrite length_drop. lia. Qed.

Lemma last_n_snoc n l x :
  0 < n → last_n n (l ++ [x]) = last_n (n - 1) l ++ [x].
Proof.
  intros. unfold last_n. rewrite length_app; simpl.
  rewrite drop_app_le by lia. f_equal. f_equal. lia.
Qed.

(** A [VecDeque] kept at [cap] elements: the oldest one leaves when a new one
    comes to a full queue ([pop_front], [push_back]). *)
Definition ring_push (cap : nat) (l : list A) (x : A) : list A :=
  (if cap <=? length l then tail l else l) ++ [x].

Lemma drop_1 l : drop 1 l = tail l.
Proof. by destruct l. Qed.

Lemma ring_push_last_n cap l x :
  0 < cap → ring_push cap (last_n cap l) x = last_n cap (l ++ [x]).
Proof.
  intros Hc. unfold ring_push. rewrite length_last_n, last_n_snoc by done. f_equal.
  destruct (Nat.leb_spec cap (cap `min` length l)).
  - unfold last_n. rewrite <-drop_1, drop_drop. f_equal. lia.
  - rewrite !last_n_short by lia. done.
Qed.

Lemma ring_pushes cap xs :
  0 < cap → foldl (ring_push cap) [] xs = last_n cap xs.
Proof.
  intros Hc. induction xs as [|x xs IH] using rev_ind; [done|].
  rewrite foldl_app. cbn [foldl]. rewrite IH. by apply ring_push_last_n.
Qed.

Lemma filter_length_le (P : A → Prop) `{∀ x, Decision (P x)} l :
  length (filter P l) ≤ length l.
Proof. induction l as [|x l IH]; [done|]. rewrite filter_cons. case_decide; simpl; lia. Qed.
End lists.
