(* ===== verification/Text.v ===== *)
(** * Text: the string operations of the Rust standard library

    [str::from_utf8], [trim], [lines], [split], [splitn], [strip_prefix],
    [to_lowercase], [eq_ignore_ascii_case], [parse::<uN>] and decimal
    formatting, on byte lists.  What they do on ASCII text is executable here;
    the case tables of Unicode are the parameter [Unicode]. *)

From S2P Require Import Prelude.
Local Open Scope Z_scope.

(** ** ASCII classes *)

Definition is_ascii (c : ascii) : bool := code c <? 128.
Definition is_upper (c : ascii) : bool := (65 <=? code c) && (code c <=? 90).
Definition is_lower (c : ascii) : bool := (97 <=? code c) && (code c <=? 122).
Definition is_digit (c : ascii) : bool := (48 <=? code c) && (code c <=? 57).
Definition is_ascii_alphanumeric (c : ascii) : bool :=
  is_upper c || is_lower c || is_digit c.
Definition ascii_str (s : str) : bool := forallb is_ascii s.

Definition to_lower (c : ascii) : ascii := if is_upper c then chr (code c + 32) else c.
Definition to_upper (c : ascii) : ascii := if is_lower c then chr (code c - 32) else c.
Definition to_ascii_lowercase (s : str) : str := to_lower <$> s.
Definition eq_ignore_ascii_case (a b : str) : bool :=
  bool_decide (to_ascii_lowercase a = to_ascii_lowercase b).

(** [str::to_lowercase] and [str::to_uppercase] follow the Unicode tables: on
    ASCII text they are the ASCII maps, elsewhere they are the tables'. *)
Class Unicode := {
  unicode_lower : str → str;
  unicode_upper : str → str;
}.

Definition to_lowercase `{Unicode} (s : str) : str :=
  if ascii_str s then to_ascii_lowercase s else unicode_lower s.
Definition to_uppercase `{Unicode} (s : str) : str :=
  if ascii_str s then to_upper <$> s else unicode_upper s.

(** ** UTF-8 validation ([std::str::from_utf8]) *)

Definition is_cont (c : ascii) : bool := (128 <=? code c) && (code c <=? 191).
Definition in_range (lo hi : Z) (c : ascii) : bool := (lo <=? code c) && (code c <=? hi).

(** The second byte a three-byte or a four-byte lead allows. *)
Definition second3 (n : Z) (c : ascii) : bool :=
  if n =? 0xE0 then in_range 0xA0 0xBF c
  else if n =? 0xED then in_range 0x80 0x9F c else is_cont c.
Definition second4 (n : Z) (c : ascii) : bool :=
  if n =? 0xF0 then in_range 0x90 0xBF c
  else if n =? 0xF4 then in_range 0x80 0x8F c else is_cont c.

Fixpoint utf8_valid (s : str) : bool :=
  match s with
  | [] => true
  | c :: r =>
    if is_ascii c then utf8_valid r else
    match r with
    | [] => false
    | c1 :: r1 =>
      if in_range 0xC2 0xDF c then is_cont c1 && utf8_valid r1 else
      match r1 with
      | [] => false
      | c2 :: r2 =>
        if in_range 0xE0 0xEF c then second3 (code c) c1 && is_cont c2 && utf8_valid r2 else
        match r2 with
        | [] => false
        | c3 :: r3 =>
          in_range 0xF0 0xF4 c && second4 (code c) c1 && is_cont c2 && is_cont c3
          && utf8_valid r3
        end
      end
    end
  end.

Definition from_utf8 (s : str) : option str := if utf8_valid s then Some s else None.

(** ** Trimming

    [char::is_whitespace] on UTF-8: the ASCII blanks, U+0085, U+00A0, U+1680,
    U+2000 to U+200A, U+2028, U+2029, U+202F, U+205F and U+3000. *)

Definition ws1 (a : ascii) : bool := in_range 9 13 a || (code a =? 32).
Definition ws2 (a b : ascii) : bool :=
  (code a =? 0xC2) && ((code b =? 0x85) || (code b =? 0xA0)).
Definition ws3 (a b c : ascii) : bool :=
  ((code a =? 0xE1) && (code b =? 0x9A) && (code c =? 0x80))
  || ((code a =? 0xE2) && (code b =? 0x80)
      && (in_range 0x80 0x8A c || (code c =? 0xA8) || (code c =? 0xA9) || (code c =? 0xAF)))
  || ((code a =? 0xE2) && (code b =? 0x81) && (code c =? 0x9F))
  || ((code a =? 0xE3) && (code b =? 0x80) && (code c =? 0x80)).

Fixpoint trim_start (s : str) : str :=
  match s with
  | [] => []
  | a :: r =>
    if ws1 a then trim_start r else
    match r with
    | [] => s
    | b :: r1 =>
      if ws2 a b then trim_start r1 else
      match r1 with
      | [] => s
      | c :: r2 => if ws3 a b c then trim_start r2 else s
      end
    end
  end.

(** [trim_start] on the reversed text. *)
Fixpoint trim_rev (s : str) : str :=
  match s with
  | [] => []
  | c :: r =>
    if ws1 c then trim_rev r else
    match r with
    | [] => s
    | b :: r1 =>
      if ws2 b c then trim_rev r1 else
      match r1 with
      | [] => s
      | a :: r2 => if ws3 a b c then trim_rev r2 else s
      end
    end
  end.

Definition trim_end (s : str) : str := reverse (trim_rev (reverse s)).
Definition trim (s : str) : str := trim_end (trim_start s).

(** ** Searching and splitting *)

Fixpoint starts_with (p s : str) : bool :=
  match p, s with
  | [], _ => true
  | a :: p', b :: s' => bool_decide (a = b) && starts_with p' s'
  | _ :: _, [] => false
  end.

Definition strip_prefix (p s : str) : option str :=
  if starts_with p s then Some (drop (length p) s) else None.
Definition ends_with (p s : str) : bool := starts_with (reverse p) (reverse s).
Definition strip_suffix (p s : str) : option str :=
  if ends_with p s then Some (take (length s - length p) s) else None.

Definition contains_char (c : ascii) (s : str) : bool := existsb (λ d, bool_decide (d = c)) s.

Fixpoint contains_str (p s : str) : bool :=
  starts_with p s || match s with [] => false | _ :: s' => contains_str p s' end.

(** [s.find(c)] for a single-byte character: the text before and after its
    first occurrence, as [&s[..i]] and [&s[i + 1..]]. *)
Fixpoint find_char (c : ascii) (s : str) : option (str * str) :=
  match s with
  | [] => None
  | d :: s' =>
    if bool_decide (d = c) then Some ([], s')
    else match find_char c s' with Some (a, b) => Some (d :: a, b) | None => None end
  end.

Definition split_once (c : ascii) (s : str) : option (str * str) := find_char c s.

(** [s.split(c)] *)
Fixpoint split_char (c : ascii) (s : str) : list str :=
  match s with
  | [] => [[]]
  | d :: s' =>
    if bool_decide (d = c) then [] :: split_char c s'
    else match split_char c s' with
         | [] => [[d]]
         | h :: t => (d :: h) :: t
         end
  end.

(** [s.rsplit_once(c)] *)
Fixpoint rsplit_char (c : ascii) (s : str) : option (str * str) :=
  match s with
  | [] => None
  | d :: s' =>
    match rsplit_char c s' with
    | Some (a, b) => Some (d :: a, b)
    | None => if bool_decide (d = c) then Some ([], s') else None
    end
  end.

(** [s.splitn(n, c)] *)
Fixpoint splitn (n : nat) (c : ascii) (s : str) : list str :=
  match n with
  | O => []
  | S O => [s]
  | S n' => match find_char c s with
            | Some (a, b) => a :: splitn n' c b
            | None => [s]
            end
  end.

Definition cr : ascii := chr 13.
Definition lf : ascii := chr 10.
Definition crlf : str := [cr; lf].

(** [s.split("\r\n")] *)
Fixpoint split_crlf (s : str) : list str :=
  match s with
  | [] => [[]]
  | d :: s' =>
    match s' with
    | e :: s'' =>
      if bool_decide (d = cr) && bool_decide (e = lf) then [] :: split_crlf s''
      else match split_crlf s' with
           | [] => [[d]]
           | h :: t => (d :: h) :: t
           end
    | [] => [[d]]
    end
  end.

(** [s.lines()]: split at line feeds, one carriage return before a line feed
    dropped, and no last empty line. *)
Definition strip_cr (l : str) : str :=
  match strip_suffix [cr] l with Some l' => l' | None => l end.
Fixpoint lines_of (parts : list str) : list str :=
  match parts with
  | [] => []
  | [l] => if bool_decide (l = []) then [] else [l]
  | l :: rest => strip_cr l :: lines_of rest
  end.
Definition lines (s : str) : list str := lines_of (split_char lf s).

(** ** Decimal numbers *)

Definition digit_val (c : ascii) : option Z :=
  if is_digit c then Some (code c - 48) else None.

Fixpoint parse_digits (max acc : Z) (s : str) : option Z :=
  match s with
  | [] => Some acc
  | c :: s' =>
    match digit_val c with
    | None => None
    | Some d =>
      let acc' := acc * 10 + d in
      if acc' <=? max then parse_digits max acc' s' else None
    end
  end.

(** [s.parse::<uN>()] with [max] the largest value of the type: one leading
    [+] is accepted, no digit or an overflow is an error. *)
Definition parse_uint (max : Z) (s : str) : option Z :=
  match s with
  | [] => None
  | c :: r =>
    if bool_decide (c = "+"%char)
    then match r with [] => None | _ => parse_digits max 0 r end
    else parse_digits max 0 s
  end.

(** [format!("{n}")] of an unsigned integer; 20 digits hold a [u64]. *)
Fixpoint show_go (fuel : nat) (n : Z) (acc : str) : str :=
  match fuel with
  | O => acc
  | S f =>
    let acc' := chr (48 + n mod 10) :: acc in
    if n <? 10 then acc' else show_go f (n / 10) acc'
  end.
Definition show (n : Z) : str := show_go 20 n [].

(** [format!("{n}")] of a signed integer. *)
Definition show_int (n : Z) : str :=
  if n <? 0 then "-"%char :: show (- n) else show n.

(** [format!("{n:0w$}")]: zeros after the sign up to the width. *)
Definition zero_pad (w : nat) (s : str) : str := replicate (w - length s) "0"%char ++ s.
Definition show_pad (w : nat) (n : Z) : str :=
  if n <? 0 then "-"%char :: zero_pad (w - 1) (show (- n)) else zero_pad w (show n).

(** ** Lemmas: splitting *)

Lemma find_char_app c a b : c ∉ a → find_char c (a ++ c :: b) = Some (a, b).
Proof.
  induction a as [|d a IH]; intros H; cbn [find_char app]; [by rewrite bool_decide_true|].
  rewrite elem_of_cons in H. rewrite bool_decide_false by (intros ->; apply H; by left).
  rewrite IH by (intros ?; apply H; by right). done.
Qed.

Lemma find_char_None c s : c ∉ s → find_char c s = None.
Proof.
  induction s as [|d s IH]; intros H; [done|]. cbn [find_char].
  rewrite elem_of_cons in H. rewrite bool_decide_false by (intros ->; apply H; by left).
  by rewrite IH by (intros ?; apply H; by right).
Qed.

Lemma digits_no_char c s : forallb is_digit s = true → is_digit c = false → c ∉ s.
Proof.
  intros Hs Hc Hin. assert (is_digit c = true) as E; [|congruence].
  rewrite forallb_forall in Hs. apply Hs. by apply list_elem_of_In.
Qed.

(** ** Lemmas: numbers *)

Lemma digit_val_range c d : digit_val c = Some d → 0 ≤ d ≤ 9.
Proof.
  unfold digit_val, is_digit. destruct (_ && _) eqn:E; [|done].
  intros [= <-]. bool_to_prop. lia.
Qed.

Lemma parse_digits_range max s acc n :
  0 ≤ acc ≤ max → parse_digits max acc s = Some n → 0 ≤ n ≤ max.
Proof.
  revert acc; induction s as [|c s IH]; intros acc Hacc; simpl; [by intros [= <-]|].
  destruct (digit_val c) as [d|] eqn:Hd; [|done]. apply digit_val_range in Hd.
  destruct (_ <=? _) eqn:Hle; [|done]. bool_to_prop. apply IH. lia.
Qed.

Lemma parse_uint_range max s n : 0 ≤ max → parse_uint max s = Some n → 0 ≤ n ≤ max.
Proof.
  intros Hmax. unfold parse_uint. destruct s as [|c r]; [done|].
  case_bool_decide; [destruct r; [done|]|]; apply parse_digits_range; lia.
Qed.

Lemma digit_val_chr d : 0 ≤ d ≤ 9 → digit_val (chr (48 + d)) = Some d.
Proof.
  intros. unfold digit_val, is_digit. rewrite code_chr by lia.
  replace (48 <=? 48 + d) with true by (symmetry; apply Z.leb_le; lia).
  replace (48 + d <=? 57) with true by (symmetry; apply Z.leb_le; lia).
  simpl. f_equal. lia.
Qed.

(** Reading back what [show_go] prints, before any further text. *)
Lemma parse_show_go fuel n max s :
  0 ≤ n < 10 ^ Z.of_nat fuel → n ≤ max → (0 < fuel)%nat →
  parse_digits max 0 (show_go fuel n s) = parse_digits max n s.
Proof.
  revert n s; induction fuel as [|f IH]; intros n s Hn Hmax Hf; [lia|].
  cbn [show_go]. destruct (n <? 10) eqn:E; bool_to_prop.
  - rewrite Z.mod_small by lia. cbn [parse_digits]. rewrite digit_val_chr by lia.
    rewrite Z.mul_0_l, Z.add_0_l. by rewrite (proj2 (Z.leb_le n max)) by done.
  - assert (0 < f)%nat.
    { destruct f; [|lia]. change (10 ^ Z.of_nat 1) with 10 in Hn. lia. }
    rewrite Nat2Z.inj_succ, Z.pow_succ_r in Hn by lia.
    pose proof (Z.div_mod n 10). pose proof (Z.mod_pos_bound n 10).
    rewrite (IH (n / 10)); [|split; [apply Z.div_pos; lia|apply Z.div_lt_upper_bound; lia]
                            |apply Z.le_trans with n; [apply Z.div_le_upper_bound; lia|lia]|done].
    cbn [parse_digits]. rewrite digit_val_chr by lia.
    replace (n / 10 * 10 + n mod 10) with n by lia.
    by rewrite (proj2 (Z.leb_le n max)) by done.
Qed.

Lemma show_go_cons fuel n s :
  (0 < fuel)%nat → ∃ d r, 0 ≤ d ≤ 9 ∧ show_go fuel n s = chr (48 + d) :: r.
Proof.
  revert n s; induction fuel as [|f IH]; intros n s Hf; [lia|]. cbn [show_go].
  pose proof (Z.mod_pos_bound n 10). destruct (n <? 10); [eexists _, _; split; [|done]; lia|].
  destruct f as [|f]; [eexists _, _; split; [|done]; lia|]. apply IH. lia.
Qed.

(** Printing an unsigned integer and parsing it back. *)
Lemma parse_show max n : 0 ≤ n ≤ max → n < 10 ^ 20 → parse_uint max (show n) = Some n.
Proof.
  intros Hn H20. unfold parse_uint, show.
  destruct (show_go_cons 20 n []) as (d & r & Hd & E); [lia|]. rewrite E.
  case_bool_decide as Hp.
  - apply (f_equal code) in Hp. rewrite code_chr in Hp by lia.
    replace (code "+"%char) with 43 in Hp by reflexivity. lia.
  - rewrite <-E. rewrite (parse_show_go 20 n max []); [done|simpl; lia..].
Qed.

Lemma show_digits fuel n s :
  forallb is_digit s = true → forallb is_digit (show_go fuel n s) = true.
Proof.
  revert n s; induction fuel as [|f IH]; intros n s Hs; simpl; [done|].
  pose proof (Z.mod_pos_bound n 10).
  assert (forallb is_digit (chr (48 + n mod 10) :: s) = true).
  { simpl. rewrite Hs, andb_true_r. unfold is_digit. rewrite code_chr by lia.
    apply andb_true_iff; split; apply Z.leb_le; lia. }
  destruct (n <? 10); auto.
Qed.

Lemma show_all_digits n : forallb is_digit (show n) = true.
Proof. by apply show_digits. Qed.

Lemma show_inj n m :
  0 ≤ n < 10 ^ 20 → 0 ≤ m < 10 ^ 20 → show n = show m → n = m.
Proof.
  intros Hn Hm E. pose proof (parse_show (10 ^ 20) n ltac:(lia) ltac:(lia)) as P.
  rewrite E, parse_show in P by lia. by simplify_eq.
Qed.

(** ** Lemmas: padded numbers *)

Lemma parse_digits_zeros max k s :
  0 ≤ max → parse_digits max 0 (replicate k "0"%char ++ s) = parse_digits max 0 s.
Proof.
  intros Hm. induction k as [|k IH]; [done|]. cbn [replicate app parse_digits].
  change (digit_val "0"%char) with (Some 0). cbv zeta iota beta.
  change (0 * 10 + 0) with 0. rewrite (proj2 (Z.leb_le 0 max)) by done. apply IH.
Qed.

Lemma parse_uint_digits max s :
  s ≠ [] → forallb is_digit s = true → parse_uint max s = parse_digits max 0 s.
Proof.
  unfold parse_uint. destruct s as [|c r]; [done|]. intros _ Hd.
  case_bool_decide as E; [|done]. subst. discriminate.
Qed.

Lemma show_nonempty n : show n ≠ [].
Proof. unfold show. destruct (show_go_cons 20 n []) as (d & r & _ & ->); [lia|done]. Qed.

Lemma zero_pad_digits w s : forallb is_digit s = true → forallb is_digit (zero_pad w s) = true.
Proof.
  intros H. unfold zero_pad. rewrite forallb_app, H, andb_true_r.
  generalize (w - length s)%nat as k. by induction k.
Qed.

Lemma show_pad_digits w n : 0 ≤ n → forallb is_digit (show_pad w n) = true.
Proof.
  intros. unfold show_pad. rewrite (proj2 (Z.ltb_ge n 0)) by lia.
  apply zero_pad_digits, show_all_digits.
Qed.

Lemma show_pad_inj w n m :
  0 ≤ n < 10 ^ 20 → 0 ≤ m < 10 ^ 20 → show_pad w n = show_pad w m → n = m.
Proof.
  intros Hn Hm. unfold show_pad. rewrite !(proj2 (Z.ltb_ge _ 0)) by lia.
  unfold zero_pad. intros E. apply (f_equal (parse_digits (10 ^ 20) 0)) in E.
  rewrite !parse_digits_zeros in E by lia.
  rewrite <-!parse_uint_digits in E by (apply show_nonempty || apply show_all_digits).
  rewrite !parse_show in E by lia. by simplify_eq.
Qed.

(** ** Lemmas: prefixes and suffixes *)

Lemma starts_with_app p s : starts_with p (p ++ s) = true.
Proof. induction p as [|c p IH]; [done|]. cbn [app starts_with]. by rewrite bool_decide_true. Qed.

Lemma ends_with_app p s : ends_with p (s ++ p) = true.
Proof. unfold ends_with. rewrite reverse_app. apply starts_with_app. Qed.

Lemma strip_suffix_app p s : strip_suffix p (s ++ p) = Some s.
Proof.
  unfold strip_suffix. rewrite ends_with_app, length_app. f_equal.
  replace (length s + length p - length p)%nat with (length s) by lia. apply take_app_length.
Qed.

Lemma strip_prefix_app p s : strip_prefix p (p ++ s) = Some s.
Proof. unfold strip_prefix. rewrite starts_with_app. f_equal. apply drop_app_length. Qed.

Lemma starts_with_spec p s : starts_with p s = true → ∃ t, s = p ++ t.
Proof.
  revert s. induction p as [|c p IH]; intros s H; [by exists s|].
  destruct s as [|d s]; [done|]. cbn [starts_with] in H. apply andb_true_iff in H as [Hc H].
  apply bool_decide_eq_true in Hc as ->. destruct (IH s H) as [t ->]. by exists t.
Qed.

Lemma strip_suffix_spec p s t : strip_suffix p s = Some t → s = t ++ p.
Proof.
  unfold strip_suffix. destruct (ends_with p s) eqn:E; [|done]. intros [= <-].
  unfold ends_with in E. apply starts_with_spec in E as [u Hu].
  apply (f_equal reverse) in Hu. rewrite reverse_app, !reverse_involutive in Hu.
  rewrite Hu, length_app, take_app_length'; [done|lia].
Qed.

(** ** Lemmas: plain text *)

(** ASCII characters that are neither blank nor the end of a line. *)
Definition plain (c : ascii) : bool := is_ascii c && negb (ws1 c).

Lemma ws2_ascii a b : is_ascii a = true → ws2 a b = false.
Proof.
  unfold is_ascii, ws2. intros Ha. bool_to_prop. rewrite (proj2 (Z.eqb_neq (code a) 0xC2)) by lia. done.
Qed.
Lemma ws3_ascii a b c : is_ascii a = true → ws3 a b c = false.
Proof.
  unfold is_ascii, ws3. intros Ha. bool_to_prop.
  rewrite (proj2 (Z.eqb_neq (code a) 0xE1)), (proj2 (Z.eqb_neq (code a) 0xE2)),
    (proj2 (Z.eqb_neq (code a) 0xE3)) by lia. done.
Qed.

Lemma trim_start_plain c s : plain c = true → trim_start (c :: s) = c :: s.
Proof.
  unfold plain. intros H. bool_to_prop. destruct H as [Ha Hw]. cbn [trim_start]. rewrite Hw.
  destruct s as [|b s]; [done|]. rewrite ws2_ascii by done.
  destruct s as [|d s]; [done|]. by rewrite ws3_ascii.
Qed.

Lemma trim_rev_plain c s :
  plain c = true → forallb is_ascii s = true → trim_rev (c :: s) = c :: s.
Proof.
  unfold plain. intros H Hs. bool_to_prop. destruct H as [Ha Hw]. cbn [trim_rev]. rewrite Hw.
  destruct s as [|b s]; [done|]. cbn [forallb] in Hs. apply andb_true_iff in Hs as [Hb Hs].
  rewrite ws2_ascii by done. destruct s as [|d s]; [done|].
  cbn [forallb] in Hs. apply andb_true_iff in Hs as [Hd Hs]. by rewrite ws3_ascii.
Qed.

Lemma plain_ascii s : forallb plain s = true → forallb is_ascii s = true.
Proof.
  induction s as [|c s IH]; [done|]. cbn [forallb]. intros H. apply andb_true_iff in H as [Hc H].
  unfold plain in Hc. apply andb_true_iff in Hc as [Hc _]. by rewrite Hc, IH.
Qed.

Lemma trim_plain s : forallb plain s = true → trim s = s.
Proof.
  intros H. unfold trim. destruct s as [|c s]; [done|].
  assert (Hc : plain c = true) by (cbn [forallb] in H; by apply andb_true_iff in H as [? _]).
  rewrite trim_start_plain by done. unfold trim_end.
  destruct (reverse (c :: s)) as [|d r] eqn:E.
  { apply (f_equal length) in E. rewrite length_reverse in E. discriminate. }
  assert (Hr : forallb plain (d :: r) = true).
  { rewrite <-E. apply forallb_forall. intros x Hx. rewrite forallb_forall in H. apply H.
    apply list_elem_of_In, elem_of_reverse. by apply list_elem_of_In. }
  cbn [forallb] in Hr. apply andb_true_iff in Hr as [Hd Hr].
  rewrite trim_rev_plain by (done || by apply plain_ascii). rewrite <-E. apply reverse_involutive.
Qed.

(** One blank before plain text goes. *)
Lemma trim_blank s : forallb plain s = true → trim (" "%char :: s) = s.
Proof.
  intros H. unfold trim. cbn [trim_start]. change (ws1 " "%char) with true. cbv iota.
  by apply trim_plain.
Qed.

Lemma digit_plain c : is_digit c = true → plain c = true.
Proof. destruct c as [[] [] [] [] [] [] [] []]; vm_compute; congruence. Qed.

Lemma forallb_impl {A} (f g : A → bool) l :
  (∀ x, f x = true → g x = true) → forallb f l = true → forallb g l = true.
Proof. intros Hfg. rewrite !forallb_forall. auto. Qed.

(** ** Lemmas: UTF-8 *)

Lemma digits_plain l : forallb is_digit l = true → forallb plain l = true.
Proof. apply forallb_impl, digit_plain. Qed.

Lemma show_plain n : forallb plain (show n) = true.
Proof. apply digits_plain, show_all_digits. Qed.

Lemma split_char_app c a b : (c ∉ a) → split_char c (a ++ c :: b) = a :: split_char c b.
Proof.
  induction a as [|d a IH]; intros Ha; cbn [app split_char].
  - by rewrite bool_decide_true.
  - rewrite elem_of_cons in Ha. rewrite bool_decide_false by (intros ->; tauto).
    by rewrite IH by tauto.
Qed.

Lemma is_cont_ascii c : is_ascii c = true → is_cont c = false.
Proof. destruct c as [[] [] [] [] [] [] [] []]; vm_compute; congruence. Qed.
Lemma in_range_ascii lo hi c : 128 ≤ lo → is_ascii c = true → in_range lo hi c = false.
Proof.
  unfold is_ascii, in_range. intros Hlo Hc. apply Z.ltb_lt in Hc.
  by rewrite (proj2 (Z.leb_gt lo (code c))) by lia.
Qed.
Lemma second3_ascii n c : is_ascii c = true → second3 n c = false.
Proof.
  intros. unfold second3. repeat case_match; (apply in_range_ascii || apply is_cont_ascii); done || lia.
Qed.
Lemma second4_ascii n c : is_ascii c = true → second4 n c = false.
Proof.
  intros. unfold second4. repeat case_match; (apply in_range_ascii || apply is_cont_ascii); done || lia.
Qed.

(** An ASCII character is a boundary. *)
Lemma utf8_valid_app a c b :
  is_ascii c = true → utf8_valid (a ++ c :: b) = utf8_valid a && utf8_valid b.
Proof.
  intros Hc. remember (length a) as n eqn:Hn. revert a Hn.
  induction (lt_wf n) as [n _ IH]. intros a ->.
  destruct a as [|x a]; [cbn [app utf8_valid]; by rewrite Hc|].
  cbn [app utf8_valid]. destruct (is_ascii x); [by apply (IH (length a)); [simpl; lia|]|].
  destruct a as [|x1 a]; cbn [app].
  { rewrite (is_cont_ascii c Hc). destruct (in_range _ _ x); [done|].
    destruct b as [|b1 b]; [done|]. rewrite second3_ascii by done.
    destruct (in_range _ _ x); [done|]. destruct b; [done|].
    rewrite second4_ascii by done. by rewrite andb_false_r. }
  destruct (in_range 0xC2 0xDF x).
  { rewrite (IH (length a)) by (simpl; lia || done). by rewrite !andb_assoc. }
  destruct a as [|x2 a]; cbn [app].
  { rewrite (is_cont_ascii c Hc), andb_false_r. destruct (in_range _ _ x); [done|].
    destruct b as [|b1 b]; [done|]. by rewrite !andb_false_r. }
  destruct (in_range 0xE0 0xEF x).
  { rewrite (IH (length a)) by (simpl; lia || done). by rewrite !andb_assoc. }
  destruct a as [|x3 a]; cbn [app].
  { by rewrite (is_cont_ascii c Hc), andb_false_r. }
  rewrite (IH (length a)) by (simpl; lia || done). by rewrite !andb_assoc.
Qed.

Lemma utf8_ascii s : forallb is_ascii s = true → utf8_valid s = true.
Proof.
  induction s as [|c s IH]; [done|]. cbn [forallb utf8_valid]. intros H.
  apply andb_true_iff in H as [Hc H]. rewrite Hc. auto.
Qed.

(** ** Lemmas: lines ended by CR LF *)

Lemma split_crlf_app l s : cr ∉ l → split_crlf (l ++ crlf ++ s) = l :: split_crlf s.
Proof.
  induction l as [|c l IH]; intros Hl; cbn [app].
  - unfold crlf. cbn [split_crlf app]. by rewrite !bool_decide_true by done.
  - rewrite elem_of_cons in Hl. assert (Hne : c ≠ cr) by (intros ->; apply Hl; by left).
    assert (Hl' : cr ∉ l) by (intros ?; apply Hl; by right).
    specialize (IH Hl'). cbn [split_crlf]. rewrite (bool_decide_false (c = cr)) by done.
    destruct (l ++ crlf ++ s) as [|e r] eqn:E; [by apply app_nil in E as [_ ?]|].
    cbn [andb]. rewrite IH. done.
Qed.

Lemma plain_no_cr s : forallb plain s = true → cr ∉ s.
Proof.
  intros H Hin. rewrite forallb_forall in H. apply list_elem_of_In in Hin.
  apply H in Hin. discriminate.
Qed.

Lemma head_split_char c a : (c ∉ a) → ∀ b, head (split_char c (a ++ c :: b)) = Some a.
Proof.
  induction a as [|d a IH]; intros Ha b; cbn [app split_char].
  - rewrite bool_decide_true by done. by destruct (split_char c b).
  - rewrite elem_of_cons in Ha. rewrite bool_decide_false by (intros ->; tauto).
    specialize (IH ltac:(tauto) b). destruct (split_char c (a ++ c :: b)); [done|].
    cbn in *. congruence.
Qed.

Lemma head_split_none c a : (c ∉ a) → head (split_char c a) = Some a.
Proof.
  induction a as [|d a IH]; intros Ha; cbn [split_char]; [done|].
  rewrite elem_of_cons in Ha. rewrite bool_decide_false by (intros ->; tauto).
  specialize (IH ltac:(tauto)). destruct (split_char c a); [done|]. cbn in *. congruence.
Qed.

Lemma contains_str_app p a b : contains_str p (a ++ p ++ b) = true.
Proof.
  induction a as [|c a IH]; cbn [app].
  - destruct (p ++ b) as [|d r] eqn:E; cbn [contains_str]; rewrite <-E, starts_with_app; done.
  - cbn [contains_str]. rewrite IH. apply orb_true_r.
Qed.

Lemma rsplit_spec c s :
  match rsplit_char c s with
  | Some (a, b) => s = a ++ c :: b ∧ (c ∉ b)
  | None => c ∉ s
  end.
Proof.
  induction s as [|d s IH]; [apply not_elem_of_nil|]. cbn [rsplit_char].
  destruct (rsplit_char c s) as [[a b]|].
  - destruct IH as [-> Hb]. by split.
  - case_bool_decide as E; [by subst|]. rewrite elem_of_cons. intros [?|?]; congruence.
Qed.
