(* ===== verification/F64.v ===== *)
(** * F64: the binary64 operations the relay uses

    [f64] is the kernel's primitive float.  The casts of Rust saturate and
    round to nearest. *)

From Stdlib Require Export Floats.
From S2P Require Import Prelude.
Local Open Scope Z_scope.

(** [z as f64] *)
Definition f64_of_Z (z : Z) : float := SF2Prim (binary_normalize prec emax z 0 false).

(** [x as u64]: truncation, saturating, NaN to 0. *)
Definition f64_as_u64 (x : float) : Z :=
  match Prim2SF x with
  | S754_zero _ | S754_nan | S754_infinity true | S754_finite true _ _ => 0
  | S754_infinity false => u64_max
  | S754_finite false m e =>
    Z.min u64_max (if 0 <=? e then Z.pos m * 2 ^ e else Z.pos m / 2 ^ (- e))
  end.

(** [Duration::as_secs_f64] *)
Definition as_secs_f64 (nanos : Z) : float :=
  (f64_of_Z (nanos / 1000000000) + f64_of_Z (nanos mod 1000000000) / 1e9)%float.

(** [f64::min] *)
Definition f64_min (a b : float) : float :=
  (if is_nan a then b else if is_nan b then a else if a <? b then a else b)%float.
