(* ===== verification/Json.v ===== *)
(** * Json: the values the relay builds with [serde_json]

    [Value], an object being a [BTreeMap]: its members are sorted by key.  The
    printer and the parser of [serde_json] are the interface [JsonText]. *)

From Stdlib Require Import PrimFloat.
From S2P Require Import Prelude Text.
Local Open Scope Z_scope.

#[local] Set Warnings "-register-all".

Inductive Value :=
| Null
| Bool (b : bool)
| Int (z : Z)
| Float (f : float)
| Str (s : str)
| Arr (l : list Value)
| Obj (m : list (str * Value)).

(** Order of keys: bytewise. *)
Fixpoint str_lt (a b : str) : bool :=
  match a, b with
  | _, [] => false
  | [], _ :: _ => true
  | x :: a', y :: b' => (code x <? code y) || ((code x =? code y) && str_lt a' b')
  end.

(** [Map::insert] *)
Fixpoint map_insert {A} (k : str) (v : A) (m : list (str * A)) : list (str * A) :=
  match m with
  | [] => [(k, v)]
  | (k', v') :: r =>
    if bool_decide (k = k') then (k, v) :: r
    else if str_lt k k' then (k, v) :: m else (k', v') :: map_insert k v r
  end.

Fixpoint map_get {A} (k : str) (m : list (str * A)) : option A :=
  match m with
  | [] => None
  | (k', v) :: r => if bool_decide (k = k') then Some v else map_get k r
  end.

(** [json!({ k: v, ... })] *)
Definition object (kvs : list (str * Value)) : Value :=
  Obj (foldl (λ m kv, map_insert kv.1 kv.2 m) [] kvs).

(** [Value::get] with a string, [as_i64], [as_u64], [as_bool] and [as_str] *)
Definition get (k : str) (v : Value) : option Value :=
  match v with Obj m => map_get k m | _ => None end.
Definition as_i64 (v : Value) : option Z :=
  match v with
  | Int z => if (i64_min <=? z) && (z <=? i64_max) then Some z else None
  | _ => None
  end.
Definition as_u64 (v : Value) : option Z :=
  match v with Int z => if (0 <=? z) && (z <=? u64_max) then Some z else None | _ => None end.
Definition as_bool (v : Value) : option bool := match v with Bool b => Some b | _ => None end.
Definition as_str (v : Value) : option str := match v with Str s => Some s | _ => None end.

(** [json!] of an [Option] *)
Definition opt_value {A} (f : A → Value) (o : option A) : Value :=
  match o with Some a => f a | None => Null end.

(** [serde_json::to_string]; a printed value has no line feed in it. *)
Class JsonText := {
  to_string : Value → str;
}.
Class JsonTextLaws `{JsonText} := {
  to_string_one_line : ∀ v, lf ∉ to_string v;
}.

(** ** Lemmas *)

Lemma map_get_insert {A} k (v : A) m : map_get k (map_insert k v m) = Some v.
Proof.
  induction m as [|[k' v'] r IH]; cbn [map_insert map_get].
  - by rewrite bool_decide_true.
  - case_bool_decide; [by cbn; rewrite bool_decide_true|].
    destruct (str_lt k k'); cbn [map_get]; [by rewrite bool_decide_true|].
    by rewrite bool_decide_false.
Qed.

Lemma map_get_insert_ne {A} k k' (v : A) m :
  k ≠ k' → map_get k (map_insert k' v m) = map_get k m.
Proof.
  intros Hne. induction m as [|[k1 v1] r IH]; cbn [map_insert map_get].
  - by rewrite bool_decide_false.
  - case_bool_decide as E; [subst; cbn; by rewrite !(bool_decide_false (k = k1))|].
    destruct (str_lt k' k1); cbn [map_get]; [by rewrite (bool_decide_false (k = k'))|].
    case_bool_decide; [done|apply IH].
Qed.

(** A member is the last one given under its key. *)
Lemma map_get_fold k kvs m :
  Forall (λ kv, kv.1 ≠ k) kvs →
  map_get k (foldl (λ m kv, map_insert kv.1 kv.2 m) m kvs) = map_get k m (A := Value).
Proof.
  revert m. induction kvs as [|[k' v] kvs IH]; intros m H; [done|].
  apply Forall_cons in H as [Hk H]. cbn [foldl fst snd] in *. rewrite IH by done.
  apply map_get_insert_ne. congruence.
Qed.
