(* ===== verification/Calendar.v ===== *)
(** * Calendar: the two date computations of the relay

    [epoch_to_ymd] of [crates/seamless-relay/src/audit.rs] names the rotated
    audit files, [days_since_epoch] of [acme.rs] dates a certificate.  Both are
    compared with the Gregorian calendar, stated here as the rule that leads
    from a day to the next. *)

From S2P Require Import Prelude.
Local Open Scope Z_scope.

(** A date is [(year, month, day)]. *)
Abbreviation date := (Z * Z * Z)%type.

(** ** The code *)

(** [y as i32] of an [i64], and [m as u32]. *)
Definition i64_as_i32 (z : Z) : Z := (z + 2 ^ 31) mod 2 ^ 32 - 2 ^ 31.
Definition i64_as_u32 (z : Z) : Z := wrap 32 z.

(** Division of an [i64] truncates. *)
Definition epoch_to_ymd (secs : Z) : date :=
  let days := secs / 86400 in
  let z := days + 719468 in
  let era := Z.quot (if 0 <=? z then z else z - 146096) 146097 in
  let doe := z - era * 146097 in
  let yoe := Z.quot (doe - Z.quot doe 1460 + Z.quot doe 36524 - Z.quot doe 146096) 365 in
  let y := yoe + era * 400 in
  let doy := doe - (365 * yoe + Z.quot yoe 4 - Z.quot yoe 100) in
  let mp := Z.quot (5 * doy + 2) 153 in
  let d := doy - Z.quot (153 * mp + 2) 5 + 1 in
  let m := if mp <? 10 then mp + 3 else mp - 9 in
  let y := if m <=? 2 then y + 1 else y in
  (i64_as_i32 y, i64_as_u32 m, i64_as_u32 d).

Definition days_since_epoch (year month day : Z) : option Z :=
  let a := Z.quot (14 - month) 12 in
  let y := year + 4800 - a in
  let m := month + 12 * a - 3 in
  let jdn := day + Z.quot (153 * m + 2) 5 + 365 * y + Z.quot y 4 - Z.quot y 100
             + Z.quot y 400 - 32045 in
  Some (jdn - 2440588).

(** ** The Gregorian calendar *)

Definition is_leap (y : Z) : bool :=
  (y mod 4 =? 0) && (negb (y mod 100 =? 0) || (y mod 400 =? 0)).

Definition month_length (y m : Z) : Z :=
  if m =? 2 then if is_leap y then 29 else 28
  else if (m =? 4) || (m =? 6) || (m =? 9) || (m =? 11) then 30 else 31.

Definition next_day (t : date) : date :=
  let '(y, m, d) := t in
  if d <? month_length y m then (y, m, d + 1)
  else if m <? 12 then (y, m + 1, 1) else (y + 1, 1, 1).

Definition valid_date (t : date) : Prop :=
  let '(y, m, d) := t in 1 <= m <= 12 ∧ 1 <= d <= month_length y m.

(** The date of the [n]-th day after 1970-01-01. *)
Definition calendar (n : nat) : date := Nat.iter n next_day (1970, 1, 1).

(** Order of dates. *)
Definition date_lt (s t : date) : Prop :=
  let '(y, m, d) := s in let '(y', m', d') := t in
  y < y' ∨ (y = y' ∧ (m < m' ∨ (m = m' ∧ d < d'))).

(** ** One era of 400 years *)

(** The first day of year [y] of an era; years start on 1 March. *)
Definition year_start (y : Z) : Z := 365 * y + y / 4 - y / 100 + y / 400.

(** The code's year and month of a day. *)
Definition yoe_of (doe : Z) : Z := (doe - doe / 1460 + doe / 36524 - doe / 146096) / 365.
Definition md_of (doy : Z) : Z * Z :=
  let mp := (5 * doy + 2) / 153 in
  ((if mp <? 10 then mp + 3 else mp - 9), doy - (153 * mp + 2) / 5 + 1).

Definition ymd_of (era yoe doy : Z) : date :=
  let '(m, d) := md_of doy in
  let y := yoe + era * 400 in ((if m <=? 2 then y + 1 else y), m, d).

Definition shift_year (k : Z) (t : date) : date := let '(y, m, d) := t in (y + k, m, d).

(** [P] holds of [z], [z + 1], ... [z + n - 1]. *)
Fixpoint all_from (P : Z → bool) (n : nat) (z : Z) : bool :=
  match n with O => true | S n' => if P z then all_from P n' (z + 1) else false end.

Lemma all_from_spec P n z i :
  all_from P n z = true → z <= i < z + Z.of_nat n → P i = true.
Proof.
  revert z. induction n as [|n IH]; intros z; cbn [all_from]; [lia|].
  destruct (P z) eqn:E; [|done]. intros H Hi.
  destruct (decide (i = z)) as [->|]; [done|]. apply (IH (z + 1)); [done|lia].
Qed.

Definition year_ok (y : Z) : bool :=
  (yoe_of (year_start y) =? y) && (yoe_of (year_start (y + 1) - 1) =? y)
  && (year_start (y + 1) - year_start y =? if is_leap (y + 1) then 366 else 365).

Lemma years_ok y :
  0 <= y < 400 →
  yoe_of (year_start y) = y ∧ yoe_of (year_start (y + 1) - 1) = y
  ∧ year_start (y + 1) - year_start y = if is_leap (y + 1) then 366 else 365.
Proof.
  intros Hy. assert (H : all_from year_ok 400 0 = true) by reflexivity.
  apply (all_from_spec _ _ _ y) in H; [|lia]. unfold year_ok in H. bool_to_prop. tauto.
Qed.

Lemma yoe_of_mono a b : 0 <= a <= b → b < 146096 → yoe_of a <= yoe_of b.
Proof.
  intros Hab Hb. unfold yoe_of. apply Z.div_le_mono; [lia|].
  rewrite (Z.div_small a 146096), (Z.div_small b 146096) by lia.
  pose proof (Z.div_le_mono a b 36524). Z.to_euclidean_division_equations. lia.
Qed.

Lemma yoe_of_spec y doe :
  0 <= y < 400 → year_start y <= doe < year_start (y + 1) → yoe_of doe = y.
Proof.
  intros Hy Hd. destruct (years_ok y Hy) as (H1 & H2 & _).
  assert (0 <= year_start y) by (unfold year_start; Z.to_euclidean_division_equations; lia).
  destruct (decide (doe = 146096)) as [->|].
  { assert (y = 399) as ->; [|reflexivity].
    unfold year_start in Hd. Z.to_euclidean_division_equations. lia. }
  assert (year_start (y + 1) <= 146097)
    by (unfold year_start; Z.to_euclidean_division_equations; lia).
  destruct (decide (doe = year_start (y + 1) - 1)) as [->|]; [done|].
  assert (yoe_of (year_start y) <= yoe_of doe) by (apply yoe_of_mono; lia).
  destruct (decide (year_start (y + 1) - 1 = 146096)) as [E|].
  - assert (yoe_of doe <= yoe_of 146095) by (apply yoe_of_mono; lia).
    change (yoe_of 146095) with 399 in *. rewrite E in H2. change (yoe_of 146096) with 399 in H2.
    lia.
  - assert (yoe_of doe <= yoe_of (year_start (y + 1) - 1)) by (apply yoe_of_mono; lia). lia.
Qed.

Lemma year_exists doe :
  0 <= doe < 146097 → ∃ y, 0 <= y < 400 ∧ year_start y <= doe < year_start (y + 1).
Proof.
  intros Hd. assert (∀ n : nat, doe < year_start (Z.of_nat n) →
    ∃ y, 0 <= y < Z.of_nat n ∧ year_start y <= doe < year_start (y + 1)) as H.
  { induction n as [|n IH]; [change (year_start (Z.of_nat 0)) with 0; lia|].
    intros Hn. destruct (decide (doe < year_start (Z.of_nat n))) as [Hl|Hl].
    - destruct (IH Hl) as (y & Hy & H). exists y. split; [lia|done].
    - exists (Z.of_nat n). replace (Z.of_nat n + 1) with (Z.of_nat (S n)) by lia. lia. }
  apply (H 400%nat). change (year_start (Z.of_nat 400)) with 146097. lia.
Qed.

(** ** From one day to the next *)

Lemma is_leap_era y k : is_leap (y + k * 400) = is_leap y.
Proof.
  unfold is_leap. replace (y + k * 400) with (y + (k * 100) * 4) at 1 by lia.
  replace (y + k * 400) with (y + (k * 4) * 100) at 1 by lia.
  by rewrite !Z.mod_add by lia.
Qed.

(** A day of a year that starts in March: the calendar year it falls in (0 or
    1 later), its month and its day, and the step to the next one. *)
Definition rel_of (doy : Z) : date :=
  let '(m, d) := md_of doy in ((if m <=? 2 then 1 else 0), m, d).
Definition next_rel (leap : bool) (t : date) : date :=
  let '(dy, m, d) := t in
  let len := if m =? 2 then if leap then 29 else 28 else month_length 0 m in
  if d <? len then (dy, m, d + 1) else if m <? 12 then (dy, m + 1, 1) else (dy + 1, 1, 1).
Definition date_eqb (s t : date) : bool :=
  let '(y, m, d) := s in let '(y', m', d') := t in (y =? y') && (m =? m') && (d =? d').
Definition rel_ok (leap : bool) (doy : Z) : bool :=
  date_eqb (next_rel leap (rel_of doy)) (rel_of (doy + 1)).

Lemma date_eqb_eq s t : date_eqb s t = true → s = t.
Proof. destruct s as [[y m] d], t as [[y' m'] d']. simpl. intros. bool_to_prop. intuition congruence. Qed.

Lemma rel_step (leap : bool) doy :
  0 <= doy < (if leap then 365 else 364) → next_rel leap (rel_of doy) = rel_of (doy + 1).
Proof.
  intros H. apply date_eqb_eq. change (rel_ok leap doy = true).
  destruct leap; [apply (all_from_spec _ 365 0); [reflexivity|lia]
                 |apply (all_from_spec _ 364 0); [reflexivity|lia]].
Qed.

(** Days of the year by month: February belongs to the later calendar year. *)
Definition rel_range_ok (doy : Z) : bool :=
  let '(dy, m, d) := rel_of doy in
  (if m <=? 2 then dy =? 1 else dy =? 0) && (1 <=? m) && (m <=? 12) && (1 <=? d)
  && (if m =? 2 then d <=? (if doy <? 365 then 28 else 29) else d <=? month_length 0 m).

Lemma rel_range doy dy m d :
  0 <= doy < 366 → rel_of doy = (dy, m, d) →
  (m <= 2 → dy = 1) ∧ 1 <= m <= 12 ∧ 1 <= d
  ∧ d <= (if m =? 2 then if doy <? 365 then 28 else 29 else month_length 0 m).
Proof.
  intros H E. assert (R : rel_range_ok doy = true)
    by (apply (all_from_spec _ 366 0); [reflexivity|lia]).
  unfold rel_range_ok in R. rewrite E in R. bool_to_prop.
  destruct R as [[[[R1 R2] R3] R4] R5]. split_and!; try lia.
  - intros Hm. destruct (m <=? 2) eqn:Em; bool_to_prop; lia.
  - destruct (m =? 2); [|lia]. destruct (doy <? 365); lia.
Qed.

Ltac date_eq :=
  cbn [shift_year];
  lazymatch goal with |- (?a, ?b, ?c) = (?x, ?y, ?z) =>
    replace x with a by lia; replace y with b by lia; replace z with c by lia; reflexivity
  end.

Lemma next_day_rel Y dy m d :
  (m <= 2 → dy = 1) →
  next_day (Y + dy, m, d) = shift_year Y (next_rel (is_leap (Y + 1)) (dy, m, d)).
Proof.
  intros Hdy. unfold next_day, next_rel, month_length.
  destruct (m =? 2) eqn:E; bool_to_prop.
  - rewrite Hdy by lia. destruct (is_leap (Y + 1)); repeat case_match; date_eq.
  - repeat case_match; date_eq.
Qed.

Lemma ymd_of_rel era yoe doy : ymd_of era yoe doy = shift_year (yoe + era * 400) (rel_of doy).
Proof.
  unfold ymd_of, rel_of. destruct (md_of doy) as [m d]. simpl.
  destruct (m <=? 2); date_eq.
Qed.

(** The position of a day in the calendar of eras. *)
Definition at_day (z era yoe doy : Z) : Prop :=
  z = era * 146097 + year_start yoe + doy ∧ 0 <= yoe < 400
  ∧ 0 <= doy < (if is_leap (yoe + 1) then 366 else 365).

Lemma at_day_exists z : ∃ era yoe doy, at_day z era yoe doy.
Proof.
  pose proof (Z.div_mod z 146097). pose proof (Z.mod_pos_bound z 146097).
  destruct (year_exists (z mod 146097)) as (y & Hy & Hd); [lia|].
  exists (z / 146097), y, (z mod 146097 - year_start y). unfold at_day.
  destruct (years_ok y Hy) as (_ & _ & HL). lia.
Qed.

Lemma at_day_next z era yoe doy :
  at_day z era yoe doy →
  ∃ era' yoe' doy', at_day (z + 1) era' yoe' doy'
    ∧ next_day (ymd_of era yoe doy) = ymd_of era' yoe' doy'.
Proof.
  intros (Hz & Hy & Hd). destruct (years_ok yoe Hy) as (_ & _ & HL).
  destruct (rel_of doy) as [[dy m] d] eqn:E.
  assert (0 <= doy < 366) by (destruct (is_leap (yoe + 1)); lia).
  destruct (rel_range _ _ _ _ ltac:(done) E) as (Hdy & Hm & Hd1 & Hd2).
  assert (HN : next_day (ymd_of era yoe doy)
               = shift_year (yoe + era * 400) (next_rel (is_leap (yoe + 1)) (rel_of doy))).
  { rewrite ymd_of_rel, E. simpl shift_year at 1.
    rewrite (Z.add_comm dy), next_day_rel by done. do 2 f_equal.
    rewrite <-(is_leap_era (yoe + 1) era). f_equal. lia. }
  rewrite HN. clear HN.
  destruct (decide (doy + 1 < if is_leap (yoe + 1) then 366 else 365)) as [Hlt|Hge].
  - exists era, yoe, (doy + 1). split; [unfold at_day; lia|].
    rewrite ymd_of_rel, rel_step; [done|]. destruct (is_leap (yoe + 1)); lia.
  - assert (Hlast : next_rel (is_leap (yoe + 1)) (rel_of doy) = (1, 3, 1)).
    { destruct (is_leap (yoe + 1));
        [replace doy with 365 by lia|replace doy with 364 by lia]; reflexivity. }
    rewrite Hlast. assert (HS : year_start (yoe + 1) = year_start yoe + doy + 1) by lia.
    destruct (decide (yoe = 399)) as [->|].
    + exists (era + 1), 0, 0. split; [|rewrite ymd_of_rel; change (rel_of 0) with (0, 3, 1); date_eq].
      unfold at_day. change (year_start (399 + 1)) with 146097 in HS.
      change (year_start 0) with 0. change (is_leap (0 + 1)) with false. lia.
    + exists era, (yoe + 1), 0. split; [|rewrite ymd_of_rel; change (rel_of 0) with (0, 3, 1); date_eq].
      unfold at_day. split_and!; try lia. destruct (is_leap (yoe + 1 + 1)); lia.
Qed.

(** ** The code computes positions *)

(** The last second whose year fits the [i32]. *)
Definition last_second : Z := 60000000000000000.

Lemma year_start_pos y : 0 <= y → 0 <= year_start y.
Proof. unfold year_start. intros. Z.to_euclidean_division_equations. lia. Qed.

Lemma epoch_to_ymd_at secs era yoe doy :
  0 <= secs <= last_second → at_day (secs / 86400 + 719468) era yoe doy →
  epoch_to_ymd secs = ymd_of era yoe doy.
Proof.
  intros Hs (Hz & Hy & Hd). unfold epoch_to_ymd. set (z := secs / 86400 + 719468) in *.
  destruct (years_ok yoe Hy) as (_ & _ & HL).
  pose proof (year_start_pos yoe ltac:(lia)) as Hpos.
  assert (year_start (yoe + 1) <= 146097)
    by (unfold year_start; Z.to_euclidean_division_equations; lia).
  assert (Hsz : 0 <= secs / 86400 <= 700000000000)
    by (unfold last_second in Hs; split; [apply Z.div_pos|apply Z.div_le_upper_bound]; lia).
  assert (0 <= z <= 700001000000) by (unfold z; lia).
  rewrite (proj2 (Z.leb_le 0 z)) by lia. rewrite (Z.quot_div_nonneg z) by lia.
  replace (z / 146097) with era
    by (apply (Z.div_unique z 146097 era (year_start yoe + doy)); lia).
  replace (z - era * 146097) with (year_start yoe + doy) by lia.
  set (doe := year_start yoe + doy) in *.
  assert (Hdd : doe / 1460 <= doe) by (Z.to_euclidean_division_equations; lia).
  assert (Hdd' : doe / 146096 <= doe / 36524) by (Z.to_euclidean_division_equations; lia).
  assert (Hdp : 0 <= doe / 36524) by (apply Z.div_pos; lia).
  rewrite !(Z.quot_div_nonneg doe) by lia.
  rewrite (Z.quot_div_nonneg (doe - _ + _ - _)) by lia.
  change ((doe - doe / 1460 + doe / 36524 - doe / 146096) / 365) with (yoe_of doe).
  rewrite (yoe_of_spec yoe doe) by lia.
  rewrite !(Z.quot_div_nonneg yoe) by lia.
  replace (doe - (365 * yoe + yoe / 4 - yoe / 100)) with doy.
  2:{ unfold doe, year_start. rewrite (Z.div_small yoe 400) by lia. lia. }
  assert (0 <= doy < 366) by (destruct (is_leap (yoe + 1)); lia).
  rewrite (Z.quot_div_nonneg (5 * doy + 2)) by lia.
  assert (Hmp : 0 <= (5 * doy + 2) / 153 <= 12) by (Z.to_euclidean_division_equations; lia).
  rewrite (Z.quot_div_nonneg (153 * _ + 2)) by lia.
  unfold ymd_of, md_of. set (mp := (5 * doy + 2) / 153) in *.
  assert (Hera : 0 <= era <= 5000000) by lia.
  assert (Hcast : ∀ v, 0 <= v <= 2000001000 → i64_as_i32 v = v).
  { intros v Hv. unfold i64_as_i32. rewrite Z.mod_small; lia. }
  destruct (rel_of doy) as [[dy m] d] eqn:E.
  destruct (rel_range _ _ _ _ ltac:(done) E) as (_ & Hm & Hd1 & Hd2).
  unfold rel_of, md_of in E. fold mp in E. simplify_eq.
  assert (Hd3 : doy - (153 * mp + 2) / 5 + 1 <= 31).
  { revert Hd2. unfold month_length. repeat case_match; lia. }
  rewrite Hcast by (repeat case_match; lia). unfold i64_as_u32.
  rewrite !wrap_small; [done| |].
  - split; [lia|]. apply Z.le_lt_trans with 31; [lia|reflexivity].
  - split; [lia|]. apply Z.le_lt_trans with 12; [lia|reflexivity].
Qed.

(** The month of a day of the year, as the certificate code counts it back. *)
Lemma md_back doy dy m d :
  0 <= doy < 366 → rel_of doy = (dy, m, d) →
  dy = Z.quot (14 - m) 12 ∧ 0 <= m + 12 * dy - 3 <= 11
  ∧ d + Z.quot (153 * (m + 12 * dy - 3) + 2) 5 = doy + 1.
Proof.
  intros Hd E. set (ok := λ x, let '(dy, m, d) := rel_of x in
    (dy =? Z.quot (14 - m) 12) && (0 <=? m + 12 * dy - 3) && (m + 12 * dy - 3 <=? 11)
    && (d + Z.quot (153 * (m + 12 * dy - 3) + 2) 5 =? x + 1)).
  assert (R : ok doy = true) by (apply (all_from_spec _ 366 0); [reflexivity|lia]).
  unfold ok in R. rewrite E in R. bool_to_prop. intuition.
Qed.

Lemma days_since_epoch_at z era yoe doy :
  0 <= era → at_day z era yoe doy →
  let '(y, m, d) := ymd_of era yoe doy in days_since_epoch y m d = Some (z - 719468).
Proof.
  intros Hera (Hz & Hy & Hd). rewrite ymd_of_rel.
  destruct (rel_of doy) as [[dy m] d] eqn:E. cbn [shift_year].
  assert (0 <= doy < 366) by (destruct (is_leap (yoe + 1)); lia).
  destruct (md_back doy dy m d) as (Hdy & Hm & Hback); [done..|].
  unfold days_since_epoch. rewrite <-Hdy. f_equal.
  replace (dy + (yoe + era * 400) + 4800 - dy) with (yoe + (era + 12) * 400) by lia.
  rewrite Hback, !(Z.quot_div_nonneg (yoe + _)) by lia.
  replace ((yoe + (era + 12) * 400) / 4) with (yoe / 4 + (era + 12) * 100)
    by (rewrite <-Z.div_add by lia; f_equal; lia).
  replace ((yoe + (era + 12) * 400) / 100) with (yoe / 100 + (era + 12) * 4)
    by (rewrite <-Z.div_add by lia; f_equal; lia).
  rewrite (Z.div_add yoe) by lia. unfold year_start in Hz. lia.
Qed.

Lemma epoch_day secs secs' :
  secs / 86400 = secs' / 86400 → epoch_to_ymd secs = epoch_to_ymd secs'.
Proof. intros E. unfold epoch_to_ymd. by rewrite E. Qed.

Lemma epoch_next secs :
  0 <= secs → secs + 86400 <= last_second →
  epoch_to_ymd (secs + 86400) = next_day (epoch_to_ymd secs).
Proof.
  intros H0 H1. destruct (at_day_exists (secs / 86400 + 719468)) as (era & yoe & doy & Hat).
  destruct (at_day_next _ _ _ _ Hat) as (era' & yoe' & doy' & Hat' & HN).
  rewrite (epoch_to_ymd_at secs era yoe doy), HN by (done || lia).
  apply epoch_to_ymd_at; [lia|].
  replace (secs + 86400) with (secs + 1 * 86400) by lia. rewrite Z.div_add by lia.
  by replace (secs / 86400 + 1 + 719468) with (secs / 86400 + 719468 + 1) by lia.
Qed.

Lemma epoch_calendar n :
  86400 * Z.of_nat n <= last_second → epoch_to_ymd (86400 * Z.of_nat n) = calendar n.
Proof.
  induction n as [|n IH]; [reflexivity|]. intros H.
  replace (86400 * Z.of_nat (S n)) with (86400 * Z.of_nat n + 86400) by lia.
  rewrite epoch_next by lia. rewrite IH by lia. reflexivity.
Qed.

(** The day number of a date is the day's. *)
Lemma days_of_epoch secs :
  0 <= secs <= last_second →
  let '(y, m, d) := epoch_to_ymd secs in days_since_epoch y m d = Some (secs / 86400).
Proof.
  intros H. destruct (at_day_exists (secs / 86400 + 719468)) as (era & yoe & doy & Hat).
  rewrite (epoch_to_ymd_at secs era yoe doy) by done.
  assert (0 <= era).
  { destruct Hat as (Hz & Hy & Hd). assert (year_start yoe < 146097).
    { unfold year_start. Z.to_euclidean_division_equations. lia. }
    pose proof (Z.div_pos secs 86400). destruct (is_leap (yoe + 1)); lia. }
  pose proof (days_since_epoch_at _ _ _ _ ltac:(done) Hat) as P.
  destruct (ymd_of era yoe doy) as [[y m] d]. rewrite P. f_equal. lia.
Qed.

Lemma epoch_to_ymd_inj s s' :
  0 <= s <= last_second → 0 <= s' <= last_second →
  epoch_to_ymd s = epoch_to_ymd s' → s / 86400 = s' / 86400.
Proof.
  intros H H' E. pose proof (days_of_epoch s H) as P. pose proof (days_of_epoch s' H') as P'.
  rewrite E in P. destruct (epoch_to_ymd s') as [[y m] d]. congruence.
Qed.

Lemma epoch_to_ymd_range secs :
  0 <= secs <= last_second →
  let '(y, m, d) := epoch_to_ymd secs in
  0 <= y < 10 ^ 20 ∧ 0 <= m <= 12 ∧ 0 <= d <= 31.
Proof.
  intros H. destruct (at_day_exists (secs / 86400 + 719468)) as (era & yoe & doy & Hat).
  rewrite (epoch_to_ymd_at secs era yoe doy) by done.
  destruct Hat as (Hz & Hy & Hd). rewrite ymd_of_rel.
  destruct (rel_of doy) as [[dy m] d] eqn:E. cbn [shift_year].
  assert (0 <= doy < 366) by (destruct (is_leap (yoe + 1)); lia).
  destruct (rel_range doy dy m d) as (_ & Hm & Hd1 & Hd2); [done..|].
  assert (year_start yoe < 146097 ∧ 0 <= year_start yoe)
    by (split; [unfold year_start; Z.to_euclidean_division_equations; lia
               |by apply year_start_pos; lia]).
  assert (0 <= dy <= 1) by (unfold rel_of in E; destruct (md_of doy) as [m' d']; injection E as <- _ _;
        destruct (m' <=? 2); lia).
  assert (d <= 31) by (revert Hd2; unfold month_length; repeat case_match; lia).
  assert (0 <= secs / 86400 <= 700000000000)
    by (unfold last_second in H; split; [apply Z.div_pos|apply Z.div_le_upper_bound]; lia).
  assert (0 <= era) by (destruct (is_leap (yoe + 1)); lia). lia.
Qed.

Lemma epoch_to_ymd_nonneg secs :
  0 <= secs <= last_second →
  let '(y, m, d) := epoch_to_ymd secs in
  0 <= y < 10 ^ 20 ∧ 0 <= m < 10 ^ 20 ∧ 0 <= d < 10 ^ 20.
Proof.
  intros H. apply epoch_to_ymd_range in H. destruct (epoch_to_ymd secs) as [[y m] d]. lia.
Qed.

(** ** Theorems *)

(** C25: for every instant up to the year two billion, [epoch_to_ymd] is the
    Gregorian date: the date reached from 1970-01-01 by going to the next day,
    under the leap-year rule, once for every full day since the epoch. *)
Theorem epoch_to_ymd_gregorian secs :
  0 <= secs <= last_second → epoch_to_ymd secs = calendar (Z.to_nat (secs / 86400)).
Proof.
  intros H. rewrite <-epoch_calendar.
  - apply epoch_day. rewrite Z2Nat.id by (apply Z.div_pos; lia).
    by rewrite Z.mul_comm, Z.div_mul by lia.
  - rewrite Z2Nat.id by (apply Z.div_pos; lia). pose proof (Z.mul_div_le secs 86400). lia.
Qed.

Lemma epoch_to_ymd_gregorian_witness :
  0 <= 1709164800 <= last_second
  ∧ epoch_to_ymd 1709164800 = calendar (Z.to_nat (1709164800 / 86400)).
Proof.
  split; [unfold last_second; lia|]. apply epoch_to_ymd_gregorian. unfold last_second; lia.
Defined.

(** The certificate check and the audit log agree on dates: the day number
    [days_since_epoch] computes for the date of an instant is the number of
    full days since the epoch. *)
Theorem days_since_epoch_inverts secs :
  0 <= secs <= last_second →
  let '(y, m, d) := epoch_to_ymd secs in days_since_epoch y m d = Some (secs / 86400).
Proof. apply days_of_epoch. Qed.

Lemma days_since_epoch_inverts_witness :
  0 <= 951868800 <= last_second
  ∧ let '(y, m, d) := epoch_to_ymd 951868800 in days_since_epoch y m d = Some (951868800 / 86400).
Proof. split; [unfold last_second; lia|]. apply days_since_epoch_inverts. unfold last_second; lia. Defined.
