(* ===== verification/Cidr.v ===== *)
(** * Cidr: addresses, CIDR blocks, the deny list and the admin allow list

    [crates/seamless-relay/src/denylist.rs] ([IpDenyList], its [parse_cidr] and
    [to_ipv4_u32]) and the CIDR helpers of [main.rs] ([parse_cidr],
    [ip_in_cidr]).  Address syntax is the one of [std::net]. *)

From S2P Require Import Prelude Text.
Local Open Scope Z_scope.

(** ** [std::net::IpAddr]: a 32-bit or a 128-bit number *)

Inductive ip_addr :=
| V4 (a : Z)
| V6 (a : Z).

#[export] Instance ip_addr_eq_dec : EqDecision ip_addr.
Proof. solve_decision. Defined.

(** A decimal octet of [Ipv4Addr::from_str]: one to three digits, at most 255,
    no leading zero. *)
Definition parse_octet (s : str) : option Z :=
  if bool_decide (length s ≤ 3)%nat && negb (bool_decide (s = []))
     && negb (starts_with §"0" s && bool_decide (1 < length s)%nat)
  then parse_digits u8_max 0 s else None.

Definition parse_ipv4 (s : str) : option Z :=
  match parse_octet <$> split_char "."%char s with
  | [Some a; Some b; Some c; Some d] => Some (((a * 256 + b) * 256 + c) * 256 + d)
  | _ => None
  end.

(** [Ipv6Addr::from_str]: groups of one to four hexadecimal digits; one [::]
    stands for the missing groups, at least one; a dotted quad may be the last
    two groups. *)
Definition hex_val (c : ascii) : option Z :=
  if is_digit c then Some (code c - 48)
  else if in_range 97 102 c then Some (code c - 87)
  else if in_range 65 70 c then Some (code c - 55) else None.

Definition parse_h16 (s : str) : option Z :=
  if bool_decide (1 ≤ length s ≤ 4)%nat
  then foldl (λ acc c, a ← acc; d ← hex_val c; Some (a * 16 + d)) (Some 0) s else None.

Fixpoint parse_groups (gs : list str) : option (list Z) :=
  match gs with
  | [] => Some []
  | [g] => match parse_ipv4 g with
           | Some a => Some [a / 65536; a mod 65536]
           | None => h ← parse_h16 g; Some [h]
           end
  | g :: gs' => h ← parse_h16 g; t ← parse_groups gs'; Some (h :: t)
  end.

Definition parse_h16s (gs : list str) : option (list Z) := mapM parse_h16 gs.

(** The text before and after the first [::]. *)
Fixpoint find_double_colon (s : str) : option (str * str) :=
  if starts_with §"::" s then Some ([], drop 2 s)
  else match s with
       | [] => None
       | c :: s' => '(a, b) ← find_double_colon s'; Some (c :: a, b)
       end.

Definition groups_of (s : str) : list str :=
  if bool_decide (s = []) then [] else split_char ":"%char s.

Definition parse_ipv6 (s : str) : option Z :=
  gs ← match find_double_colon s with
       | None => parse_groups (groups_of s)
       | Some (a, b) =>
         h ← parse_h16s (groups_of a); t ← parse_groups (groups_of b);
         if (length h + length t <=? 7)%nat
         then Some (h ++ replicate (8 - length h - length t) 0 ++ t) else None
       end;
  if bool_decide (length gs = 8%nat) then Some (foldl (λ acc g, acc * 65536 + g) 0 gs) else None.

(** [str::parse::<IpAddr>] *)
Definition parse_ip (s : str) : option ip_addr :=
  match parse_ipv4 s with Some a => Some (V4 a) | None => V6 <$> parse_ipv6 s end.

(** [str::parse::<SocketAddr>]: the address, the port and, of an IPv6 address,
    the scope. *)
Definition socket_addr : Type := ip_addr * Z * Z.
Definition parse_number (max : Z) (s : str) : option Z :=
  if bool_decide (s = []) then None else parse_digits max 0 s.
Definition parse_socket_addr (s : str) : option socket_addr :=
  '(host, port) ← rsplit_char ":"%char s;
  p ← parse_number u16_max port;
  match strip_prefix §"[" host ≫= strip_suffix §"]" with
  | Some v6 =>
    match find_char "%"%char v6 with
    | Some (ip, scope) => a ← parse_ipv6 ip; z ← parse_number u32_max scope; Some (V6 a, p, z)
    | None => a ← parse_ipv6 v6; Some (V6 a, p, 0)
    end
  | None => a ← parse_ipv4 host; Some (V4 a, p, 0)
  end.

Example parse_socket_addr_examples :
  parse_socket_addr §"127.0.0.1:4443" = Some (V4 0x7f000001, 4443, 0)
  ∧ parse_socket_addr §"[::1]:80" = Some (V6 1, 80, 0)
  ∧ parse_socket_addr §"[fe80::1%3]:80" = Some (V6 0xfe800000000000000000000000000001, 80, 3)
  ∧ parse_socket_addr §"::1:80" = None ∧ parse_socket_addr §"localhost:80" = None
  ∧ parse_socket_addr §"127.0.0.1:65536" = None.
Proof. vm_compute. done. Qed.

Example parse_ip_examples :
  parse_ip §"10.0.0.7" = Some (V4 167772167)
  ∧ parse_ip §"::1" = Some (V6 1)
  ∧ parse_ip §"2001:db8::ff00:42:8329" = Some (V6 0x20010db8000000000000ff0000428329)
  ∧ parse_ip §"::ffff:10.0.0.7" = Some (V6 0xffff0a000007)
  ∧ parse_ip §"1::2::3" = None ∧ parse_ip §"10.0.0.256" = None.
Proof. vm_compute. done. Qed.

Module IpDenyList.

(** ** State *)

Record IpDenyList := {
  entries : list (Z * Z);
  path : option str;
}.

(** The file system as [read_to_string] sees it. *)
Abbreviation files := (str → result str str).

(** ** Helpers *)

(** [!0u32 << (32 - prefix_len)] *)
Definition mask_of (prefix_len : Z) : Z :=
  if prefix_len =? 0 then 0
  else wrap 32 (Z.shiftl u32_max (32 - prefix_len)).

Definition parse_cidr (s : str) : option (Z * Z) :=
  '(ip_str, prefix_str) ← split_once "/"%char s;
  prefix_len ← parse_uint u32_max prefix_str;
  if prefix_len <=? 32 then
    ip ← parse_ipv4 (trim ip_str);
    let mask := mask_of prefix_len in
    Some (Z.land ip mask, mask)
  else None.

Definition to_ipv4_u32 (ip : ip_addr) : option Z :=
  match ip with
  | V4 v4 => Some v4
  | V6 v6 =>
    (* [Ipv6Addr::to_ipv4]: IPv4-compatible or IPv4-mapped *)
    if (v6 / 2 ^ 32 =? 0) || (v6 / 2 ^ 32 =? 0xffff) then Some (v6 mod 2 ^ 32) else None
  end.

(** A line of the file: [None] when it is skipped without a warning,
    [Some None] for an invalid CIDR. *)
Definition parse_line (line : str) : option (option (Z * Z)) :=
  let line := trim line in
  if bool_decide (line = []) || starts_with §"#" line then None
  else Some (parse_cidr line).

Fixpoint parse_lines (ls : list str) : list (Z * Z) :=
  match ls with
  | [] => []
  | l :: rest =>
    match parse_line l with
    | Some (Some entry) => entry :: parse_lines rest
    | _ => parse_lines rest
    end
  end.

Definition parse_denylist_file (fs : files) (p : str) : list (Z * Z) :=
  match fs p with
  | Ok text => parse_lines (lines text)
  | Err _ => []
  end.

(** ** Operations *)

Definition disabled : IpDenyList := {| entries := []; path := None |}.

Definition from_file (fs : files) (p : str) : IpDenyList :=
  {| entries := parse_denylist_file fs p; path := Some p |}.

Definition reload (fs : files) (dl : IpDenyList) : IpDenyList :=
  match path dl with
  | None => dl
  | Some p => {| entries := parse_denylist_file fs p; path := path dl |}
  end.

Definition matches (ip : Z) (entry : Z * Z) : bool := Z.land ip entry.2 =? entry.1.

Definition is_denied (dl : IpDenyList) (ip : ip_addr) : bool :=
  match to_ipv4_u32 ip with
  | Some ip_u32 => existsb (matches ip_u32) (entries dl)
  | None => false
  end.

Definition is_enabled (dl : IpDenyList) : bool := bool_decide (is_Some (path dl)).
End IpDenyList.

(** The CIDR helpers of [main.rs], which guard the admin port. *)
Module AdminCidr.

Definition parse_cidr (s : str) : option (Z * Z) :=
  '(ip_str, prefix_len_str) ← split_once "/"%char (trim s);
  prefix_len ← parse_uint u32_max prefix_len_str;
  if prefix_len <=? 32 then
    ip ← parse_ipv4 ip_str;
    let mask := if prefix_len =? 0 then 0
                else wrap 32 (Z.shiftl u32_max (32 - prefix_len)) in
    Some (Z.land ip mask, mask)
  else None.

Definition ip_in_cidr (ip : ip_addr) (cidrs : list (Z * Z)) : bool :=
  if bool_decide (cidrs = []) then true
  else match ip with
       | V4 v4 => existsb (λ c, Z.land v4 c.2 =? c.1) cidrs
       | V6 _ => false
       end.

(** [main]: the value of [--admin-allow-cidr], malformed items dropped. *)
Definition admin_cidrs (arg : option str) : list (Z * Z) :=
  let items := filter (λ s, s ≠ []) (split_char ","%char (default [] arg)) in
  omap parse_cidr items.
End AdminCidr.

(** ** What a block covers *)

(** The addresses of the block [net/p]: those with its [p] leading bits. *)
Definition in_block (ip net p : Z) : Prop := ip / 2 ^ (32 - p) = net / 2 ^ (32 - p).

#[export] Instance in_block_dec ip net p : Decision (in_block ip net p).
Proof. apply Z.eq_dec. Defined.

Section masks.
Import IpDenyList.

Lemma mask_of_spec p :
  0 ≤ p ≤ 32 → mask_of p = Z.shiftl (Z.ones p) (32 - p).
Proof.
  intros Hp. unfold mask_of.
  destruct (p =? 0) eqn:E; [apply Z.eqb_eq in E; subst; by rewrite Z.shiftl_0_l|].
  apply Z.eqb_neq in E. unfold wrap, u32_max.
  replace 4294967295 with (Z.ones 32) by reflexivity.
  rewrite <-Z.land_ones by lia. apply Z.bits_inj'. intros n Hn.
  rewrite Z.land_spec, !Z.shiftl_spec by lia.
  destruct (Z.lt_ge_cases n (32 - p)).
  - rewrite !(Z.testbit_neg_r _ (n - _)) by lia. done.
  - rewrite !Z.testbit_ones_nonneg by lia.
    destruct (n - (32 - p) <? 32) eqn:?, (n <? 32) eqn:?, (n - (32 - p) <? p) eqn:?;
      simpl; bool_to_prop; lia || done.
Qed.

(** Masking keeps the [p] leading bits of a 32-bit number. *)
Lemma land_mask ip p :
  0 ≤ p ≤ 32 → 0 ≤ ip < 2 ^ 32 →
  Z.land ip (mask_of p) = Z.shiftl (ip / 2 ^ (32 - p)) (32 - p).
Proof.
  intros Hp Hip. rewrite mask_of_spec by done.
  rewrite <-Z.shiftr_div_pow2 by lia. apply Z.bits_inj'. intros n Hn.
  rewrite Z.land_spec, !Z.shiftl_spec by lia.
  destruct (Z.lt_ge_cases n (32 - p)).
  - rewrite !(Z.testbit_neg_r _ (n - _)) by lia. by rewrite andb_false_r.
  - rewrite Z.shiftr_spec, Z.testbit_ones_nonneg by lia.
    replace (n - (32 - p) + (32 - p)) with n by lia.
    destruct (n - (32 - p) <? p) eqn:E; [by rewrite andb_true_r|].
    apply Z.ltb_ge in E. rewrite andb_false_r. symmetry.
    apply (Z.bits_above_log2 ip n); [lia|].
    destruct (decide (ip = 0)) as [->|]; [simpl; lia|].
    apply Z.log2_lt_pow2; [lia|].
    apply Z.lt_le_trans with (2 ^ 32); [lia|]. apply Z.pow_le_mono_r; lia.
Qed.

Lemma matches_block ip net p :
  0 ≤ p ≤ 32 → 0 ≤ ip < 2 ^ 32 → 0 ≤ net < 2 ^ 32 →
  (Z.land ip (mask_of p) =? Z.land net (mask_of p)) = bool_decide (in_block ip net p).
Proof.
  intros Hp Hip Hnet. rewrite !land_mask by done. unfold in_block.
  rewrite !Z.shiftl_mul_pow2 by lia.
  pose proof (Z.pow_pos_nonneg 2 (32 - p)). case_bool_decide as E.
  - rewrite E. apply Z.eqb_refl.
  - apply Z.eqb_neq. intros F%Z.mul_cancel_r; [done|lia].
Qed.
End masks.

(** [s] names the block [net/p]. *)
Definition cidr_text (s : str) (net p : Z) : Prop :=
  ∃ ip_str prefix_str,
    split_once "/"%char s = Some (ip_str, prefix_str) ∧
    parse_uint u32_max prefix_str = Some p ∧ p ≤ 32 ∧
    parse_ipv4 (trim ip_str) = Some net.

Lemma parse_octet_range s n : parse_octet s = Some n → 0 ≤ n ≤ 255.
Proof.
  unfold parse_octet. destruct (_ && _); [|done]. apply parse_digits_range. unfold u8_max. lia.
Qed.

Lemma parse_ipv4_range s n : parse_ipv4 s = Some n → 0 ≤ n < 2 ^ 32.
Proof.
  unfold parse_ipv4. destruct (split_char _ s) as [|p0 [|p1 [|p2 [|p3 [|]]]]]; simpl; try done;
    try (by case_all).
  destruct (parse_octet p0) eqn:E0, (parse_octet p1) eqn:E1, (parse_octet p2) eqn:E2,
    (parse_octet p3) eqn:E3; try done.
  apply parse_octet_range in E0, E1, E2, E3. intros [= <-]. lia.
Qed.

Section denylist.
Import IpDenyList.

Lemma parse_cidr_spec s e :
  parse_cidr s = Some e ↔
  ∃ net p, cidr_text s net p ∧ e = (Z.land net (mask_of p), mask_of p).
Proof.
  unfold parse_cidr, cidr_text. split.
  - destruct (split_once _ s) as [[a b]|]; [|done]. simpl.
    destruct (parse_uint _ b) as [p|] eqn:Hp; [|done]. simpl.
    destruct (p <=? 32) eqn:H32; [|done]. bool_to_prop.
    destruct (parse_ipv4 _) as [net|] eqn:Hn; [|done]. intros [= <-]. naive_solver.
  - intros (net & p & (a & b & Hs & Hp & H32 & Hn) & ->).
    rewrite Hs. simpl. rewrite Hp. simpl. rewrite (proj2 (Z.leb_le p 32)) by done.
    by rewrite Hn.
Qed.

Lemma elem_of_parse_lines e ls :
  e ∈ parse_lines ls ↔ ∃ l, l ∈ ls ∧ parse_line l = Some (Some e).
Proof.
  induction ls as [|l ls IH]; simpl; [set_solver|].
  destruct (parse_line l) as [[e'|]|] eqn:E; set_solver.
Qed.

(** C39: An address is denied exactly when it has an IPv4 form that lies in the
    block of some non-comment line of the deny-list file. *)
Theorem from_file_is_denied fs p text ip :
  fs p = Ok text → (∀ v4, to_ipv4_u32 ip = Some v4 → 0 ≤ v4 < 2 ^ 32) →
  is_denied (from_file fs p) ip = true ↔
  ∃ v4 line net len,
    to_ipv4_u32 ip = Some v4 ∧ line ∈ lines text ∧
    trim line ≠ [] ∧ starts_with §"#" (trim line) = false ∧
    cidr_text (trim line) net len ∧ in_block v4 net len.
Proof.
  intros Hfs Hip. unfold is_denied, from_file, parse_denylist_file. cbn [entries]. rewrite Hfs.
  destruct (to_ipv4_u32 ip) as [v4|]; [|split; [done|naive_solver]].
  specialize (Hip v4 eq_refl). rewrite existsb_exists. split.
  - intros (e & He%list_elem_of_In%elem_of_parse_lines & Hm).
    destruct He as (line & Hl & Hp). unfold parse_line in Hp.
    destruct (bool_decide _ || _) eqn:Hc; [done|]. bool_to_prop. destruct Hc as [Hc1 Hc2].
    injection Hp as Hp. apply parse_cidr_spec in Hp as (net & len & Ht & ->).
    exists v4, line, net, len. repeat split; try done.
    destruct Ht as (a & b & _ & Hb & H32 & Hn). apply parse_ipv4_range in Hn.
    apply parse_uint_range in Hb; [|unfold u32_max; lia].
    unfold matches in Hm. simpl in Hm. rewrite matches_block in Hm by lia.
    by apply bool_decide_eq_true in Hm.
  - intros (v4' & line & net & len & [= <-] & Hl & Hne & Hc & Ht & Hb).
    exists (Z.land net (mask_of len), mask_of len). split.
    + apply list_elem_of_In, elem_of_parse_lines. exists line. split; [done|].
      unfold parse_line. rewrite (bool_decide_false (trim line = [])) by done.
      rewrite Hc. simpl. f_equal. apply parse_cidr_spec. eauto.
    + destruct Ht as (a & b & _ & Hb' & H32 & Hn). apply parse_ipv4_range in Hn.
      apply parse_uint_range in Hb'; [|unfold u32_max; lia].
      unfold matches. simpl. rewrite matches_block by lia. by apply bool_decide_eq_true.
Qed.

(** [reload] does not keep the list it had: when the file cannot be read the
    deny list becomes empty, and every address is let in from then on. *)
Theorem reload_unreadable_denies_nothing fs dl p e :
  path dl = Some p → fs p = Err e →
  entries (reload fs dl) = [] ∧ ∀ ip, is_denied (reload fs dl) ip = false.
Proof.
  intros Hp Hfs. unfold reload, is_denied, parse_denylist_file. rewrite Hp. simpl.
  rewrite Hfs. split; [done|]. intros ip. by destruct (to_ipv4_u32 ip).
Qed.
End denylist.

(** A file system with one file. *)
Definition one_file (p text : str) : IpDenyList.files := λ q,
  if bool_decide (q = p) then Ok text else Err §"No such file or directory".

Definition demo_denylist : str := §"# bad ranges" ++ [lf] ++ §" 10.0.0.0/8" ++ [lf].

Lemma from_file_is_denied_witness :
  IpDenyList.is_denied (IpDenyList.from_file (one_file §"d" demo_denylist) §"d")
    (V4 (10 * 2 ^ 24 + 7)) = true ↔
  ∃ v4 line net len,
    IpDenyList.to_ipv4_u32 (V4 (10 * 2 ^ 24 + 7)) = Some v4 ∧ line ∈ lines demo_denylist ∧
    trim line ≠ [] ∧ starts_with §"#" (trim line) = false ∧
    cidr_text (trim line) net len ∧ in_block v4 net len.
Proof.
  apply (from_file_is_denied (one_file §"d" demo_denylist) §"d" demo_denylist);
    [by vm_compute|intros v4 [= <-]; lia].
Defined.

Definition demo_list : IpDenyList.IpDenyList :=
  {| IpDenyList.entries := [(0, 0)]; IpDenyList.path := Some §"gone" |}.

Lemma reload_unreadable_denies_nothing_witness :
  IpDenyList.is_denied demo_list (V4 1) = true ∧
  IpDenyList.is_denied (IpDenyList.reload (one_file §"d" []) demo_list) (V4 1) = false.
Proof.
  split; [by vm_compute|].
  by apply (reload_unreadable_denies_nothing (one_file §"d" []) demo_list §"gone"
              §"No such file or directory").
Defined.

Section admin.
Import AdminCidr.

Lemma admin_parse_cidr_mask s e :
  parse_cidr s = Some e →
  ∃ net p, 0 ≤ p ≤ 32 ∧ 0 ≤ net < 2 ^ 32 ∧
           e = (Z.land net (IpDenyList.mask_of p), IpDenyList.mask_of p).
Proof.
  unfold parse_cidr. destruct (split_once _ _) as [[a b]|]; [|done]. simpl.
  destruct (parse_uint _ b) as [p|] eqn:Hp; [|done]. simpl.
  destruct (p <=? 32) eqn:H32; [|done]. bool_to_prop.
  destruct (parse_ipv4 a) as [net|] eqn:Hn; [|done]. intros [= <-].
  exists net, p. apply parse_ipv4_range in Hn.
  apply parse_uint_range in Hp; [|unfold u32_max; lia]. repeat split; (done || lia).
Qed.

(** The admin allow list fails open: when no item of [--admin-allow-cidr] is
    a well-formed IPv4 block, every address passes the check. *)
Theorem malformed_allow_list_admits_all arg ip :
  (∀ item, item ∈ split_char ","%char arg → parse_cidr item = None) →
  ip_in_cidr ip (admin_cidrs (Some arg)) = true.
Proof.
  intros Hbad. unfold admin_cidrs, ip_in_cidr. simpl.
  rewrite bool_decide_true; [done|].
  assert (∀ l, (∀ i, i ∈ l → parse_cidr i = None) →
               omap parse_cidr (filter (λ s : str, s ≠ []) l) = []) as Hl.
  { induction l as [|i l IH]; intros H; [done|]. rewrite filter_cons.
    case_decide; simpl; [rewrite (H i) by set_solver|]; apply IH; set_solver. }
  by apply Hl.
Qed.

(** With at least one well-formed block, the admin port admits exactly the
    IPv4 addresses of the blocks, and no IPv6 address. *)
Theorem allow_list_admits_blocks arg ip :
  admin_cidrs arg ≠ [] → (∀ v4, ip = V4 v4 → 0 ≤ v4 < 2 ^ 32) →
  ip_in_cidr ip (admin_cidrs arg) = true ↔
  ∃ v4 item net p,
    ip = V4 v4 ∧ item ∈ split_char ","%char (default [] arg) ∧
    0 ≤ p ≤ 32 ∧ parse_cidr item = Some (Z.land net (IpDenyList.mask_of p), IpDenyList.mask_of p) ∧
    0 ≤ net < 2 ^ 32 ∧ in_block v4 net p.
Proof.
  intros Hne Hip. unfold ip_in_cidr. rewrite bool_decide_false by done.
  destruct ip as [v4|v6]; [|split; [done|naive_solver]].
  specialize (Hip v4 eq_refl). rewrite existsb_exists. unfold admin_cidrs. split.
  - intros (e & He%list_elem_of_In%list_elem_of_omap & Hm).
    destruct He as (item & Hi%list_elem_of_filter & Hp).
    pose proof Hp as Hp'. apply admin_parse_cidr_mask in Hp' as (net & p & H32 & Hn & ->).
    simpl in Hm. rewrite matches_block in Hm by lia. apply bool_decide_eq_true in Hm.
    exists v4, item, net, p. destruct Hi. repeat split; (done || lia).
  - intros (v4' & item & net & p & [= <-] & Hi & H32 & Hp & Hn & Hb).
    exists (Z.land net (IpDenyList.mask_of p), IpDenyList.mask_of p). split.
    + apply list_elem_of_In, list_elem_of_omap. exists item. split; [|done].
      apply list_elem_of_filter. split; [|done]. intros ->.
      assert (parse_cidr [] = None) by reflexivity. congruence.
    + simpl. rewrite matches_block by lia. by apply bool_decide_eq_true.
Qed.

(** An item of the list names the block [net/p]. *)
Definition block_item (item : str) (net p : Z) : Prop :=
  ∃ ip_str prefix_str,
    split_once "/"%char (trim item) = Some (ip_str, prefix_str)
    ∧ parse_uint u32_max prefix_str = Some p ∧ p ≤ 32 ∧ parse_ipv4 ip_str = Some net.

(** Whom [--admin-allow-cidr] lets in: everybody when no item of it names a
    block, else the IPv4 addresses that share its leading bits with the network
    of some block. *)
Definition admits (arg : option str) (ip : ip_addr) : Prop :=
  let items := split_char ","%char (default [] arg) in
  (∀ item net p, item ∈ items → ¬ block_item item net p)
  ∨ ∃ v4 item net p, ip = V4 v4 ∧ item ∈ items ∧ block_item item net p ∧ in_block v4 net p.

Lemma parse_cidr_block item e :
  parse_cidr item = Some e
  ↔ ∃ net p, block_item item net p
             ∧ e = (Z.land net (IpDenyList.mask_of p), IpDenyList.mask_of p).
Proof.
  unfold parse_cidr, block_item. split.
  - destruct (split_once _ _) as [[a b]|]; [|done]. simpl.
    destruct (parse_uint _ b) as [p|] eqn:Hp; [|done]. simpl.
    destruct (p <=? 32) eqn:H32; [|done]. bool_to_prop.
    destruct (parse_ipv4 a) as [net|] eqn:Hn; [|done]. intros [= <-]. naive_solver.
  - intros (net & p & (a & b & Hs & Hp & H32 & Hn) & ->).
    rewrite Hs. simpl. rewrite Hp. simpl. rewrite (proj2 (Z.leb_le p 32)) by done.
    by rewrite Hn.
Qed.

Lemma block_item_range item net p : block_item item net p → 0 ≤ p ≤ 32 ∧ 0 ≤ net < 2 ^ 32.
Proof.
  intros (a & b & _ & Hp & H32 & Hn). apply parse_ipv4_range in Hn.
  apply parse_uint_range in Hp; [|unfold u32_max; lia]. lia.
Qed.

Lemma admits_spec arg ip :
  (∀ v4, ip = V4 v4 → 0 ≤ v4 < 2 ^ 32) → ip_in_cidr ip (admin_cidrs arg) = true ↔ admits arg ip.
Proof.
  intros Hip. assert (HE : ∀ e, e ∈ admin_cidrs arg ↔ ∃ item net p,
    item ∈ split_char ","%char (default [] arg) ∧ block_item item net p
    ∧ e = (Z.land net (IpDenyList.mask_of p), IpDenyList.mask_of p)).
  { intros e. unfold admin_cidrs. rewrite list_elem_of_omap. split.
    - intros (item & [_ Hi]%list_elem_of_filter & (net & p & Hb & ->)%parse_cidr_block).
      by exists item, net, p.
    - intros (item & net & p & Hi & Hb & ->). exists item.
      assert (Hp := proj2 (parse_cidr_block item _) (ex_intro _ net (ex_intro _ p (conj Hb eq_refl)))).
      split; [|done]. apply list_elem_of_filter. split; [|done]. by intros ->. }
  unfold ip_in_cidr, admits. case_bool_decide as Hnil.
  { split; [|done]. intros _. left. intros item net p Hi Hb.
    assert (Hin : (Z.land net (IpDenyList.mask_of p), IpDenyList.mask_of p) ∈ admin_cidrs arg)
      by (apply HE; by exists item, net, p).
    rewrite Hnil in Hin. by apply elem_of_nil in Hin. }
  assert (Hsome : ∃ item net p, item ∈ split_char ","%char (default [] arg) ∧ block_item item net p).
  { destruct (admin_cidrs arg) as [|e l]; [done|].
    destruct (proj1 (HE e) ltac:(by left)) as (item & net & p & Hi & Hb & _). by exists item, net, p. }
  destruct Hsome as (item0 & net0 & p0 & Hi0 & Hb0).
  destruct ip as [v4|v6]; [|split; [done|naive_solver]].
  specialize (Hip v4 eq_refl). rewrite existsb_exists. split.
  - intros (e & He%list_elem_of_In & Hm). apply HE in He as (item & net & p & Hi & Hb & ->).
    right. exists v4, item, net, p. destruct (block_item_range _ _ _ Hb).
    simpl in Hm. rewrite matches_block in Hm by lia. by apply bool_decide_eq_true in Hm.
  - intros [Hno|(v4' & item & net & p & [= <-] & Hi & Hb & Hin)]; [by destruct (Hno item0 net0 p0)|].
    exists (Z.land net (IpDenyList.mask_of p), IpDenyList.mask_of p). split.
    + apply list_elem_of_In, HE. by exists item, net, p.
    + destruct (block_item_range _ _ _ Hb). simpl. rewrite matches_block by lia.
      by apply bool_decide_eq_true.
Qed.
End admin.

Lemma malformed_allow_list_admits_all_witness :
  AdminCidr.ip_in_cidr (V4 0x08080808) (AdminCidr.admin_cidrs (Some §"10.0.0.0/33,10.0.0.1"))
  = true.
Proof.
  apply malformed_allow_list_admits_all. intros item Hi. vm_compute in Hi.
  repeat (apply elem_of_cons in Hi as [->|Hi]; [by vm_compute|]).
  by apply elem_of_nil in Hi.
Defined.

Lemma allow_list_admits_blocks_witness :
  AdminCidr.ip_in_cidr (V4 (192 * 2 ^ 24)) (AdminCidr.admin_cidrs (Some §"10.0.0.0/8")) = true ↔
  ∃ v4 item net p,
    V4 (192 * 2 ^ 24) = V4 v4 ∧ item ∈ split_char ","%char §"10.0.0.0/8" ∧
    0 ≤ p ≤ 32 ∧
    AdminCidr.parse_cidr item = Some (Z.land net (IpDenyList.mask_of p), IpDenyList.mask_of p) ∧
    0 ≤ net < 2 ^ 32 ∧ in_block v4 net p.
Proof.
  apply (allow_list_admits_blocks (Some §"10.0.0.0/8")); [by vm_compute|].
  intros v4 [= <-]. lia.
Defined.
