(* ===== verification/Addr.v ===== *)
(** * Addr: addresses as text

    [Display] of [std::net::IpAddr] and of [SocketAddr], which the relay uses
    where it keeps an address as a [String]: [client_ip] of a tunnel client, the
    keys of the rate limiter, [seam_addr] of the status page.  [deny_stage] and
    the admin interface read such texts back; the lemmas
    here say that they read what was written ([parse_show_ip_run]) and that no
    two addresses share a text ([show_ip_inj]). *)

From S2P Require Import Prelude Text Cidr.
Local Open Scope Z_scope.

(** ** Printing *)

Definition show_ipv4 (a : Z) : str :=
  show (a / 2 ^ 24) ++ §"." ++ show (a / 2 ^ 16 mod 256) ++ §"."
  ++ show (a / 2 ^ 8 mod 256) ++ §"." ++ show (a mod 256).

Definition hex_digit (d : Z) : ascii := chr (if d <? 10 then 48 + d else 87 + d).

(** [format!("{g:x}")] of a [u16] *)
Definition show_hex (g : Z) : str :=
  let d3 := hex_digit (g / 4096) in
  let d2 := hex_digit (g / 256 mod 16) in
  let d1 := hex_digit (g / 16 mod 16) in
  let d0 := hex_digit (g mod 16) in
  if g <? 16 then [d0] else if g <? 256 then [d1; d0]
  else if g <? 4096 then [d2; d1; d0] else [d3; d2; d1; d0].

(** [segments]: the [n] groups of 16 bits. *)
Fixpoint segments (n : nat) (a : Z) : list Z :=
  match n with
  | O => []
  | S n' => segments n' (a / 65536) ++ [a mod 65536]
  end.

(** The first longest run of zeros, as its start and length: [i] groups have
    been read. *)
Fixpoint zero_span (i : nat) (longest current : nat * nat) (gs : list Z) : nat * nat :=
  match gs with
  | [] => longest
  | g :: rest =>
    if g =? 0 then
      let current := ((if (current.2 =? 0)%nat then i else current.1), S current.2) in
      zero_span (S i) (if (longest.2 <? current.2)%nat then current else longest) current rest
    else zero_span (S i) longest (0%nat, 0%nat) rest
  end.

Fixpoint colon_separated (gs : list Z) : str :=
  match gs with
  | [] => []
  | [g] => show_hex g
  | g :: rest => show_hex g ++ ":"%char :: colon_separated rest
  end.

Definition show_ipv6 (a : Z) : str :=
  if a / 2 ^ 32 =? 0xffff then §"::ffff:" ++ show_ipv4 (a mod 2 ^ 32)
  else
    let gs := segments 8 a in
    let '(start, len) := zero_span 0 (0%nat, 0%nat) (0%nat, 0%nat) gs in
    if (1 <? len)%nat
    then colon_separated (take start gs) ++ §"::" ++ colon_separated (drop (start + len) gs)
    else colon_separated gs.

(** [IpAddr::to_string] *)
Definition show_ip (ip : ip_addr) : str :=
  match ip with V4 a => show_ipv4 a | V6 a => show_ipv6 a end.

(** [SocketAddr::to_string] *)
Definition show_socket_addr (a : socket_addr) : str :=
  let '(ip, port, scope) := a in
  match ip with
  | V4 v4 => show_ipv4 v4 ++ §":" ++ show port
  | V6 v6 =>
    §"[" ++ show_ipv6 v6 ++ (if scope =? 0 then [] else §"%" ++ show scope) ++ §"]:" ++ show port
  end.

(** An address of the width of its kind. *)
Definition ip_wf (ip : ip_addr) : Prop :=
  match ip with V4 a => 0 ≤ a < 2 ^ 32 | V6 a => 0 ≤ a < 2 ^ 128 end.

Example show_ip_examples :
  show_ip (V4 0xc0000207) = §"192.0.2.7" ∧ show_ip (V6 0) = §"::" ∧ show_ip (V6 1) = §"::1"
  ∧ show_ip (V6 0x20010db8000000000000ff0000428329) = §"2001:db8::ff00:42:8329"
  ∧ show_ip (V6 0xffff0a000007) = §"::ffff:10.0.0.7"
  ∧ show_ip (V6 0x20010db8000100010001000100010001) = §"2001:db8:1:1:1:1:1:1"
  ∧ show_ip (V6 0x00010000000200030000000000040005) = §"1:0:2:3::4:5"
  ∧ show_socket_addr (V6 1, 443, 3) = §"[::1%3]:443"
  ∧ show_socket_addr (V4 0, 4443, 0) = §"0.0.0.0:4443".
Proof. vm_compute. done. Qed.

(** ** Lemmas: dotted quads *)

Lemma parse_octet_show n : 0 ≤ n ≤ 255 → parse_octet (show n) = Some n.
Proof.
  intros Hn. assert (∀ m, (m < 256)%nat → parse_octet (show (Z.of_nat m)) = Some (Z.of_nat m)) as H.
  { assert (forallb (λ m, bool_decide (parse_octet (show (Z.of_nat m)) = Some (Z.of_nat m)))
              (seq 0 256) = true) as H by (vm_compute; reflexivity).
    rewrite forallb_forall in H. intros m Hm.
    eapply bool_decide_eq_true, H, list_elem_of_In, elem_of_seq. lia. }
  specialize (H (Z.to_nat n)). rewrite Z2Nat.id in H by lia. apply H. lia.
Qed.

Lemma show_no_char c n : is_digit c = false → c ∉ show n.
Proof. apply digits_no_char, show_all_digits. Qed.

Lemma split_char_none c s : (c ∉ s) → split_char c s = [s].
Proof.
  induction s as [|d s IH]; intros Hc; [done|]. rewrite elem_of_cons in Hc. cbn [split_char].
  rewrite bool_decide_false by (intros ->; tauto). by rewrite IH by tauto.
Qed.

Lemma parse_show_ipv4 a : 0 ≤ a < 2 ^ 32 → parse_ipv4 (show_ipv4 a) = Some a.
Proof.
  intros Ha. unfold parse_ipv4, show_ipv4.
  change (§".") with ["."%char]. cbn [app].
  rewrite !split_char_app, split_char_none by by apply show_no_char.
  cbn [fmap list_fmap].
  change (2 ^ 32) with 4294967296 in Ha. change (2 ^ 24) with 16777216.
  change (2 ^ 16) with 65536. change (2 ^ 8) with 256.
  rewrite !parse_octet_show by (Z.to_euclidean_division_equations; lia).
  f_equal. Z.to_euclidean_division_equations. lia.
Qed.

(** A text with a character that is neither digit nor dot is no quad. *)
Lemma split_char_elem c d s : d ∈ s → d ≠ c → ∃ p, p ∈ split_char c s ∧ d ∈ p.
Proof.
  induction s as [|e s IH]; intros Hd Hne; [by apply elem_of_nil in Hd|].
  apply elem_of_cons in Hd as [<-|Hd]; cbn [split_char].
  - rewrite bool_decide_false by done.
    destruct (split_char c s); (eexists; split; [by left|by left]).
  - destruct (IH Hd Hne) as (p & Hp & Hdp). case_bool_decide.
    + exists p. split; [by right|done].
    + destruct (split_char c s) as [|h t]; [by apply elem_of_nil in Hp|].
      apply elem_of_cons in Hp as [->|Hp]; [exists (e :: h)|exists p];
        (split; [by left || by right|by right || done]).
Qed.

Lemma parse_digits_all max acc s n : parse_digits max acc s = Some n → forallb is_digit s = true.
Proof.
  revert acc. induction s as [|c s IH]; intros acc; [done|]. cbn [parse_digits forallb].
  unfold digit_val. destruct (is_digit c); [|done]. destruct (_ <=? _); [|done]. apply IH.
Qed.

Lemma parse_ipv4_chars c s : c ∈ s → is_digit c = false → c ≠ "."%char → parse_ipv4 s = None.
Proof.
  intros Hc Hd Hdot. destruct (split_char_elem "." c s Hc Hdot) as (p & Hp & Hcp).
  unfold parse_ipv4. assert (parse_octet p = None) as Hn.
  { unfold parse_octet. destruct (_ && _); [|done].
    destruct (parse_digits u8_max 0 p) eqn:E; [|done]. apply parse_digits_all in E.
    rewrite forallb_forall in E. apply list_elem_of_In, E in Hcp. congruence. }
  destruct (split_char _ s) as [|p0 [|p1 [|p2 [|p3 [|]]]]]; cbn [fmap list_fmap]; try done;
    try (by case_all).
  rewrite !elem_of_cons, elem_of_nil in Hp.
  destruct Hp as [->|[->|[->|[->|[]]]]]; rewrite Hn; by case_all.
Qed.

(** ** Lemmas: hexadecimal groups *)

Lemma hex_val_digit d : 0 ≤ d < 16 → hex_val (hex_digit d) = Some d.
Proof.
  intros Hd. assert (forallb (λ n, bool_decide (hex_val (hex_digit (Z.of_nat n)) = Some (Z.of_nat n)))
                       (seq 0 16) = true) as H by (vm_compute; reflexivity).
  rewrite forallb_forall in H. rewrite <-(Z2Nat.id d) by lia.
  eapply bool_decide_eq_true, H, list_elem_of_In, elem_of_seq. lia.
Qed.

Definition is_hex (c : ascii) : bool := is_digit c || in_range 97 102 c.

Lemma hex_digit_is_hex d : 0 ≤ d < 16 → is_hex (hex_digit d) = true.
Proof.
  intros Hd. unfold is_hex, is_digit, in_range, hex_digit.
  destruct (d <? 10) eqn:E; bool_to_prop; rewrite code_chr by lia;
    apply orb_true_iff; [left|right]; apply andb_true_iff; split; apply Z.leb_le; lia.
Qed.

Lemma show_hex_chars g : 0 ≤ g < 65536 → forallb is_hex (show_hex g) = true ∧ show_hex g ≠ [].
Proof.
  intros Hg. unfold show_hex.
  assert (0 ≤ g / 4096 < 16) by (Z.to_euclidean_division_equations; lia).
  pose proof (Z.mod_pos_bound (g / 256) 16). pose proof (Z.mod_pos_bound (g / 16) 16).
  pose proof (Z.mod_pos_bound g 16).
  repeat case_match; cbn [forallb]; rewrite !hex_digit_is_hex by lia; done.
Qed.

Lemma parse_show_hex g : 0 ≤ g < 65536 → parse_h16 (show_hex g) = Some g.
Proof.
  intros Hg. unfold show_hex, parse_h16.
  assert (0 ≤ g / 4096 < 16) by (Z.to_euclidean_division_equations; lia).
  pose proof (Z.mod_pos_bound (g / 256) 16). pose proof (Z.mod_pos_bound (g / 16) 16).
  pose proof (Z.mod_pos_bound g 16).
  destruct (Z.ltb_spec g 16); [|destruct (Z.ltb_spec g 256); [|destruct (Z.ltb_spec g 4096)]];
    rewrite bool_decide_true by (simpl; lia); cbn [foldl mbind option_bind];
    rewrite !hex_val_digit by lia; cbn [mbind option_bind]; f_equal;
    Z.to_euclidean_division_equations; lia.
Qed.

Lemma show_hex_no_char c g : 0 ≤ g < 65536 → is_hex c = false → c ∉ show_hex g.
Proof.
  intros Hg Hc Hin. apply show_hex_chars in Hg as [Hg _]. rewrite forallb_forall in Hg.
  apply list_elem_of_In, Hg in Hin. congruence.
Qed.

(** A group is no dotted quad. *)
Lemma show_hex_not_quad g : 0 ≤ g < 65536 → parse_ipv4 (show_hex g) = None.
Proof.
  intros Hg. unfold parse_ipv4. rewrite split_char_none by by apply show_hex_no_char.
  cbn [fmap list_fmap]. by destruct (parse_octet (show_hex g)).
Qed.

(** ** Lemmas: groups *)

Definition groups (gs : list Z) : Prop := Forall (λ g, 0 ≤ g < 65536) gs.

Lemma groups_of_colon gs : groups gs → groups_of (colon_separated gs) = show_hex <$> gs.
Proof.
  unfold groups_of. intros H. destruct H as [|g gs Hg H]; [done|].
  rewrite bool_decide_false.
  - revert g Hg. induction H as [|g' gs Hg' H IH]; intros g Hg.
    + cbn. by rewrite split_char_none by by apply show_hex_no_char.
    + change (colon_separated (g :: g' :: gs))
        with (show_hex g ++ ":"%char :: colon_separated (g' :: gs)).
      rewrite split_char_app by by apply show_hex_no_char. by rewrite IH.
  - apply show_hex_chars in Hg as [_ Hg]. destruct gs; cbn [colon_separated]; [done|].
    by destruct (show_hex g).
Qed.

Lemma parse_h16s_show gs : groups gs → parse_h16s (show_hex <$> gs) = Some gs.
Proof.
  unfold parse_h16s. induction 1 as [|g gs Hg H IH]; [done|]. cbn.
  by rewrite parse_show_hex, IH by done.
Qed.

Lemma parse_groups_show gs : groups gs → parse_groups (show_hex <$> gs) = Some gs.
Proof.
  induction 1 as [|g gs Hg H IH]; [done|]. cbn [fmap list_fmap]. destruct H as [|g' gs Hg' H].
  - cbn. by rewrite show_hex_not_quad, parse_show_hex by done.
  - cbn [fmap list_fmap] in *.
    change (parse_groups (show_hex g :: show_hex g' :: (show_hex <$> gs)))
      with (h ← parse_h16 (show_hex g); t ← parse_groups (show_hex g' :: (show_hex <$> gs)); Some (h :: t)).
    rewrite parse_show_hex by done. cbn [mbind option_bind]. by rewrite IH.
Qed.

(** ** Lemmas: the double colon *)

Definition before (a : str) (r : option (str * str)) : option (str * str) :=
  (λ xy, (a ++ xy.1, xy.2)) <$> r.

Lemma find_double_colon_skip a s :
  (":"%char ∉ a) → find_double_colon (a ++ s) = before a (find_double_colon s).
Proof.
  induction a as [|c a IH]; intros Ha;
    [cbn [app]; by destruct (find_double_colon s) as [[]|]|].
  rewrite elem_of_cons in Ha. cbn [app find_double_colon].
  assert (starts_with §"::" (c :: a ++ s) = false) as ->.
  { cbn. rewrite bool_decide_false; [done|]. intros <-. tauto. }
  rewrite IH by tauto. by destruct (find_double_colon s) as [[]|].
Qed.

Lemma find_double_colon_single c s :
  c ≠ ":"%char →
  find_double_colon (":"%char :: c :: s) = before §":" (find_double_colon (c :: s)).
Proof.
  intros Hc. cbn [find_double_colon].
  assert (starts_with §"::" (":"%char :: c :: s) = false) as ->.
  { cbn. by rewrite (bool_decide_false (":"%char = c)) by congruence. }
  by destruct (if starts_with §"::" (c :: s) then _ else _) as [[]|].
Qed.

Lemma find_double_colon_groups gs s :
  groups gs → gs ≠ [] →
  find_double_colon (colon_separated gs ++ s) = before (colon_separated gs) (find_double_colon s).
Proof.
  intros H. destruct H as [|g gs Hg H]; [done|]. intros _.
  revert g Hg. induction H as [|g' gs Hg' H IH]; intros g Hg.
  - cbn [colon_separated]. by apply find_double_colon_skip, show_hex_no_char.
  - change (colon_separated (g :: g' :: gs))
      with (show_hex g ++ ":"%char :: colon_separated (g' :: gs)).
    rewrite <-app_assoc, find_double_colon_skip by by apply show_hex_no_char.
    assert (∃ c r, c ≠ ":"%char ∧ colon_separated (g' :: gs) = c :: r) as (c & r & Hc & E).
    { destruct (show_hex_chars g' Hg') as [Hx Hne]. destruct (show_hex g') as [|c r] eqn:E; [done|].
      cbn [forallb] in Hx. apply andb_true_iff in Hx as [Hx _].
      exists c. destruct gs; cbn [colon_separated]; rewrite E; eexists; (split; [|done]);
        by intros ->. }
    specialize (IH g' Hg'). rewrite E in *. cbn [app] in *.
    rewrite find_double_colon_single, IH by done.
    destruct (find_double_colon s) as [[x y]|]; [|done]. cbn. by rewrite <-app_assoc.
Qed.

Lemma find_double_colon_at gs s :
  groups gs → find_double_colon (colon_separated gs ++ §"::" ++ s) = Some (colon_separated gs, s).
Proof.
  intros H. destruct gs as [|g gs]; [done|]. rewrite find_double_colon_groups by done.
  change (find_double_colon (§"::" ++ s)) with (Some ([] : str, s)).
  unfold before. cbn [fmap option_fmap option_map fst snd]. by rewrite app_nil_r.
Qed.

Lemma find_double_colon_none gs :
  groups gs → find_double_colon (colon_separated gs) = None.
Proof.
  intros H. destruct gs as [|g gs]; [done|]. rewrite <-(app_nil_r (colon_separated _)).
  by rewrite find_double_colon_groups.
Qed.

(** ** Lemmas: the whole address *)

Lemma segments_groups n a : groups (segments n a).
Proof.
  revert a. induction n as [|n IH]; intros a; cbn [segments]; [constructor|].
  apply Forall_app. split; [apply IH|]. constructor; [|constructor]. by apply Z.mod_pos_bound.
Qed.

Lemma length_segments n a : length (segments n a) = n.
Proof. revert a. induction n as [|n IH]; intros a; [done|]. cbn. rewrite length_app, IH. simpl. lia. Qed.

Lemma fold_segments n a :
  0 ≤ a → foldl (λ acc g, acc * 65536 + g) 0 (segments n a) = a mod 65536 ^ Z.of_nat n.
Proof.
  revert a. induction n as [|n IH]; intros a Ha; [by rewrite Z.mod_1_r|].
  cbn [segments]. rewrite foldl_app, IH by (apply Z.div_pos; lia). cbn [foldl].
  rewrite Nat2Z.inj_succ, Z.pow_succ_r by lia.
  rewrite (Z.rem_mul_r a 65536) by (try lia; apply Z.pow_pos_nonneg; lia). lia.
Qed.

(** The run found is a run of zeros of the groups read. *)
Definition zeros_at (gs : list Z) (sp : nat * nat) : Prop :=
  (sp.1 + sp.2 ≤ length gs)%nat ∧ take sp.2 (drop sp.1 gs) = replicate sp.2 0.

Lemma zeros_at_app gs g sp : zeros_at gs sp → zeros_at (gs ++ [g]) sp.
Proof.
  intros [Hl Hz]. split; [rewrite length_app; lia|].
  rewrite drop_app_le, take_app_le by (rewrite ?length_drop; lia). done.
Qed.

Lemma zero_span_spec gs pre longest current :
  zeros_at pre longest → zeros_at pre current →
  (current.2 ≠ 0%nat → (current.1 + current.2 = length pre)%nat) →
  zeros_at (pre ++ gs) (zero_span (length pre) longest current gs).
Proof.
  revert pre longest current. induction gs as [|g gs IH]; intros pre longest current Hl Hc He.
  - by rewrite app_nil_r.
  - cbn [zero_span]. rewrite cons_middle, app_assoc.
    assert (Hlen : S (length pre) = length (pre ++ [g])) by (rewrite length_app; simpl; lia).
    destruct (Z.eqb_spec g 0) as [->|Hg].
    + set (c' := ((if (current.2 =? 0)%nat then length pre else current.1), S current.2)).
      assert (Hsum : (c'.1 + c'.2 = S (length pre))%nat).
      { unfold c'. cbn [fst snd]. destruct (Nat.eqb_spec current.2 0); lia. }
      assert (Hc' : zeros_at (pre ++ [0]) c').
      { split; [lia|]. unfold c' in *. cbn [fst snd] in *.
        destruct (Nat.eqb_spec current.2 0) as [E|E].
        - rewrite E, drop_app_length. done.
        - destruct Hc as [_ Hz]. specialize (He E). rewrite drop_app_le by lia.
          rewrite take_ge in Hz by (rewrite length_drop; lia). rewrite Hz.
          rewrite take_ge by (rewrite length_app, length_replicate; simpl; lia).
          by rewrite <-replicate_cons_app. }
      rewrite Hlen. apply IH; [|done|lia].
      destruct (_ <? _)%nat; [done|by apply zeros_at_app].
    + rewrite Hlen. apply IH; [by apply zeros_at_app| |done].
      split; [simpl; lia|done].
Qed.

Lemma zero_run gs start len :
  zero_span 0 (0%nat, 0%nat) (0%nat, 0%nat) gs = (start, len) →
  gs = take start gs ++ replicate len 0 ++ drop (start + len) gs ∧ (start + len ≤ length gs)%nat.
Proof.
  intros E. destruct (zero_span_spec gs [] (0%nat, 0%nat) (0%nat, 0%nat)) as [Hl Hz];
    [split; [simpl; lia|done]..|done|].
  cbn [app length] in Hl, Hz. rewrite E in Hl, Hz. cbn [fst snd] in Hl, Hz.
  split; [|done]. rewrite <-Hz, <-drop_drop, take_drop, take_drop. done.
Qed.

Lemma show_ipv4_no_colon a : ":"%char ∉ show_ipv4 a.
Proof.
  unfold show_ipv4. rewrite !elem_of_app.
  intros [H|[H|[H|[H|[H|[H|H]]]]]]; try (by apply show_no_char in H);
    by apply list_elem_of_singleton in H.
Qed.

Lemma parse_mapped a :
  0 ≤ a < 2 ^ 32 → parse_ipv6 (§"::ffff:" ++ show_ipv4 a) = Some (0xffff * 2 ^ 32 + a).
Proof.
  intros Ha. unfold parse_ipv6.
  pose proof (find_double_colon_at [] (show_hex 0xffff ++ ":"%char :: show_ipv4 a) (Forall_nil_2 _)) as F.
  cbn [colon_separated app] in F. change (§"::ffff:" ++ show_ipv4 a)
    with (§"::" ++ show_hex 0xffff ++ ":"%char :: show_ipv4 a). rewrite F.
  assert (groups_of (show_hex 0xffff ++ ":"%char :: show_ipv4 a) = [show_hex 0xffff; show_ipv4 a]) as ->.
  { unfold groups_of. rewrite bool_decide_false by done.
    rewrite split_char_app by by apply show_hex_no_char.
    by rewrite split_char_none by apply show_ipv4_no_colon. }
  change (parse_groups [show_hex 0xffff; show_ipv4 a])
    with (t ← parse_groups [show_ipv4 a]; Some (0xffff :: t)).
  cbn [parse_groups]. rewrite parse_show_ipv4 by done. cbn [mbind option_bind].
  change (parse_h16s (groups_of [])) with (Some ([] : list Z)). cbn. f_equal.
  Z.to_euclidean_division_equations. lia.
Qed.

Lemma parse_show_ipv6 a : 0 ≤ a < 2 ^ 128 → parse_ipv6 (show_ipv6 a) = Some a.
Proof.
  intros Ha. unfold show_ipv6. destruct (Z.eqb_spec (a / 2 ^ 32) 0xffff) as [E|_].
  { rewrite parse_mapped by (apply Z.mod_pos_bound; lia). f_equal. rewrite <-E.
    symmetry. rewrite Z.mul_comm. apply Z.div_mod. done. }
  destruct (zero_span 0 (0%nat, 0%nat) (0%nat, 0%nat) (segments 8 a)) as [start len] eqn:Esp.
  destruct (zero_run _ _ _ Esp) as [Hgs Hle]. rewrite length_segments in Hle.
  pose proof (segments_groups 8 a) as Hg. pose proof (fold_segments 8 a ltac:(lia)) as Hf.
  rewrite Z.mod_small in Hf by (change (65536 ^ Z.of_nat 8) with (2 ^ 128); lia).
  pose proof (length_segments 8 a) as Hlen.
  unfold parse_ipv6. destruct (Nat.ltb_spec 1 len) as [Hl|_].
  - rewrite find_double_colon_at by by apply Forall_take.
    rewrite !groups_of_colon by (by apply Forall_take || by apply Forall_drop).
    rewrite parse_h16s_show, parse_groups_show by (by apply Forall_take || by apply Forall_drop).
    cbn [mbind option_bind]. rewrite length_take, length_drop, Hlen.
    rewrite (proj2 (Nat.leb_le _ 7)) by lia.
    replace (8 - start `min` 8 - (8 - (start + len)))%nat with len by lia.
    rewrite <-Hgs. cbn [mbind option_bind]. by rewrite Hlen, bool_decide_true, Hf by done.
  - rewrite find_double_colon_none, groups_of_colon, parse_groups_show by done.
    cbn [mbind option_bind]. rewrite Hlen, bool_decide_true by done. by rewrite Hf.
Qed.

Lemma colon_in_colon_separated g g' gs : ":"%char ∈ colon_separated (g :: g' :: gs).
Proof. cbn [colon_separated]. apply elem_of_app. right. by left. Qed.

Lemma show_ipv6_colon a : ":"%char ∈ show_ipv6 a.
Proof.
  unfold show_ipv6. destruct (_ =? _); [by left|].
  destruct (zero_span _ _ _ _) as [start len]. destruct (_ <? _)%nat.
  - apply elem_of_app. right. by left.
  - pose proof (length_segments 8 a) as Hl.
    destruct (segments 8 a) as [|g [|g' gs]]; [done..|]. apply colon_in_colon_separated.
Qed.

Lemma parse_show_ip_run ip : ip_wf ip → parse_ip (show_ip ip) = Some ip.
Proof.
  unfold parse_ip. destruct ip as [a|a]; cbn [ip_wf show_ip]; intros Ha.
  - by rewrite parse_show_ipv4.
  - rewrite (parse_ipv4_chars ":") by (done || apply show_ipv6_colon).
    by rewrite parse_show_ipv6.
Qed.

Lemma show_ip_inj ip ip' : ip_wf ip → ip_wf ip' → show_ip ip = show_ip ip' → ip = ip'.
Proof.
  intros H H' E. apply (f_equal parse_ip) in E. rewrite !parse_show_ip_run in E by done.
  by injection E.
Qed.

(** ** Addresses read are addresses *)

Lemma hex_val_range c d : hex_val c = Some d → 0 ≤ d < 16.
Proof.
  unfold hex_val, is_digit, in_range. intros H.
  repeat case_match; simplify_eq; bool_to_prop; lia.
Qed.

Lemma parse_h16_range s h : parse_h16 s = Some h → 0 ≤ h < 65536.
Proof.
  unfold parse_h16. case_bool_decide as Hlen; [|done].
  assert (G : ∀ l acc r, 0 ≤ acc →
    foldl (λ acc c, a ← acc; d ← hex_val c; Some (a * 16 + d)) (Some acc) l = Some r →
    0 ≤ r < (acc + 1) * 16 ^ Z.of_nat (length l)).
  { induction l as [|c l IH]; intros acc r Hacc; cbn [foldl length]; [intros [= <-]; lia|].
    cbn [mbind option_bind]. destruct (hex_val c) as [d|] eqn:Ed; cbn [mbind option_bind].
    - apply hex_val_range in Ed. intros Hr. apply IH in Hr; [|lia].
      rewrite Nat2Z.inj_succ, Z.pow_succ_r by lia. pose proof (Z.pow_pos_nonneg 16 (Z.of_nat (length l))).
      nia.
    - intros Hr. exfalso. clear -Hr. induction l as [|c' l IH]; [done|]. by apply IH. }
  intros Hr. apply G in Hr; [|lia].
  assert (16 ^ Z.of_nat (length s) ≤ 16 ^ 4) by (apply Z.pow_le_mono_r; lia).
  change (16 ^ 4) with 65536 in *. lia.
Qed.

Lemma parse_h16s_range gs hs : parse_h16s gs = Some hs → groups hs.
Proof.
  unfold parse_h16s. intros H%mapM_Some. induction H; constructor; [|done].
  by eapply parse_h16_range.
Qed.

Lemma parse_groups_range gs hs : parse_groups gs = Some hs → groups hs.
Proof.
  revert hs. induction gs as [|g gs IH]; intros hs; [intros [= <-]; constructor|].
  cbn [parse_groups]. destruct gs as [|g' gs].
  - destruct (parse_ipv4 g) as [a|] eqn:Ea.
    + intros [= <-]. apply parse_ipv4_range in Ea.
      repeat constructor; Z.to_euclidean_division_equations; lia.
    + destruct (parse_h16 g) as [h|] eqn:Eh; [|done]. intros [= <-].
      constructor; [by eapply parse_h16_range|constructor].
  - destruct (parse_h16 g) as [h|] eqn:Eh; [|done]. cbn [mbind option_bind].
    destruct (parse_groups (g' :: gs)) as [t|]; [|done]. intros [= <-].
    constructor; [by eapply parse_h16_range|by apply IH].
Qed.

Lemma fold_groups gs :
  groups gs → 0 ≤ foldl (λ acc g, acc * 65536 + g) 0 gs < 65536 ^ Z.of_nat (length gs).
Proof.
  induction gs as [|g gs IH] using rev_ind; intros Hg; [done|].
  apply Forall_app in Hg as [Hg Hl]. inversion Hl as [|? ? Hl' _]; subst.
  rewrite foldl_app, length_app, Nat.add_1_r, Nat2Z.inj_succ, Z.pow_succ_r by lia.
  cbn [foldl]. cbn beta in Hl'. specialize (IH Hg). nia.
Qed.

Lemma parse_ipv6_range s a : parse_ipv6 s = Some a → 0 ≤ a < 2 ^ 128.
Proof.
  unfold parse_ipv6. intros H.
  assert (G : ∀ gs, groups gs →
    (if bool_decide (length gs = 8%nat) then Some (foldl (λ acc g, acc * 65536 + g) 0 gs) else None)
      = Some a → 0 ≤ a < 2 ^ 128).
  { intros gs Hg. case_bool_decide as Hl; [|done]. intros [= <-].
    pose proof (fold_groups gs Hg) as Hf. rewrite Hl in Hf. exact Hf. }
  destruct (find_double_colon s) as [[x y]|].
  - destruct (parse_h16s (groups_of x)) as [h|] eqn:Eh; [|done].
    destruct (parse_groups (groups_of y)) as [t|] eqn:Et; [|done]. cbn [mbind option_bind] in H.
    destruct (_ <=? _)%nat; [|done]. cbn [mbind option_bind] in H. revert H. apply G.
    unfold groups. rewrite !Forall_app. split_and!.
    + by eapply parse_h16s_range.
    + apply Forall_replicate. lia.
    + by eapply parse_groups_range.
  - destruct (parse_groups (groups_of s)) as [t|] eqn:Et; [|done]. revert H. apply G.
    by eapply parse_groups_range.
Qed.

(** A socket address of the width of its parts; only IPv6 has a scope. *)
Definition socket_wf (a : socket_addr) : Prop :=
  ip_wf a.1.1 ∧ 0 ≤ a.1.2 ≤ u16_max ∧ 0 ≤ a.2 ≤ u32_max
  ∧ match a.1.1 with V4 _ => a.2 = 0 | V6 _ => True end.

Lemma parse_number_range max s n : 0 ≤ max → parse_number max s = Some n → 0 ≤ n ≤ max.
Proof. unfold parse_number. case_bool_decide; [done|]. intros ? Hp. eapply parse_digits_range; [|exact Hp]. lia. Qed.

Lemma parse_socket_addr_wf s a : parse_socket_addr s = Some a → socket_wf a.
Proof.
  unfold parse_socket_addr, socket_wf. intros H.
  destruct (rsplit_char _ s) as [[host port]|]; [|done]. cbn [mbind option_bind] in H.
  destruct (parse_number u16_max port) as [p|] eqn:Ep; [|done].
  apply parse_number_range in Ep; [|unfold u16_max; lia]. cbn [mbind option_bind] in H.
  assert (Hu : 0 ≤ u32_max) by (unfold u32_max; lia).
  destruct (strip_prefix _ host ≫= _) as [v6|].
  - destruct (find_char _ v6) as [[ip scope]|].
    + destruct (parse_ipv6 ip) as [x|] eqn:Ex; [|done]. apply parse_ipv6_range in Ex.
      cbn [mbind option_bind] in H.
      destruct (parse_number u32_max scope) as [z|] eqn:Ez; [|done].
      apply parse_number_range in Ez; [|done]. by injection H as <-.
    + destruct (parse_ipv6 v6) as [x|] eqn:Ex; [|done]. apply parse_ipv6_range in Ex.
      by injection H as <-.
  - destruct (parse_ipv4 host) as [x|] eqn:Ex; [|done]. apply parse_ipv4_range in Ex.
    by injection H as <-.
Qed.
