(* ===== verification/Codec.v ===== *)
(** * Codec: control frames and their framing on a stream

    [crates/seamless-common/src/lib.rs].  A frame body is what [bincode] makes of
    a [ControlFrame]; [bincode] is the interface [FrameCodec] with its round trip
    as the law, and [Wire] implements the layout of [docs/PROTOCOL.md]. *)

From S2P Require Import Prelude Text.
Local Open Scope Z_scope.

Definition PROTOCOL_VERSION : Z := 1.
Definition MAX_FRAME_BYTES : Z := 64 * 1024.

(** ** Data *)

Inductive TunnelKind :=
| Http (subdomain : option str)
| Tcp (port : Z).

Inductive ControlFrame :=
| Register (version : Z) (token : option str) (kind : TunnelKind)
| Registered (public_url : str)
| NewConn (peer_addr : str)
| Ping
| Error (code : Z) (message : str).

#[export] Instance TunnelKind_eq_dec : EqDecision TunnelKind.
Proof. solve_decision. Defined.
#[export] Instance ControlFrame_eq_dec : EqDecision ControlFrame.
Proof. solve_decision. Defined.

(** The values the Rust types admit: [u8] and [u16] fields in range, text that
    is UTF-8. *)
Definition wf_text (s : str) : Prop := utf8_valid s = true ∧ Z.of_nat (length s) ≤ u64_max.
Definition wf_kind (k : TunnelKind) : Prop :=
  match k with
  | Http None => True
  | Http (Some s) => wf_text s
  | Tcp p => 0 ≤ p ≤ u16_max
  end.
Definition wf_frame (f : ControlFrame) : Prop :=
  match f with
  | Register v t k =>
    0 ≤ v ≤ u8_max ∧ (match t with Some s => wf_text s | None => True end) ∧ wf_kind k
  | Registered s | NewConn s => wf_text s
  | Ping => True
  | Error c m => 0 ≤ c ≤ u16_max ∧ wf_text m
  end.

(** ** Errors *)

Inductive io_error :=
| UnexpectedEof
| OtherIo (what : str).

Inductive CodecError :=
| Io (e : io_error)
| TooLarge (len : Z)
| Decode
| Eof.

(** ** [bincode] *)

Class FrameCodec := {
  serialize : ControlFrame → option str;
  deserialize : str → option ControlFrame;
}.

(** What the code relies on: decoding inverts encoding. *)
Class FrameCodecLaws `{FrameCodec} : Prop :=
  deserialize_serialize f b : wf_frame f → serialize f = Some b → deserialize b = Some f.

(** ** Streams

    A Seam stream is reliable and in order (docs/PROTOCOL.md): a reader is the
    bytes still to arrive and how the stream ends; a writer is the bytes sent
    and, when the peer goes away, how many more it takes. *)

Inductive stream_end :=
| AtEof
| AtError (what : str).

Record reader := { pending : str; closing : stream_end }.

Record writer := { sent : str; room : option nat }.

(** [AsyncReadExt::read_exact] *)
Definition read_exact (n : nat) (r : reader) : result io_error str * reader :=
  if bool_decide (n ≤ length (pending r))%nat
  then (Ok (take n (pending r)), {| pending := drop n (pending r); closing := closing r |})
  else (Err match closing r with AtEof => UnexpectedEof | AtError w => OtherIo w end,
        {| pending := []; closing := closing r |}).

(** [AsyncWriteExt::write_all] and [flush] *)
Definition write_all (bs : str) (w : writer) : result io_error unit * writer :=
  match room w with
  | None => (Ok tt, {| sent := sent w ++ bs; room := None |})
  | Some n =>
    if bool_decide (length bs ≤ n)%nat
    then (Ok tt, {| sent := sent w ++ bs; room := Some (n - length bs)%nat |})
    else (Err (OtherIo §"broken pipe"), {| sent := sent w ++ take n bs; room := Some O |})
  end.

(** ** Big-endian lengths: [u32::to_be_bytes] and [u32::from_be_bytes] *)

Definition to_be_bytes (n : Z) : str :=
  [chr (n / 2 ^ 24 mod 256); chr (n / 2 ^ 16 mod 256); chr (n / 2 ^ 8 mod 256); chr (n mod 256)].

Definition from_be_bytes (b : str) : Z := fold_left (λ acc c, acc * 256 + code c) b 0.

Section codec.
Context `{FrameCodec}.

Definition write_frame (frame : ControlFrame) (w : writer)
    : result CodecError unit * writer :=
  match serialize frame with
  | None => (Err Decode, w)
  | Some body =>
    if u32_max <? Z.of_nat (length body) then (Err (TooLarge u32_max), w)
    else
      let len := Z.of_nat (length body) in
      if MAX_FRAME_BYTES <? len then (Err (TooLarge len), w)
      else
        match write_all (to_be_bytes len) w with
        | (Err e, w1) => (Err (Io e), w1)
        | (Ok _, w1) =>
          match write_all body w1 with
          | (Err e, w2) => (Err (Io e), w2)
          | (Ok _, w2) => (Ok tt, w2)
          end
        end
  end.

Definition read_frame (r : reader) : result CodecError ControlFrame * reader :=
  match read_exact 4 r with
  | (Err UnexpectedEof, r1) => (Err Eof, r1)
  | (Err e, r1) => (Err (Io e), r1)
  | (Ok len_buf, r1) =>
    let len := from_be_bytes len_buf in
    if MAX_FRAME_BYTES <? len then (Err (TooLarge len), r1)
    else
      match read_exact (Z.to_nat len) r1 with
      | (Err e, r2) => (Err (Io e), r2)
      | (Ok body, r2) => (ok_or Decode (deserialize body), r2)
      end
  end.

(** Frames written one after the other, and read back until [n] are in. *)
Fixpoint write_frames (fs : list ControlFrame) (w : writer)
    : result CodecError unit * writer :=
  match fs with
  | [] => (Ok tt, w)
  | f :: rest =>
    match write_frame f w with
    | (Ok _, w1) => write_frames rest w1
    | (Err e, w1) => (Err e, w1)
    end
  end.

Fixpoint read_frames (n : nat) (r : reader)
    : result CodecError (list ControlFrame) * reader :=
  match n with
  | O => (Ok [], r)
  | S n' =>
    match read_frame r with
    | (Err e, r1) => (Err e, r1)
    | (Ok f, r1) =>
      match read_frames n' r1 with
      | (Ok fs, r2) => (Ok (f :: fs), r2)
      | (Err e, r2) => (Err e, r2)
      end
    end
  end.
End codec.

(** ** The wire layout of docs/PROTOCOL.md

    [bincode]'s default configuration: little-endian, fixed-width integers, a
    [u32] variant index, a [u64] length before text. *)
Module Wire.

Fixpoint le (n : nat) (z : Z) : str :=
  match n with O => [] | S n' => chr (z mod 256) :: le n' (z / 256) end.

Fixpoint of_le (b : str) : Z :=
  match b with [] => 0 | c :: b' => code c + 256 * of_le b' end.

Definition put_text (s : str) : str := le 8 (Z.of_nat (length s)) ++ s.
Definition put_opt (o : option str) : str :=
  match o with None => le 1 0 | Some s => le 1 1 ++ put_text s end.
Definition put_kind (k : TunnelKind) : str :=
  match k with
  | Http o => le 4 0 ++ put_opt o
  | Tcp p => le 4 1 ++ le 2 p
  end.

Definition put (f : ControlFrame) : str :=
  match f with
  | Register v t k => le 4 0 ++ le 1 v ++ put_opt t ++ put_kind k
  | Registered s => le 4 1 ++ put_text s
  | NewConn s => le 4 2 ++ put_text s
  | Ping => le 4 3
  | Error c m => le 4 4 ++ le 2 c ++ put_text m
  end.

(** Decoders: the value and the bytes after it. *)
Abbreviation decoder A := (str → option (A * str)).

Definition get_le (n : nat) : decoder Z := λ b,
  if bool_decide (n ≤ length b)%nat then Some (of_le (take n b), drop n b) else None.
Definition get_text : decoder str := λ b,
  '(n, b1) ← get_le 8 b;
  if bool_decide (n ≤ Z.of_nat (length b1))
  then s ← from_utf8 (take (Z.to_nat n) b1); Some (s, drop (Z.to_nat n) b1)
  else None.
Definition get_opt : decoder (option str) := λ b,
  '(t, b1) ← get_le 1 b;
  if t =? 0 then Some (None, b1)
  else if t =? 1 then '(s, b2) ← get_text b1; Some (Some s, b2)
  else None.
Definition get_kind : decoder TunnelKind := λ b,
  '(t, b1) ← get_le 4 b;
  if t =? 0 then '(o, b2) ← get_opt b1; Some (Http o, b2)
  else if t =? 1 then '(p, b2) ← get_le 2 b1; Some (Tcp p, b2)
  else None.

Definition get (b : str) : option ControlFrame :=
  '(t, b1) ← get_le 4 b;
  if t =? 0 then
    '(v, b2) ← get_le 1 b1; '(tok, b3) ← get_opt b2; '(k, _) ← get_kind b3;
    Some (Register v tok k)
  else if t =? 1 then '(s, _) ← get_text b1; Some (Registered s)
  else if t =? 2 then '(s, _) ← get_text b1; Some (NewConn s)
  else if t =? 3 then Some Ping
  else if t =? 4 then '(c, b2) ← get_le 2 b1; '(m, _) ← get_text b2; Some (Error c m)
  else None.

#[export] Instance codec : FrameCodec := {| serialize f := Some (put f); deserialize := get |}.

(** One decoder after another, without unfolding either. *)
#[local] Ltac next := cbn [mbind option_bind Z.eqb Pos.eqb].

Lemma length_le n z : length (le n z) = n.
Proof. revert z; induction n; intros; simpl; auto. Qed.

Lemma of_le_le n z : 0 ≤ z < 256 ^ Z.of_nat n → of_le (le n z) = z.
Proof.
  revert z; induction n as [|n IH]; intros z Hz; simpl.
  - simpl in Hz. lia.
  - rewrite Nat2Z.inj_succ, Z.pow_succ_r in Hz by lia.
    pose proof (Z.mod_pos_bound z 256). pose proof (Z.div_mod z 256).
    rewrite code_chr by lia.
    rewrite IH; [lia|split; [apply Z.div_pos; lia|apply Z.div_lt_upper_bound; lia]].
Qed.

Lemma get_le_app n z s : 0 ≤ z < 256 ^ Z.of_nat n → get_le n (le n z ++ s) = Some (z, s).
Proof.
  intros. unfold get_le. rewrite bool_decide_true.
  - rewrite take_app_length', drop_app_length' by (by rewrite length_le). by rewrite of_le_le.
  - rewrite length_app, length_le. lia.
Qed.

Lemma get_text_app s r : wf_text s → get_text (put_text s ++ r) = Some (s, r).
Proof.
  intros [Hu Hl]. unfold get_text, put_text. rewrite <-app_assoc, get_le_app.
  2: { change (256 ^ Z.of_nat 8) with (u64_max + 1). lia. }
  next. rewrite length_app, Nat2Z.inj_add, bool_decide_true by lia.
  rewrite Nat2Z.id, take_app_length, drop_app_length. unfold from_utf8. by rewrite Hu.
Qed.

Lemma get_opt_app o r :
  (match o with Some s => wf_text s | None => True end) →
  get_opt (put_opt o ++ r) = Some (o, r).
Proof.
  intros Ho. unfold get_opt, put_opt. destruct o as [s|].
  - rewrite <-app_assoc, get_le_app by (simpl; lia). next. by rewrite get_text_app.
  - by rewrite get_le_app by (simpl; lia).
Qed.

Lemma get_kind_app k r : wf_kind k → get_kind (put_kind k ++ r) = Some (k, r).
Proof.
  intros Hk. unfold get_kind, put_kind. destruct k as [o|p]; rewrite <-app_assoc.
  - rewrite get_le_app by (simpl; lia). next. rewrite get_opt_app; [done|by destruct o].
  - rewrite get_le_app by (simpl; lia). next.
    rewrite get_le_app; [done|]. simpl in Hk. unfold u16_max in Hk. simpl. lia.
Qed.

#[export] Instance codec_laws : FrameCodecLaws.
Proof.
  intros f b Hf [= <-]. change (get (put f) = Some f). unfold get, put.
  destruct f as [v t k|s|s| |c m]; simpl in Hf; unfold u8_max, u16_max in Hf;
    rewrite <-?app_assoc.
  - destruct Hf as (Hv & Ht & Hk). rewrite get_le_app by (simpl; lia). next.
    rewrite get_le_app by (simpl; lia). next.
    rewrite get_opt_app by done. next. rewrite <-(app_nil_r (put_kind k)).
    by rewrite get_kind_app.
  - rewrite get_le_app by (simpl; lia). next.
    rewrite <-(app_nil_r (put_text s)). by rewrite get_text_app.
  - rewrite get_le_app by (simpl; lia). next.
    rewrite <-(app_nil_r (put_text s)). by rewrite get_text_app.
  - by rewrite <-(app_nil_r (le 4 3)), get_le_app by (simpl; lia).
  - destruct Hf as (Hc & Hm). rewrite get_le_app by (simpl; lia). next.
    rewrite get_le_app by (simpl; lia). next.
    rewrite <-(app_nil_r (put_text m)). by rewrite get_text_app.
Qed.
End Wire.

(** ** Lemmas: framing *)

Lemma length_to_be_bytes n : length (to_be_bytes n) = 4%nat.
Proof. done. Qed.

Lemma from_to_be_bytes n : 0 ≤ n < 2 ^ 32 → from_be_bytes (to_be_bytes n) = n.
Proof.
  intros Hn. unfold from_be_bytes, to_be_bytes. cbn [fold_left].
  rewrite !code_chr by (apply Z.mod_pos_bound; lia).
  change (2 ^ 24) with 16777216. change (2 ^ 16) with 65536. change (2 ^ 8) with 256.
  Z.div_mod_to_equations. lia.
Qed.

Lemma from_be_bytes_range b : 0 ≤ from_be_bytes b.
Proof.
  unfold from_be_bytes. assert (∀ l acc, 0 ≤ acc → 0 ≤ fold_left (λ a c, a * 256 + code c) l acc) as H.
  { induction l as [|c l IH]; intros acc Hacc; [done|]. apply IH.
    pose proof (code_range c). lia. }
  by apply H.
Qed.

Lemma read_exact_app n a b e :
  n = length a →
  read_exact n {| pending := a ++ b; closing := e |} = (Ok a, {| pending := b; closing := e |}).
Proof.
  intros ->. unfold read_exact. simpl. rewrite bool_decide_true by (rewrite length_app; lia).
  by rewrite take_app_length, drop_app_length.
Qed.

(** What [write_all] reports is what it did. *)
Lemma write_all_ok bs w w' : write_all bs w = (Ok tt, w') → sent w' = sent w ++ bs.
Proof.
  unfold write_all. destruct (room w); [case_bool_decide|]; by intros [= <-].
Qed.

Lemma length_write_all bs w res w' :
  write_all bs w = (res, w') → (length (sent w') ≤ length (sent w) + length bs)%nat.
Proof.
  unfold write_all. destruct (room w) as [n|]; [case_bool_decide|];
    intros [= <- <-]; simpl; rewrite length_app, ?length_take; lia.
Qed.

Section framing.
Context `{FrameCodecLaws}.
Implicit Types (f : ControlFrame) (w : writer) (r : reader).

(** The bytes a successful [write_frame] puts on the stream. *)
Lemma write_frame_ok f w w' :
  write_frame f w = (Ok tt, w') →
  ∃ body, serialize f = Some body ∧ Z.of_nat (length body) ≤ MAX_FRAME_BYTES ∧
          sent w' = sent w ++ to_be_bytes (Z.of_nat (length body)) ++ body.
Proof.
  unfold write_frame. destruct (serialize f) as [body|]; [|done].
  destruct (u32_max <? _); [done|]. destruct (MAX_FRAME_BYTES <? _) eqn:Hm; [done|].
  bool_to_prop. destruct (write_all _ w) as [[[]|] w1] eqn:H1; [|done].
  destruct (write_all body w1) as [[[]|] w2] eqn:H2; [|done]. intros [= <-].
  apply write_all_ok in H1, H2. exists body. repeat split; [done|].
  rewrite H2, H1. by rewrite <-app_assoc.
Qed.

(** A whole frame at the head of the stream is read, and nothing more. *)
Lemma read_frame_app f body rest e :
  wf_frame f → serialize f = Some body → Z.of_nat (length body) ≤ MAX_FRAME_BYTES →
  read_frame {| pending := to_be_bytes (Z.of_nat (length body)) ++ body ++ rest; closing := e |}
  = (Ok f, {| pending := rest; closing := e |}).
Proof.
  intros Hf Hs Hl. unfold read_frame. rewrite read_exact_app by done.
  unfold MAX_FRAME_BYTES in *. rewrite from_to_be_bytes by lia.
  rewrite (proj2 (Z.ltb_ge _ _)) by lia. rewrite read_exact_app by lia.
  by rewrite (deserialize_serialize f body).
Qed.

(** C12: A sequence of frames that [write_frame] reports sent is, at the other
    end, exactly what successive calls of [read_frame] return, in order, and
    they leave the bytes that follow the frames on the stream. *)
Theorem write_frames_read_frames fs w w' :
  write_frames fs w = (Ok tt, w') → Forall wf_frame fs →
  ∃ bytes, sent w' = sent w ++ bytes ∧
  ∀ rest e, read_frames (length fs) {| pending := bytes ++ rest; closing := e |}
            = (Ok fs, {| pending := rest; closing := e |}).
Proof.
  revert w; induction fs as [|f fs IH]; intros w; simpl; [|destruct (write_frame f w) as [[[]|] w1] eqn:H1].
  - intros [= ->] _. exists []. by rewrite app_nil_r.
  - intros Hw [Hf Hfs]%Forall_cons. apply write_frame_ok in H1 as (body & Hs & Hl & Hsent).
    destruct (IH _ Hw Hfs) as (bytes & Hb & Hr).
    exists (to_be_bytes (Z.of_nat (length body)) ++ body ++ bytes). split.
    + rewrite Hb, Hsent. by rewrite <-!app_assoc.
    + intros rest e. rewrite <-!app_assoc, (read_frame_app f body _ _ Hf Hs Hl). by rewrite Hr.
  - done.
Qed.

(** [read_frame] on every stream, its errors included: fewer than four
    bytes are [Eof] (or the stream's own error), a length above
    [MAX_FRAME_BYTES] is [TooLarge] with the body left unread, a body cut short
    is an I/O error, and otherwise the body is decoded. *)
Theorem read_frame_cases p e :
  read_frame {| pending := p; closing := e |} =
  if (length p <? 4)%nat then
    (Err match e with AtEof => Eof | AtError what => Io (OtherIo what) end,
     {| pending := []; closing := e |})
  else
    let len := from_be_bytes (take 4 p) in
    let p1 := drop 4 p in
    if MAX_FRAME_BYTES <? len then (Err (TooLarge len), {| pending := p1; closing := e |})
    else if Z.of_nat (length p1) <? len then
      (Err (Io match e with AtEof => UnexpectedEof | AtError what => OtherIo what end),
       {| pending := []; closing := e |})
    else
      (match deserialize (take (Z.to_nat len) p1) with Some f => Ok f | None => Err Decode end,
       {| pending := drop (Z.to_nat len) p1; closing := e |}).
Proof.
  unfold read_frame, read_exact. simpl pending. simpl closing.
  destruct (length p <? 4)%nat eqn:H4.
  - apply Nat.ltb_lt in H4. rewrite bool_decide_false by lia. by destruct e.
  - apply Nat.ltb_ge in H4. rewrite bool_decide_true by lia.
    cbn [pending closing]. set (len := from_be_bytes _). destruct (MAX_FRAME_BYTES <? len); [done|].
    pose proof (from_be_bytes_range (take 4 p)).
    destruct (_ <? len) eqn:Hb; bool_to_prop.
    + rewrite bool_decide_false by lia. by destruct e.
    + rewrite bool_decide_true by lia. unfold ok_or. by destruct (deserialize _).
Qed.

(** No frame on the wire is larger than [MAX_FRAME_BYTES] and its header:
    a body above the limit is refused before a byte is written. *)
Theorem write_frame_limit f w res w' :
  write_frame f w = (res, w') →
  match serialize f with
  | Some body =>
    if MAX_FRAME_BYTES <? Z.of_nat (length body)
    then (∃ n, res = Err (TooLarge n)) ∧ w' = w
    else (length (sent w') ≤ length (sent w) + 4 + Z.to_nat MAX_FRAME_BYTES)%nat
  | None => res = Err Decode ∧ w' = w
  end.
Proof.
  unfold write_frame. destruct (serialize f) as [body|]; [|by intros [= <- <-]].
  destruct (MAX_FRAME_BYTES <? Z.of_nat (length body)) eqn:Hm.
  - destruct (u32_max <? _); intros [= <- <-]; eauto.
  - bool_to_prop. destruct (u32_max <? _) eqn:Hu; [unfold u32_max, MAX_FRAME_BYTES in *; lia|].
    destruct (write_all _ w) as [[[]|] w1] eqn:H1; apply length_write_all in H1.
    + destruct (write_all body w1) as [[[]|] w2] eqn:H2; apply length_write_all in H2;
        intros [= <- <-]; rewrite length_to_be_bytes in H1; unfold MAX_FRAME_BYTES in *; lia.
    + intros [= <- <-]. rewrite length_to_be_bytes in H1. lia.
Qed.
End framing.

(** Witnesses, with the wire layout as the codec. *)
#[local] Existing Instances Wire.codec Wire.codec_laws.

Definition demo_writer : writer := {| sent := []; room := None |}.
Definition demo_frames : list ControlFrame :=
  [Register 1 (Some §"tok") (Http (Some §"demo")); Ping].

Lemma demo_frames_wf : Forall wf_frame demo_frames.
Proof.
  repeat constructor; simpl; unfold u8_max, wf_text, u64_max; try lia; by vm_compute.
Qed.

Lemma write_frames_read_frames_witness :
  ∃ bytes, sent (write_frames demo_frames demo_writer).2 = [] ++ bytes ∧
  ∀ rest e, read_frames 2 {| pending := bytes ++ rest; closing := e |}
            = (Ok demo_frames, {| pending := rest; closing := e |}).
Proof.
  apply (write_frames_read_frames demo_frames demo_writer
           (write_frames demo_frames demo_writer).2); [reflexivity|exact demo_frames_wf].
Defined.

Lemma write_frame_limit_witness :
  (length (sent (write_frame Ping demo_writer).2) ≤ 0 + 4 + Z.to_nat MAX_FRAME_BYTES)%nat.
Proof. exact (write_frame_limit Ping demo_writer _ _ eq_refl). Defined.
