(* ===== verification/Policy.v ===== *)
(** * Policy: who may register, and under which name

    From [crates/seamless-relay/src/tunnel.rs]: [SubdomainPrefix],
    [ReservedSubdomains], [SubdomainBlocklist], [validate_subdomain],
    [random_subdomain_with_length] and [AuthPolicy]; from [geoip.rs]:
    [GeoipFilter].  The [subtle] comparison and the MaxMind reader are
    interfaces. *)

From S2P Require Import Prelude Text Cidr.
Local Open Scope Z_scope.

(** The file system as [read_to_string] sees it. *)
Abbreviation files := IpDenyList.files.

(** [line.is_empty() || line.starts_with('#')] *)
Definition skip_line (line : str) : bool :=
  bool_decide (line = []) || starts_with §"#" line.

(** The text up to the closing quote of a message. *)
Definition quoted (s : str) : str := §"'" ++ s ++ §"'".

Section policies.
Context `{Unicode}.

(** ** Subdomain prefix *)

Record SubdomainPrefix := { prefix : option str }.

Definition prefix_check (self : SubdomainPrefix) (sub : str) : result str unit :=
  match prefix self with
  | Some p =>
    if negb (starts_with p (to_lowercase sub))
    then Err (§"subdomain must start with " ++ quoted p ++ §" (prefix enforced by this relay)")
    else Ok tt
  | None => Ok tt
  end.

Definition required (self : SubdomainPrefix) : option str := prefix self.

(** [main]: the prefix of [--subdomain-prefix], trimmed and in lower case. *)
Definition subdomain_prefix_of (arg : option str) : SubdomainPrefix :=
  {| prefix := match (λ s, to_lowercase (trim s)) <$> arg with
               | Some s => if bool_decide (s = []) then None else Some s
               | None => None
               end |}.

(** ** Reserved names *)

Record ReservedSubdomains := { names : gset str }.

Definition reserved_new (list : list str) : ReservedSubdomains :=
  {| names := list_to_set list |}.

Definition is_reserved (self : ReservedSubdomains) (sub : str) : bool :=
  bool_decide (to_lowercase sub ∈ names self).

(** A comma-separated command-line list, trimmed, in lower case, without empty
    items ([--reserved-subdomains], [--custom-domain-allowlist]). *)
Definition comma_list (arg : option str) : list str :=
  filter (λ s, s ≠ []) ((λ s, to_lowercase (trim s)) <$> split_char ","%char (default [] arg)).

Definition reserved_of (arg : option str) : ReservedSubdomains := reserved_new (comma_list arg).

(** ** Blocklist file *)

Record SubdomainBlocklist := {
  blocked : gset str;
  blocklist_path : option str;
}.

Definition blocklist_disabled : SubdomainBlocklist := {| blocked := ∅; blocklist_path := None |}.

Fixpoint blocklist_lines (ls : list str) (set : gset str) : gset str :=
  match ls with
  | [] => set
  | l :: rest =>
    let line := to_lowercase (trim l) in
    if skip_line line then blocklist_lines rest set
    else blocklist_lines rest ({[line]} ∪ set)
  end.

Definition blocklist_from_file (fs : files) (p : str) : SubdomainBlocklist :=
  match fs p with
  | Ok text => {| blocked := blocklist_lines (lines text) ∅; blocklist_path := Some p |}
  | Err _ => {| blocked := ∅; blocklist_path := Some p |}
  end.

Definition blocklist_reload (fs : files) (self : SubdomainBlocklist) : SubdomainBlocklist :=
  match blocklist_path self with
  | None => self
  | Some p =>
    match fs p with
    | Ok text => {| blocked := blocklist_lines (lines text) ∅; blocklist_path := Some p |}
    | Err _ => self
    end
  end.

Definition is_blocked (self : SubdomainBlocklist) (sub : str) : bool :=
  bool_decide (to_lowercase sub ∈ blocked self).

Definition blocklist_is_enabled (self : SubdomainBlocklist) : bool :=
  bool_decide (is_Some (blocklist_path self)).

End policies.

(** ** Names *)

Definition name_char (c : ascii) : bool := is_ascii_alphanumeric c || bool_decide (c = "-"%char).

Definition validate_subdomain (s : str) : result str unit :=
  if bool_decide (s = []) || (63 <? length s)%nat
  then Err §"subdomain must be 1–63 characters"
  else if negb (forallb name_char s)
  then Err §"subdomain may only contain [a-z0-9-]"
  else if starts_with §"-" s || ends_with §"-" s
  then Err §"subdomain must not start or end with '-'"
  else Ok tt.

Definition CHARS : str := §"abcdefghijklmnopqrstuvwxyz0123456789".

(** [draw i] is the [i]-th [rng.gen_range(0..CHARS.len())]; indexing panics
    ([None]) outside of [CHARS]. *)
Definition random_subdomain_with_length (draw : nat → Z) (length : nat) : option str :=
  mapM (λ i, CHARS !! Z.to_nat (draw i)) (seq 0 length).

(** What [gen_range(0..36)] promises. *)
Definition in_chars (draw : nat → Z) : Prop := ∀ i, 0 ≤ draw i < 36.

(** [main]: the length of an automatic name. *)
Definition clamp_subdomain_length (arg : nat) : nat := Nat.max arg 6.

(** ** Tokens *)

(** [subtle::ConstantTimeEq] on byte slices: [1u8] or [0u8]. *)
Class ConstantTimeEq := { ct_eq : str → str → Z }.
Class ConstantTimeEqLaws `{ConstantTimeEq} : Prop :=
  ct_eq_spec a b : ct_eq a b = if bool_decide (a = b) then 1 else 0.

Inductive AuthError :=
| Required
| Invalid.

Inductive LoadError :=
| ReadFailed (e : str)
| NoTokens
| OpenPolicy.

(** [None] is an open relay. *)
Record AuthPolicy := { allowed : option (gset str) }.

Definition auth_open : AuthPolicy := {| allowed := None |}.

Fixpoint token_lines (ls : list str) (set : gset str) : gset str :=
  match ls with
  | [] => set
  | l :: rest =>
    let line := trim l in
    if skip_line line then token_lines rest set else token_lines rest ({[line]} ∪ set)
  end.

Definition load_token_set (fs : files) (path : str) : result LoadError (gset str) :=
  match fs path with
  | Err e => Err (ReadFailed e)
  | Ok text =>
    let set := token_lines (lines text) ∅ in
    if bool_decide (set = ∅) then Err NoTokens else Ok set
  end.

Definition auth_from_file (fs : files) (path : str) : result LoadError AuthPolicy :=
  set ← load_token_set fs path;
  Ok {| allowed := Some set |}.

(** The policy after the call, and what the call returned. *)
Definition reload_from_file (fs : files) (path : str) (self : AuthPolicy)
    : result LoadError unit * AuthPolicy :=
  match allowed self with
  | None => (Err OpenPolicy, self)
  | Some _ =>
    match load_token_set fs path with
    | Err e => (Err e, self)
    | Ok new_set => (Ok tt, {| allowed := Some new_set |})
    end
  end.

Section auth.
Context `{ConstantTimeEq}.

(** One candidate of the loop: [eq & len_match]. *)
Definition candidate_hit (t candidate : str) : Z :=
  let len_match := if bool_decide (length candidate = length t) then 1 else 0 in
  let cmp_len := Nat.min (length candidate) (length t) in
  let eq := ct_eq (take cmp_len candidate) (take cmp_len t) in
  Z.land eq len_match.

Definition auth_check (self : AuthPolicy) (token : option str) : result AuthError unit :=
  match allowed self with
  | None => Ok tt
  | Some set =>
    match token with
    | None => Err Required
    | Some t =>
      let hit := fold_left (λ hit candidate, Z.lor hit (candidate_hit t candidate))
                   (elements set) 0 in
      if hit =? 1 then Ok tt else Err Invalid
    end
  end.
End auth.

(** ** Geo-IP *)

(** The country code MaxMind's reader has for an address. *)
Abbreviation country_db := (ip_addr → option str).

Record GeoipFilter := {
  db : option country_db;
  blocked_countries : gset str;
}.

Section geoip.
Context `{Unicode}.

(** [open_readfile] is [None] when the database cannot be opened. *)
Definition geoip_new (open_readfile : str → option country_db)
    (db_path : option str) (countries : list str) : GeoipFilter :=
  {| db := match db_path with None => None | Some path => open_readfile path end;
     blocked_countries :=
       list_to_set (filter (λ c, c ≠ []) ((λ c, to_uppercase (trim c)) <$> countries)) |}.

Definition geoip_disabled : GeoipFilter := {| db := None; blocked_countries := ∅ |}.

Definition lookup_country (reader : country_db) (ip : ip_addr) : option str :=
  to_uppercase <$> reader ip.

(** The answer, and the process-wide [GEOIP_BLOCKED_TOTAL] after it. *)
Definition geo_is_blocked (self : GeoipFilter) (ip : ip_addr) (total : Z) : bool * Z :=
  match db self with
  | None => (false, total)
  | Some reader =>
    if bool_decide (blocked_countries self = ∅) then (false, total)
    else match lookup_country reader ip with
         | Some cc =>
           if bool_decide (cc ∈ blocked_countries self) then (true, u64_add total 1)
           else (false, total)
         | None => (false, total)
         end
  end.

Definition country_code (self : GeoipFilter) (ip : ip_addr) : option str :=
  reader ← db self; lookup_country reader ip.

Definition geo_is_enabled (self : GeoipFilter) : bool :=
  bool_decide (is_Some (db self)) && negb (bool_decide (blocked_countries self = ∅)).
End geoip.

(** ** Lemmas *)

Section auth_lemmas.
Context `{ConstantTimeEqLaws}.

Lemma candidate_hit_spec t c : candidate_hit t c = if bool_decide (c = t) then 1 else 0.
Proof.
  unfold candidate_hit. rewrite ct_eq_spec.
  destruct (decide (length c = length t)) as [Hl|Hl].
  - rewrite (bool_decide_true (length c = length t)), Hl, Nat.min_id, firstn_all by done.
    rewrite <-Hl, firstn_all. by case_bool_decide.
  - rewrite (bool_decide_false (length c = length t)) by done.
    rewrite (bool_decide_false (c = t)) by congruence. by rewrite Z.land_0_r.
Qed.

Lemma fold_hits t l hit :
  hit = 0 ∨ hit = 1 →
  fold_left (λ hit candidate, Z.lor hit (candidate_hit t candidate)) l hit
  = if bool_decide (hit = 1 ∨ t ∈ l) then 1 else 0.
Proof.
  revert hit; induction l as [|c l IH]; intros hit Hhit; simpl.
  - destruct Hhit as [-> | ->]; case_bool_decide; set_solver.
  - rewrite candidate_hit_spec. rewrite IH.
    + erewrite bool_decide_ext; [done|].
      destruct Hhit as [-> | ->]; case_bool_decide; simpl; set_solver.
    + destruct Hhit as [-> | ->]; case_bool_decide; simpl; auto.
Qed.

(** C14: The constant-time loop decides exactly what it stands for: an open relay
    lets everyone in; otherwise a token is required, and it is accepted if and
    only if it is one of the file's tokens, whatever its length. *)
Theorem auth_check_spec self token :
  auth_check self token =
  match allowed self, token with
  | None, _ => Ok tt
  | Some _, None => Err Required
  | Some set, Some t => if bool_decide (t ∈ set) then Ok tt else Err Invalid
  end.
Proof.
  unfold auth_check. destruct (allowed self) as [set|]; [|done].
  destruct token as [t|]; [|done]. rewrite fold_hits by auto.
  destruct (decide (t ∈ set)) as [Ht|Ht].
  - rewrite (bool_decide_true (t ∈ set)) by done.
    by rewrite bool_decide_true by (right; by apply elem_of_elements).
  - rewrite (bool_decide_false (t ∈ set)) by done.
    rewrite bool_decide_false; [done|]. rewrite elem_of_elements. naive_solver lia.
Qed.
End auth_lemmas.

#[local] Arguments starts_with : simpl never.

Lemma elem_of_token_lines x ls set :
  x ∈ token_lines ls set ↔ x ∈ set ∨ ∃ l, l ∈ ls ∧ trim l = x ∧ skip_line x = false.
Proof.
  revert set; induction ls as [|l ls IH]; intros set; simpl; [set_solver|].
  destruct (skip_line (trim l)) eqn:E; rewrite IH; [|set_solver].
  split; [set_solver|]. intros [?|(l' & [->|?]%elem_of_cons & <- & ?)]; [set_solver|congruence|set_solver].
Qed.

Lemma load_token_set_spec fs path set :
  load_token_set fs path = Ok set →
  set ≠ ∅ ∧ ∃ text, fs path = Ok text ∧
  ∀ t, t ∈ set ↔ ∃ l, l ∈ lines text ∧ trim l = t ∧ skip_line t = false.
Proof.
  unfold load_token_set. destruct (fs path) as [text|]; [|done].
  case_bool_decide as Hne; [done|]. intros [= <-]. split; [done|].
  exists text. split; [done|]. intros t. rewrite elem_of_token_lines. set_solver.
Qed.

(** Reloads, one file system each (the file may have changed in between). *)
Fixpoint reloads (fss : list files) (path : str) (self : AuthPolicy) : AuthPolicy :=
  match fss with
  | [] => self
  | fs :: rest => reloads rest path (reload_from_file fs path self).2
  end.

Definition tokens_of (text : str) (t : str) : Prop :=
  ∃ l, l ∈ lines text ∧ trim l = t ∧ skip_line t = false.

Definition loads (path : str) (fs : files) : Prop := is_ok (load_token_set fs path) = true.
#[local] Instance loads_dec path fs : Decision (loads path fs) := decide (_ = true).

(** The set is that of the last loadable version among [hist]. *)
Definition protected (path : str) (hist : list files) (self : AuthPolicy) : Prop :=
  ∃ set fs text, allowed self = Some set ∧ set ≠ ∅ ∧
    last (filter (loads path) hist) = Some fs ∧ fs path = Ok text ∧
    ∀ t, t ∈ set ↔ tokens_of text t.

Lemma protected_loaded path hist fs set :
  load_token_set fs path = Ok set → protected path (hist ++ [fs]) {| allowed := Some set |}.
Proof.
  intros E. assert (loads path fs) as Hl by (unfold loads; by rewrite E).
  apply load_token_set_spec in E as (Hne & text & Ht & Hs). exists set, fs, text.
  split; [done|]. split; [done|]. split; [|done].
  by rewrite filter_app, (filter_cons_True _ fs []), filter_nil, last_snoc by done.
Qed.

Lemma protected_reload path hist fs self :
  protected path hist self → protected path (hist ++ [fs]) (reload_from_file fs path self).2.
Proof.
  intros Hp. pose proof Hp as (set & good & text & Ha & Hrest).
  unfold reload_from_file. rewrite Ha.
  destruct (load_token_set fs path) as [new|e] eqn:E; [by apply protected_loaded|].
  exists set, good, text. split; [exact Ha|].
  assert (¬ loads path fs) as Hn by (unfold loads; by rewrite E).
  by rewrite filter_app, (filter_cons_False _ fs []), filter_nil, app_nil_r by done.
Qed.

Lemma protected_reloads path fss hist self :
  protected path hist self → protected path (hist ++ fss) (reloads fss path self).
Proof.
  revert hist self. induction fss as [|fs fss IH]; intros hist self Hp; simpl.
  - by rewrite app_nil_r.
  - rewrite (cons_middle fs), app_assoc. by apply IH, protected_reload.
Qed.

(** C15: A relay started with a token file stays closed whatever happens to the
    file: after any number of reloads the set is not empty, and it holds exactly
    the tokens of the last version of the file that could be loaded. *)
Theorem reloads_stay_protected fss fs0 path self0 :
  auth_from_file fs0 path = Ok self0 →
  ∃ set fs text, allowed (reloads fss path self0) = Some set ∧ set ≠ ∅ ∧
    last (filter (loads path) (fs0 :: fss)) = Some fs ∧ fs path = Ok text ∧
    ∀ t, t ∈ set ↔ tokens_of text t.
Proof.
  unfold auth_from_file. destruct (load_token_set fs0 path) as [set0|] eqn:E; [|done].
  intros [= <-]. apply (protected_reloads path fss [fs0]).
  by apply (protected_loaded path []).
Qed.

Lemma reloads_stay_protected_witness :
  ∃ set fs text,
    allowed (reloads [one_file §"gone" []] §"t" {| allowed := Some {[§"tok"]} |}) = Some set ∧
    set ≠ ∅ ∧ last (filter (loads §"t") [one_file §"t" §" tok"; one_file §"gone" []]) = Some fs ∧
    fs §"t" = Ok text ∧
    ∀ t, t ∈ set ↔ tokens_of text t.
Proof.
  apply (reloads_stay_protected [one_file §"gone" []] (one_file §"t" §" tok") §"t").
  by vm_compute.
Defined.

Section names_lemmas.
Context `{Unicode}.

Lemma elem_of_blocklist_lines x ls set :
  x ∈ blocklist_lines ls set ↔
  x ∈ set ∨ ∃ l, l ∈ ls ∧ to_lowercase (trim l) = x ∧ skip_line x = false.
Proof.
  revert set; induction ls as [|l ls IH]; intros set; simpl; [set_solver|].
  destruct (skip_line (to_lowercase (trim l))) eqn:E; rewrite IH; [|set_solver].
  split; [set_solver|].
  intros [?|(l' & [->|?]%elem_of_cons & <- & ?)]; [set_solver|congruence|set_solver].
Qed.

(** A blocklist blocks a name, in any letter case, exactly when a line of its
    file is that name; a reload takes the new file, and one that cannot read the
    file leaves the list as it was. *)
Theorem blocklist_spec fs p text self sub :
  fs p = Ok text → blocklist_path self = Some p →
  (is_blocked (blocklist_reload fs self) sub = true ↔
   ∃ l, l ∈ lines text ∧ to_lowercase (trim l) = to_lowercase sub ∧
        skip_line (to_lowercase sub) = false) ∧
  blocklist_reload fs self = blocklist_from_file fs p ∧
  ∀ fs' e, fs' p = Err e → blocklist_reload fs' self = self.
Proof.
  intros Hfs Hp. unfold blocklist_reload, blocklist_from_file, is_blocked. rewrite Hp, Hfs.
  cbn [blocked]. rewrite bool_decide_eq_true, elem_of_blocklist_lines.
  split_and!; [set_solver|done|by intros fs' e ->].
Qed.
End names_lemmas.

(** Text that is ASCII in the examples: the tables are never consulted. *)
Definition ascii_only : Unicode := {| unicode_lower := id; unicode_upper := id |}.

Lemma blocklist_spec_witness :
  let self := {| blocked := ∅; blocklist_path := Some §"b" |} in
  let fs := one_file §"b" (§"# phish" ++ [cr; lf] ++ §" PayPal ") in
  (@is_blocked ascii_only (@blocklist_reload ascii_only fs self) §"pAYPAL" = true ↔
   ∃ l, l ∈ lines (§"# phish" ++ [cr; lf] ++ §" PayPal ") ∧
        @to_lowercase ascii_only (trim l) = @to_lowercase ascii_only §"pAYPAL" ∧
        skip_line (@to_lowercase ascii_only §"pAYPAL") = false) ∧
  @blocklist_reload ascii_only fs self = @blocklist_from_file ascii_only fs §"b" ∧
  ∀ fs' e, fs' §"b" = Err e → @blocklist_reload ascii_only fs' self = self.
Proof. intros self fs. by apply (@blocklist_spec ascii_only fs §"b"). Defined.

(** [validate_subdomain] accepts exactly the host-name labels: 1 to 63 ASCII
    letters, digits and hyphens, with no hyphen at either end. *)
Theorem validate_subdomain_spec s :
  validate_subdomain s = Ok tt ↔
  (1 ≤ length s ≤ 63)%nat ∧ (∀ c, c ∈ s → name_char c = true) ∧
  head s ≠ Some "-"%char ∧ last s ≠ Some "-"%char.
Proof.
  assert (∀ l, starts_with §"-" l = bool_decide (head l = Some "-"%char)) as Hs.
  { intros [|c l]; [done|]. unfold starts_with. simpl. rewrite andb_true_r.
    apply bool_decide_ext. naive_solver. }
  unfold validate_subdomain, ends_with. change (reverse §"-") with §"-".
  rewrite !Hs, head_reverse. destruct s as [|c s].
  { simpl. split; [done|]. intros [[? _] _]. lia. }
  rewrite bool_decide_false by done. rewrite orb_false_l.
  destruct (63 <? length (c :: s))%nat eqn:Hl.
  { split; [done|]. apply Nat.ltb_lt in Hl. intros [[_ ?] _]. lia. }
  apply Nat.ltb_ge in Hl. destruct (forallb name_char (c :: s)) eqn:Hc; cbn [negb].
  - rewrite forallb_forall in Hc. setoid_rewrite <-list_elem_of_In in Hc.
    destruct (bool_decide (head _ = _)) eqn:Hh; bool_to_prop; [naive_solver|].
    destruct (bool_decide (last _ = _)) eqn:Ht; bool_to_prop; [naive_solver|].
    split; [|done]. intros _. repeat split; [simpl; lia|lia|done..].
  - split; [done|]. intros (_ & Hall & _). exfalso. apply not_true_iff_false in Hc. apply Hc.
    apply forallb_forall. intros x Hx. by apply Hall, list_elem_of_In.
Qed.

Lemma CHARS_name i c : CHARS !! i = Some c → name_char c = true ∧ c ≠ "-"%char.
Proof.
  intros Hi. assert (Forall (λ c, name_char c = true ∧ c ≠ "-"%char) CHARS) as Hall.
  { unfold CHARS. repeat constructor; by vm_compute. }
  by apply (Forall_lookup_1 _ _ _ _ Hall Hi).
Qed.

(** With [gen_range(0..36)] in its range, an automatic name never panics, has
    the length asked for, and is one that [validate_subdomain] would accept as long
    as that length is at most 63; the length clamped by [main] is at least 6. *)
Theorem random_subdomain_valid draw arg :
  in_chars draw →
  ∃ s, random_subdomain_with_length draw (clamp_subdomain_length arg) = Some s ∧
       length s = Nat.max arg 6 ∧
       (validate_subdomain s = Ok tt ↔ (arg ≤ 63)%nat).
Proof.
  intros Hd. unfold random_subdomain_with_length, clamp_subdomain_length.
  set (n := Nat.max arg 6).
  destruct (mapM (λ i, CHARS !! Z.to_nat (draw i)) (seq 0 n)) as [s|] eqn:E.
  2: { apply mapM_None_1, Exists_exists in E as (i & _ & Hi).
       apply lookup_ge_None in Hi. change (length CHARS) with 36%nat in Hi.
       specialize (Hd i). lia. }
  apply mapM_Some_1 in E as Hf.
  assert (length s = n) as Hlen by (apply Forall2_length in Hf; rewrite length_seq in Hf; done).
  assert (∀ c, c ∈ s → name_char c = true ∧ c ≠ "-"%char) as Hc.
  { intros c (k & Hk)%list_elem_of_lookup.
    destruct (Forall2_lookup_r _ _ _ _ _ Hf Hk) as (i & _ & Hi). by apply CHARS_name in Hi. }
  exists s. split; [done|]. split; [done|]. rewrite validate_subdomain_spec, Hlen.
  split; [unfold n; lia|]. intros Harg. repeat split; try (unfold n; lia).
  - intros c Hin. by apply Hc.
  - destruct s as [|c s]; [done|]. intros [= ->]. by destruct (Hc "-"%char) as [_ []]; [left|].
  - intros Hl%last_Some_elem_of. by destruct (Hc _ Hl).
Qed.

Lemma random_subdomain_valid_witness :
  ∃ s, random_subdomain_with_length (λ i, Z.of_nat i mod 36) (clamp_subdomain_length 8)
       = Some s ∧ length s = 8%nat ∧ (validate_subdomain s = Ok tt ↔ (8 ≤ 63)%nat).
Proof.
  apply (random_subdomain_valid (λ i, Z.of_nat i mod 36) 8).
  intros i. apply Z.mod_pos_bound. lia.
Defined.

(** The comparison the documentation of [subtle] describes. *)
Definition slice_ct_eq : ConstantTimeEq :=
  {| ct_eq a b := if bool_decide (a = b) then 1 else 0 |}.
#[export] Instance slice_ct_eq_laws : @ConstantTimeEqLaws slice_ct_eq.
Proof. done. Qed.

Lemma auth_check_spec_witness :
  @auth_check slice_ct_eq {| allowed := Some {[§"tok"]} |} (Some §"tokk") = Err Invalid.
Proof. by rewrite (@auth_check_spec slice_ct_eq slice_ct_eq_laws). Defined.
