(* ===== verification/RateLimit.v ===== *)
(** * RateLimit: the sliding-window limiter and the per-tunnel token bucket

    [RateLimiter] and [DDoSProtection] of [crates/seamless-relay/src/tunnel.rs].
    An [Instant] is a number of nanoseconds; [f64] is the kernel's binary64. *)

From S2P Require Import Prelude F64.
Local Open Scope Z_scope.

(** [Instant::duration_since], which saturates at zero. *)
Definition duration_since (now t : Z) : Z := Z.max 0 (now - t).

Module RateLimiter.

(** ** State *)

Record RateLimiter := {
  inner : gmap str (list Z);
  max : Z;
  window : Z;
}.

Definition new (max window : Z) : RateLimiter :=
  {| inner := ∅; max := max; window := window |}.

(** ** The check, made at the instant [now] *)

Definition fresh (now window t : Z) : Prop := duration_since now t < window.
#[export] Instance fresh_dec now window t : Decision (fresh now window t).
Proof. apply Z_lt_dec. Defined.

Definition check_and_record (self : RateLimiter) (ip : str) (now : Z) : bool * RateLimiter :=
  if max self =? 0 then (true, self)
  else
    let queue := filter (fresh now (window self)) (default [] (inner self !! ip)) in
    if max self <=? wrap 32 (Z.of_nat (length queue))
    then (false, {| inner := <[ip := queue]> (inner self); max := max self;
                    window := window self |})
    else (true, {| inner := <[ip := queue ++ [now]]> (inner self); max := max self;
                   window := window self |}).

Fixpoint run (self : RateLimiter) (calls : list (str * Z)) : list bool * RateLimiter :=
  match calls with
  | [] => ([], self)
  | (ip, now) :: rest =>
    let '(ok, self1) := check_and_record self ip now in
    let '(oks, self2) := run self1 rest in
    (ok :: oks, self2)
  end.

(** ** Specification: keep every admitted call for ever *)

Definition admitted_times (ip : str) (hist : list (str * Z)) : list Z :=
  snd <$> filter (λ c, c.1 = ip) hist.

Definition spec_check (mx w : Z) (hist : list (str * Z)) (ip : str) (now : Z) : bool :=
  Z.of_nat (length (filter (fresh now w) (admitted_times ip hist))) <? mx.

Fixpoint spec_run (mx w : Z) (hist : list (str * Z)) (calls : list (str * Z)) : list bool :=
  match calls with
  | [] => []
  | (ip, now) :: rest =>
    let ok := spec_check mx w hist ip now in
    ok :: spec_run mx w (if ok then hist ++ [(ip, now)] else hist) rest
  end.

(** The calls of a run that were admitted. *)
Fixpoint admitted (calls : list (str * Z)) (oks : list bool) : list (str * Z) :=
  match calls, oks with
  | c :: cs, ok :: os => if ok then c :: admitted cs os else admitted cs os
  | _, _ => []
  end.
End RateLimiter.

(** ** Token bucket *)

Module DDoS.
Local Open Scope float_scope.

Record DDoSProtection := {
  enabled : bool;
  rps_atomic : Z;
  burst_atomic : Z;
  blocked_count : Z;
  challenge_mode : bool;
  tokens : float;
  last_refill : Z;
}.

Definition new (rps burst now : Z) : DDoSProtection :=
  {| enabled := false; rps_atomic := rps; burst_atomic := burst; blocked_count := 0;
     challenge_mode := true; tokens := f64_of_Z burst; last_refill := now |}.

Definition get_rps (self : DDoSProtection) : Z := wrap 32 (rps_atomic self).
Definition get_burst (self : DDoSProtection) : Z := wrap 32 (burst_atomic self).

Definition set_enabled (v : bool) (self : DDoSProtection) : DDoSProtection :=
  {| enabled := v; rps_atomic := rps_atomic self; burst_atomic := burst_atomic self;
     blocked_count := blocked_count self; challenge_mode := challenge_mode self;
     tokens := tokens self; last_refill := last_refill self |}.
Definition set_rps (v : Z) (self : DDoSProtection) : DDoSProtection :=
  {| enabled := enabled self; rps_atomic := v; burst_atomic := burst_atomic self;
     blocked_count := blocked_count self; challenge_mode := challenge_mode self;
     tokens := tokens self; last_refill := last_refill self |}.
Definition set_burst (v : Z) (self : DDoSProtection) : DDoSProtection :=
  {| enabled := enabled self; rps_atomic := rps_atomic self; burst_atomic := v;
     blocked_count := blocked_count self; challenge_mode := challenge_mode self;
     tokens := tokens self; last_refill := last_refill self |}.
Definition set_challenge (v : bool) (self : DDoSProtection) : DDoSProtection :=
  {| enabled := enabled self; rps_atomic := rps_atomic self; burst_atomic := burst_atomic self;
     blocked_count := blocked_count self; challenge_mode := v;
     tokens := tokens self; last_refill := last_refill self |}.

Definition refilled (self : DDoSProtection) (now : Z) : float :=
  let elapsed := as_secs_f64 (duration_since now (last_refill self)) in
  f64_min (tokens self + elapsed * f64_of_Z (get_rps self)) (f64_of_Z (get_burst self)).

Definition check (self : DDoSProtection) (now : Z) : bool * DDoSProtection :=
  if negb (enabled self) then (true, self)
  else if (get_rps self =? 0)%Z then (true, self)
  else
    let tok := refilled self now in
    if 1 <=? tok
    then (true, {| enabled := enabled self; rps_atomic := rps_atomic self;
                   burst_atomic := burst_atomic self; blocked_count := blocked_count self;
                   challenge_mode := challenge_mode self; tokens := tok - 1;
                   last_refill := now |})
    else (false, {| enabled := enabled self; rps_atomic := rps_atomic self;
                    burst_atomic := burst_atomic self;
                    blocked_count := u64_add (blocked_count self) 1;
                    challenge_mode := challenge_mode self; tokens := tok;
                    last_refill := now |}).

(** The verdicts of a series of requests. *)
Fixpoint checks (self : DDoSProtection) (nows : list Z) : list bool * DDoSProtection :=
  match nows with
  | [] => ([], self)
  | now :: rest =>
    let '(ok, self1) := check self now in
    let '(oks, self2) := checks self1 rest in
    (ok :: oks, self2)
  end.
End DDoS.

(** ** Lemmas: the sliding window *)

Section limiter.
Import RateLimiter.
Implicit Types (hist calls : list (str * Z)) (rl : RateLimiter).

Lemma fresh_mono now now' w t : now ≤ now' → fresh now' w t → fresh now w t.
Proof. unfold fresh, duration_since. lia. Qed.

Lemma filter_fresh_twice now now' w (l : list Z) :
  now ≤ now' → filter (fresh now' w) (filter (fresh now w) l) = filter (fresh now' w) l.
Proof.
  intros Hle. rewrite list_filter_filter. apply list_filter_iff. intros t.
  pose proof (fresh_mono now now' w t Hle). tauto.
Qed.

(** Each queue is the admitted calls that some earlier instant found fresh. *)
Definition agrees rl hist (last : Z) : Prop :=
  ∀ ip, ∃ t, t ≤ last ∧
    default [] (inner rl !! ip) = filter (fresh t (window rl)) (admitted_times ip hist).

Lemma agrees_filter rl hist last ip now :
  agrees rl hist last → last ≤ now →
  filter (fresh now (window rl)) (default [] (inner rl !! ip))
  = filter (fresh now (window rl)) (admitted_times ip hist).
Proof. intros Ha Hle. destruct (Ha ip) as (t & Ht & ->). apply filter_fresh_twice. lia. Qed.

Lemma admitted_times_snoc ip ip' now hist :
  admitted_times ip (hist ++ [(ip', now)])
  = admitted_times ip hist ++ (if decide (ip' = ip) then [now] else []).
Proof.
  unfold admitted_times. rewrite filter_app, fmap_app. f_equal.
  rewrite filter_cons. simpl. by case_decide.
Qed.

Lemma length_admitted_times ip hist : (length (admitted_times ip hist) ≤ length hist)%nat.
Proof. unfold admitted_times. rewrite length_fmap. apply filter_length_le. Qed.

(** One check decides as the specification does, and keeps the agreement. *)
Lemma agrees_step rl hist last ip now b rl' :
  0 < max rl → 0 < window rl → agrees rl hist last → last ≤ now →
  Z.of_nat (length hist) < 2 ^ 32 →
  check_and_record rl ip now = (b, rl') →
  b = spec_check (max rl) (window rl) hist ip now ∧
  max rl' = max rl ∧ window rl' = window rl ∧
  agrees rl' (if b then hist ++ [(ip, now)] else hist) now.
Proof.
  intros Hmax Hw Ha Hle Hlen. unfold check_and_record, spec_check.
  rewrite (proj2 (Z.eqb_neq (max rl) 0)), (agrees_filter _ _ _ _ _ Ha Hle) by lia.
  set (q := filter _ (admitted_times ip hist)).
  assert (Z.of_nat (length q) < 2 ^ 32) as Hq.
  { pose proof (filter_length_le (fresh now (window rl)) (admitted_times ip hist)).
    pose proof (length_admitted_times ip hist). unfold q. lia. }
  rewrite wrap_small by lia.
  assert (fresh now (window rl) now) as Hnow by (unfold fresh, duration_since; lia).
  destruct (max rl <=? Z.of_nat (length q)) eqn:E; intros [= <- <-]; bool_to_prop;
    (split; [symmetry; (apply Z.ltb_ge || apply Z.ltb_lt); lia|]);
    (split; [done|]); (split; [done|]); intros ip'; simpl;
    (destruct (decide (ip = ip')) as [<-|Hne];
      [exists now; split; [done|]; rewrite lookup_insert_eq; simpl
      |destruct (Ha ip') as (t & Ht & Hd); exists t; split; [lia|];
       rewrite lookup_insert_ne, Hd by done]).
  - done.
  - done.
  - rewrite admitted_times_snoc, decide_True, filter_app by done.
    rewrite filter_cons_True by done. done.
  - by rewrite admitted_times_snoc, decide_False, app_nil_r by done.
Qed.

(** The agreement carried along a run. *)
Lemma limiter_run rl calls last :
  0 < max rl → 0 < window rl → inner rl = ∅ →
  Forall (λ c, last ≤ c.2) calls → Sorted Z.le (calls.*2) →
  Z.of_nat (length calls) < 2 ^ 32 →
  (run rl calls).1 = spec_run (max rl) (window rl) [] calls.
Proof.
  intros Hmax Hw Hin Hlast Hs Hlen.
  assert (agrees rl [] last) as Ha.
  { intros ip. exists last. split; [done|]. by rewrite Hin, lookup_empty. }
  assert (Z.of_nat (length (@nil (str * Z)) + length calls) < 2 ^ 32) as Hl by (simpl; lia).
  clear Hin Hlen. revert rl last Hmax Hw Hlast Hs Ha Hl. generalize (@nil (str * Z)) as hist.
  induction calls as [|[ip now] calls IH]; intros hist rl last Hmax Hw Hlast Hs Ha Hl; [done|].
  apply Forall_cons in Hlast as [Hnow _]. simpl in Hnow.
  rewrite fmap_cons in Hs. apply Sorted_StronglySorted in Hs; [|intros ???; lia].
  apply StronglySorted_inv in Hs as [Hs Hall]. simpl. simpl in Hl.
  destruct (check_and_record rl ip now) as [b rl'] eqn:Hc.
  destruct (agrees_step rl hist last ip now b rl') as (-> & Hm & Hw' & Ha'); try done; [lia|].
  rewrite <-Hm, <-Hw' in *. set (ok := spec_check _ _ hist ip now) in *.
  destruct (run rl' calls) as [oks rl''] eqn:Hr. simpl. f_equal.
  rewrite <-(IH (if ok then hist ++ [(ip, now)] else hist) rl' now); try done.
  - by rewrite Hr.
  - by apply (proj1 (Forall_fmap snd _ _)) in Hall.
  - by apply StronglySorted_Sorted.
  - destruct ok; rewrite ?length_app; simpl; lia.
Qed.

(** C13: With a positive limit and calls at non-decreasing instants, the
    limiter, which drops stale entries, answers as the specification that remembers every admitted call:
    a call is let in exactly when fewer than [max] calls of its address were let
    in less than [window] before it. *)
Theorem run_refines_spec rl calls last :
  0 < max rl → 0 < window rl → inner rl = ∅ →
  Forall (λ c, last ≤ c.2) calls → Sorted Z.le (calls.*2) →
  Z.of_nat (length calls) < 2 ^ 32 →
  (run rl calls).1 = spec_run (max rl) (window rl) [] calls.
Proof. apply limiter_run. Qed.

(** Entries [mx] apart are at least [w] apart in time. *)
Definition spaced (mx : nat) (w : Z) (l : list Z) : Prop :=
  ∀ i j a b, l !! i = Some a → l !! j = Some b → (i + mx ≤ j)%nat → w ≤ b - a.

Lemma fresh_suffix now w l i a :
  StronglySorted Z.le l → l !! i = Some a → fresh now w a →
  (length l - i ≤ length (filter (fresh now w) l))%nat.
Proof.
  intros Hs. revert i; induction Hs as [|x l Hs IH Hall]; intros i Hi Hf; [done|].
  rewrite filter_cons. destruct i as [|i]; simpl in *.
  - injection Hi as ->. rewrite decide_True by done. simpl.
    assert (filter (fresh now w) l = l) as ->; [|lia].
    clear IH Hs. induction Hall as [|y l Hy _ IH]; [done|].
    rewrite filter_cons_True, IH; [done|]. unfold fresh, duration_since in *. lia.
  - specialize (IH i Hi Hf). case_decide; simpl; lia.
Qed.

Lemma spaced_snoc mx w l now :
  0 < w → (0 < mx)%nat → spaced mx w l → StronglySorted Z.le l → Forall (λ t, t ≤ now) l →
  (length (filter (fresh now w) l) < mx)%nat → spaced mx w (l ++ [now]).
Proof.
  intros Hw Hmx Hsp Hs Hall Hc i j a b Hi Hj Hij.
  apply lookup_app_Some in Hj as [Hj|[Hj Hb]].
  - rewrite lookup_app_l in Hi by (apply lookup_lt_Some in Hj; lia). by apply (Hsp i j).
  - apply list_lookup_singleton_Some in Hb as [Hjl <-].
    rewrite lookup_app_l in Hi by lia.
    destruct (decide (fresh now w a)) as [Hf|Hf].
    + pose proof (fresh_suffix now w l i a Hs Hi Hf). lia.
    + apply (Forall_lookup_1 _ _ _ _ Hall) in Hi. unfold fresh, duration_since in Hf. lia.
Qed.

Lemma StronglySorted_snoc (l : list Z) x :
  StronglySorted Z.le l → Forall (λ t, t ≤ x) l → StronglySorted Z.le (l ++ [x]).
Proof.
  induction 1 as [|y l Hs IH Hy]; intros Hx; simpl; [by repeat constructor|].
  apply Forall_cons in Hx as [? ?]. constructor; [by apply IH|].
  apply Forall_app. split; [done|by repeat constructor].
Qed.

Lemma spec_run_spaced mx w ip hist calls last :
  0 < mx → 0 < w →
  Forall (λ c, last ≤ c.2) calls → StronglySorted Z.le (calls.*2) →
  spaced (Z.to_nat mx) w (admitted_times ip hist) →
  StronglySorted Z.le (admitted_times ip hist) →
  Forall (λ t, t ≤ last) (admitted_times ip hist) →
  spaced (Z.to_nat mx) w
    (admitted_times ip (hist ++ admitted calls (spec_run mx w hist calls))).
Proof.
  intros Hmx Hw. revert hist last.
  induction calls as [|[ip' now] calls IH]; intros hist last Hl Hs Hsp Hss Hb;
    [by rewrite app_nil_r|].
  apply Forall_cons in Hl as [Hnow _]. simpl in Hnow.
  rewrite fmap_cons in Hs. apply StronglySorted_inv in Hs as [Hs Hall].
  apply (proj1 (Forall_fmap snd _ _)) in Hall.
  assert (Forall (λ t, t ≤ now) (admitted_times ip hist)) as Hb'.
  { eapply Forall_impl; [exact Hb|]. simpl. lia. }
  simpl. destruct (spec_check mx w hist ip' now) eqn:E; [|by apply (IH hist now)].
  rewrite cons_middle, app_assoc. apply (IH (hist ++ [(ip', now)]) now); [done..| | |];
    rewrite admitted_times_snoc; case_decide as Hip; rewrite ?app_nil_r; try done.
  - subst ip'. unfold spec_check in E. bool_to_prop.
    apply spaced_snoc; (done || lia).
  - by apply StronglySorted_snoc.
  - apply Forall_app. split; [done|]. by repeat constructor.
Qed.

Lemma run_spaced mx w calls ip i a b :
  0 < mx → 0 < w → Sorted Z.le (calls.*2) → Z.of_nat (length calls) < 2 ^ 32 →
  let times := admitted_times ip (admitted calls (run (new mx w) calls).1) in
  times !! i = Some a → times !! (i + Z.to_nat mx)%nat = Some b → w ≤ b - a.
Proof.
  intros Hmx Hw Hs Hlen times Ha Hb.
  apply Sorted_StronglySorted in Hs; [|intros ???; lia].
  set (last := default 0 (head (calls.*2))).
  assert (Forall (λ c, last ≤ c.2) calls) as Hl.
  { destruct calls as [|[ip0 t0] calls]; [done|]. rewrite fmap_cons in Hs.
    apply StronglySorted_inv in Hs as [_ Hall]. unfold last. simpl.
    apply (proj1 (Forall_fmap snd _ _)) in Hall. by constructor. }
  pose proof (limiter_run (new mx w) calls last Hmx Hw eq_refl Hl
                (StronglySorted_Sorted Hs) Hlen) as Hr.
  unfold times in *. rewrite Hr in Ha, Hb.
  eapply (spec_run_spaced mx w ip [] calls last Hmx Hw Hl Hs); [..|exact Ha|exact Hb|done];
    (done || constructor).
Qed.
(** The rate limit holds: of the calls of one address that are let in, any
    two that are [max] apart are at least [window] apart in time, so no window
    holds more than [max] of them. *)
Theorem run_rate_limited mx w calls ip i a b :
  0 < mx → 0 < w → Sorted Z.le (calls.*2) → Z.of_nat (length calls) < 2 ^ 32 →
  let times := admitted_times ip (admitted calls (run (new mx w) calls).1) in
  times !! i = Some a → times !! (i + Z.to_nat mx)%nat = Some b → w ≤ b - a.
Proof. apply run_spaced. Qed.
End limiter.

Definition demo_calls : list (str * Z) :=
  [(§"1.1.1.1", 0); (§"1.1.1.1", 1); (§"2.2.2.2", 1); (§"1.1.1.1", 2); (§"1.1.1.1", 60)].

Lemma run_refines_spec_witness :
  (RateLimiter.run (RateLimiter.new 2 60) demo_calls).1 = [true; true; true; false; true] ∧
  (RateLimiter.run (RateLimiter.new 2 60) demo_calls).1
  = RateLimiter.spec_run 2 60 [] demo_calls.
Proof.
  split; [by vm_compute|].
  apply (run_refines_spec (RateLimiter.new 2 60) demo_calls 0); try done;
    repeat constructor; simpl; lia.
Defined.

Lemma run_rate_limited_witness : 60 ≤ 60 - 0.
Proof.
  apply (run_rate_limited 2 60 demo_calls §"1.1.1.1" 0); try done; [repeat constructor; simpl; lia|..];
    by vm_compute.
Defined.

(** ** The token bucket at one instant *)

Section bucket.
Import DDoS.

(** The bucket of a new tunnel, once protection is enabled, with [tok] tokens
    and [b] requests blocked. *)
Definition bucket_at (t : Z) (tok : float) (b : Z) : DDoSProtection :=
  {| enabled := true; rps_atomic := 100; burst_atomic := 200; blocked_count := b;
     challenge_mode := true; tokens := tok; last_refill := t |}.

(** A request at the instant of the last refill, on the tokens alone. *)
Definition bucket_step (tok : float) : bool * float :=
  let tok := f64_min (tok + as_secs_f64 0 * f64_of_Z 100)%float (f64_of_Z 200) in
  if (1 <=? tok)%float then (true, (tok - 1)%float) else (false, tok).

Lemma check_at t tok b :
  check (bucket_at t tok b) t
  = ((bucket_step tok).1,
     bucket_at t (bucket_step tok).2 (if (bucket_step tok).1 then b else u64_add b 1)).
Proof.
  unfold check, refilled, bucket_step. cbn [enabled rps_atomic last_refill tokens bucket_at].
  replace (duration_since t t) with 0 by (unfold duration_since; lia).
  change (get_rps (bucket_at t tok b)) with 100. change (get_burst (bucket_at t tok b)) with 200.
  cbn [negb]. change (100 =? 0) with false. cbv iota. by destruct (1 <=? _)%float.
Qed.

Fixpoint bucket_steps (n : nat) (tok : float) : list bool * float :=
  match n with
  | O => ([], tok)
  | S n' => let '(ok, tok) := bucket_step tok in
            let '(oks, tok) := bucket_steps n' tok in (ok :: oks, tok)
  end.

Lemma checks_at t n tok b :
  (checks (bucket_at t tok b) (replicate n t)).1 = (bucket_steps n tok).1.
Proof.
  revert tok b. induction n as [|n IH]; intros tok b; [done|].
  cbn [replicate checks bucket_steps]. rewrite check_at.
  destruct (bucket_step tok) as [ok tok']. cbn [fst snd].
  pose proof (IH tok' (if ok then b else u64_add b 1)) as E.
  destruct (checks _ _) as [oks st]. destruct (bucket_steps n tok') as [oks' tok''].
  cbn [fst] in *. by rewrite E.
Qed.

Lemma bucket_empty n : (bucket_steps n 0).1 = replicate n false.
Proof.
  induction n as [|n IH]; [done|]. cbn [bucket_steps replicate].
  assert (E : bucket_step 0 = (false, 0%float)) by (vm_compute; reflexivity).
  rewrite E. destruct (bucket_steps n 0) as [oks tok]. cbn [fst] in *. by rewrite IH.
Qed.

Lemma bucket_steps_app n m tok :
  bucket_steps (n + m) tok
  = let '(a, tok1) := bucket_steps n tok in
    let '(b, tok2) := bucket_steps m tok1 in (a ++ b, tok2).
Proof.
  revert tok. induction n as [|n IH]; intros tok; cbn [Nat.add bucket_steps].
  - by destruct (bucket_steps m tok).
  - destruct (bucket_step tok) as [ok tok1]. rewrite IH.
    destruct (bucket_steps n tok1) as [a tok2]. by destruct (bucket_steps m tok2).
Qed.

(** The burst of a tunnel's protection is exact: of the requests that
    reach a newly protected tunnel (100 per second, burst 200) at one
    instant, the first 200 pass and every further one is blocked. *)
Theorem ddos_burst_exact t n :
  (checks (set_enabled true (new 100 200 t)) (replicate (200 + n) t)).1
  = replicate 200 true ++ replicate n false.
Proof.
  change (set_enabled true (new 100 200 t)) with (bucket_at t (f64_of_Z 200) 0).
  rewrite checks_at, bucket_steps_app.
  assert (E : bucket_steps 200 (f64_of_Z 200) = (replicate 200 true, 0%float))
    by (vm_compute; reflexivity).
  rewrite E. pose proof (bucket_empty n) as B. destruct (bucket_steps n 0) as [b tok].
  cbn [fst] in *. by rewrite B.
Qed.
End bucket.
