(* ===== verification/Metrics.v ===== *)
(** * Metrics: the relay's counters and its latency histogram

    [crates/seamless-relay/src/metrics.rs].  Every counter is an [AtomicU64]:
    an update is one step and wraps. *)

From S2P Require Import Prelude F64.
Local Open Scope Z_scope.
#[local] Set Warnings "-inexact-float".

(** ** Histogram *)

Record Histogram := {
  bounds : list float;
  buckets : list Z;
  count : Z;
  sum_us : Z;
}.

Definition LATENCY_BOUNDS : list float :=
  [0.005; 0.01; 0.025; 0.05; 0.1; 0.25; 0.5; 1.0; 2.5]%float.

Definition histogram_new (bounds : list float) : Histogram :=
  {| bounds := bounds; buckets := replicate (length bounds) 0; count := 0; sum_us := 0 |}.

Definition f64_leb (a b : float) : bool := (a <=? b)%float.

Definition observe (self : Histogram) (secs : float) : Histogram :=
  {| bounds := bounds self;
     buckets := zip_with (λ bound b, if f64_leb secs bound then u64_add b 1 else b)
                  (bounds self) (buckets self);
     count := u64_add (count self) 1;
     sum_us := u64_add (sum_us self) (f64_as_u64 (secs * 1000000.0)%float) |}.

(** ** Counters *)

Record Metrics := {
  bytes_in : Z;
  bytes_out : Z;
  connections_total : Z;
  handshake_ms_total : Z;
  handshake_count : Z;
  auth_failures_total : Z;
  rate_limit_hits_total : Z;
  tunnel_cap_rejections_total : Z;
  subdomain_invalid_total : Z;
  tunnel_per_ip_rejections_total : Z;
  request_duration : Histogram;
  ws_connections_active : Z;
  geoip_blocked_total : Z;
}.

Definition new_metrics : Metrics :=
  {| bytes_in := 0; bytes_out := 0; connections_total := 0; handshake_ms_total := 0;
     handshake_count := 0; auth_failures_total := 0; rate_limit_hits_total := 0;
     tunnel_cap_rejections_total := 0; subdomain_invalid_total := 0;
     tunnel_per_ip_rejections_total := 0; request_duration := histogram_new LATENCY_BOUNDS;
     ws_connections_active := 0; geoip_blocked_total := 0 |}.

(** The updates of [Metrics], one constructor per method. *)
Inductive metric_op :=
| inc_bytes_in (n : Z)
| inc_bytes_out (n : Z)
| inc_connections
| record_handshake_ms (ms : Z)
| inc_auth_failures
| inc_rate_limit_hits
| inc_tunnel_cap_rejections
| inc_subdomain_invalid
| inc_tunnel_per_ip_rejections
| inc_ws_connections
| dec_ws_connections
| inc_geoip_blocked
| record_request_duration (nanos : Z).

(** What one update adds to each counter, in the order of the record. *)
Definition delta (op : metric_op) (field : nat) : Z :=
  match op, field with
  | inc_bytes_in n, 0%nat => n
  | inc_bytes_out n, 1%nat => n
  | inc_connections, 2%nat => 1
  | record_handshake_ms ms, 3%nat => ms
  | record_handshake_ms _, 4%nat => 1
  | inc_auth_failures, 5%nat => 1
  | inc_rate_limit_hits, 6%nat => 1
  | inc_tunnel_cap_rejections, 7%nat => 1
  | inc_subdomain_invalid, 8%nat => 1
  | inc_tunnel_per_ip_rejections, 9%nat => 1
  | inc_ws_connections, 10%nat => 1
  | dec_ws_connections, 10%nat => -1
  | inc_geoip_blocked, 11%nat => 1
  | _, _ => 0
  end.

Definition apply_op (self : Metrics) (op : metric_op) : Metrics :=
  {| bytes_in := u64_add (bytes_in self) (delta op 0);
     bytes_out := u64_add (bytes_out self) (delta op 1);
     connections_total := u64_add (connections_total self) (delta op 2);
     handshake_ms_total := u64_add (handshake_ms_total self) (delta op 3);
     handshake_count := u64_add (handshake_count self) (delta op 4);
     auth_failures_total := u64_add (auth_failures_total self) (delta op 5);
     rate_limit_hits_total := u64_add (rate_limit_hits_total self) (delta op 6);
     tunnel_cap_rejections_total := u64_add (tunnel_cap_rejections_total self) (delta op 7);
     subdomain_invalid_total := u64_add (subdomain_invalid_total self) (delta op 8);
     tunnel_per_ip_rejections_total := u64_add (tunnel_per_ip_rejections_total self) (delta op 9);
     request_duration := match op with
                         | record_request_duration nanos =>
                           observe (request_duration self) (as_secs_f64 nanos)
                         | _ => request_duration self
                         end;
     ws_connections_active := u64_add (ws_connections_active self) (delta op 10);
     geoip_blocked_total := u64_add (geoip_blocked_total self) (delta op 11) |}.

Definition apply_ops (ops : list metric_op) (self : Metrics) : Metrics :=
  foldl apply_op self ops.

(** [Metrics::handshake_avg_ms] *)
Definition handshake_avg_ms (self : Metrics) : float :=
  if handshake_count self =? 0 then 0%float
  else (f64_of_Z (handshake_ms_total self) / f64_of_Z (handshake_count self))%float.

(** ** The histogram counts *)

Definition observe_all (obs : list float) (self : Histogram) : Histogram := foldl observe self obs.

Lemma observe_all_snoc obs x self : observe_all (obs ++ [x]) self = observe (observe_all obs self) x.
Proof. unfold observe_all. by rewrite foldl_app. Qed.

(** The observations of at most [bound]. *)
Definition below (bound : float) (obs : list float) : list float :=
  filter (λ x, f64_leb x bound = true) obs.

Lemma below_snoc bound obs x :
  Z.of_nat (length (below bound (obs ++ [x])))
  = Z.of_nat (length (below bound obs)) + (if f64_leb x bound then 1 else 0).
Proof.
  unfold below. rewrite filter_app, length_app, filter_cons, filter_nil.
  destruct (f64_leb x bound); simpl; lia.
Qed.

Lemma observe_buckets bs obs :
  bounds (observe_all obs (histogram_new bs)) = bs
  ∧ buckets (observe_all obs (histogram_new bs))
    = (λ bound, wrap 64 (Z.of_nat (length (below bound obs)))) <$> bs.
Proof.
  induction obs as [|x obs [IHb IH]] using rev_ind.
  - split; [done|]. cbn. induction bs as [|b bs IH]; [done|]. cbn. by rewrite IH.
  - rewrite observe_all_snoc. unfold observe at 1 2. cbn [bounds buckets]. split; [done|].
    rewrite IHb, IH, zip_with_fmap_r, zip_with_diag.
    apply list_fmap_ext. intros _ b _. rewrite below_snoc.
    destruct (f64_leb x b); [apply wrap_add_l|by rewrite Z.add_0_r].
Qed.

(** The latency histogram is cumulative as Prometheus wants it: after any
    series of observations the bucket of a bound counts those not above it and
    [count] counts all of them (both modulo 2^64). *)
Theorem histogram_cumulative (bs : list float) (obs : list float) :
  buckets (observe_all obs (histogram_new bs))
    = (λ bound, wrap 64 (Z.of_nat (length (below bound obs)))) <$> bs
  ∧ count (observe_all obs (histogram_new bs)) = wrap 64 (Z.of_nat (length obs)).
Proof.
  split; [apply observe_buckets|].
  induction obs as [|x obs IH] using rev_ind; [done|].
  rewrite observe_all_snoc. cbn [count observe]. unfold u64_add. rewrite IH, wrap_add_l, length_app.
  f_equal. simpl. lia.
Qed.

(** The histogram test of the repository. *)
Example histogram_counts_correctly :
  let h := observe_all [0.003; 0.01; 0.5; 5.0]%float (histogram_new LATENCY_BOUNDS) in
  (count h, buckets h !! 0%nat, buckets h !! 1%nat, buckets h !! 6%nat, buckets h !! 8%nat)
  = (4, Some 1, Some 2, Some 3, Some 3).
Proof. vm_compute. reflexivity. Qed.
