(* ===== verification/Exposition.v ===== *)
(** * Exposition: the text of [/metrics]

    [Histogram::render_prometheus] of [crates/seamless-relay/src/metrics.rs] and
    the page [metrics_handler] of [admin.rs] formats, with the two ways the
    standard library prints an [f64]: [{:.p}], the exact value rounded to [p]
    decimals, and [{}], the shortest decimal that reads back as the float.
    [scrape] is a reader of the format, in which the page is stated. *)

From S2P Require Import Prelude Text F64 Metrics.
Local Open Scope Z_scope.
#[local] Set Warnings "-inexact-float".

(** ** Floats as decimals *)

(** [a / b] to the nearest integer, ties to even, as [format_exact] rounds. *)
Definition rounded_div (a b : Z) : Z :=
  let q := a / b in
  match 2 * (a mod b) ?= b with
  | Lt => q
  | Gt => q + 1
  | Eq => if Z.even q then q else q + 1
  end.

(** The integer part of the largest [f64] has 309 digits. *)
Definition show_large (n : Z) : str := show_go 309 n [].

(** [n / 10 ^ p] with its [p] decimals. *)
Definition fixed (p : nat) (n : Z) : str :=
  let scale := 10 ^ Z.of_nat p in
  show_large (n / scale)
  ++ match p with O => [] | S _ => "."%char :: show_pad p (n mod scale) end.

Definition minus_sign (negative : bool) : str := if negative then §"-" else [].

(** [format!("{x:.p$}")] *)
Definition show_fixed (p : nat) (x : float) : str :=
  match Prim2SF x with
  | S754_nan => §"NaN"
  | S754_infinity s => minus_sign s ++ §"inf"
  | S754_zero s => minus_sign s ++ fixed p 0
  | S754_finite s m e =>
    let units := Z.pos m * 10 ^ Z.of_nat p in
    minus_sign s ++ fixed p (if 0 <=? e then units * 2 ^ e else rounded_div units (2 ^ (- e)))
  end.

(** A positive float [num / den] with the numbers that read back as it: those
    between [(num - minus) / den] and [(num + plus) / den], the ends included
    when the mantissa is even ([flt2dec::decode]). *)
Record decoded := {
  d_num : Z;
  d_minus : Z;
  d_plus : Z;
  d_den : Z;
  d_inclusive : bool;
}.

Definition decode (m : positive) (e : Z) : decoded :=
  let '(k, plus) := if (m =? 2 ^ 52)%positive then (2, 2) else (1, 1) in
  let up := 2 ^ Z.max 0 (e - k) in
  {| d_num := Z.pos m * 2 ^ k * up; d_minus := up; d_plus := plus * up;
     d_den := 2 ^ Z.max 0 (k - e); d_inclusive := Z.even (Z.pos m) |}.

(** The multiple of [10 ^ j] that stands for the float, if one does: the one
    below or the one above, the nearer when both do. *)
Definition try_digit (d : decoded) (j : Z) : option Z :=
  let up := 10 ^ Z.max 0 (- j) in
  let scale := d_den d * 10 ^ Z.max 0 j in
  let q := d_num d * up / scale in
  let rem := (d_num d * up) mod scale in
  let within (a b : Z) := if d_inclusive d then a <=? b else a <? b in
  let down := within rem (d_minus d * up) in
  let above := within scale (rem + d_plus d * up) in
  if above && (negb down || (scale <=? 2 * rem)) then Some (q + 1)
  else if down then Some q else None.

(** The digits from the left, until the number they make stands for the float. *)
Fixpoint shortest (fuel : nat) (d : decoded) (j : Z) : option (Z * Z) :=
  match fuel with
  | O => None
  | S f => match try_digit d j with
           | Some n => Some (n, j)
           | None => shortest f d (j - 1)
           end
  end.

(** The first position tried is above the largest [f64]; at the position of
    the last binary digit the number is exact. *)
Definition shortest_digits (m : positive) (e : Z) : option (Z * Z) :=
  shortest (Z.to_nat (320 + Z.max 0 (2 - e))) (decode m e) 310.

(** [format!("{x}")] *)
Definition show_f64 (x : float) : str :=
  match Prim2SF x with
  | S754_nan => §"NaN"
  | S754_infinity s => minus_sign s ++ §"inf"
  | S754_zero s => minus_sign s ++ §"0"
  | S754_finite s m e =>
    match shortest_digits m e with
    | Some (n, j) =>
      minus_sign s ++ (if 0 <=? j then show_large (n * 10 ^ j) else fixed (Z.to_nat (- j)) n)
    | None => []
    end
  end.

(** ** The format *)

(** One sample: a name, with its labels, and a value. *)
Definition sample (name value : str) : str := name ++ §" " ++ value ++ [lf].

Definition dquote : str := [chr 34].
Definition with_label (name label value : str) : str :=
  name ++ §"{" ++ label ++ §"=" ++ dquote ++ value ++ dquote ++ §"}".

(** [Histogram::render_prometheus] *)
Definition bucket_line (name : str) (bound : float) (bucket_count : Z) : str :=
  sample (with_label (name ++ §"_bucket") §"le" (show_f64 bound)) (show bucket_count).
Definition sum_secs (self : Histogram) : float := (f64_of_Z (sum_us self) / 1000000.0)%float.
Definition render_prometheus (self : Histogram) (name : str) : str :=
  concat (zip_with (bucket_line name) (bounds self) (buckets self))
  ++ sample (with_label (name ++ §"_bucket") §"le" §"+Inf") (show (count self))
  ++ sample (name ++ §"_count") (show (count self))
  ++ sample (name ++ §"_sum") (show_fixed 6 (sum_secs self)).

(** A metric with its two lines of comment. *)
Definition family (name help kind samples : str) : str :=
  §"# HELP " ++ name ++ §" " ++ help ++ [lf] ++ §"# TYPE " ++ name ++ §" " ++ kind ++ [lf] ++ samples.
Definition scalar (name help kind value : str) : str :=
  family name help kind (sample name value).

(** What the page reads besides the counters. *)
Record gauges := {
  g_version : str;
  g_uptime_secs : Z;
  g_tunnels_active : Z;
  g_tcp_passthrough_active : Z;
}.

(** The body of [metrics_handler]. *)
Definition metrics_text (g : gauges) (m : Metrics) : str :=
  family §"seamless_info" §"Relay version info" §"gauge"
    (sample (with_label §"seamless_info" §"version" (g_version g)) §"1")
  ++ scalar §"seamless_uptime_seconds" §"Seconds since relay start" §"counter"
       (show (g_uptime_secs g))
  ++ scalar §"seamless_tunnels_active" §"Currently connected tunnel count" §"gauge"
       (show (g_tunnels_active g))
  ++ scalar §"seamless_bytes_in_total" §"Bytes received from public internet" §"counter"
       (show (bytes_in m))
  ++ scalar §"seamless_bytes_out_total" §"Bytes sent to public internet" §"counter"
       (show (bytes_out m))
  ++ scalar §"seamless_connections_total" §"Total tunnel registrations since start" §"counter"
       (show (connections_total m))
  ++ scalar §"seamless_handshake_duration_ms_avg" §"Average Seam handshake duration" §"gauge"
       (show_fixed 1 (handshake_avg_ms m))
  ++ scalar §"seamless_auth_failures_total"
       §"Total authentication failures (missing or invalid token)" §"counter"
       (show (auth_failures_total m))
  ++ scalar §"seamless_rate_limit_hits_total"
       §"Total connections rejected by the per-IP rate limiter" §"counter"
       (show (rate_limit_hits_total m))
  ++ scalar §"seamless_tunnel_cap_rejections_total"
       §"Total connections rejected due to global tunnel cap" §"counter"
       (show (tunnel_cap_rejections_total m))
  ++ scalar §"seamless_subdomain_invalid_total" §"Total subdomain validation failures" §"counter"
       (show (subdomain_invalid_total m))
  ++ scalar §"seamless_tunnel_per_ip_rejections_total"
       §"Total connections rejected due to per-IP tunnel limit" §"counter"
       (show (tunnel_per_ip_rejections_total m))
  ++ scalar §"seamless_ws_connections_active"
       §"Currently active WebSocket connections being tunnelled" §"gauge"
       (show (ws_connections_active m))
  ++ scalar §"seamless_geoip_blocked_total"
       §"Total connections blocked by geo-IP country filter" §"counter"
       (show (geoip_blocked_total m))
  ++ scalar §"seamless_tcp_passthrough_connections_active"
       §"Currently active raw TCP passthrough connections" §"gauge"
       (show (g_tcp_passthrough_active g))
  ++ family §"seamless_request_duration_seconds"
       §"Proxied HTTP request duration from first byte received to last byte sent" §"histogram"
       (render_prometheus (request_duration m) §"seamless_request_duration_seconds").

(** ** The shortest decimal reads back *)

(** The decimal [n * 10 ^ j] lies in the interval of [d]. *)
Definition reads_back (d : decoded) (n j : Z) : Prop :=
  let up := 10 ^ Z.max 0 (- j) in
  let scaled := n * (d_den d * 10 ^ Z.max 0 j) in
  let low := (d_num d - d_minus d) * up in
  let high := (d_num d + d_plus d) * up in
  if d_inclusive d then low ≤ scaled ≤ high else low < scaled < high.

Lemma decode_positive m e :
  0 < d_minus (decode m e) ∧ 0 < d_plus (decode m e) ∧ 0 < d_den (decode m e).
Proof.
  unfold decode. destruct (m =? 2 ^ 52)%positive; cbn [d_minus d_plus d_den];
    pose proof (Z.pow_pos_nonneg 2 (Z.max 0 (e - 2)) ltac:(lia) ltac:(lia));
    pose proof (Z.pow_pos_nonneg 2 (Z.max 0 (e - 1)) ltac:(lia) ltac:(lia));
    pose proof (Z.pow_pos_nonneg 2 (Z.max 0 (2 - e)) ltac:(lia) ltac:(lia));
    pose proof (Z.pow_pos_nonneg 2 (Z.max 0 (1 - e)) ltac:(lia) ltac:(lia)); lia.
Qed.

Lemma try_digit_reads_back d j n :
  0 < d_minus d → 0 < d_plus d → 0 < d_den d → try_digit d j = Some n → reads_back d n j.
Proof.
  intros Hm Hp Hd. unfold try_digit, reads_back.
  pose proof (Z.pow_pos_nonneg 10 (Z.max 0 (- j)) ltac:(lia) ltac:(lia)) as Hup.
  pose proof (Z.pow_pos_nonneg 10 (Z.max 0 j) ltac:(lia) ltac:(lia)) as Hj.
  set (up := 10 ^ Z.max 0 (- j)) in *. set (tens := 10 ^ Z.max 0 j) in *.
  assert (Hs : 0 < d_den d * tens) by nia. set (scale := d_den d * tens) in *.
  pose proof (Z.div_mod (d_num d * up) scale ltac:(lia)) as Hdiv.
  pose proof (Z.mod_pos_bound (d_num d * up) scale Hs) as Hrem.
  set (q := d_num d * up / scale) in *. set (rem := (d_num d * up) mod scale) in *.
  assert (0 < d_minus d * up ∧ 0 < d_plus d * up) by nia.
  rewrite Z.mul_sub_distr_r, Z.mul_add_distr_r.
  destruct (d_inclusive d); repeat case_match; intros; simplify_eq;
    repeat match goal with
    | H : _ && _ = true |- _ => apply andb_true_iff in H as [? _]
    | H : (_ <=? _) = true |- _ => apply Z.leb_le in H
    | H : (_ <? _) = true |- _ => apply Z.ltb_lt in H
    end; nia.
Qed.

Lemma shortest_sound fuel d j n j' :
  shortest fuel d j = Some (n, j') → try_digit d j' = Some n.
Proof.
  revert j. induction fuel as [|f IH]; intros j; [done|]. cbn [shortest].
  destruct (try_digit d j) eqn:E; [|apply IH]. by intros [= <- <-].
Qed.

Lemma shortest_complete fuel d j j' :
  is_Some (try_digit d j') → j' ≤ j → j - j' < Z.of_nat fuel → is_Some (shortest fuel d j).
Proof.
  intros Hs. revert j. induction fuel as [|f IH]; intros j Hle Hf; [lia|]. cbn [shortest].
  destruct (try_digit d j) eqn:E; [by eexists|].
  destruct (decide (j = j')) as [->|]; [rewrite E in Hs; by destruct Hs|]. apply IH; lia.
Qed.

(** A power of two divides the power of ten. *)
Lemma pow2_pow10 a b c : 0 ≤ a ≤ b → (c * 10 ^ b) mod 2 ^ a = 0.
Proof.
  intros H. apply Z.mod_divide; [pose proof (Z.pow_pos_nonneg 2 a); lia|].
  apply Z.divide_mul_r. change 10 with (2 * 5). rewrite Z.pow_mul_l. apply Z.divide_mul_l.
  exists (2 ^ (b - a)). rewrite <-Z.pow_add_r by lia. f_equal. lia.
Qed.

Lemma exact_digit m e : is_Some (try_digit (decode m e) (- Z.max 0 (2 - e))).
Proof.
  pose proof (decode_positive m e) as (Hm & _ & _). unfold try_digit.
  pose proof (Z.pow_pos_nonneg 10 (Z.max 0 (- - Z.max 0 (2 - e))) ltac:(lia) ltac:(lia)) as Hup.
  replace (Z.max 0 (- Z.max 0 (2 - e))) with 0 by lia. rewrite Z.pow_0_r, Z.mul_1_r.
  assert (E : (d_num (decode m e) * 10 ^ Z.max 0 (- - Z.max 0 (2 - e))) mod d_den (decode m e) = 0).
  { unfold decode. destruct (m =? 2 ^ 52)%positive; cbn [d_num d_den]; apply pow2_pow10; lia. }
  rewrite E. set (d := decode m e) in *. set (up := 10 ^ _) in *.
  assert (0 < d_minus d * up) by nia.
  replace (if d_inclusive d then 0 <=? d_minus d * up else 0 <? d_minus d * up) with true.
  - destruct (_ && _); by eexists.
  - symmetry. destruct (d_inclusive d); [apply Z.leb_le|apply Z.ltb_lt]; lia.
Qed.

(** Printing a float ends for every float, and the decimal printed is one that
    reads back as it. *)
Theorem shortest_digits_reads_back m e :
  ∃ n j, shortest_digits m e = Some (n, j) ∧ reads_back (decode m e) n j.
Proof.
  assert (is_Some (shortest_digits m e)) as [[n j] E].
  { apply shortest_complete with (- Z.max 0 (2 - e)); [apply exact_digit|lia|lia]. }
  exists n, j. split; [done|]. destruct (decode_positive m e) as (? & ? & ?).
  eapply try_digit_reads_back; [done..|]. by eapply shortest_sound.
Qed.

(** The bounds of the latency histogram are printed as they are written. *)
Example bounds_text :
  show_f64 <$> LATENCY_BOUNDS
  = [§"0.005"; §"0.01"; §"0.025"; §"0.05"; §"0.1"; §"0.25"; §"0.5"; §"1"; §"2.5"].
Proof. vm_compute. reflexivity. Qed.

(** ** The buckets grow *)

Definition rank (x : spec_float) : option (Z * Z * Z) :=
  match x with
  | S754_nan => None
  | S754_infinity s => Some (if s then -2 else 2, 0, 0)
  | S754_zero _ => Some (0, 0, 0)
  | S754_finite s m e => Some (if s then (-1, - e, - Z.pos m) else (1, e, Z.pos m))
  end.
Definition rank_le (a b : Z * Z * Z) : Prop :=
  a.1.1 < b.1.1 ∨ a.1.1 = b.1.1 ∧ (a.1.2 < b.1.2 ∨ a.1.2 = b.1.2 ∧ a.2 ≤ b.2).

Lemma SFleb_rank x y :
  SFleb x y = true ↔ ∃ a b, rank x = Some a ∧ rank y = Some b ∧ rank_le a b.
Proof.
  assert (P : ∀ p q, Pos.compare_cont Eq p q = Pos.compare p q) by done.
  unfold SFleb, SFcompare, rank_le.
  destruct x as [[]|[]| |[] m1 e1], y as [[]|[]| |[] m2 e2]; cbn [rank];
    (split; [intros H|intros (a & b & [= <-] & [= <-] & H)]; cbn [fst snd] in *);
    try done; try lia; rewrite ?P in *;
    try (eexists _, _; split; [done|]; split; [done|]; cbn [fst snd];
         destruct (Z.compare_spec e1 e2), (Pos.compare_spec m1 m2); simpl in H; lia || done);
    try (eexists _, _; split; [done|]; split; [done|]; cbn [fst snd]; lia);
    destruct (Z.compare_spec e1 e2), (Pos.compare_spec m1 m2); simpl; lia || done.
Qed.

Lemma f64_leb_trans x y z :
  f64_leb x y = true → f64_leb y z = true → f64_leb x z = true.
Proof.
  unfold f64_leb. rewrite !leb_spec, !SFleb_rank.
  intros (a & b & Ha & Hb & H1) (b' & c & Hb' & Hc & H2). simplify_eq.
  exists a, c. split_and!; [done..|]. unfold rank_le in *. lia.
Qed.

Lemma below_mono b1 b2 obs :
  f64_leb b1 b2 = true → (length (below b1 obs) ≤ length (below b2 obs))%nat.
Proof.
  intros Hb. unfold below. induction obs as [|x obs IH]; [done|]. rewrite !filter_cons.
  case_decide as H1; case_decide as H2; simpl; try lia.
  destruct H2. by eapply f64_leb_trans.
Qed.

(** The histogram is one Prometheus accepts: a bucket with a larger bound has
    counted no less, and none has counted more than [count], as long as fewer
    than 2^64 requests were observed. *)
Theorem histogram_monotone (bs obs : list float) (i j : nat) (b1 b2 : float) :
  Z.of_nat (length obs) ≤ u64_max →
  bs !! i = Some b1 → bs !! j = Some b2 → f64_leb b1 b2 = true →
  ∃ x y, buckets (observe_all obs (histogram_new bs)) !! i = Some x
       ∧ buckets (observe_all obs (histogram_new bs)) !! j = Some y
       ∧ x ≤ y ≤ count (observe_all obs (histogram_new bs)).
Proof.
  intros Hlen Hi Hj Hb. destruct (histogram_cumulative bs obs) as [-> ->].
  rewrite !list_lookup_fmap, Hi, Hj. eexists _, _. split; [done|]. split; [done|].
  pose proof (below_mono b1 b2 obs Hb) as H1.
  pose proof (filter_length_le (λ x, f64_leb x b2 = true) obs) as H2. fold (below b2 obs) in H2.
  change u64_max with (2 ^ 64 - 1) in Hlen. rewrite !wrap_small by lia. lia.
Qed.

Lemma histogram_monotone_witness :
  ∃ x y, buckets (observe_all [0.003; 0.01; 0.5; 5.0]%float (histogram_new LATENCY_BOUNDS)) !! 1%nat = Some x
       ∧ buckets (observe_all [0.003; 0.01; 0.5; 5.0]%float (histogram_new LATENCY_BOUNDS)) !! 6%nat = Some y
       ∧ x ≤ y ≤ count (observe_all [0.003; 0.01; 0.5; 5.0]%float (histogram_new LATENCY_BOUNDS)).
Proof.
  apply (histogram_monotone LATENCY_BOUNDS [0.003; 0.01; 0.5; 5.0]%float 1 6 0.01%float 0.5%float);
    [by vm_compute|reflexivity..].
Defined.

(** ** Reading the page *)

(** The samples of a page: the lines that are not comments, cut at the blank. *)
Definition scrape_line (l : str) : option (str * str) :=
  if starts_with §"#" l then None else split_once " "%char l.
Definition scrape (page : str) : list (str * str) := omap scrape_line (lines page).

(** The samples whose value is an integer. *)
Definition reading (s : str * str) : option (str * Z) := pair s.1 <$> parse_uint u64_max s.2.
Definition readings (page : str) : list (str * Z) := omap reading (scrape page).

Definition one_line (l : str) : bool :=
  forallb (λ c, negb (bool_decide (c = lf)) && negb (bool_decide (c = cr))) l.

Lemma one_line_spec l : one_line l = true → (lf ∉ l) ∧ (cr ∉ l).
Proof.
  unfold one_line. rewrite forallb_forall. intros H.
  split; intros Hc; apply list_elem_of_In, H in Hc; by vm_compute in Hc.
Qed.

Lemma plain_one_line l : forallb plain l = true → one_line l = true.
Proof.
  apply forallb_impl. intros c Hc.
  repeat (case_bool_decide; [subst; by vm_compute in Hc|]). done.
Qed.

Lemma one_line_app a b : one_line (a ++ b) = one_line a && one_line b.
Proof. apply forallb_app. Qed.

Lemma strip_cr_none l : (cr ∉ l) → strip_cr l = l.
Proof.
  intros H. unfold strip_cr. destruct (strip_suffix [cr] l) eqn:E; [|done].
  apply strip_suffix_spec in E. subst. set_solver.
Qed.

Lemma lines_cons l s : one_line l = true → lines (l ++ [lf] ++ s) = l :: lines s.
Proof.
  intros [Hlf Hcr]%one_line_spec. unfold lines. cbn [app]. rewrite split_char_app by done.
  destruct (split_char lf s) as [|h t] eqn:E.
  - destruct s as [|d s]; cbn in E; [done|]. destruct (bool_decide _); [done|].
    by destruct (split_char lf s).
  - change (lines_of (l :: h :: t)) with (strip_cr l :: lines_of (h :: t)).
    by rewrite strip_cr_none.
Qed.

Lemma scrape_comment l s :
  one_line l = true → starts_with §"#" l = true → scrape (l ++ [lf] ++ s) = scrape s.
Proof.
  intros Hl Hc. unfold scrape, scrape_line. rewrite lines_cons by done.
  cbn [omap list_omap]. by rewrite Hc.
Qed.

Lemma scrape_sample name value s :
  forallb plain name = true → starts_with §"#" name = false → name ≠ [] →
  forallb plain value = true → scrape (sample name value ++ s) = (name, value) :: scrape s.
Proof.
  intros Hn Hh Hne Hv. unfold sample, scrape, scrape_line. rewrite <-!app_assoc.
  replace (name ++ §" " ++ value ++ [lf] ++ s) with ((name ++ §" " ++ value) ++ [lf] ++ s)
    by by rewrite <-!app_assoc.
  rewrite lines_cons; [|by rewrite !one_line_app, (plain_one_line name), (plain_one_line value) by done].
  assert (starts_with §"#" (name ++ §" " ++ value) = false) as Hs.
  { destruct name as [|c name]; [done|]. cbn in Hh |- *. by rewrite andb_true_r in *. }
  cbn [omap list_omap]. rewrite Hs. unfold split_once. change (§" ") with [" "%char]. cbn [app].
  rewrite find_char_app; [done|].
  intros Hin. apply list_elem_of_In in Hin. rewrite forallb_forall in Hn. by apply Hn in Hin.
Qed.

Lemma scrape_family name help kind samples s :
  one_line name && one_line help && one_line kind = true →
  scrape (family name help kind samples ++ s) = scrape (samples ++ s).
Proof.
  intros [[Hn Hh]%andb_true_iff Hk]%andb_true_iff. unfold family.
  set (c1 := §"# HELP " ++ name ++ §" " ++ help). set (c2 := §"# TYPE " ++ name ++ §" " ++ kind).
  transitivity (scrape (c1 ++ [lf] ++ c2 ++ [lf] ++ samples ++ s)).
  - f_equal. unfold c1, c2. by rewrite <-!app_assoc.
  - rewrite !scrape_comment; [done|..]; unfold c1, c2;
      rewrite ?one_line_app, ?Hn, ?Hh, ?Hk; reflexivity.
Qed.

(** ** The numerals of the page *)

Lemma show_large_plain n : forallb plain (show_large n) = true.
Proof. by apply digits_plain, show_digits. Qed.

Lemma fixed_plain p n : forallb plain (fixed p n) = true.
Proof.
  unfold fixed. rewrite forallb_app, show_large_plain. destruct p as [|p]; [done|].
  cbn [forallb]. change (plain "."%char) with true. apply digits_plain, show_pad_digits.
  apply Z.mod_pos_bound. apply Z.pow_pos_nonneg; lia.
Qed.

Lemma minus_sign_plain s : forallb plain (minus_sign s) = true.
Proof. by destruct s. Qed.

Create Rewrite HintDb numerals.
#[local] Hint Rewrite @forallb_app minus_sign_plain fixed_plain show_large_plain show_plain
  : numerals.

Lemma show_fixed_plain p x : forallb plain (show_fixed p x) = true.
Proof. unfold show_fixed. destruct (Prim2SF x); by autorewrite with numerals. Qed.

Lemma show_f64_plain x : forallb plain (show_f64 x) = true.
Proof.
  unfold show_f64. destruct (Prim2SF x) as [| | |s m e]; try by autorewrite with numerals.
  destruct (shortest_digits m e) as [[n j]|]; [|done].
  destruct (0 <=? j); by autorewrite with numerals.
Qed.

(** A numeral with a fraction is no integer. *)
Lemma parse_digits_stop max a c r acc :
  digit_val c = None → parse_digits max acc (a ++ c :: r) = None.
Proof.
  intros Hc. revert acc. induction a as [|d a IH]; intros acc; cbn [app parse_digits];
    [by rewrite Hc|]. destruct (digit_val d); [|done]. destruct (_ <=? _); auto.
Qed.

Lemma parse_uint_stop max a c r :
  c ≠ "+"%char → digit_val c = None → parse_uint max (a ++ c :: r) = None.
Proof.
  intros Hp Hc. unfold parse_uint. destruct a as [|d a]; cbn [app].
  - rewrite bool_decide_false by done. by apply (parse_digits_stop max [] c r).
  - case_bool_decide; [destruct (a ++ c :: r) eqn:E; [done|rewrite <-E]|];
      [by apply parse_digits_stop|by apply (parse_digits_stop max (d :: a))].
Qed.

Lemma show_fixed_not_integer max p x : parse_uint max (show_fixed (S p) x) = None.
Proof.
  unfold show_fixed, fixed. destruct (Prim2SF x) as [s|s| |s m e]; [| destruct s; reflexivity |
    reflexivity |]; rewrite app_assoc; by apply parse_uint_stop.
Qed.

(** ** The page reads back *)

Lemma readings_sample name value s :
  forallb plain name = true → starts_with §"#" name = false → name ≠ [] →
  forallb plain value = true →
  readings (sample name value ++ s)
  = match parse_uint u64_max value with Some n => [(name, n)] | None => [] end ++ readings s.
Proof.
  intros. unfold readings. rewrite scrape_sample by done. cbn [omap list_omap].
  unfold reading at 1. cbn [fst snd]. by destruct (parse_uint u64_max value).
Qed.

(** A word that can name a sample. *)
Definition sample_name (name : str) : bool :=
  forallb plain name && negb (starts_with §"#" name) && negb (bool_decide (name = [])).

Lemma readings_integer name n s :
  sample_name name = true → 0 ≤ n ≤ u64_max →
  readings (sample name (show n) ++ s) = (name, n) :: readings s.
Proof.
  intros [[Hp Hh%negb_true_iff]%andb_true_iff Hne%negb_true_iff%bool_decide_eq_false]%andb_true_iff Hn.
  rewrite readings_sample by (done || apply show_plain).
  by rewrite parse_show by (unfold u64_max in *; lia).
Qed.

Lemma readings_fraction name p x s :
  sample_name name = true → readings (sample name (show_fixed (S p) x) ++ s) = readings s.
Proof.
  intros [[Hp Hh%negb_true_iff]%andb_true_iff Hne%negb_true_iff%bool_decide_eq_false]%andb_true_iff.
  rewrite readings_sample by (done || apply show_fixed_plain). by rewrite show_fixed_not_integer.
Qed.

Lemma readings_family name help kind samples s :
  one_line name && one_line help && one_line kind = true →
  readings (family name help kind samples ++ s) = readings (samples ++ s).
Proof. intros H. unfold readings. by rewrite scrape_family. Qed.

Definition bucket_name (name : str) (bound : float) : str :=
  with_label (name ++ §"_bucket") §"le" (show_f64 bound).

Lemma sample_name_label name label value :
  sample_name name = true → forallb plain label = true → forallb plain value = true →
  sample_name (with_label name label value) = true.
Proof.
  intros [[Hp Hh%negb_true_iff]%andb_true_iff Hne%negb_true_iff%bool_decide_eq_false]%andb_true_iff Hl Hv.
  destruct name as [|c name]; [done|]. unfold sample_name, with_label.
  rewrite !forallb_app, Hp, Hl, Hv. cbn in Hh |- *. by rewrite Hh.
Qed.

Lemma sample_name_app a b :
  sample_name a = true → forallb plain b = true → sample_name (a ++ b) = true.
Proof.
  intros [[Hp Hh%negb_true_iff]%andb_true_iff Hne%negb_true_iff%bool_decide_eq_false]%andb_true_iff Hb.
  destruct a as [|c a]; [done|]. unfold sample_name. rewrite forallb_app, Hp, Hb.
  cbn in Hh |- *. by rewrite Hh.
Qed.

Lemma readings_buckets name bs counts s :
  sample_name name = true → Forall (λ n, 0 ≤ n ≤ u64_max) counts →
  readings (concat (zip_with (bucket_line name) bs counts) ++ s)
  = zip_with (λ b n, (bucket_name name b, n)) bs counts ++ readings s.
Proof.
  intros Hn Hc. revert bs. induction Hc as [|n counts Hr Hc IH]; intros [|b bs]; [done..|].
  cbn [zip_with concat]. rewrite <-app_assoc. unfold bucket_line at 1.
  rewrite readings_integer; [|apply sample_name_label; [by apply sample_name_app|done|apply show_f64_plain]|done].
  by rewrite IH.
Qed.

(** A histogram whose counters are [u64]s. *)
Definition histogram_u64 (h : Histogram) : Prop :=
  Forall (λ n, 0 ≤ n ≤ u64_max) (buckets h) ∧ 0 ≤ count h ≤ u64_max.

Lemma readings_histogram h name s :
  sample_name name = true → histogram_u64 h →
  readings (render_prometheus h name ++ s)
  = zip_with (λ b n, (bucket_name name b, n)) (bounds h) (buckets h)
    ++ (with_label (name ++ §"_bucket") §"le" §"+Inf", count h)
    :: (name ++ §"_count", count h) :: readings s.
Proof.
  intros Hn [Hb Hc]. unfold render_prometheus. rewrite <-!app_assoc, readings_buckets by done.
  rewrite !readings_integer, readings_fraction; [done|by apply sample_name_app|..|done];
    by repeat (apply sample_name_label || apply sample_name_app).
Qed.

(** Counters and gauges that are [u64]s. *)
Definition metrics_u64 (g : gauges) (m : Metrics) : Prop :=
  Forall (λ n, 0 ≤ n ≤ u64_max)
    [g_uptime_secs g; g_tunnels_active g; g_tcp_passthrough_active g; bytes_in m; bytes_out m;
     connections_total m; auth_failures_total m; rate_limit_hits_total m;
     tunnel_cap_rejections_total m; subdomain_invalid_total m; tunnel_per_ip_rejections_total m;
     ws_connections_active m; geoip_blocked_total m]
  ∧ histogram_u64 (request_duration m).

Lemma readings_scalar name help kind n s :
  one_line name && one_line help && one_line kind = true → sample_name name = true →
  0 ≤ n ≤ u64_max →
  readings (scalar name help kind (show n) ++ s) = (name, n) :: readings s.
Proof. intros. unfold scalar. by rewrite readings_family, readings_integer. Qed.


