(* ===== verification/AuditLog.v ===== *)
(** * AuditLog: the audit trail and the other bounded logs

    [AuditRing], [AuditLog] and the rotating writer of
    [crates/seamless-relay/src/audit.rs], the request log of [logs.rs] and the
    statistics history of [main.rs].  A lock that is held when [emit] is called
    is an input of the model; so is what each file operation answers. *)

From S2P Require Import Prelude Text Json Calendar.
Local Open Scope Z_scope.

(** ** The bounded logs *)

Definition RING_CAPACITY : nat := 1024.
Definition MAX_LOGS : nat := 500.
Definition CHANNEL_CAPACITY : nat := Z.to_nat 8192.

Record LogEntry := {
  log_ts : Z;
  log_method : str;
  log_path : str;
  log_host : str;
  log_routed_to : str;
  log_status : Z;
}.

Definition logs_push (buf : list LogEntry) (entry : LogEntry) : list LogEntry :=
  ring_push MAX_LOGS buf entry.

Record StatsSnapshot := {
  snap_ts : Z;
  active_tunnels : Z;
  total_connections : Z;
}.

Definition history_push (buf : list StatsSnapshot) (snap : StatsSnapshot) : list StatsSnapshot :=
  ring_push 60 buf snap.

(** ** The audit ring *)

Definition audit_ring_push (buf : list Value) (event : Value) : list Value :=
  ring_push RING_CAPACITY buf event.

Definition event_ts (ev : Value) : Z := default 0 (get §"ts" ev ≫= as_i64).

Definition since (since_ts : option Z) (ev : Value) : Prop :=
  match since_ts with Some s => s <= event_ts ev | None => True end.
#[export] Instance since_dec s ev : Decision (since s ev).
Proof. destruct s; simpl; apply _. Defined.

Definition query (buf : list Value) (since_ts : option Z) (limit : nat) : list Value :=
  take limit (filter (since since_ts) buf).

(** The macro [audit_event!] at the time [now]. *)
Definition audit_event (now : Z) (event : str) (fields : list (str * Value)) : Value :=
  object ((§"ts", Int now) :: (§"event", Str event) :: fields).

(** ** The handle *)

(** [tx] is the channel to the writer, [spawned] the pushes handed to tasks
    because the ring was locked. *)
Record AuditLog := {
  tx : option (list Value);
  ring : list Value;
  spawned : list Value;
}.

Definition audit_disabled : AuditLog := {| tx := None; ring := []; spawned := [] |}.
Definition audit_start : AuditLog := {| tx := Some []; ring := []; spawned := [] |}.
Definition audit_is_enabled (self : AuditLog) : bool := bool_decide (is_Some (tx self)).

(** [try_send] drops the event when the channel is full. *)
Definition try_send (event : Value) (q : list Value) : list Value :=
  if (length q <? CHANNEL_CAPACITY)%nat then q ++ [event] else q.

Definition emit (locked : bool) (event : Value) (self : AuditLog) : AuditLog :=
  {| tx := try_send event <$> tx self;
     ring := if locked then ring self else audit_ring_push (ring self) event;
     spawned := if locked then spawned self ++ [event] else spawned self |}.

(** One of the spawned tasks gets the lock. *)
Definition run_spawned (i : nat) (self : AuditLog) : AuditLog :=
  match spawned self !! i with
  | Some event => {| tx := tx self; ring := audit_ring_push (ring self) event;
                     spawned := delete i (spawned self) |}
  | None => self
  end.

(** The writer task takes the next event. *)
Definition recv (self : AuditLog) : option Value * AuditLog :=
  match tx self with
  | Some (ev :: q) => (Some ev, {| tx := Some q; ring := ring self; spawned := spawned self |})
  | _ => (None, self)
  end.

(** ** The writer *)

Record WriterState := {
  base_path : str;
  file : bool;
  open_date : option date;
}.

Definition writer_new (base : str) : WriterState :=
  {| base_path := base; file := false; open_date := None |}.

(** What the file operations of one [write_event] answer.  A failing write has
    written the given number of bytes. *)
Record file_io := {
  rename_ok : bool;
  open_ok : bool;
  line_err : option nat;
  newline_err : option nat;
}.

Abbreviation disk := (gmap str str).

Definition rotated (base : str) (t : date) : str :=
  let '(y, m, d) := t in
  base ++ §"." ++ show_pad 4 y ++ §"-" ++ show_pad 2 m ++ §"-" ++ show_pad 2 d.

Definition rename (from to : str) (fs : disk) : disk :=
  match fs !! from with Some c => <[to := c]> (delete from fs) | None => fs end.

Definition append (path text : str) (fs : disk) : disk :=
  <[path := default [] (fs !! path) ++ text]> fs.

Definition rotate (io : file_io) (old_date : date) (self : WriterState) (fs : disk)
    : WriterState * disk :=
  ({| base_path := base_path self; file := false; open_date := None |},
   if rename_ok io then rename (base_path self) (rotated (base_path self) old_date) fs else fs).

Section writer.
Context `{JsonText}.

Definition write_event (io : file_io) (secs : Z) (event : Value) (self : WriterState) (fs : disk)
    : result str unit * WriterState * disk :=
  let today := epoch_to_ymd secs in
  let '(self, fs) :=
    match open_date self with
    | Some d => if bool_decide (d = today) then (self, fs) else rotate io d self fs
    | None => (self, fs)
    end in
  if negb (file self) && negb (open_ok io) then (Err §"open", self, fs)
  else
    let '(self, fs) :=
      if file self then (self, fs)
      else ({| base_path := base_path self; file := true; open_date := Some today |},
            append (base_path self) [] fs) in
    let line := to_string event in
    match line_err io with
    | Some n => (Err §"write", self, append (base_path self) (take n line) fs)
    | None =>
      let fs := append (base_path self) line fs in
      match newline_err io with
      | Some n => (Err §"write", self, append (base_path self) (take n [lf]) fs)
      | None => (Ok tt, self, append (base_path self) [lf] fs)
      end
    end.

(** [writer_task]: an event whose write fails is lost. *)
Fixpoint writer_task (events : list (file_io * Z * Value)) (self : WriterState) (fs : disk)
    : WriterState * disk :=
  match events with
  | [] => (self, fs)
  | (io, secs, ev) :: rest =>
    let '(_, self, fs) := write_event io secs ev self fs in writer_task rest self fs
  end.

(** The lines of the events of one day. *)
Definition day_lines (events : list (Z * Value)) (day : Z) : str :=
  mjoin ((λ e, to_string e.2 ++ [lf]) <$> filter (λ e, e.1 / 86400 = day) events).

End writer.

Definition all_ok : file_io :=
  {| rename_ok := true; open_ok := true; line_err := None; newline_err := None |}.

(** ** Emission and the ring *)

(** An event as the macro takes it: time, name, fields. *)
Abbreviation raw_event := (Z * str * list (str * Value))%type.
Definition built (e : raw_event) : Value := audit_event e.1.1 e.1.2 e.2.
Definition no_ts (e : raw_event) : Prop :=
  i64_min <= e.1.1 <= i64_max ∧ Forall (λ kv, kv.1 ≠ §"ts") e.2.

Definition emit_all (evs : list Value) (self : AuditLog) : AuditLog :=
  foldl (λ l ev, emit false ev l) self evs.

Lemma event_ts_built e : no_ts e → event_ts (built e) = e.1.1.
Proof.
  destruct e as [[ts name] fields]. intros [Hts Hf]. cbn [fst snd] in *.
  unfold event_ts, built, audit_event, object, get. cbn [foldl fst snd].
  rewrite map_get_fold by done.
  rewrite map_get_insert_ne by done. rewrite map_get_insert. cbn [mbind option_bind as_i64].
  by rewrite (proj2 (Z.leb_le i64_min ts)), (proj2 (Z.leb_le ts i64_max)) by lia.
Qed.

Lemma ring_emit_all evs self :
  ring (emit_all evs self) = foldl audit_ring_push (ring self) evs
  ∧ spawned (emit_all evs self) = spawned self.
Proof.
  unfold emit_all. revert self. induction evs as [|ev evs IH]; intros self; [done|].
  cbn [foldl]. destruct (IH (emit false ev self)) as [-> ->]. done.
Qed.

Lemma audit_ring_pushes evs : foldl audit_ring_push [] evs = last_n RING_CAPACITY evs.
Proof. apply ring_pushes. unfold RING_CAPACITY. lia. Qed.

Lemma last_n_fmap {A B} (f : A → B) n (l : list A) : last_n n (f <$> l) = f <$> last_n n l.
Proof. unfold last_n. by rewrite length_fmap, skipn_map. Qed.

Lemma filter_since s evs :
  Forall no_ts evs →
  filter (since (Some s)) (built <$> evs) = built <$> filter (λ e : raw_event, s <= e.1.1) evs.
Proof.
  induction 1 as [|e evs He _ IH]; [done|].
  rewrite fmap_cons, !filter_cons, IH.
  assert (E : since (Some s) (built e) ↔ s <= e.1.1) by (unfold since; by rewrite event_ts_built).
  destruct (decide (since (Some s) (built e))), (decide (s <= e.1.1)); tauto || done.
Qed.

(** What [GET /admin/audit] reads: after any sequence of [audit_event!]
    emissions that found the ring unlocked, a query returns, oldest first, the
    first [limit] of those among the last 1024 events whose time is not before
    [since]. *)
Theorem audit_query_spec (evs : list raw_event) s limit :
  Forall no_ts evs →
  query (ring (emit_all (built <$> evs) audit_start)) (Some s) limit
  = take limit (built <$> filter (λ e : raw_event, s <= e.1.1) (last_n RING_CAPACITY evs)).
Proof.
  intros H. unfold query. destruct (ring_emit_all (built <$> evs) audit_start) as [-> _].
  cbn [ring audit_start]. rewrite audit_ring_pushes, last_n_fmap, filter_since; [done|].
  unfold last_n. by apply Forall_drop.
Qed.

Definition two_events : list raw_event :=
  [((50, §"tunnel.close"), [(§"subdomain", Str §"a")]); ((200, §"tunnel.open"), [])].

Lemma audit_query_spec_witness :
  Forall no_ts two_events
  ∧ query (ring (emit_all (built <$> two_events) audit_start)) (Some 100) 10
    = take 10 (built <$> filter (λ e : raw_event, 100 <= e.1.1) (last_n RING_CAPACITY two_events)).
Proof.
  assert (H : Forall no_ts two_events).
  { repeat constructor; unfold i64_min, i64_max; simpl; try lia; discriminate. }
  split; [exact H|]. apply (audit_query_spec two_events 100 10 H).
Defined.

(** ** Contention

    Emitters, and the tasks they spawned when the ring was locked, in any
    order. *)
Inductive audit_step : AuditLog * list Value → AuditLog * list Value → Prop :=
| step_emit locked ev l emitted :
    audit_step (l, emitted) (emit locked ev l, emitted ++ [ev])
| step_spawned i l emitted :
    audit_step (l, emitted) (run_spawned i l, emitted)
| step_recv l emitted :
    audit_step (l, emitted) ((recv l).2, emitted).

Definition ring_inv (st : AuditLog * list Value) : Prop :=
  ∃ pushed, ring st.1 = last_n RING_CAPACITY pushed ∧ pushed ++ spawned st.1 ≡ₚ st.2.

Lemma audit_ring_push_last_n buf ev :
  audit_ring_push (last_n RING_CAPACITY buf) ev = last_n RING_CAPACITY (buf ++ [ev]).
Proof. apply ring_push_last_n. unfold RING_CAPACITY. lia. Qed.

Lemma ring_inv_step st st' : audit_step st st' → ring_inv st → ring_inv st'.
Proof.
  destruct 1 as [locked ev l em|i l em|l em]; intros (p & Hr & Hp); cbn [fst snd] in *.
  - unfold ring_inv, emit. cbn [ring spawned fst snd]. destruct locked.
    + exists p. split; [done|]. rewrite app_assoc. by rewrite Hp.
    + exists (p ++ [ev]). rewrite Hr, audit_ring_push_last_n. split; [done|].
      rewrite <-Hp, <-!app_assoc. f_equiv. apply Permutation_app_comm.
  - unfold ring_inv, run_spawned. destruct (spawned l !! i) as [ev|] eqn:E; [|by exists p].
    cbn [ring spawned fst snd]. exists (p ++ [ev]). rewrite Hr, audit_ring_push_last_n.
    split; [done|]. rewrite <-Hp, <-app_assoc. f_equiv. simpl.
    symmetry. by apply delete_Permutation.
  - exists p. unfold recv. by destruct (tx l) as [[|]|].
Qed.

(** C22: No audit event is lost by contention on the ring: however emitters,
    the tasks they spawn and the writer interleave, the ring holds the last
    1024 of a sequence of pushes that, with the pushes still waiting, is a
    permutation of the events emitted. *)
Theorem audit_ring_reachable (log0 : AuditLog) l emitted :
  log0 = audit_start ∨ log0 = audit_disabled →
  rtc audit_step (log0, []) (l, emitted) →
  ∃ pushed, ring l = last_n RING_CAPACITY pushed ∧ pushed ++ spawned l ≡ₚ emitted.
Proof.
  intros H0 H. change (ring_inv (l, emitted)).
  assert (I : ring_inv (log0, [])) by (exists []; destruct H0 as [-> | ->]; done).
  revert I. induction H as [|st st' st'' Hs _ IH]; eauto using ring_inv_step.
Qed.

Lemma audit_ring_reachable_witness :
  rtc audit_step (audit_start, []) (run_spawned 0 (emit true Null audit_start), [Null])
  ∧ ∃ pushed, ring (run_spawned 0 (emit true Null audit_start)) = last_n RING_CAPACITY pushed
      ∧ pushed ++ spawned (run_spawned 0 (emit true Null audit_start)) ≡ₚ [Null].
Proof.
  assert (R : rtc audit_step (audit_start, [])
                (run_spawned 0 (emit true Null audit_start), [Null])).
  { eapply rtc_l; [apply (step_emit true Null audit_start [])|].
    eapply rtc_l; [apply (step_spawned 0)|]. apply rtc_refl. }
  split; [exact R|]. apply (audit_ring_reachable audit_start); [by left|exact R].
Defined.

(** ** Rotation *)

Section rotation.
Context `{JsonText}.

(** What the file of a day holds: the lines of that day's events, and before
    them, on the day of the first event, whatever the log held at the start. *)
Definition day_contents (old : str) (first : Z) (evs : list (Z * Value)) (day : Z) : str :=
  (if bool_decide (day = first) then old else []) ++ day_lines evs day.

(** What the writer holds after the events [evs], the last of them on day
    [day]: the base file has that day's lines, every earlier day's lines are
    in the file named after it. *)
Definition writer_inv (base old : str) (first : Z) (evs : list (Z * Value)) (day : Z)
    (st : WriterState) (fs : disk) : Prop :=
  st = {| base_path := base; file := true; open_date := Some (epoch_to_ymd (86400 * day)) |}
  ∧ first <= day ∧ fs !! base = Some (day_contents old first evs day)
  ∧ ∀ e, e ∈ evs → e.1 / 86400 < day →
      fs !! rotated base (epoch_to_ymd e.1) = Some (day_contents old first evs (e.1 / 86400)).

Lemma rotated_ne base t : rotated base t ≠ base.
Proof.
  destruct t as [[y m] d]. intros E. apply (f_equal length) in E. revert E. unfold rotated.
  rewrite !length_app. simpl. lia.
Qed.

Lemma rotated_inj base t t' :
  (let '(y, m, d) := t in 0 <= y < 10 ^ 20 ∧ 0 <= m < 10 ^ 20 ∧ 0 <= d < 10 ^ 20) →
  (let '(y, m, d) := t' in 0 <= y < 10 ^ 20 ∧ 0 <= m < 10 ^ 20 ∧ 0 <= d < 10 ^ 20) →
  rotated base t = rotated base t' → t = t'.
Proof.
  destruct t as [[y m] d], t' as [[y' m'] d']. intros (Hy & Hm & Hd) (Hy' & Hm' & Hd') E.
  unfold rotated in E. apply app_inv_head in E. injection E as E.
  assert (N : ∀ w n, 0 <= n → "-"%char ∉ show_pad w n)
    by (intros; apply digits_no_char; [by apply show_pad_digits|done]).
  pose proof (f_equal (find_char "-"%char) E) as E1. cbn [String.list_ascii_of_string app] in E1.
  rewrite !find_char_app in E1 by (apply N; lia). injection E1 as E1 E2.
  pose proof (f_equal (find_char "-"%char) E2) as E3.
  rewrite !find_char_app in E3 by (apply N; lia). injection E3 as E3 E4.
  apply show_pad_inj in E1, E3, E4; [|lia..]. congruence.
Qed.

Lemma rotated_epoch_inj base s s' :
  0 <= s <= last_second → 0 <= s' <= last_second →
  rotated base (epoch_to_ymd s) = rotated base (epoch_to_ymd s') → s / 86400 = s' / 86400.
Proof.
  intros H1 H2 E. apply epoch_to_ymd_inj; [done..|].
  apply (rotated_inj base); [by apply epoch_to_ymd_nonneg..|done].
Qed.

Lemma day_lines_snoc evs s ev day :
  day_lines (evs ++ [(s, ev)]) day
  = day_lines evs day ++ (if bool_decide (s / 86400 = day) then to_string ev ++ [lf] else []).
Proof.
  unfold day_lines. rewrite filter_app, fmap_app, join_app. f_equal.
  rewrite filter_cons, filter_nil. cbn [fst]. case_bool_decide as E.
  - rewrite decide_True by done. cbn. by rewrite app_nil_r.
  - by rewrite decide_False.
Qed.

Lemma day_contents_snoc old first evs s ev day :
  day_contents old first (evs ++ [(s, ev)]) day
  = day_contents old first evs day
    ++ (if bool_decide (s / 86400 = day) then to_string ev ++ [lf] else []).
Proof. unfold day_contents. by rewrite day_lines_snoc, app_assoc. Qed.

Lemma day_lines_none evs day : Forall (λ e, e.1 / 86400 ≠ day) evs → day_lines evs day = [].
Proof.
  intros F. unfold day_lines. replace (filter _ evs) with (@nil (Z * Value)); [done|].
  induction F as [|e evs He _ IH]; [done|]. by rewrite filter_cons, decide_False.
Qed.

Lemma append_lookup p t fs q :
  append p t fs !! q = if bool_decide (q = p) then Some (default [] (fs !! p) ++ t) else fs !! q.
Proof.
  unfold append. case_bool_decide; [subst; apply lookup_insert_eq|by apply lookup_insert_ne].
Qed.

Lemma day_start s : 86400 * (s / 86400) / 86400 = s / 86400.
Proof. by rewrite Z.mul_comm, Z.div_mul. Qed.
Lemma day_start_range s : 0 <= s <= last_second → 0 <= 86400 * (s / 86400) <= last_second.
Proof. intros. pose proof (Z.mul_div_le s 86400). pose proof (Z.div_pos s 86400). lia. Qed.

(** The first event opens the file. *)
Lemma writer_first base s ev fs :
  let '(_, st, fs') := write_event all_ok s ev (writer_new base) fs in
  writer_inv base (default [] (fs !! base)) (s / 86400) [(s, ev)] (s / 86400) st fs'.
Proof.
  unfold write_event, writer_new, all_ok. cbn -[epoch_to_ymd append to_string].
  split; [by rewrite (epoch_day (86400 * (s / 86400)) s (day_start s))|]. split; [done|]. split.
  - rewrite !append_lookup, !bool_decide_true by done. cbn [default].
    rewrite (day_contents_snoc _ _ [] s ev (s / 86400) : day_contents _ _ [(s, ev)] _ = _).
    unfold day_contents at 1. rewrite !bool_decide_true by done.
    change (day_lines [] _) with (@nil ascii). by rewrite app_nil_r, app_assoc.
  - intros e ->%list_elem_of_singleton ?. simpl in *. lia.
Qed.

(** A later event of the same day is appended to the base file. *)
Lemma writer_same base old first evs s ev st fs :
  0 <= s <= last_second → writer_inv base old first evs (s / 86400) st fs →
  let '(_, st', fs') := write_event all_ok s ev st fs in
  writer_inv base old first (evs ++ [(s, ev)]) (s / 86400) st' fs'.
Proof.
  intros Hs (-> & Hf & Hb & Hr). unfold write_event, all_ok.
  cbn -[epoch_to_ymd append to_string].
  rewrite (epoch_day (86400 * (s / 86400)) s) by apply day_start.
  rewrite bool_decide_true by done. cbn -[epoch_to_ymd append to_string].
  split; [by rewrite (epoch_day (86400 * (s / 86400)) s (day_start s))|]. split; [done|]. split.
  - rewrite !append_lookup, !bool_decide_true by done. rewrite Hb. cbn [default].
    by rewrite day_contents_snoc, bool_decide_true, app_assoc by done.
  - intros e [He| ->%list_elem_of_singleton]%elem_of_app Hd; [|simpl in Hd; lia].
    rewrite !append_lookup, !bool_decide_false by apply rotated_ne.
    rewrite Hr, day_contents_snoc, bool_decide_false, app_nil_r by (done || lia). done.
Qed.

(** The first event of a later day renames the file and opens a new one. *)
Lemma writer_later base old first evs day s ev st fs :
  0 <= day → 0 <= s <= last_second → day < s / 86400 →
  Forall (λ e, 0 <= e.1 ∧ e.1 / 86400 <= day) evs →
  writer_inv base old first evs day st fs →
  let '(_, st', fs') := write_event all_ok s ev st fs in
  writer_inv base old first (evs ++ [(s, ev)]) (s / 86400) st' fs'.
Proof.
  intros Hday Hs Hlt Hevs (-> & Hf & Hb & Hr).
  pose proof (Z.mul_div_le s 86400 ltac:(lia)) as Hm.
  assert (Hne : epoch_to_ymd (86400 * day) ≠ epoch_to_ymd s).
  { intros E. apply epoch_to_ymd_inj in E; [|lia..].
    rewrite (Z.mul_comm 86400), Z.div_mul in E by lia. lia. }
  unfold write_event, all_ok. cbn -[epoch_to_ymd append to_string rename].
  rewrite bool_decide_false by done. cbn -[epoch_to_ymd append to_string rename].
  unfold rename. rewrite Hb.
  split; [by rewrite (epoch_day (86400 * (s / 86400)) s (day_start s))|]. split; [lia|]. split.
  - rewrite !append_lookup, !bool_decide_true by done.
    rewrite lookup_insert_ne by (by intros E; apply rotated_ne in E).
    rewrite lookup_delete_eq. cbn [default app].
    rewrite day_contents_snoc, bool_decide_true by done. unfold day_contents.
    rewrite bool_decide_false, day_lines_none by
      (lia || (eapply Forall_impl; [exact Hevs|]; simpl; lia)).
    done.
  - intros e [He| ->%list_elem_of_singleton]%elem_of_app Hd; [|simpl in Hd; lia].
    rewrite !append_lookup, !bool_decide_false by apply rotated_ne.
    rewrite day_contents_snoc, bool_decide_false, app_nil_r by lia.
    assert (Hed : 0 <= e.1 ∧ e.1 / 86400 <= day) by (by apply (proj1 (Forall_forall _ _) Hevs)).
    assert (Hel : e.1 <= last_second).
    { pose proof (Z.div_mod e.1 86400). pose proof (Z.mod_pos_bound e.1 86400). lia. }
    destruct (decide (e.1 / 86400 = day)) as [E|E].
    + rewrite (epoch_day e.1 (86400 * day)) by (rewrite (Z.mul_comm 86400), Z.div_mul; lia).
      by rewrite lookup_insert_eq, E.
    + rewrite lookup_insert_ne.
      * rewrite lookup_delete_ne by (intros F; symmetry in F; by apply rotated_ne in F).
        apply Hr; [done|lia].
      * intros F. apply rotated_epoch_inj in F; [|lia..].
        rewrite (Z.mul_comm 86400), Z.div_mul in F by lia. lia.
Qed.

Lemma writer_task_app evs evs' st fs :
  writer_task (evs ++ evs') st fs
  = let '(st1, fs1) := writer_task evs st fs in writer_task evs' st1 fs1.
Proof.
  revert st fs. induction evs as [|[[io s] ev] evs IH]; intros st fs; [done|].
  cbn [app writer_task]. destruct (write_event io s ev st fs) as [[r st1] fs1]. apply IH.
Qed.

Definition with_io (evs : list (Z * Value)) : list (file_io * Z * Value) :=
  (λ e, (all_ok, e.1, e.2)) <$> evs.

Definition not_after (e e' : Z * Value) : Prop := e.1 <= e'.1.

Lemma sorted_last e evs x :
  StronglySorted not_after (e :: evs) → x ∈ e :: evs → x.1 <= (default e (last evs)).1.
Proof.
  destruct evs as [|z evs _] using rev_ind; intros Hs Hx.
  - apply list_elem_of_singleton in Hx as ->. done.
  - rewrite last_snoc. cbn [default]. rewrite app_comm_cons in *.
    apply elem_of_app in Hx as [Hx| ->%list_elem_of_singleton]; [|done].
    apply (StronglySorted_app_1_elem_of not_after _ _ _ _ Hs Hx). by apply list_elem_of_singleton.
Qed.

Lemma writer_run base e evs fs :
  Forall (λ e, 0 <= e.1 <= last_second) (e :: evs) → StronglySorted not_after (e :: evs) →
  let '(st, fs') := writer_task (with_io (e :: evs)) (writer_new base) fs in
  writer_inv base (default [] (fs !! base)) (e.1 / 86400) (e :: evs) ((default e (last evs)).1 / 86400) st fs'.
Proof.
  induction evs as [|[s ev] evs IH] using rev_ind; intros Hr Hs.
  - unfold with_io. destruct e as [s ev]. cbn [fmap list_fmap writer_task fst snd last default].
    pose proof (writer_first base s ev fs) as P.
    destruct (write_event all_ok s ev (writer_new base) fs) as [[? st1] fs1]. exact P.
  - rewrite app_comm_cons in *. apply Forall_app in Hr as [Hr1 Hr2].
    assert (Hsort : StronglySorted not_after (e :: evs)
                    ∧ ∀ x, x ∈ e :: evs → not_after x (s, ev)).
    { split; [by apply StronglySorted_app_1_l in Hs|].
      intros x Hx. apply (StronglySorted_app_1_elem_of not_after _ _ _ _ Hs Hx).
      by apply list_elem_of_singleton. }
    destruct Hsort as [Hs1 Hall]. specialize (IH Hr1 Hs1).
    unfold with_io in *. rewrite fmap_app, writer_task_app.
    destruct (writer_task ((λ e, (all_ok, e.1, e.2)) <$> e :: evs) (writer_new base) fs)
      as [st1 fs1].
    apply (proj1 (Forall_singleton _ _)) in Hr2. cbn [fmap list_fmap writer_task fst snd] in *.
    rewrite last_snoc. cbn [default fst].
    set (d := (default e (last evs)).1 / 86400) in *.
    assert (Hin : default e (last evs) ∈ e :: evs).
    { destruct (last evs) eqn:El; simpl; [|by left]. right. by apply last_Some_elem_of. }
    assert (Hd : d <= s / 86400) by (apply Z.div_le_mono; [lia|]; by apply (Hall _ Hin)).
    destruct (decide (d = s / 86400)) as [E|E].
    + rewrite E in IH. pose proof (writer_same base _ _ (e :: evs) s ev st1 fs1 Hr2 IH) as P.
      destruct (write_event all_ok s ev st1 fs1) as [[? st2] fs2]. exact P.
    + pose proof (writer_later base (default [] (fs !! base)) (e.1 / 86400) (e :: evs) d s ev st1 fs1) as P.
      destruct (write_event all_ok s ev st1 fs1) as [[? st2] fs2]. apply P; clear P; [|exact Hr2|lia| |exact IH].
      * apply Z.div_pos; [|lia]. apply (proj1 (Forall_forall _ _) Hr1 _ Hin).
      * apply Forall_forall. intros x Hx.
        split; [apply (proj1 (Forall_forall _ _) Hr1 _ Hx)|].
        apply Z.div_le_mono; [lia|]. by apply sorted_last.
Qed.

(** C23: Midnight rotation.  When every file operation succeeds and the clock
    does not go back, the events given to the writer end up, one line each and
    in order, in the file of their day: those of the last day in the base file,
    those of every earlier day in [<base>.YYYY-MM-DD], in place of whatever had
    that name.  A log that exists when the writer starts is appended to: its
    lines stay in front of those of the first event's day, and are rotated with
    them under that day, whatever day they are from. *)
Theorem writer_rotates_daily base e evs fs st fs' :
  Forall (λ e, 0 <= e.1 <= last_second) (e :: evs) →
  StronglySorted not_after (e :: evs) →
  writer_task (with_io (e :: evs)) (writer_new base) fs = (st, fs') →
  let old := default [] (fs !! base) in
  let first_day := e.1 / 86400 in
  let last_day := (default e (last evs)).1 / 86400 in
  fs' !! base = Some ((if bool_decide (last_day = first_day) then old else [])
                      ++ day_lines (e :: evs) last_day)
  ∧ ∀ x, x ∈ e :: evs → x.1 / 86400 < last_day →
      fs' !! rotated base (epoch_to_ymd x.1)
      = Some ((if bool_decide (x.1 / 86400 = first_day) then old else [])
              ++ day_lines (e :: evs) (x.1 / 86400)).
Proof.
  intros Hr Hs E. pose proof (writer_run base e evs fs Hr Hs) as P. rewrite E in P.
  destruct P as (_ & _ & Hb & Hrot). done.
Qed.
End rotation.

#[local] Instance null_text : JsonText := {| to_string := λ _, §"{}" |}.

Definition two_days : list (Z * Value) := [(0, Null); (86400, Null)].

(** A log left from before the first event's day. *)
Definition old_log : disk := {[ §"a" := §"yesterday" ]}.

Lemma writer_rotates_daily_witness :
  let r := writer_task (with_io two_days) (writer_new §"a") old_log in
  r.2 !! §"a" = Some (day_lines two_days 1)
  ∧ r.2 !! rotated §"a" (epoch_to_ymd 0) = Some (§"yesterday" ++ day_lines two_days 0).
Proof.
  assert (Hr : Forall (λ e : Z * Value, 0 <= e.1 <= last_second) two_days).
  { apply Forall_cons; split; [|apply Forall_singleton]; unfold last_second; cbn; lia. }
  assert (Hs : StronglySorted not_after two_days).
  { repeat constructor. unfold not_after; cbn; lia. }
  destruct (writer_rotates_daily §"a" (0, Null) [(86400, Null)] old_log
    (writer_task (with_io two_days) (writer_new §"a") old_log).1
    (writer_task (with_io two_days) (writer_new §"a") old_log).2
    Hr Hs (surjective_pairing _)) as [H1 H2].
  split; [exact H1|]. refine (H2 (0, Null) _ _); [by left|reflexivity].
Defined.

(** A clock that goes back and forth over midnight replaces a rotated file:
    the line of the first event is in no file any more. *)
Lemma clock_back_overwrites :
  let line (z : Z) := object [(§"ts", Int z)] in
  let evs := [(86400, line 86400); (0, line 0); (86401, line 86401); (1, line 1)] in
  let text : JsonText := {| to_string := λ v, show (event_ts v) |} in
  let fs := (writer_task (with_io evs) (writer_new §"a") ∅).2 in
  fs !! §"a.1970-01-02" = Some (§"86401" ++ [lf])
  ∧ Forall (λ p, ¬ contains_str §"86400" p.2) (map_to_list fs).
Proof. vm_compute. split; [reflexivity|]. repeat constructor; by intros []. Qed.
