(* ===== verification/Backends.v ===== *)
(** * Backends: the load-balanced targets of a tunnel

    [BackendEntry] and [TunnelEntry::select_backend] of
    [crates/seamless-relay/src/tunnel.rs], the backend operations and the
    health-check task of [admin.rs].  A backend is shared by reference; its id
    is unique, so an update through a reference is an update by id. *)

From S2P Require Import Prelude.
Local Open Scope Z_scope.

(** [addr] is an address as the program prints it. *)
Record BackendEntry := {
  b_id : str;
  b_addr : str;
  b_weight : Z;
  b_healthy : bool;
  b_requests : Z;
  b_errors : Z;
}.

(** [BackendEntry::new], the identifier being a fresh UUID. *)
Definition backend_new (id addr : str) (weight : Z) : BackendEntry :=
  {| b_id := id; b_addr := addr; b_weight := weight; b_healthy := true;
     b_requests := 0; b_errors := 0 |}.

Definition set_healthy (v : bool) (b : BackendEntry) : BackendEntry :=
  {| b_id := b_id b; b_addr := b_addr b; b_weight := b_weight b; b_healthy := v;
     b_requests := b_requests b; b_errors := b_errors b |}.

(** ** Weighted round-robin *)

Definition eff_weight (b : BackendEntry) : Z := Z.max (b_weight b) 1.

(** The [for] loop over the healthy backends. *)
Fixpoint pick (slot : Z) (healthy : list BackendEntry) : option BackendEntry :=
  match healthy with
  | [] => None
  | b :: rest => if slot <? eff_weight b then Some b else pick (slot - eff_weight b) rest
  end.

Definition total_weight (healthy : list BackendEntry) : Z :=
  foldl (λ acc b, wrap 32 (acc + eff_weight b)) 0 healthy.

Definition is_healthy (b : BackendEntry) : Prop := b_healthy b = true.
#[export] Instance is_healthy_dec b : Decision (is_healthy b).
Proof. unfold is_healthy; apply _. Defined.

(** [select_backend] with the value of [rr_counter]: the backend and the new
    counter.  The remainder by a zero total panics. *)
Definition select_backend (backends : list BackendEntry) (rr_counter : Z)
    : result str (option BackendEntry * Z) :=
  let healthy := filter is_healthy backends in
  match healthy with
  | [] => Ok (None, rr_counter)
  | first :: _ =>
    let total := total_weight healthy in
    let counter' := u64_add rr_counter 1 in
    if total =? 0 then Err §"attempt to calculate the remainder with a divisor of zero"
    else
      let slot := wrap 32 (rr_counter mod total) in
      match pick slot healthy with
      | Some b => Ok (Some b, counter')
      | None => Ok (Some first, counter')
      end
  end.

(** [n] selections in a row. *)
Fixpoint selections (n : nat) (backends : list BackendEntry) (rr_counter : Z)
    : result str (list (option BackendEntry) * Z) :=
  match n with
  | O => Ok ([], rr_counter)
  | S n' =>
    p ← select_backend backends rr_counter;
    q ← selections n' backends p.2;
    Ok (p.1 :: q.1, q.2)
  end.

(** ** Operations of the admin interface *)

Definition push_backend (id addr : str) (weight : Z) (bs : list BackendEntry)
    : list BackendEntry :=
  bs ++ [backend_new id addr (Z.max weight 1)].

(** [retain]: [None] when no backend has the id. *)
Definition drop_backend (id : str) (bs : list BackendEntry) : option (list BackendEntry) :=
  let bs' := filter (λ b, b_id b ≠ id) bs in
  if (length bs' =? length bs)%nat then None else Some bs'.

Definition find_backend (id : str) (bs : list BackendEntry) : option BackendEntry :=
  head (filter (λ b, b_id b = id) bs).

Definition store_healthy (id : str) (v : bool) (bs : list BackendEntry) : list BackendEntry :=
  (λ b, if bool_decide (b_id b = id) then set_healthy v b else b) <$> bs.

(** ** The health-check task *)

(** One backend of a round: [ok] is the answer of [tcp_health_check]. *)
Definition check_backend (ok : bool) (id : str)
    (st : gmap str Z * list BackendEntry) : gmap str Z * list BackendEntry :=
  let '(fail_counts, bs) := st in
  if ok then (delete id fail_counts, store_healthy id true bs)
  else
    let count := wrap 32 (default 0 (fail_counts !! id) + 1) in
    (<[id := count]> fail_counts,
     if 3 <=? count then store_healthy id false bs else bs).

(** A round over the snapshot of the list; [None] when the task stops. *)
Definition health_round (ok : str → bool) (st : gmap str Z * list BackendEntry)
    : option (gmap str Z * list BackendEntry) :=
  match st.2 with
  | [] => None
  | snapshot => Some (foldl (λ st id, check_backend (ok id) id st) st (b_id <$> snapshot))
  end.

Fixpoint health_rounds (oks : list (str → bool)) (st : gmap str Z * list BackendEntry)
    : option (gmap str Z * list BackendEntry) :=
  match oks with
  | [] => Some st
  | ok :: oks' => st' ← health_round ok st; health_rounds oks' st'
  end.

(** ** Lemmas: the choice is a position in the weighted list *)

(** Every backend as many times as it weighs. *)
Definition expand (l : list BackendEntry) : list BackendEntry :=
  l ≫= λ b, replicate (Z.to_nat (eff_weight b)) b.

Lemma eff_weight_pos b : 1 <= eff_weight b.
Proof. unfold eff_weight. lia. Qed.

Lemma length_expand_cons b l :
  Z.of_nat (length (expand (b :: l))) = eff_weight b + Z.of_nat (length (expand l)).
Proof.
  unfold expand. rewrite bind_cons, length_app, length_replicate.
  pose proof (eff_weight_pos b). lia.
Qed.

Lemma pick_expand slot l :
  0 <= slot → pick slot l = expand l !! Z.to_nat slot.
Proof.
  revert slot. induction l as [|b l IH]; intros slot Hs; [done|]. cbn [pick].
  pose proof (eff_weight_pos b). unfold expand. rewrite bind_cons.
  destruct (Z.ltb_spec slot (eff_weight b)).
  - rewrite lookup_app_l by (rewrite length_replicate; lia).
    symmetry. apply lookup_replicate_2. lia.
  - rewrite lookup_app_r by (rewrite length_replicate; lia). rewrite length_replicate.
    rewrite IH by lia. unfold expand. f_equal. lia.
Qed.

Lemma total_weight_spec l :
  total_weight l = wrap 32 (Z.of_nat (length (expand l))).
Proof.
  unfold total_weight. enough (H : ∀ acc,
    foldl (λ acc b, wrap 32 (acc + eff_weight b)) (wrap 32 acc) l
    = wrap 32 (acc + Z.of_nat (length (expand l)))) by apply (H 0).
  induction l as [|b l IH]; intros acc; [by rewrite Z.add_0_r|].
  cbn [foldl]. rewrite wrap_add_l, IH, length_expand_cons. f_equal. lia.
Qed.

(** How often a list holds the backend of an id. *)
Definition times (id : str) (l : list BackendEntry) : nat := length (filter (λ x, b_id x = id) l).

Lemma times_app id l l' : times id (l ++ l') = (times id l + times id l')%nat.
Proof. unfold times. by rewrite filter_app, length_app. Qed.

Lemma times_replicate id n b :
  times id (replicate n b) = if bool_decide (b_id b = id) then n else 0%nat.
Proof.
  unfold times. induction n as [|n IH]; [by case_bool_decide|].
  cbn [replicate]. rewrite filter_cons. case_bool_decide as E.
  - rewrite decide_True by done. cbn. by rewrite IH.
  - by rewrite decide_False.
Qed.

Lemma times_expand_notin id l : id ∉ b_id <$> l → times id (expand l) = 0%nat.
Proof.
  induction l as [|c l IH]; intros Hn; [done|].
  rewrite fmap_cons, elem_of_cons in Hn. unfold expand.
  rewrite bind_cons, times_app, times_replicate, bool_decide_false by (intros E; apply Hn; by left).
  apply IH. intros ?. apply Hn. by right.
Qed.

(** Ids being unique, a backend's share of the weighted list is its weight. *)
Lemma times_expand b l :
  NoDup (b_id <$> l) → b ∈ l → times (b_id b) (expand l) = Z.to_nat (eff_weight b).
Proof.
  induction l as [|c l IH]; intros Hnd Hin; [by apply elem_of_nil in Hin|].
  rewrite fmap_cons in Hnd. apply NoDup_cons in Hnd as [Hc Hnd].
  unfold expand. rewrite bind_cons, times_app, times_replicate.
  apply elem_of_cons in Hin as [->|Hin].
  - rewrite bool_decide_true by done. fold (expand l). rewrite times_expand_notin by done. lia.
  - rewrite bool_decide_false; [by apply IH|].
    intros E. apply Hc. rewrite E. by apply list_elem_of_fmap_2.
Qed.

(** One selection reads the weighted list at the counter. *)
Lemma select_backend_at bs c :
  let E := expand (filter is_healthy bs) in
  0 <= c → c + 1 <= u64_max → 0 < Z.of_nat (length E) <= u32_max →
  select_backend bs c = Ok (E !! Z.to_nat (c mod Z.of_nat (length E)), c + 1).
Proof.
  intros E Hc Hc' HE. unfold select_backend.
  destruct (filter is_healthy bs) as [|b l] eqn:Hf; [by subst E; simpl in HE; lia|].
  rewrite total_weight_spec. fold E. unfold u32_max in HE.
  rewrite (wrap_small 32 (Z.of_nat (length E))) by lia.
  rewrite (proj2 (Z.eqb_neq _ 0)) by lia.
  pose proof (Z.mod_pos_bound c (Z.of_nat (length E)) ltac:(lia)) as Hm.
  rewrite (wrap_small 32 (c mod _)) by lia. rewrite pick_expand by lia. fold E.
  unfold u64_add. rewrite wrap_small by (unfold u64_max in *; lia).
  destruct (lookup_lt_is_Some_2 E (Z.to_nat (c mod Z.of_nat (length E)))) as [x Hx]; [lia|].
  by rewrite Hx.
Qed.

Lemma selections_at bs n c :
  let E := expand (filter is_healthy bs) in
  0 <= c → c + Z.of_nat n <= u64_max → 0 < Z.of_nat (length E) <= u32_max →
  selections n bs c
  = Ok ((λ i, E !! Z.to_nat ((c + Z.of_nat i) mod Z.of_nat (length E))) <$> seq 0 n,
        c + Z.of_nat n).
Proof.
  intros E. revert c. induction n as [|n IH]; intros c Hc Hc' HE.
  - cbn. by rewrite Z.add_0_r.
  - cbn [selections]. rewrite select_backend_at by (done || lia). fold E. cbn [mbind result_bind].
    cbn [snd fst]. rewrite IH by (done || lia). cbn [mbind result_bind fst snd].
    f_equal. f_equal; [|lia]. cbn [seq fmap list_fmap]. rewrite Z.add_0_r. f_equal.
    rewrite <-(fmap_S_seq 0 n), <-list_fmap_compose. apply list_fmap_ext. intros _ i _. cbn.
    do 3 f_equal. lia.
Qed.

(** A rotation of the weighted list. *)
Lemma rotation_lookup {A} (E : list A) k i :
  (k < length E)%nat → (i < length E)%nat →
  (drop k E ++ take k E) !! i = E !! ((k + i) mod length E)%nat.
Proof.
  intros Hk Hi. destruct (decide (k + i < length E)%nat) as [H|H].
  - rewrite lookup_app_l by (rewrite length_drop; lia). rewrite lookup_drop.
    by rewrite Nat.mod_small by lia.
  - rewrite lookup_app_r by (rewrite length_drop; lia). rewrite length_drop, lookup_take_lt by lia.
    f_equal. replace (k + i)%nat with ((k + i - length E) + 1 * length E)%nat by lia.
    rewrite Nat.Div0.mod_add, Nat.mod_small by lia. lia.
Qed.

Lemma round_rotation {A} (E : list A) c :
  0 <= c → (0 < length E)%nat →
  (λ i, E !! Z.to_nat ((c + Z.of_nat i) mod Z.of_nat (length E))) <$> seq 0 (length E)
  = Some <$> (drop (Z.to_nat (c mod Z.of_nat (length E))) E
              ++ take (Z.to_nat (c mod Z.of_nat (length E))) E).
Proof.
  intros Hc HE. set (k := Z.to_nat (c mod Z.of_nat (length E))).
  pose proof (Z.mod_pos_bound c (Z.of_nat (length E)) ltac:(lia)) as Hm.
  apply list_eq_same_length with (n := length E).
  - rewrite length_fmap, length_app, length_drop, length_take. subst k. lia.
  - by rewrite length_fmap, length_seq.
  - intros i x y Hi Hx Hy. rewrite list_lookup_fmap in Hx. rewrite list_lookup_fmap in Hy.
    rewrite lookup_seq_lt in Hx by done. rewrite rotation_lookup in Hy by (subst k; lia).
    simpl in Hx. injection Hx as <-.
    replace (Z.to_nat ((c + Z.of_nat i) mod Z.of_nat (length E))) with ((k + i) mod length E)%nat.
    { destruct (E !! ((k + i) mod length E)%nat); [|done]. by injection Hy as <-. }
    apply Nat2Z.inj. rewrite Nat2Z.inj_mod, Nat2Z.inj_add. subst k.
    rewrite !Z2Nat.id by (try apply Z.mod_pos_bound; lia).
    by rewrite Zplus_mod_idemp_l.
Qed.

(** C21: Weighted round-robin is fair: while the backends and their health do
    not change, any full round of selections (as many as the weights of the
    healthy backends sum to) picks every healthy backend exactly its weight
    many times, an unhealthy one never, and never fails. *)
Theorem select_backend_fair bs c W :
  NoDup (b_id <$> bs) →
  W = length (expand (filter is_healthy bs)) →
  0 < Z.of_nat W <= u32_max → 0 <= c → c + Z.of_nat W <= u64_max →
  ∃ chosen : list BackendEntry,
    selections W bs c = Ok (Some <$> chosen, c + Z.of_nat W)
    ∧ (∀ b, b ∈ chosen → is_healthy b ∧ b ∈ bs)
    ∧ ∀ b, b ∈ bs → is_healthy b → times (b_id b) chosen = Z.to_nat (eff_weight b).
Proof.
  intros Hnd -> HW Hc Hc'. set (E := expand (filter is_healthy bs)) in *.
  rewrite selections_at by done. fold E. rewrite round_rotation by lia.
  set (k := Z.to_nat (c mod Z.of_nat (length E))).
  assert (HP : drop k E ++ take k E ≡ₚ E)
    by (rewrite (Permutation_app_comm (drop k E)); by rewrite take_drop).
  exists (drop k E ++ take k E). split; [done|]. split.
  - intros b Hb. rewrite HP in Hb. unfold E, expand in Hb.
    apply list_elem_of_bind in Hb as (b' & Hb & Hb').
    apply elem_of_replicate_inv in Hb as ->. by apply list_elem_of_filter in Hb'.
  - intros b Hb Hh. unfold times. rewrite HP. fold (times (b_id b) E). apply times_expand.
    + eapply sublist_NoDup; [exact Hnd|]. apply fmap_sublist, sublist_filter.
    + by apply list_elem_of_filter.
Qed.

Definition two_backends : list BackendEntry :=
  [backend_new §"a" §"10.0.0.1:80" 2; backend_new §"b" §"10.0.0.2:80" 1].

Lemma select_backend_fair_witness :
  selections 3 two_backends 7
  = Ok (Some <$> [backend_new §"a" §"10.0.0.1:80" 2; backend_new §"b" §"10.0.0.2:80" 1;
                  backend_new §"a" §"10.0.0.1:80" 2], 10)
  ∧ ∃ chosen, selections 3 two_backends 7 = Ok (Some <$> chosen, 10)
      ∧ (∀ b, b ∈ chosen → is_healthy b ∧ b ∈ two_backends)
      ∧ ∀ b, b ∈ two_backends → is_healthy b → times (b_id b) chosen = Z.to_nat (eff_weight b).
Proof.
  split; [reflexivity|]. apply (select_backend_fair two_backends 7 3).
  - apply (bool_decide_unpack _). reflexivity.
  - reflexivity.
  - unfold u32_max; lia.
  - lia.
  - unfold u64_max; lia.
Defined.

(** Weights are not bounded on entry, and their sum is a [u32]: two healthy
    backends whose weights sum to 2^32 make every selection panic on a
    remainder by zero. *)
Theorem select_backend_overflow id1 id2 addr1 addr2 c :
  select_backend
    (push_backend id2 addr2 (2 ^ 31) (push_backend id1 addr1 (2 ^ 31) [])) c
  = Err §"attempt to calculate the remainder with a divisor of zero".
Proof. reflexivity. Qed.

(** ** Lemmas: health checks *)

Definition health_of (id : str) (bs : list BackendEntry) : list bool :=
  b_healthy <$> filter (λ b, b_id b = id) bs.

Lemma store_healthy_ids id v bs : b_id <$> store_healthy id v bs = b_id <$> bs.
Proof.
  unfold store_healthy. rewrite <-list_fmap_compose. apply list_fmap_ext. intros _ b _. simpl.
  by case_bool_decide.
Qed.

Lemma health_of_store id id' v bs :
  health_of id (store_healthy id' v bs)
  = if bool_decide (id = id') then (λ _, v) <$> health_of id bs else health_of id bs.
Proof.
  unfold health_of, store_healthy. induction bs as [|b bs IH]; [by case_bool_decide|].
  rewrite fmap_cons, !filter_cons.
  assert (Hid : b_id (if bool_decide (b_id b = id') then set_healthy v b else b) = b_id b)
    by (by destruct (bool_decide (b_id b = id'))).
  rewrite Hid.
  destruct (decide (b_id b = id)) as [E|E].
  - rewrite !fmap_cons, IH, E. by destruct (bool_decide (id = id')).
  - exact IH.
Qed.

(** What the task knows of one backend: its count of failures, its health. *)
Definition view (id : str) (st : gmap str Z * list BackendEntry) : Z * list bool :=
  (default 0 (st.1 !! id), health_of id st.2).

Definition view_step (ok : bool) (v : Z * list bool) : Z * list bool :=
  if ok then (0, (λ _, true) <$> v.2)
  else (wrap 32 (v.1 + 1), if 3 <=? wrap 32 (v.1 + 1) then (λ _, false) <$> v.2 else v.2).

Lemma view_check ok id id' st :
  view id (check_backend ok id' st) = if bool_decide (id = id') then view_step ok (view id st)
                                      else view id st.
Proof.
  destruct st as [fc bs]. unfold view, check_backend, view_step.
  destruct ok; cbn [fst snd]; case_bool_decide as E.
  - subst. rewrite lookup_delete_eq, health_of_store, bool_decide_true by done. done.
  - rewrite lookup_delete_ne, health_of_store, bool_decide_false by congruence. done.
  - subst. rewrite lookup_insert_eq. cbn [default]. destruct (3 <=? _); [|done].
    by rewrite health_of_store, bool_decide_true.
  - rewrite lookup_insert_ne by congruence. destruct (3 <=? _); [|done].
    by rewrite health_of_store, bool_decide_false.
Qed.

Lemma check_backend_ids ok id st : b_id <$> (check_backend ok id st).2 = b_id <$> st.2.
Proof.
  destruct st as [fc bs]. unfold check_backend. destruct ok; cbn [snd].
  - apply store_healthy_ids.
  - destruct (3 <=? _); [apply store_healthy_ids|done].
Qed.

Lemma view_fold (ok : str → bool) ids id st :
  NoDup ids →
  let st' := foldl (λ st id, check_backend (ok id) id st) st ids in
  view id st' = (if bool_decide (id ∈ ids) then view_step (ok id) (view id st) else view id st)
  ∧ b_id <$> st'.2 = b_id <$> st.2.
Proof.
  intros Hnd. revert st. induction Hnd as [|i ids Hi Hnd IH]; intros st; [done|].
  cbn [foldl]. destruct (IH (check_backend (ok i) i st)) as [-> ->].
  rewrite view_check, check_backend_ids. split; [|done].
  destruct (decide (id = i)) as [->|Hne].
  - rewrite (bool_decide_false (i ∈ ids)), bool_decide_true by done.
    by rewrite bool_decide_true by left.
  - rewrite (bool_decide_false (id = i)) by done.
    erewrite (bool_decide_ext (id ∈ i :: ids) (id ∈ ids)); [done|].
    rewrite elem_of_cons. naive_solver.
Qed.

Lemma view_round ok id st :
  NoDup (b_id <$> st.2) → id ∈ b_id <$> st.2 →
  ∃ st', health_round ok st = Some st' ∧ view id st' = view_step (ok id) (view id st)
    ∧ b_id <$> st'.2 = b_id <$> st.2.
Proof.
  intros Hnd Hin. destruct st as [fc bs]. cbn [snd] in *. unfold health_round. cbn [snd].
  destruct bs as [|b bs]; [by apply elem_of_nil in Hin|].
  destruct (view_fold ok (b_id <$> b :: bs) id (fc, b :: bs) Hnd) as [Hv Hids].
  eexists. split; [done|]. split; [|done]. rewrite Hv. by rewrite bool_decide_true.
Qed.

(** The failures since the last success. *)
Fixpoint trailing (rs : list bool) (n : Z) : Z :=
  match rs with [] => n | r :: rs' => trailing rs' (if r then 0 else n + 1) end.

Lemma trailing_bound rs n : 0 <= n → 0 <= trailing rs n <= n + Z.of_nat (length rs).
Proof.
  revert n. induction rs as [|r rs IH]; intros n Hn; cbn [trailing length]; [lia|].
  destruct r; [specialize (IH 0 ltac:(lia))|specialize (IH (n + 1) ltac:(lia))]; lia.
Qed.

Lemma view_rounds oks id st n :
  NoDup (b_id <$> st.2) → id ∈ b_id <$> st.2 → 0 <= n →
  n + Z.of_nat (length oks) <= u32_max →
  view id st = (n, [bool_decide (n < 3)]) →
  ∃ st', health_rounds oks st = Some st'
    ∧ health_of id st'.2 = [bool_decide (trailing ((λ ok, ok id) <$> oks) n < 3)].
Proof.
  revert st n. induction oks as [|ok oks IH]; intros st n Hnd Hin Hn Hlen Hv.
  - exists st. split; [done|]. unfold view in Hv. cbn. congruence.
  - destruct (view_round ok id st Hnd Hin) as (st1 & H1 & Hv1 & Hids).
    cbn [health_rounds]. rewrite H1. cbn [mbind option_bind fmap list_fmap trailing].
    cbn [length] in Hlen. apply IH.
    + by rewrite Hids.
    + by rewrite Hids.
    + destruct (ok id); lia.
    + destruct (ok id); lia.
    + rewrite Hv1, Hv. unfold view_step. cbn [fst snd]. destruct (ok id); [done|].
      rewrite wrap_small by (unfold u32_max in *; lia). f_equal.
      destruct (Z.leb_spec 3 (n + 1)).
      * by rewrite (bool_decide_false (n + 1 < 3)) by lia.
      * by rewrite !bool_decide_true by lia.
Qed.

Lemma health_of_all bs b :
  NoDup (b_id <$> bs) → Forall is_healthy bs → b ∈ bs → health_of (b_id b) bs = [true].
Proof.
  intros Hnd Hh Hin. unfold health_of. induction bs as [|c bs IH]; [by apply elem_of_nil in Hin|].
  rewrite fmap_cons in Hnd. apply NoDup_cons in Hnd as [Hc Hnd].
  apply Forall_cons in Hh as [Hch Hh]. rewrite filter_cons.
  apply elem_of_cons in Hin as [->|Hin].
  - rewrite decide_True by done. cbn. rewrite Hch. f_equal.
    replace (filter _ bs) with (@nil BackendEntry); [done|].
    clear -Hc. induction bs as [|d bs IH]; [done|].
    rewrite fmap_cons, elem_of_cons in Hc. rewrite filter_cons, decide_False by naive_solver.
    apply IH. naive_solver.
  - rewrite decide_False; [by apply IH|].
    intros E. apply Hc. rewrite E. by apply list_elem_of_fmap_2.
Qed.

(** The health task marks a backend unhealthy after three failed probes in
    a row and healthy at the next probe that succeeds, and every backend on its
    own: after any rounds, a backend of the list is healthy exactly when fewer
    than three probes failed since its last success. *)
Theorem health_rounds_spec bs b (oks : list (str → bool)) :
  NoDup (b_id <$> bs) → Forall is_healthy bs → b ∈ bs →
  Z.of_nat (length oks) <= u32_max →
  ∃ fc bs', health_rounds oks (∅, bs) = Some (fc, bs')
    ∧ health_of (b_id b) bs' = [bool_decide (trailing ((λ ok, ok (b_id b)) <$> oks) 0 < 3)].
Proof.
  intros Hnd Hh Hin Hlen.
  destruct (view_rounds oks (b_id b) (∅, bs) 0) as ([fc bs'] & H & Hv); [done| |lia|lia| |].
  - by apply list_elem_of_fmap_2.
  - unfold view. cbn [fst snd]. rewrite lookup_empty. by rewrite health_of_all.
  - by exists fc, bs'.
Qed.

Lemma health_rounds_spec_witness :
  ∃ fc bs', health_rounds (replicate 3 (λ id, bool_decide (id ≠ §"a"))) (∅, two_backends)
            = Some (fc, bs')
    ∧ health_of §"a" bs' = [false].
Proof.
  apply (health_rounds_spec two_backends (backend_new §"a" §"10.0.0.1:80" 2)).
  - apply (bool_decide_unpack _). reflexivity.
  - repeat constructor.
  - left.
  - unfold u32_max; simpl; lia.
Defined.
