(* ===== verification/Background.v ===== *)
(** * Background: webhook deliveries and health-check tasks

    The tasks the handlers leave behind: [WebhookCtx::fire] of
    [crates/seamless-relay/src/tunnel.rs], which posts an event and tries again
    once, and [spawn_backend_health_check] of [admin.rs], of which a tunnel has
    as many as backends were added to it.  The tasks of one tunnel share its list
    of backends and are interleaved probe by probe. *)

From S2P Require Import Prelude Backends.
Local Open Scope Z_scope.

(** ** Webhooks *)

(** What becomes of one POST: when [send] resolves, in milliseconds, with the
    status of the response or an error; [NeverResolves] when it does not. *)
Inductive post :=
| Resolves (after_ms : Z) (reply : option Z)
| NeverResolves.

Inductive delivery_error := PostTimedOut | PostError.

(** [deliver]: when it returns, and what. *)
Definition deliver (p : post) : Z * result delivery_error unit :=
  match p with
  | Resolves after_ms reply =>
    if after_ms <=? 5000
    then (after_ms, match reply with Some _ => Ok tt | None => Err PostError end)
    else (5000, Err PostTimedOut)
  | NeverResolves => (5000, Err PostTimedOut)
  end.

(** The task of [fire]: when its requests are sent, when it ends, and the errors
    it logs. *)
Record delivery := {
  dl_posts : list Z;
  dl_end : Z;
  dl_warnings : list delivery_error;
}.

Definition fire_task (first second : post) : delivery :=
  match deliver first with
  | (t1, Ok tt) => {| dl_posts := [0]; dl_end := t1; dl_warnings := [] |}
  | (t1, Err e) =>
    let t := t1 + 500 in
    match deliver second with
    | (t2, Ok tt) => {| dl_posts := [0; t]; dl_end := t + t2; dl_warnings := [e] |}
    | (t2, Err e2) => {| dl_posts := [0; t]; dl_end := t + t2; dl_warnings := [e; e2] |}
    end
  end.

(** ** Health checks *)

(** A task waits for its next tick, has backends left to probe in this round,
    or has stopped. *)
Inductive health_task :=
| Waiting (fail_counts : gmap str Z)
| Probing (pending : list str) (fail_counts : gmap str Z)
| Stopped.

Record balanced := {
  backends : list BackendEntry;
  tasks : list health_task;
}.

(** What happens to the backends of a tunnel; [k] is a task. *)
Inductive backend_event :=
| Added (id addr : str) (weight : Z)
| Removed (id : str)
| Forced (id : str) (ok : bool)
| Tick (k : nat)
| Probed (k : nat) (ok : bool).

Definition set_task (k : nat) (t : health_task) (s : balanced) : balanced :=
  {| backends := backends s; tasks := <[k := t]> (tasks s) |}.

Definition balanced_step (s : balanced) (ev : backend_event) : balanced :=
  match ev with
  | Added id addr weight =>
    {| backends := push_backend id addr weight (backends s); tasks := tasks s ++ [Waiting ∅] |}
  | Removed id =>
    {| backends := default (backends s) (drop_backend id (backends s)); tasks := tasks s |}
  | Forced id ok =>
    match find_backend id (backends s) with
    | Some _ => {| backends := store_healthy id ok (backends s); tasks := tasks s |}
    | None => s
    end
  | Tick k =>
    match tasks s !! k with
    | Some (Waiting fail_counts) =>
      match backends s with
      | [] => set_task k Stopped s
      | snapshot => set_task k (Probing (b_id <$> snapshot) fail_counts) s
      end
    | _ => s
    end
  | Probed k ok =>
    match tasks s !! k with
    | Some (Probing (id :: rest) fail_counts) =>
      let '(fail_counts', bs) := check_backend ok id (fail_counts, backends s) in
      {| backends := bs;
         tasks := <[k := match rest with
                         | [] => Waiting fail_counts'
                         | _ => Probing rest fail_counts'
                         end]> (tasks s) |}
    | _ => s
    end
  end.

Definition balanced_run (s : balanced) (evs : list backend_event) : balanced :=
  foldl balanced_step s evs.

(** ** Webhooks: theorems *)

(** An event is posted at least once and at most twice: a second time
    exactly when the first request brought no response within five seconds, and
    then half a second after that was known.  The task is over within ten and a
    half seconds, and logs one error for each request without a response. *)
Theorem fire_task_spec first second :
  (∀ t reply, first = Resolves t reply → 0 ≤ t) → (∀ t reply, second = Resolves t reply → 0 ≤ t) →
  let d := fire_task first second in
  (if is_ok (deliver first).2 then dl_posts d = [0] ∧ dl_warnings d = []
   else ∃ t, dl_posts d = [0; t] ∧ t = (deliver first).1 + 500
             ∧ length (dl_warnings d) = if is_ok (deliver second).2 then 1%nat else 2%nat)
  ∧ 0 ≤ dl_end d ≤ 10500.
Proof.
  intros H1 H2. unfold fire_task.
  assert (B : ∀ p, (∀ t reply, p = Resolves t reply → 0 ≤ t) → 0 ≤ (deliver p).1 ≤ 5000).
  { intros [t reply|] Hp; cbn [deliver]; [|cbn; lia]. specialize (Hp t reply eq_refl).
    destruct (Z.leb_spec t 5000); cbn; lia. }
  pose proof (B first H1). pose proof (B second H2).
  destruct (deliver first) as [t1 [[]|e]]; cbn [fst snd is_ok] in *; [cbn; split_and!; (done || lia)|].
  destruct (deliver second) as [t2 [[]|e2]]; cbn [fst snd is_ok] in *; cbn; split;
    solve [lia | eexists; split_and!; reflexivity].
Qed.

(** A refusal counts as a delivery.  Whatever status the receiver answers
    with, an overloaded server's 503 included, the event is not sent again and
    nothing is logged. *)
Theorem refused_webhook_not_retried t status second :
  0 ≤ t ≤ 5000 →
  fire_task (Resolves t (Some status)) second
  = {| dl_posts := [0]; dl_end := t; dl_warnings := [] |}.
Proof. intros Ht. unfold fire_task, deliver. by rewrite (proj2 (Z.leb_le t 5000)) by lia. Qed.

Lemma fire_task_spec_witness :
  dl_posts (fire_task NeverResolves (Resolves 10 (Some 200))) = [0; 5500].
Proof.
  destruct (fire_task_spec NeverResolves (Resolves 10 (Some 200))) as [(t & -> & -> & _) _];
    [discriminate|by intros t r [= <- _]|reflexivity].
Defined.
Lemma refused_webhook_not_retried_witness :
  dl_posts (fire_task (Resolves 40 (Some 503)) NeverResolves) = [0].
Proof. by rewrite refused_webhook_not_retried. Defined.

(** ** Health checks: what was seen *)

(** The probes and the checks on demand, as they happened. *)
Inductive seen :=
| SawProbe (k : nat) (id : str) (ok : bool)
| SawForce (id : str) (ok : bool).
#[export] Instance seen_eq_dec : EqDecision seen.
Proof. solve_decision. Defined.

Definition sees (s : balanced) (ev : backend_event) : list seen :=
  match ev with
  | Forced id ok => [SawForce id ok]
  | Probed k ok => match tasks s !! k with
                   | Some (Probing (id :: _) _) => [SawProbe k id ok]
                   | _ => []
                   end
  | _ => []
  end.

Fixpoint trace (s : balanced) (evs : list backend_event) : list seen :=
  match evs with
  | [] => []
  | ev :: rest => sees s ev ++ trace (balanced_step s ev) rest
  end.

(** The outcomes of one task's probes of one backend. *)
Definition outcomes (k : nat) (id : str) (tr : list seen) : list bool :=
  omap (λ x, match x with
             | SawProbe k' id' ok => if bool_decide (k' = k ∧ id' = id) then Some ok else None
             | SawForce _ _ => None
             end) tr.

(** A reason to hold a backend for unhealthy: a check on demand that failed, or
    the third failure in a row of one task, and no success since. *)
Definition success (id : str) (x : seen) : Prop :=
  x = SawForce id true ∨ ∃ k, x = SawProbe k id true.
Definition reason (id : str) (before : list seen) (x : seen) : Prop :=
  x = SawForce id false
  ∨ ∃ k, x = SawProbe k id false ∧ 3 ≤ trailing (outcomes k id (before ++ [x])) 0.
Definition blamed (id : str) (tr : list seen) : Prop :=
  ∃ before x after, tr = before ++ x :: after ∧ reason id before x
                    ∧ ∀ y, y ∈ after → ¬ success id y.

Lemma trailing_snoc rs r n : trailing (rs ++ [r]) n = if r then 0 else trailing rs n + 1.
Proof. revert n. induction rs as [|x rs IH]; intros n; [done|]. apply IH. Qed.

Lemma outcomes_app k id tr tr' : outcomes k id (tr ++ tr') = outcomes k id tr ++ outcomes k id tr'.
Proof. apply omap_app. Qed.

Lemma length_outcomes k id tr : (length (outcomes k id tr) ≤ length tr)%nat.
Proof.
  induction tr as [|x tr IH]; [done|]. unfold outcomes in *. cbn [omap list_omap length].
  destruct (match x with SawProbe _ _ _ => _ | _ => _ end); cbn [length]; lia.
Qed.

Lemma blamed_snoc id tr y : blamed id tr → ¬ success id y → blamed id (tr ++ [y]).
Proof.
  intros (before & x & after & -> & Hr & Ha) Hy. exists before, x, (after ++ [y]).
  rewrite <-app_assoc. split; [done|]. split; [done|]. intros z [Hz|Hz]%elem_of_app; [by apply Ha|].
  by apply list_elem_of_singleton in Hz as ->.
Qed.

Lemma blamed_reason id tr x : reason id tr x → blamed id (tr ++ [x]).
Proof. intros Hr. exists tr, x, []. split_and!; [done..|]. intros y []%elem_of_nil. Qed.

Definition counts_of (t : health_task) : option (gmap str Z) :=
  match t with Waiting fc | Probing _ fc => Some fc | Stopped => None end.

(** What every reachable state satisfies, with what was seen up to it. *)
Record watched (s : balanced) (tr : list seen) : Prop := {
  wt_counts k t fc id : tasks s !! k = Some t → counts_of t = Some fc →
    default 0 (fc !! id) = trailing (outcomes k id tr) 0;
  wt_new k id : (length (tasks s) ≤ k)%nat → outcomes k id tr = [];
  wt_blamed id : false ∈ health_of id (backends s) → blamed id tr;
}.

(** Changing one task, keeping its counts, or stopping it. *)
Lemma watched_set_task s tr k t t' :
  watched s tr → tasks s !! k = Some t →
  (∀ fc, counts_of t' = Some fc → counts_of t = Some fc) → watched (set_task k t' s) tr.
Proof.
  intros [Hc Hn Hb] Hk Ht. split; cbn [set_task tasks backends]; [|by rewrite length_insert|done].
  intros k0 t0 fc id Hk0 Hfc. destruct (decide (k0 = k)) as [->|Hne].
  - rewrite list_lookup_insert_eq in Hk0 by by eapply lookup_lt_Some. injection Hk0 as <-. eauto.
  - rewrite list_lookup_insert_ne in Hk0 by done. eauto.
Qed.

(** A check on demand. *)
Lemma watched_forced s tr id ok :
  watched s tr →
  watched {| backends := store_healthy id ok (backends s); tasks := tasks s |} (tr ++ [SawForce id ok]).
Proof.
  intros [Hc Hn Hb]. split; cbn [backends tasks].
  - intros k t fc id' Hk Hfc. rewrite outcomes_app, app_nil_r. by eapply Hc.
  - intros k id' Hk. rewrite outcomes_app, app_nil_r. by apply Hn.
  - intros id' Hin. rewrite health_of_store in Hin. case_bool_decide as E.
    + subst id'. apply list_elem_of_fmap in Hin as (? & <- & _). apply blamed_reason. by left.
    + apply blamed_snoc; [by apply Hb|]. intros [[= ? ?]|[k ?]]; done.
Qed.

(** A check of another backend, or one that changed nothing. *)
Lemma watched_forced_absent s tr id ok :
  watched s tr → find_backend id (backends s) = None → watched s (tr ++ [SawForce id ok]).
Proof.
  intros [Hc Hn Hb] Hf. split.
  - intros k t fc id' Hk Hfc. rewrite outcomes_app, app_nil_r. by eapply Hc.
  - intros k id' Hk. rewrite outcomes_app, app_nil_r. by apply Hn.
  - intros id' Hin. apply blamed_snoc; [by apply Hb|]. intros [[= -> _]|[k ?]]; [|done].
    unfold find_backend in Hf. unfold health_of in Hin.
    destruct (filter _ (backends s)); [by apply elem_of_nil in Hin|done].
Qed.

(** A probe. *)
Lemma outcomes_probe k k' id id' ok tr :
  outcomes k' id' (tr ++ [SawProbe k id ok])
  = if bool_decide (k = k' ∧ id = id') then outcomes k' id' tr ++ [ok] else outcomes k' id' tr.
Proof.
  rewrite outcomes_app. unfold outcomes at 2. cbn [omap list_omap].
  case_bool_decide; [done|by rewrite app_nil_r].
Qed.

Lemma watched_probed s tr k id fc ok t t' fc' bs :
  watched s tr → Z.of_nat (length tr) < u32_max →
  tasks s !! k = Some t → counts_of t = Some fc →
  check_backend ok id (fc, backends s) = (fc', bs) → counts_of t' = Some fc' →
  watched {| backends := bs; tasks := <[k := t']> (tasks s) |} (tr ++ [SawProbe k id ok]).
Proof.
  intros [Hc Hn Hb] Hlen Hk Hfc Hcheck Hfc'.
  pose proof (lookup_lt_Some _ _ _ Hk) as Hkl.
  assert (V : ∀ id', view id' (fc', bs)
                     = if bool_decide (id' = id) then view_step ok (view id' (fc, backends s))
                       else view id' (fc, backends s)).
  { intros id'. by rewrite <-Hcheck, view_check. }
  assert (Hcount : default 0 (fc !! id) = trailing (outcomes k id tr) 0) by by eapply Hc.
  assert (Hsmall : 0 ≤ trailing (outcomes k id tr) 0 < u32_max).
  { pose proof (trailing_bound (outcomes k id tr) 0 ltac:(lia)).
    pose proof (length_outcomes k id tr). lia. }
  split; cbn [backends tasks].
  - intros k0 t0 fc0 id0 Hk0 Hfc0. rewrite outcomes_probe.
    destruct (decide (k0 = k)) as [->|Hne].
    + rewrite list_lookup_insert_eq in Hk0 by done. injection Hk0 as <-.
      rewrite Hfc' in Hfc0. injection Hfc0 as <-.
      pose proof (f_equal fst (V id0)) as Vc. cbn [view fst] in Vc. rewrite Vc.
      destruct (decide (id = id0)) as [<-|Hid].
      * rewrite !bool_decide_true by done. rewrite trailing_snoc. unfold view_step, view. cbn [fst].
        destruct ok; [done|]. cbn [fst]. rewrite Hcount, wrap_small; [done|unfold u32_max in *; lia].
      * rewrite !bool_decide_false by naive_solver. by eapply Hc.
    + rewrite list_lookup_insert_ne in Hk0 by done.
      rewrite bool_decide_false by naive_solver. by eapply Hc.
  - intros k0 id0. rewrite length_insert. intros Hk0. rewrite outcomes_probe.
    rewrite bool_decide_false by (intros [-> _]; lia). by apply Hn.
  - intros id0 Hin. pose proof (f_equal snd (V id0)) as Vh. cbn [view snd] in Vh. rewrite Vh in Hin.
    case_bool_decide as E; cbn [snd view] in Hin.
    + subst id0. unfold view_step in Hin. destruct ok; cbn [fst snd view] in Hin.
      { by apply list_elem_of_fmap in Hin as (? & ? & _). }
      rewrite Hcount, wrap_small in Hin by (unfold u32_max in *; lia).
      destruct (Z.leb_spec 3 (trailing (outcomes k id tr) 0 + 1)) as [H3|H3].
      * apply blamed_reason. right. exists k. split; [done|].
        rewrite outcomes_probe, bool_decide_true, trailing_snoc by done. lia.
      * apply blamed_snoc; [by apply Hb|]. intros [?|[k' ?]]; done.
    + apply blamed_snoc; [by apply Hb|]. intros [?|[k' [= ? ? ?]]]; [done|congruence].
Qed.

Lemma health_of_sublist id l k : sublist l k → false ∈ health_of id l → false ∈ health_of id k.
Proof.
  intros Hs Hin. unfold health_of in *. apply list_elem_of_fmap in Hin as (b & -> & Hb).
  apply list_elem_of_fmap. exists b. split; [done|]. apply list_elem_of_filter in Hb as [? Hb].
  apply list_elem_of_filter. split; [done|]. by eapply elem_of_sublist.
Qed.

Lemma watched_step s tr ev :
  watched s tr → Z.of_nat (length tr) < u32_max → watched (balanced_step s ev) (tr ++ sees s ev).
Proof.
  intros Hw Hlen. destruct ev as [id addr weight|id|id ok|k|k ok];
    cbn [sees balanced_step]; rewrite ?app_nil_r.
  - destruct Hw as [Hc Hn Hb]. split; cbn [backends tasks].
    + intros k t fc id' Hk Hfc. apply lookup_app_Some in Hk as [Hk|[Hk Hl]]; [by eapply Hc|].
      apply list_lookup_singleton_Some in Hl as [_ <-]. injection Hfc as <-.
      by rewrite lookup_empty, Hn.
    + intros k id'. rewrite length_app. intros Hk. apply Hn. lia.
    + intros id' Hin. apply Hb. unfold health_of, push_backend in *.
      rewrite filter_app, fmap_app in Hin. apply elem_of_app in Hin as [Hin|Hin]; [done|].
      rewrite filter_cons in Hin. case_decide; [by apply list_elem_of_singleton in Hin|].
      by apply elem_of_nil in Hin.
  - destruct Hw as [Hc Hn Hb]. split; cbn [backends tasks]; [done..|].
    intros id' Hin. apply Hb. unfold drop_backend in Hin.
    destruct (_ =? _)%nat; cbn [default] in Hin; [done|].
    eapply health_of_sublist; [apply (sublist_filter (λ b, b_id b ≠ id))|exact Hin].
  - destruct (find_backend id (backends s)) eqn:E; [by apply watched_forced|].
    by apply watched_forced_absent.
  - destruct (tasks s !! k) as [t|] eqn:Ek; [|done]. destruct t as [fc|p fc|]; [|done|done].
    destruct (backends s) eqn:Eb; (eapply watched_set_task; [done|done|]); [done|].
    by intros fc' [= <-].
  - destruct (tasks s !! k) as [t|] eqn:Ek; [|by rewrite app_nil_r].
    destruct t as [fc|[|id rest] fc|]; rewrite ?app_nil_r; try done.
    destruct (check_backend ok id (fc, backends s)) as [fc' bs] eqn:Ec.
    eapply watched_probed; try done. by destruct rest.
Qed.

Lemma watched_run s tr evs :
  watched s tr → Z.of_nat (length tr + length evs) ≤ u32_max →
  watched (balanced_run s evs) (tr ++ trace s evs).
Proof.
  revert s tr. induction evs as [|ev evs IH]; intros s tr Hw Hlen; [by rewrite app_nil_r|].
  cbn [balanced_run foldl trace length] in *. rewrite app_assoc. apply IH.
  - apply watched_step; [done|lia].
  - rewrite length_app. assert (length (sees s ev) ≤ 1)%nat; [|lia].
    destruct ev; cbn; try lia. repeat case_match; cbn; lia.
Qed.

(** ** Health checks: theorems *)

Definition no_backends : balanced := {| backends := []; tasks := [] |}.

Lemma watched_start : watched no_backends [].
Proof. split; [done..|]. intros id []%elem_of_nil. Qed.

(** C17: No backend is taken out without cause.  However the health tasks of a
    tunnel, the checks on demand and the changes of its list are interleaved, a
    backend that is held for unhealthy failed a check on demand, or the third
    probe in a row of one of the tasks, and no probe or check of it has
    succeeded since. *)
Theorem unhealthy_backend_blamed evs b :
  Z.of_nat (length evs) ≤ u32_max →
  b ∈ backends (balanced_run no_backends evs) → b_healthy b = false →
  blamed (b_id b) (trace no_backends evs).
Proof.
  intros Hlen Hin Hh. apply (watched_run no_backends [] evs watched_start Hlen).
  unfold health_of. rewrite <-Hh. apply list_elem_of_fmap_2, list_elem_of_filter. done.
Qed.

Definition demo_balanced : list backend_event :=
  [Added §"a" §"10.0.0.1:80" 1; Tick 0; Probed 0 false; Tick 0; Probed 0 false;
   Tick 0; Probed 0 false].

Lemma unhealthy_backend_blamed_witness :
  blamed §"a" (trace no_backends demo_balanced)
  ∧ b_healthy <$> backends (balanced_run no_backends demo_balanced) = [false].
Proof.
  split; [|reflexivity].
  apply (unhealthy_backend_blamed demo_balanced (set_healthy false (backend_new §"a" §"10.0.0.1:80" 1)));
    [unfold u32_max; simpl; lia|by left|reflexivity].
Defined.

Definition live (t : health_task) : bool := match t with Stopped => false | _ => true end.
Definition live_tasks (s : balanced) : nat := length (filter (λ t, live t = true) (tasks s)).
Definition is_addition (ev : backend_event) : bool :=
  match ev with Added _ _ _ => true | _ => false end.
Definition additions (evs : list backend_event) : nat :=
  length (filter (λ ev, is_addition ev = true) evs).

Lemma live_insert k t t' ts :
  ts !! k = Some t → live t = live t' →
  length (filter (λ t, live t = true) (<[k := t']> ts)) = length (filter (λ t, live t = true) ts).
Proof.
  revert k. induction ts as [|u ts IH]; intros [|k] Hk Hl; [done..| |]; cbn in Hk.
  - injection Hk as ->. change (<[0%nat := t']> (t :: ts)) with (t' :: ts). rewrite !filter_cons.
    by destruct (live t), (live t').
  - change (<[S k := t']> (u :: ts)) with (u :: <[k := t']> ts). rewrite !filter_cons.
    case_decide; cbn [length]; by rewrite IH.
Qed.

(** Every addition of a backend leaves one more task behind for good.  As
    long as no tick finds the list empty, the tasks that go on probing the whole
    list are as many as there were additions, however many backends have been
    removed meanwhile. *)
Theorem health_tasks_accumulate s evs :
  (∀ pre k post, evs = pre ++ Tick k :: post → backends (balanced_run s pre) ≠ []) →
  live_tasks (balanced_run s evs) = (live_tasks s + additions evs)%nat.
Proof.
  revert s. induction evs as [|ev evs IH]; intros s Hne; [cbn; lia|].
  cbn [balanced_run foldl]. fold (balanced_run (balanced_step s ev) evs). rewrite IH.
  2:{ intros pre k post ->. exact (Hne (ev :: pre) k post eq_refl). }
  unfold additions. rewrite filter_cons. unfold live_tasks.
  destruct ev as [id addr weight|id|id ok|k|k ok]; cbn [balanced_step].
  - rewrite decide_True by done. cbn [tasks]. rewrite filter_app, length_app, (filter_cons _ (Waiting ∅)).
    rewrite decide_True by done. cbn [length filter list_filter]. lia.
  - by rewrite decide_False by done.
  - rewrite decide_False by done. by destruct (find_backend id _).
  - rewrite decide_False by done. specialize (Hne [] k evs eq_refl). cbn in Hne.
    destruct (tasks s !! k) as [t|] eqn:Ek; [|done]. destruct t as [fc|p fc|]; [|done|done].
    destruct (backends s); [done|]. cbn [set_task tasks]. by erewrite live_insert.
  - rewrite decide_False by done. destruct (tasks s !! k) as [t|] eqn:Ek; [|done].
    destruct t as [fc|[|id rest] fc|]; try done.
    destruct (check_backend ok id _) as [fc' bs]. cbn [tasks].
    erewrite live_insert; [done|done|]. by destruct rest.
Qed.

Lemma health_tasks_accumulate_witness :
  live_tasks (balanced_run no_backends
    [Added §"a" §"10.0.0.1:80" 1; Added §"b" §"10.0.0.2:80" 1; Removed §"b"; Tick 0; Tick 1]) = 2%nat.
Proof.
  rewrite health_tasks_accumulate; [reflexivity|].
  intros pre k post E Hb.
  do 5 (destruct pre as [|? pre]; [discriminate E || discriminate Hb|injection E as <- E]).
  by destruct pre.
Defined.

(** Tasks do not share their counts.  With two of them a backend that answers
    every other probe, and never misses two in a row, is held for unhealthy
    after the third one it misses. *)
Theorem alternating_backend_unhealthy :
  let evs := [Added §"a" §"10.0.0.1:80" 1; Added §"b" §"10.0.0.2:80" 1; Removed §"b"]
             ++ concat (replicate 2 [Tick 0; Probed 0 false; Tick 1; Probed 1 true])
             ++ [Tick 0; Probed 0 false] in
  trace no_backends evs
  = [SawProbe 0 §"a" false; SawProbe 1 §"a" true; SawProbe 0 §"a" false; SawProbe 1 §"a" true;
     SawProbe 0 §"a" false]
  ∧ health_of §"a" (backends (balanced_run no_backends evs)) = [false].
Proof. split; reflexivity. Qed.
