(* ===== verification/Store.v ===== *)
(** * Store: proxy routes and settings kept in a JSON file

    [crates/seamless-relay/src/store.rs]: the records, the JSON documents they
    are, [load], and [save] as the steps it takes on a file system whose names
    point to files, so that a crash or another [save] can come between two
    steps. *)

From S2P Require Import Prelude Text Json.
Local Open Scope Z_scope.

(** ** Records *)

Record ProxyRoute := {
  pr_id : str;
  pr_domain : str;
  pr_upstream_url : str;
  pr_enabled : bool;
  pr_created_at : Z;
}.

Record CfSettings := {
  api_token : str;
  account_id : str;
}.

Record Store := {
  routes : list ProxyRoute;
  cf : option CfSettings;
  identity_hex : option str;
  identity_x25519_hex : option str;
  identity_kem_pk_hex : option str;
  identity_kem_sk_hex : option str;
}.

Definition store_default : Store :=
  {| routes := []; cf := None; identity_hex := None; identity_x25519_hex := None;
     identity_kem_pk_hex := None; identity_kem_sk_hex := None |}.

Definition set_routes (v : list ProxyRoute) (s : Store) : Store :=
  {| routes := v; cf := cf s; identity_hex := identity_hex s;
     identity_x25519_hex := identity_x25519_hex s; identity_kem_pk_hex := identity_kem_pk_hex s;
     identity_kem_sk_hex := identity_kem_sk_hex s |}.
Definition set_cf (v : option CfSettings) (s : Store) : Store :=
  {| routes := routes s; cf := v; identity_hex := identity_hex s;
     identity_x25519_hex := identity_x25519_hex s; identity_kem_pk_hex := identity_kem_pk_hex s;
     identity_kem_sk_hex := identity_kem_sk_hex s |}.

(** ** The documents

    A struct is an object whose members come in the order of its fields.
    Reading one, a member given twice is an error, an unknown member is
    skipped, a missing [Option] is [None].  (An array in place of an object,
    which [serde] reads by position, is not modelled.) *)

Definition route_to_value (r : ProxyRoute) : Value :=
  Obj [(§"id", Str (pr_id r)); (§"domain", Str (pr_domain r));
       (§"upstream_url", Str (pr_upstream_url r)); (§"enabled", Bool (pr_enabled r));
       (§"created_at", Int (pr_created_at r))].

Definition cf_to_value (c : CfSettings) : Value :=
  Obj [(§"api_token", Str (api_token c)); (§"account_id", Str (account_id c))].

(** [skip_serializing_if = "Option::is_none"] *)
Definition skip_none (k : str) (o : option str) : list (str * Value) :=
  match o with Some s => [(k, Str s)] | None => [] end.

Definition store_to_value (s : Store) : Value :=
  Obj ([(§"routes", Arr (route_to_value <$> routes s)); (§"cf", opt_value cf_to_value (cf s));
        (§"identity_hex", opt_value Str (identity_hex s))]
       ++ skip_none §"identity_x25519_hex" (identity_x25519_hex s)
       ++ skip_none §"identity_kem_pk_hex" (identity_kem_pk_hex s)
       ++ skip_none §"identity_kem_sk_hex" (identity_kem_sk_hex s)).

Definition member_of (k : str) (m : list (str * Value)) : result str (option Value) :=
  match filter (λ kv, kv.1 = k) m with
  | [] => Ok None
  | [(_, v)] => Ok (Some v)
  | _ => Err (§"duplicate field `" ++ k ++ §"`")
  end.

Definition required_member {A} (read : Value → option A) (k : str) (m : list (str * Value))
    : result str A :=
  v ← member_of k m;
  match v with
  | None => Err (§"missing field `" ++ k ++ §"`")
  | Some v => ok_or §"invalid type" (read v)
  end.

Definition default_member {A} (read : Value → result str A) (d : A) (k : str)
    (m : list (str * Value)) : result str A :=
  v ← member_of k m; match v with None => Ok d | Some v => read v end.

(** An [Option] member: absent or [null] is [None]. *)
Definition option_member {A} (read : Value → result str A) (k : str) (m : list (str * Value))
    : result str (option A) :=
  default_member (λ v, match v with
                       | Null => Ok None
                       | _ => a ← read v; Ok (Some a)
                       end) None k m.

Definition members (v : Value) : result str (list (str * Value)) :=
  match v with Obj m => Ok m | _ => Err §"invalid type" end.

Definition route_of_value (v : Value) : result str ProxyRoute :=
  m ← members v;
  id ← required_member as_str §"id" m;
  domain ← required_member as_str §"domain" m;
  upstream ← required_member as_str §"upstream_url" m;
  enabled ← default_member (λ v, ok_or §"invalid type" (as_bool v)) true §"enabled" m;
  created ← required_member as_i64 §"created_at" m;
  Ok {| pr_id := id; pr_domain := domain; pr_upstream_url := upstream; pr_enabled := enabled;
        pr_created_at := created |}.

Definition cf_of_value (v : Value) : result str CfSettings :=
  m ← members v;
  token ← required_member as_str §"api_token" m;
  account ← required_member as_str §"account_id" m;
  Ok {| api_token := token; account_id := account |}.

Fixpoint routes_of_values (vs : list Value) : result str (list ProxyRoute) :=
  match vs with
  | [] => Ok []
  | v :: rest => r ← route_of_value v; rs ← routes_of_values rest; Ok (r :: rs)
  end.

Definition string_of_value (v : Value) : result str str := ok_or §"invalid type" (as_str v).

Definition store_of_value (v : Value) : result str Store :=
  m ← members v;
  rs ← default_member (λ v, match v with Arr vs => routes_of_values vs
                                       | _ => Err §"invalid type" end) [] §"routes" m;
  c ← option_member cf_of_value §"cf" m;
  i ← option_member string_of_value §"identity_hex" m;
  x ← option_member string_of_value §"identity_x25519_hex" m;
  pk ← option_member string_of_value §"identity_kem_pk_hex" m;
  sk ← option_member string_of_value §"identity_kem_sk_hex" m;
  Ok {| routes := rs; cf := c; identity_hex := i; identity_x25519_hex := x;
        identity_kem_pk_hex := pk; identity_kem_sk_hex := sk |}.

(** ** Files *)

(** [dir] says which file a name points to, [data] what a file holds. *)
Record fsys := {
  dir : gmap str nat;
  data : gmap nat str;
}.

Definition read_file (fs : fsys) (p : str) : option str := i ← dir fs !! p; data fs !! i.

(** [File::create]: an existing file is truncated. *)
Definition create (p : str) (fs : fsys) : nat * fsys :=
  let i := default (fresh (dom (data fs))) (dir fs !! p) in
  (i, {| dir := <[p := i]> (dir fs); data := <[i := []]> (data fs) |}).

(** A write of [bs] at offset [off]; a gap is filled with zeros. *)
Definition write_at (i : nat) (off : nat) (bs : str) (fs : fsys) : fsys :=
  let old := default [] (data fs !! i) in
  {| dir := dir fs;
     data := <[i := take off (old ++ replicate (off - length old) zero)
                    ++ bs ++ drop (off + length bs) old]> (data fs) |}.

Definition rename (a b : str) (fs : fsys) : option fsys :=
  i ← dir fs !! a; Some {| dir := <[b := i]> (delete a (dir fs)); data := data fs |}.

(** [path.with_extension("json.tmp")] of a path that ends in a file name. *)
Definition file_stem (name : str) : str :=
  match rsplit_char "."%char name with
  | Some ([], _) | None => name
  | Some (stem, _) => stem
  end.
Definition tmp_path (path : str) : str :=
  match rsplit_char "/"%char path with
  | Some (parent, name) => parent ++ §"/" ++ file_stem name ++ §".json.tmp"
  | None => file_stem path ++ §".json.tmp"
  end.

(** [serde_json::to_string_pretty] and [serde_json::from_str]. *)
Class JsonFile := {
  to_string_pretty : Value → str;
  from_str : str → option Value;
}.

(** A document the store is: no floating point, integers in range, text. *)
Fixpoint plain_data (v : Value) : bool :=
  match v with
  | Null | Bool _ => true
  | Int z => (i64_min <=? z) && (z <=? u64_max)
  | Float _ => false
  | Str s => utf8_valid s
  | Arr l => forallb plain_data l
  | Obj m => forallb (λ kv, utf8_valid kv.1 && plain_data kv.2) m
  end.

(** Printing and reading a document gives it back. *)
Class JsonFileLaws `{JsonFile} := {
  from_to_string : ∀ v, plain_data v = true → from_str (to_string_pretty v) = Some v;
  printed_text : ∀ v, plain_data v = true → utf8_valid (to_string_pretty v) = true;
}.

Section files.
Context `{JsonFile}.

(** [load]: no file is an empty store, a file that does not parse an error. *)
Definition load (fs : fsys) (path : str) : result str Store :=
  match dir fs !! path with
  | Some i =>
    text ← ok_or §"read" (data fs !! i ≫= from_utf8);
    v ← ok_or §"parse" (from_str text);
    store_of_value v
  | None => Ok store_default
  end.

(** Where a [save] stands: before the first file operation with the text it
    made under the lock, writing, before the rename, returned. *)
Inductive save_pc :=
| Started (text : str)
| Writing (text : str) (i off : nat)
| Renaming (text : str)
| Saved
| Failed.

Definition save_start (s : Store) : save_pc := Started (to_string_pretty (store_to_value s)).
End files.

(** One step; [ok] is the answer of the operation, [n] the bytes a write takes
    beyond the first. *)
Definition save_step (path : str) (ok : bool) (n : nat) (pc : save_pc) (fs : fsys)
    : save_pc * fsys :=
  match pc with
  | Started text =>
    if ok then let '(i, fs) := create (tmp_path path) fs in (Writing text i 0, fs)
    else (Failed, fs)
  | Writing text i off =>
    match drop off text with
    | [] => (Renaming text, fs)
    | rest =>
      let bs := take (S n) rest in
      if ok then (Writing text i (off + length bs), write_at i off bs fs) else (Failed, fs)
    end
  | Renaming text =>
    if ok then match rename (tmp_path path) path fs with
               | Some fs => (Saved, fs)
               | None => (Failed, fs)
               end
    else (Failed, fs)
  | Saved => (Saved, fs)
  | Failed => (Failed, fs)
  end.

(** A [save] that runs alone, for as many steps as the schedule has. *)
Fixpoint save_run (path : str) (sched : list (bool * nat)) (pc : save_pc) (fs : fsys)
    : save_pc * fsys :=
  match sched with
  | [] => (pc, fs)
  | (ok, n) :: rest => let '(pc, fs) := save_step path ok n pc fs in save_run path rest pc fs
  end.

(** Two of them: [true] is a step of the first. *)
Fixpoint save_run2 (path : str) (sched : list (bool * nat)) (pcs : save_pc * save_pc) (fs : fsys)
    : (save_pc * save_pc) * fsys :=
  match sched with
  | [] => (pcs, fs)
  | (first, n) :: rest =>
    if first then let '(pc, fs) := save_step path true n pcs.1 fs in
                  save_run2 path rest (pc, pcs.2) fs
    else let '(pc, fs) := save_step path true n pcs.2 fs in save_run2 path rest (pcs.1, pc) fs
  end.

(** ** Lemmas: names *)

Lemma file_stem_ne name : file_stem name ++ §".json.tmp" ≠ name.
Proof.
  assert (L : name ++ §".json.tmp" ≠ name).
  { intros E. apply (f_equal length) in E. rewrite length_app in E. cbn in E. lia. }
  unfold file_stem. pose proof (rsplit_spec "."%char name) as H.
  destruct (rsplit_char _ name) as [[[|c stem] ext]|]; [done| |done].
  destruct H as [H Hext]. intros E. rewrite H in E.
  apply app_inv_head in E. injection E as <-. apply Hext. by apply (bool_decide_unpack _).
Qed.

Lemma tmp_path_ne path : tmp_path path ≠ path.
Proof.
  unfold tmp_path. pose proof (rsplit_spec "/"%char path) as H.
  destruct (rsplit_char "/"%char path) as [[parent name]|]; [|apply file_stem_ne].
  destruct H as [-> _]. intros E. apply app_inv_head in E. cbn [app] in E.
  injection E as E. by apply file_stem_ne in E.
Qed.

(** ** Lemmas: reading what was written *)

Definition store_wf (s : Store) : Prop :=
  Forall (λ r, i64_min <= pr_created_at r <= i64_max) (routes s).

Lemma as_i64_int z : i64_min <= z <= i64_max → as_i64 (Int z) = Some z.
Proof. intros H. cbn. destruct (Z.leb_spec i64_min z), (Z.leb_spec z i64_max); (done || lia). Qed.

Lemma route_round_trip r :
  i64_min <= pr_created_at r <= i64_max → route_of_value (route_to_value r) = Ok r.
Proof.
  intros Hr%as_i64_int. destruct r as [i d u e t]. cbn -[as_i64] in Hr.
  unfold route_of_value, route_to_value, required_member.
  generalize dependent as_i64. intros read Hr. vm_compute. by rewrite Hr.
Qed.

Lemma routes_round_trip rs :
  Forall (λ r, i64_min <= pr_created_at r <= i64_max) rs →
  routes_of_values (route_to_value <$> rs) = Ok rs.
Proof.
  induction 1 as [|r rs Hr _ IH]; [done|]. rewrite fmap_cons. cbn [routes_of_values].
  rewrite route_round_trip by done. cbn [mbind result_bind]. by rewrite IH.
Qed.

Lemma store_of_to_value s : store_wf s → store_of_value (store_to_value s) = Ok s.
Proof.
  intros Hs. apply routes_round_trip in Hs. destruct s as [rs c i x pk sk]. cbn in Hs.
  unfold store_of_value, store_to_value. cbn [routes].
  generalize dependent (route_to_value <$> rs). intros vs.
  generalize dependent routes_of_values. intros read Hs.
  destruct c as [[t a]|], i, x, pk, sk; vm_compute; by rewrite Hs.
Qed.

(** The documents are lossless: what [save] writes is read back as
    the same store, the legacy identity fields included. *)
Theorem store_round_trip s : store_wf s → store_of_value (store_to_value s) = Ok s.
Proof. apply store_of_to_value. Qed.

Lemma store_round_trip_witness :
  let s := set_routes [{| pr_id := §"1"; pr_domain := §"a.example"; pr_upstream_url := §"http://b";
                          pr_enabled := false; pr_created_at := 1700000000 |}] store_default in
  store_of_value (store_to_value s) = Ok s.
Proof.
  intros s. apply (store_round_trip s). constructor; [|constructor].
  unfold i64_min, i64_max. cbn. lia.
Defined.

(** ** Lemmas: one [save] *)

(** The file under [path], if there is one, has no other name. *)
Definition own_file (fs : fsys) (path : str) : Prop :=
  ∀ i, dir fs !! path = Some i →
    is_Some (data fs !! i) ∧ ∀ p, dir fs !! p = Some i → p = path.

(** [fs'] still has under [path] what [fs] has. *)
Definition untouched (path : str) (fs fs' : fsys) : Prop :=
  dir fs' !! path = dir fs !! path
  ∧ ∀ i, dir fs !! path = Some i → data fs' !! i = data fs !! i.

Definition save_inv (path text : str) (fs : fsys) (st : save_pc * fsys) : Prop :=
  let '(pc, fs') := st in
  match pc with
  | Started t => t = text ∧ fs' = fs
  | Writing t i off =>
    t = text ∧ (off <= length text)%nat ∧ untouched path fs fs'
    ∧ dir fs !! path ≠ Some i
    ∧ dir fs' !! tmp_path path = Some i ∧ data fs' !! i = Some (take off text)
  | Renaming t =>
    t = text ∧ untouched path fs fs'
    ∧ ∃ i, dir fs' !! tmp_path path = Some i ∧ data fs' !! i = Some text
  | Saved => read_file fs' path = Some text
  | Failed => untouched path fs fs'
  end.

Lemma untouched_refl path fs : untouched path fs fs.
Proof. done. Qed.

Lemma write_at_end i off bs fs old :
  data fs !! i = Some old → off = length old →
  write_at i off bs fs = {| dir := dir fs; data := <[i := old ++ bs]> (data fs) |}.
Proof.
  intros Hi ->. unfold write_at. rewrite Hi. cbn [default]. rewrite Nat.sub_diag. cbn [replicate].
  rewrite app_nil_r, firstn_all, (drop_ge old) by lia. by rewrite app_nil_r.
Qed.

Lemma save_step_inv path text fs ok n st :
  own_file fs path → save_inv path text fs st →
  save_inv path text fs (save_step path ok n st.1 st.2).
Proof.
  intros Hown. pose proof (tmp_path_ne path) as Hne. destruct st as [pc fs']. cbn [fst snd].
  destruct pc as [t|t i off|t| |]; cbn [save_inv save_step].
  - intros [-> ->]. destruct ok; [|apply untouched_refl].
    unfold create. set (i := default _ _). cbn [save_inv dir data].
    assert (Hi : dir fs !! path ≠ Some i).
    { intros Hp. destruct (Hown i Hp) as [[x Hx] Huniq]. unfold i in *.
      destruct (dir fs !! tmp_path path) as [j|] eqn:Et; cbn [default] in *.
      - by apply Huniq in Et.
      - by apply (elem_of_dom_2 (data fs)), is_fresh in Hx. }
    split_and!; [done|lia| |done|by rewrite lookup_insert_eq|by rewrite lookup_insert_eq].
    split; cbn [dir data]; [by rewrite lookup_insert_ne|].
    intros j Hj. rewrite lookup_insert_ne; [done|congruence].
  - intros (-> & Hoff & [Hd Hu] & Hi & Ht & Hdata).
    destruct (drop off text) as [|c rest] eqn:Ed.
    + cbn [save_inv]. split_and!; [done|by split|]. exists i. split; [done|].
      rewrite Hdata. f_equal. apply take_ge. apply (f_equal length) in Ed.
      rewrite length_drop in Ed. cbn in Ed. lia.
    + destruct ok; [|by split]. cbn [save_inv]. set (bs := take (S n) (c :: rest)).
      rewrite (write_at_end i off bs fs' (take off text)) by (rewrite ?length_take; (done || lia)).
      cbn [dir data].
      assert (Hbs : take (off + length bs) text = take off text ++ bs).
      { rewrite <-take_take_drop, Ed. f_equal. unfold bs. rewrite length_take.
        destruct (Nat.le_ge_cases (S n) (length (c :: rest))).
        - f_equal. lia.
        - rewrite (take_ge _ (S n)) by done. rewrite Nat.min_r by done. apply take_ge. lia. }
      assert (Hlen : (off + length bs <= length text)%nat).
      { apply (f_equal length) in Ed. rewrite length_drop in Ed. unfold bs.
        rewrite length_take, <-Ed. lia. }
      split_and!; [done|done| |done|done|by rewrite lookup_insert_eq, Hbs].
      split; [done|]. cbn [data]. intros j Hj. rewrite lookup_insert_ne by congruence. auto.
  - intros (-> & Hu & i & Ht & Hdata). destruct ok; [|done].
    unfold rename. rewrite Ht. cbn [mbind option_bind save_inv read_file dir data].
    unfold read_file. cbn [dir data]. by rewrite lookup_insert_eq.
  - done.
  - done.
Qed.

Lemma save_run_inv path text fs sched st :
  own_file fs path → save_inv path text fs st →
  save_inv path text fs (save_run path sched st.1 st.2).
Proof.
  intros Hown. revert st. induction sched as [|[ok n] sched IH]; intros [pc fs'] Hst; [done|].
  cbn [save_run fst snd].
  pose proof (save_step_inv path text fs ok n (pc, fs') Hown Hst) as H. cbn [fst snd] in H.
  destruct (save_step path ok n pc fs') as [pc2 fs2]. by apply (IH (pc2, fs2)).
Qed.

Section load.
Context `{JsonFileLaws}.

Lemma load_untouched fs fs' path : untouched path fs fs' → load fs' path = load fs path.
Proof.
  intros [Hd Hu]. unfold load. rewrite Hd. destruct (dir fs !! path) as [i|]; [|done].
  by rewrite Hu.
Qed.

Lemma load_text fs path s :
  store_wf s → plain_data (store_to_value s) = true →
  read_file fs path = Some (to_string_pretty (store_to_value s)) → load fs path = Ok s.
Proof.
  intros Hs Hp Hr. unfold read_file in Hr. unfold load.
  destruct (dir fs !! path) as [i|]; [|done]. cbn [mbind option_bind] in Hr.
  rewrite Hr. cbn [mbind option_bind]. unfold from_utf8. rewrite printed_text by done.
  cbn [ok_or mbind result_bind]. rewrite from_to_string by done. by apply store_of_to_value.
Qed.

Lemma load_inv path s fs st :
  store_wf s → plain_data (store_to_value s) = true →
  save_inv path (to_string_pretty (store_to_value s)) fs st →
  (load st.2 path = load fs path ∨ load st.2 path = Ok s)
  ∧ (st.1 = Saved → load st.2 path = Ok s).
Proof.
  intros Hs Hp. destruct st as [[t|t i off|t| |] fs']; cbn [save_inv fst snd].
  - intros [_ ->]. by split; [left|].
  - intros (_ & _ & Hu & _). split; [left; by apply load_untouched|done].
  - intros (_ & Hu & _). split; [left; by apply load_untouched|done].
  - intros Hr. apply load_text in Hr; [|done|done]. by split; [right|].
  - intros Hu. split; [left; by apply load_untouched|done].
Qed.
End load.

(** Steps to the end, when every operation succeeds. *)
Definition save_left (pc : save_pc) : nat :=
  match pc with
  | Started text => length text + 3
  | Writing text _ off => length text - off + 2
  | Renaming _ => 1
  | Saved | Failed => 0
  end.

Lemma save_step_left path text fs n st :
  own_file fs path → save_inv path text fs st → st.1 ≠ Failed →
  let st' := save_step path true n st.1 st.2 in
  st'.1 ≠ Failed ∧ (save_left st'.1 <= pred (save_left st.1))%nat.
Proof.
  intros Hown. destruct st as [pc fs']. cbn [fst snd].
  destruct pc as [t|t i off|t| |]; cbn [save_inv save_step save_left].
  - intros [-> ->] _. destruct (create (tmp_path path) fs) as [i fs2]. split; cbn; [done|lia].
  - intros (-> & Hoff & _) _. destruct (drop off text) as [|c rest] eqn:Ed.
    + cbn. split; [done|lia].
    + apply (f_equal length) in Ed. rewrite length_drop in Ed. cbn in Ed |- *.
      split; [done|lia].
  - intros (-> & _ & i & Ht & _) _. unfold rename. rewrite Ht. by split.
  - intros _ _. by split.
  - done.
Qed.

Lemma save_finishes path text fs ns st :
  own_file fs path → save_inv path text fs st → st.1 ≠ Failed →
  (save_left st.1 <= length ns)%nat →
  (save_run path ((λ n, (true, n)) <$> ns) st.1 st.2).1 = Saved.
Proof.
  intros Hown. revert st. induction ns as [|n ns IH]; intros [pc fs'] Hinv Hf Hl; cbn [fst snd] in *.
  - destruct pc; cbn in Hl |- *; (lia || done).
  - pose proof (save_step_inv path text fs true n (pc, fs') Hown Hinv) as Hinv'.
    pose proof (save_step_left path text fs n (pc, fs') Hown Hinv Hf) as [Hf' Hl'].
    cbn [fmap list_fmap save_run fst snd] in *.
    destruct (save_step path true n pc fs') as [pc2 fs2].
    apply (IH (pc2, fs2)); cbn [fst snd length] in *; [done..|lia].
Qed.

(** C24: saving is atomic.  A [save] that runs alone, stopped by a crash or an
    error after any number of steps and with any chunking of its writes, leaves
    a file from which [load] gives the store saved before or the new one, and
    the new one when [save] returned [Ok]; and it returns [Ok] when no operation
    fails, after at most three steps more than the text has bytes. *)
Theorem save_atomic `{JsonFileLaws} path fs s sched ns :
  own_file fs path → store_wf s → plain_data (store_to_value s) = true →
  (let '(pc, fs') := save_run path sched (save_start s) fs in
   (load fs' path = load fs path ∨ load fs' path = Ok s)
   ∧ (pc = Saved → load fs' path = Ok s))
  ∧ ((length (to_string_pretty (store_to_value s)) + 3 <= length ns)%nat →
     (save_run path ((λ n, (true, n)) <$> ns) (save_start s) fs).1 = Saved).
Proof.
  intros Hown Hs Hp. set (text := to_string_pretty (store_to_value s)).
  assert (H0' : save_inv path text fs (save_start s, fs)) by done. split.
  - pose proof (save_run_inv path text fs sched _ Hown H0') as Hinv. cbn [fst snd] in Hinv.
    apply load_inv in Hinv; [|done|done]. by destruct (save_run path sched (save_start s) fs).
  - intros Hl. apply (save_finishes path text fs ns (save_start s, fs)); done.
Qed.

(** ** A printer and a parser

    The bits of the binary number of the document's tree: a concrete [JsonFile]
    that has its laws. *)

Abbreviation leaf := (unit + bool + Z + str)%type.

Fixpoint to_tree (v : Value) : gen_tree leaf :=
  match v with
  | Null | Float _ => GenLeaf (inl (inl (inl tt)))
  | Bool b => GenLeaf (inl (inl (inr b)))
  | Int z => GenLeaf (inl (inr z))
  | Str s => GenLeaf (inr s)
  | Arr l => GenNode 0 (map to_tree l)
  | Obj m => GenNode 1 (map (λ kv, GenNode 2 [GenLeaf (inr kv.1); to_tree kv.2]) m)
  end.

Fixpoint of_tree (t : gen_tree leaf) : Value :=
  match t with
  | GenLeaf (inl (inl (inr b))) => Bool b
  | GenLeaf (inl (inr z)) => Int z
  | GenLeaf (inr s) => Str s
  | GenLeaf _ => Null
  | GenNode 0 l => Arr (map of_tree l)
  | GenNode _ l =>
    Obj (map (λ t, match t with
                   | GenNode _ [GenLeaf (inr k); t'] => (k, of_tree t')
                   | _ => ([], Null)
                   end) l)
  end.

Fixpoint of_to_tree (v : Value) : plain_data v = true → of_tree (to_tree v) = v.
Proof.
  destruct v as [|b|z|f|s|l|m]; try done.
  - intros H. cbn [to_tree of_tree]. f_equal. cbn [plain_data] in H. revert H.
    induction l as [|v l IH]; [done|]. cbn [forallb map].
    intros [Hv Hl]%andb_true_iff. f_equal; auto.
  - intros H. cbn [to_tree of_tree]. f_equal. cbn [plain_data] in H. revert H.
    induction m as [|[k v] m IH]; [done|]. cbn [forallb map fst snd].
    intros [[_ Hv]%andb_true_iff Hm]%andb_true_iff. f_equal; [|auto].
    f_equal. auto.
Qed.

Fixpoint pos_text (p : positive) : str :=
  match p with
  | xH => []
  | xO p => "0"%char :: pos_text p
  | xI p => "1"%char :: pos_text p
  end.
Fixpoint text_pos (s : str) : positive :=
  match s with
  | [] => xH
  | c :: s => if bool_decide (c = "0"%char) then xO (text_pos s) else xI (text_pos s)
  end.
Lemma text_pos_text p : text_pos (pos_text p) = p.
Proof. induction p as [p IH|p IH|]; cbn; by rewrite ?IH. Qed.
Lemma pos_text_ascii p : forallb is_ascii (pos_text p) = true.
Proof. induction p as [p IH|p IH|]; cbn; by rewrite ?IH. Qed.

Definition bit_json : JsonFile :=
  {| to_string_pretty v := pos_text (encode (to_tree v));
     from_str s := of_tree <$> decode (text_pos s) |}.
Lemma bit_json_laws : @JsonFileLaws bit_json.
Proof.
  split; intros v Hv; cbn.
  - rewrite text_pos_text, decode_encode. cbn. by rewrite of_to_tree.
  - apply utf8_ascii, pos_text_ascii.
Qed.

Definition demo_fs : fsys := {| dir := ∅; data := ∅ |}.
Lemma save_atomic_witness :
  let '(_, fs') := save_run §"s.json" [(true, 0%nat); (false, 0%nat)]
                     (save_start (H := bit_json) store_default) demo_fs in
  load (H := bit_json) fs' §"s.json" = Ok store_default.
Proof.
  assert (Hown : own_file demo_fs §"s.json") by (intros i Hi; discriminate).
  pose proof (save_atomic (H0 := bit_json_laws) §"s.json" demo_fs store_default
    [(true, 0%nat); (false, 0%nat)] [] Hown (Forall_nil_2 _) eq_refl) as [H _].
  destruct (save_run _ _ _ _) as [pc fs']. by destruct H as [[H|H] _].
Defined.

(** Two saves at once are not.  [save] holds no lock while it writes, and
    both write the same temporary file: in some interleaving one of them renames
    the file the other has just truncated, so the store under [path] is empty
    until the other has written it (a crash then loses the store), and the
    other's rename fails. *)
Theorem save_race path t1 t2 fs :
  t1 ≠ [] → t2 ≠ [] →
  let before := [(true, 0); (true, length t1); (true, 0); (false, 0); (true, 0)]%nat in
  let after := [(false, length t2); (false, 0); (false, 0)]%nat in
  (let '((pc1, _), fs') := save_run2 path before (Started t1, Started t2) fs in
   pc1 = Saved ∧ read_file fs' path = Some [])
  ∧ (save_run2 path (before ++ after) (Started t1, Started t2) fs).1 = (Saved, Failed).
Proof.
  intros Ht1 Ht2. pose proof (tmp_path_ne path) as Hne. cbv zeta.
  assert (step : ∀ t i fs, t ≠ [] → save_step path true (length t) (Writing t i 0) fs
                 = (Writing t i (length t), write_at i 0 t fs)).
  { intros t i fs0 Ht. cbn [save_step drop]. destruct t as [|c t]; [done|].
    change (drop 0 (c :: t)) with (c :: t). cbv iota. by rewrite take_ge by (cbn; lia). }
  assert (stop : ∀ t i fs, save_step path true 0 (Writing t i (length t)) fs = (Renaming t, fs)).
  { intros t i fs0. cbn [save_step]. by rewrite drop_all. }
  set (start := λ t (fs : fsys), let '(i, fs') := create (tmp_path path) fs in (Writing t i 0, fs')).
  cbn [app save_run2 fst snd].
  change (save_step path true 0 (Started t1) fs) with (start t1 fs).
  unfold start, create. set (i := default _ _).
  rewrite step, stop by done.
  set (fs1 := write_at _ _ _ _).
  assert (Hd : dir fs1 !! tmp_path path = Some i) by (cbn; by rewrite lookup_insert_eq).
  cbn [save_step]. unfold create. rewrite Hd. cbn [default].
  unfold rename. cbn [dir]. rewrite lookup_insert_eq. cbn [mbind option_bind].
  split.
  - split; [done|]. unfold read_file. cbn [dir data]. rewrite lookup_insert_eq. cbn.
    by rewrite lookup_insert_eq.
  - rewrite (step t2), (stop t2) by done. cbn [save_step]. unfold rename. cbn [dir write_at].
    rewrite lookup_insert_ne by done. by rewrite lookup_delete_eq.
Qed.

Lemma save_race_witness :
  let '((pc1, _), fs') := save_run2 §"s.json" [(true, 0); (true, 2); (true, 0); (false, 0); (true, 0)]%nat
     (Started §"{}", Started §"{}") demo_fs in
   pc1 = Saved ∧ read_file fs' §"s.json" = Some [].
Proof.
  assert (H : §"{}" ≠ []) by discriminate.
  exact (proj1 (save_race §"s.json" §"{}" §"{}" demo_fs H H)).
Defined.
