(* ===== verification/Cloudflare.v ===== *)
(** * Cloudflare: the client of the Cloudflare API

    [crates/seamless-relay/src/cloudflare.rs]: the requests each call makes, the
    documents it reads out of the replies and writes for the admin interface, and
    the errors.  The HTTP client is the parameter [send]; every call gives the
    requests it has sent with its result. *)

From S2P Require Import Prelude Text Json Store.
Local Open Scope Z_scope.

Definition CF_API : str := §"https://api.cloudflare.com/client/v4".

(** ** Documents *)

Record CfZone := {
  zn_id : str;
  zn_name : str;
  zn_status : str;
}.
Record CfTunnelConn := {
  tc_colo_name : str;
  tc_is_pending_reconnect : bool;
}.
Record CfTunnel := {
  ct_id : str;
  ct_name : str;
  ct_status : str;
  ct_created_at : str;
  ct_deleted_at : option Value;
  ct_connections : list CfTunnelConn;
}.
Record CfDnsRecord := {
  dr_id : str;
  dr_name : str;
  dr_record_type : str;
  dr_content : str;
  dr_proxied : bool;
  dr_ttl : Z;
  dr_modified_on : option str;
}.
Record CreateDnsRecord := {
  cd_name : str;
  cd_record_type : str;
  cd_content : str;
  cd_proxied : bool;
  cd_ttl : Z;
}.
Record CfErr := {
  ce_code : Z;
  ce_message : str;
}.
Record CfResp (A : Type) := {
  cr_result : option A;
  cr_success : bool;
  cr_errors : list CfErr;
}.
Arguments cr_result {A}.
Arguments cr_success {A}.
Arguments cr_errors {A}.

(** [Deserialize] and [Serialize]; members that are not fields are passed over. *)
Definition as_u32 (v : Value) : option Z :=
  match v with Int z => if (0 <=? z) && (z <=? u32_max) then Some z else None | _ => None end.

Fixpoint read_all {A} (read : Value → result str A) (vs : list Value) : result str (list A) :=
  match vs with
  | [] => Ok []
  | v :: rest => a ← read v; l ← read_all read rest; Ok (a :: l)
  end.
Definition list_of_value {A} (read : Value → result str A) (v : Value) : result str (list A) :=
  match v with Arr vs => read_all read vs | _ => Err §"invalid type" end.

Definition zone_of_value (v : Value) : result str CfZone :=
  m ← members v;
  id ← required_member as_str §"id" m;
  name ← required_member as_str §"name" m;
  status ← required_member as_str §"status" m;
  Ok {| zn_id := id; zn_name := name; zn_status := status |}.
Definition zone_to_value (z : CfZone) : Value :=
  Obj [(§"id", Str (zn_id z)); (§"name", Str (zn_name z)); (§"status", Str (zn_status z))].

Definition conn_of_value (v : Value) : result str CfTunnelConn :=
  m ← members v;
  colo ← default_member string_of_value [] §"colo_name" m;
  pending ← required_member as_bool §"is_pending_reconnect" m;
  Ok {| tc_colo_name := colo; tc_is_pending_reconnect := pending |}.
Definition conn_to_value (c : CfTunnelConn) : Value :=
  Obj [(§"colo_name", Str (tc_colo_name c));
       (§"is_pending_reconnect", Bool (tc_is_pending_reconnect c))].

Definition tunnel_of_value (v : Value) : result str CfTunnel :=
  m ← members v;
  id ← required_member as_str §"id" m;
  name ← required_member as_str §"name" m;
  status ← required_member as_str §"status" m;
  created ← required_member as_str §"created_at" m;
  deleted ← option_member Ok §"deleted_at" m;
  conns ← default_member (list_of_value conn_of_value) [] §"connections" m;
  Ok {| ct_id := id; ct_name := name; ct_status := status; ct_created_at := created;
        ct_deleted_at := deleted; ct_connections := conns |}.
Definition tunnel_to_value (t : CfTunnel) : Value :=
  Obj [(§"id", Str (ct_id t)); (§"name", Str (ct_name t)); (§"status", Str (ct_status t));
       (§"created_at", Str (ct_created_at t)); (§"deleted_at", opt_value id (ct_deleted_at t));
       (§"connections", Arr (conn_to_value <$> ct_connections t))].

Definition record_of_value (v : Value) : result str CfDnsRecord :=
  m ← members v;
  id ← required_member as_str §"id" m;
  name ← required_member as_str §"name" m;
  type ← required_member as_str §"type" m;
  content ← required_member as_str §"content" m;
  proxied ← required_member as_bool §"proxied" m;
  ttl ← required_member as_u32 §"ttl" m;
  modified ← option_member string_of_value §"modified_on" m;
  Ok {| dr_id := id; dr_name := name; dr_record_type := type; dr_content := content;
        dr_proxied := proxied; dr_ttl := ttl; dr_modified_on := modified |}.
Definition record_to_value (r : CfDnsRecord) : Value :=
  Obj [(§"id", Str (dr_id r)); (§"name", Str (dr_name r)); (§"type", Str (dr_record_type r));
       (§"content", Str (dr_content r)); (§"proxied", Bool (dr_proxied r));
       (§"ttl", Int (dr_ttl r)); (§"modified_on", opt_value Str (dr_modified_on r))].

Definition create_record_to_value (r : CreateDnsRecord) : Value :=
  Obj [(§"name", Str (cd_name r)); (§"type", Str (cd_record_type r));
       (§"content", Str (cd_content r)); (§"proxied", Bool (cd_proxied r));
       (§"ttl", Int (cd_ttl r))].

Definition err_of_value (v : Value) : result str CfErr :=
  m ← members v;
  code ← required_member as_u32 §"code" m;
  message ← required_member as_str §"message" m;
  Ok {| ce_code := code; ce_message := message |}.

(** The envelope; [errors] has no default. *)
Definition resp_of_value {A} (read : Value → result str A) (v : Value) : result str (CfResp A) :=
  m ← members v;
  r ← option_member read §"result" m;
  success ← required_member as_bool §"success" m;
  errors ← member_of §"errors" m;
  errors ← match errors with
           | Some v => list_of_value err_of_value v
           | None => Err §"missing field `errors`"
           end;
  Ok {| cr_result := r; cr_success := success; cr_errors := errors |}.

Definition into_result {A} (self : CfResp A) : result str A :=
  if cr_success self
  then ok_or §"CF API returned null result" (cr_result self)
  else Err match cr_errors self with
           | e :: _ => show (ce_code e) ++ §": " ++ ce_message e
           | [] => §"unknown CF API error"
           end.

(** ** Requests *)

Inductive http_method := GET | POST | PUT | DELETE.

Record cf_request := {
  cq_method : http_method;
  cq_url : str;
  cq_bearer : str;
  cq_body : option Value;
}.

(** What came back: whether the status is a success, the text, and the document
    it reads as. *)
Record cf_reply := {
  cp_success : bool;
  cp_text : str;
  cp_json : option Value;
}.

Record CfClient := {
  cl_token : str;
  cl_account_id : str;
}.

(** The requests sent, and what the call returns. *)
Definition cf_result (A : Type) : Type := list cf_request * result str A.

Section client.
(** [None] when no reply comes. *)
Variable send : cf_request → option cf_reply.

Definition request_of (self : CfClient) (method : http_method) (path : str) (body : option Value)
    : cf_request :=
  {| cq_method := method; cq_url := CF_API ++ path; cq_bearer := cl_token self; cq_body := body |}.

(** [get], [post] and [put] differ in the method, the body and a message. *)
Definition fetch {A} (self : CfClient) (method : http_method) (path : str) (body : option Value)
    (failed : str) (read : Value → result str A) : cf_result A :=
  let req := request_of self method path body in
  ([req],
   resp ← ok_or failed (send req);
   match cp_json resp with
   | Some v => match resp_of_value read v with
               | Ok r => into_result r
               | Err _ => Err §"CF response parse"
               end
   | None => Err §"CF response parse"
   end).

Definition get_ {A} (self : CfClient) (path : str) (read : Value → result str A) : cf_result A :=
  fetch self GET path None §"CF GET failed" read.
Definition post {A} (self : CfClient) (path : str) (body : Value) (read : Value → result str A)
    : cf_result A := fetch self POST path (Some body) §"CF POST failed" read.
Definition put {A} (self : CfClient) (path : str) (body : Value) (read : Value → result str A)
    : cf_result A := fetch self PUT path (Some body) §"CF PUT failed" read.

Definition delete_ (self : CfClient) (path : str) : cf_result unit :=
  let req := request_of self DELETE path None in
  ([req],
   resp ← ok_or §"CF DELETE failed" (send req);
   if cp_success resp then Ok tt else Err (§"CF API error: " ++ cp_text resp)).

(** ** Calls *)

Definition tunnels_path (self : CfClient) : str :=
  §"/accounts/" ++ cl_account_id self ++ §"/cfd_tunnel".
Definition dns_path (zone_id : str) : str := §"/zones/" ++ zone_id ++ §"/dns_records".

Definition list_zones (self : CfClient) : cf_result (list CfZone) :=
  get_ self §"/zones?per_page=50&status=active" (list_of_value zone_of_value).

Definition list_tunnels (self : CfClient) : cf_result (list CfTunnel) :=
  get_ self (tunnels_path self ++ §"?per_page=50&is_deleted=false") (list_of_value tunnel_of_value).

(** [secret] is the base64 text of 32 random bytes. *)
Definition create_tunnel (self : CfClient) (name secret : str) : cf_result CfTunnel :=
  post self (tunnels_path self)
    (object [(§"name", Str name); (§"tunnel_secret", Str secret)]) tunnel_of_value.

Definition delete_tunnel (self : CfClient) (tunnel_id : str) : cf_result unit :=
  delete_ self (tunnels_path self ++ §"/" ++ tunnel_id).

Definition get_tunnel_token (self : CfClient) (tunnel_id : str) : cf_result str :=
  get_ self (tunnels_path self ++ §"/" ++ tunnel_id ++ §"/token") string_of_value.

Definition list_dns_records (self : CfClient) (zone_id : str) : cf_result (list CfDnsRecord) :=
  get_ self (dns_path zone_id ++ §"?per_page=100&order=name") (list_of_value record_of_value).

Definition create_dns_record (self : CfClient) (zone_id : str) (req : CreateDnsRecord)
    : cf_result CfDnsRecord :=
  post self (dns_path zone_id) (create_record_to_value req) record_of_value.

Definition update_dns_record (self : CfClient) (zone_id record_id : str) (req : CreateDnsRecord)
    : cf_result CfDnsRecord :=
  put self (dns_path zone_id ++ §"/" ++ record_id) (create_record_to_value req) record_of_value.

Definition delete_dns_record (self : CfClient) (zone_id record_id : str) : cf_result unit :=
  delete_ self (dns_path zone_id ++ §"/" ++ record_id).
End client.

(** ** Lemmas: documents *)

Lemma read_all_map {A} (read : Value → result str A) (show : A → Value) l :
  (∀ a, a ∈ l → read (show a) = Ok a) → read_all read (show <$> l) = Ok l.
Proof.
  induction l as [|a l IH]; intros H; [done|]. cbn [fmap list_fmap read_all].
  rewrite H by (by left). cbn [mbind result_bind]. rewrite IH; [done|]. intros b Hb. apply H. by right.
Qed.

Lemma zone_round_trip z : zone_of_value (zone_to_value z) = Ok z.
Proof. destruct z. by vm_compute. Qed.

Lemma conn_round_trip c : conn_of_value (conn_to_value c) = Ok c.
Proof. destruct c. by vm_compute. Qed.

(** [null] is read as no date. *)
Definition tunnel_wf (t : CfTunnel) : Prop := ct_deleted_at t ≠ Some Null.

Lemma tunnel_round_trip t : tunnel_wf t → tunnel_of_value (tunnel_to_value t) = Ok t.
Proof.
  intros Hwf. assert (list_of_value conn_of_value (Arr (conn_to_value <$> ct_connections t))
    = Ok (ct_connections t)) as Hc by (apply read_all_map; intros; apply conn_round_trip).
  destruct t as [i n s c d conns]. unfold tunnel_wf in Hwf. cbn [ct_deleted_at ct_connections] in *.
  unfold tunnel_of_value, tunnel_to_value. cbn [ct_connections].
  generalize dependent (Arr (conn_to_value <$> conns)).
  generalize dependent (list_of_value conn_of_value). intros read vs Hvs.
  destruct d as [[]|]; try done; vm_compute; by rewrite Hvs.
Qed.

Definition record_wf (r : CfDnsRecord) : Prop := 0 <= dr_ttl r <= u32_max.

Lemma as_u32_Int z : 0 <= z <= u32_max → as_u32 (Int z) = Some z.
Proof. intros H. cbn. by rewrite (proj2 (Z.leb_le 0 z)), (proj2 (Z.leb_le z u32_max)) by lia. Qed.

Lemma record_round_trip r : record_wf r → record_of_value (record_to_value r) = Ok r.
Proof.
  destruct r as [i n t c p ttl m]. unfold record_wf. cbn [dr_ttl]. intros Hr%as_u32_Int.
  unfold record_of_value, record_to_value. cbn [dr_ttl].
  generalize dependent as_u32. intros read Hr. destruct m; vm_compute; by rewrite Hr.
Qed.

(** ** Replies *)

Definition err_to_value (e : CfErr) : Value :=
  Obj [(§"code", Int (ce_code e)); (§"message", Str (ce_message e))].
Definition err_wf (e : CfErr) : Prop := 0 <= ce_code e <= u32_max.

(** The envelope of the API, with a member the client does not read. *)
Definition envelope (success : bool) (errors : list CfErr) (result : Value) : Value :=
  Obj [(§"result", result); (§"success", Bool success);
       (§"errors", Arr (err_to_value <$> errors)); (§"messages", Arr [])].

Lemma err_round_trip e : err_wf e → err_of_value (err_to_value e) = Ok e.
Proof.
  destruct e as [c m]. unfold err_wf. cbn [ce_code]. intros Hr%as_u32_Int.
  unfold err_of_value, err_to_value. cbn [ce_code].
  generalize dependent as_u32. intros read Hr. vm_compute. by rewrite Hr.
Qed.

Definition optional {A} (read : Value → result str A) (v : Value) : result str (option A) :=
  match v with Null => Ok None | _ => a ← read v; Ok (Some a) end.

Lemma resp_of_envelope {A} (read : Value → result str A) success errors v :
  Forall err_wf errors →
  resp_of_value read (envelope success errors v)
  = r ← optional read v; Ok {| cr_result := r; cr_success := success; cr_errors := errors |}.
Proof.
  intros He. assert (list_of_value err_of_value (Arr (err_to_value <$> errors)) = Ok errors) as Hl.
  { apply read_all_map. intros e Hin. apply err_round_trip. by rewrite Forall_forall in He; apply He. }
  unfold resp_of_value, envelope. generalize dependent (Arr (err_to_value <$> errors)).
  generalize dependent (list_of_value err_of_value). intros rd ev Hl.
  unfold optional. destruct v; vm_compute; rewrite ?Hl; by try destruct (read _).
Qed.

Lemma fetch_reply {A} send self method path body failed (read : Value → result str A)
    rp success errors v :
  send (request_of self method path body) = Some rp →
  cp_json rp = Some (envelope success errors v) → Forall err_wf errors →
  (fetch send self method path body failed read).2
  = match optional read v with
    | Err _ => Err §"CF response parse"
    | Ok r =>
      if success then ok_or §"CF API returned null result" r
      else Err match errors with
               | e :: _ => show (ce_code e) ++ §": " ++ ce_message e
               | [] => §"unknown CF API error"
               end
    end.
Proof.
  intros Hs Hj He. unfold fetch. cbn [snd]. rewrite Hs. cbn [ok_or mbind result_bind].
  rewrite Hj, resp_of_envelope by done. by destruct (optional read v).
Qed.

(** How a reply is taken.  Of an envelope of the API: the result, when it
    is a success with a result of the expected form; otherwise, on an error, the
    first message with its code; and an error of reading, on which the message is
    lost, whenever the result is of another form. *)
Theorem fetch_spec {A} send self method path body failed (read : Value → result str A)
    rp success errors v :
  send (request_of self method path body) = Some rp →
  cp_json rp = Some (envelope success errors v) → Forall err_wf errors →
  (fetch send self method path body failed read).2
  = match optional read v with
    | Err _ => Err §"CF response parse"
    | Ok r =>
      if success then ok_or §"CF API returned null result" r
      else Err match errors with
               | e :: _ => show (ce_code e) ++ §": " ++ ce_message e
               | [] => §"unknown CF API error"
               end
    end.
Proof. apply fetch_reply. Qed.

Definition demo_client : CfClient := {| cl_token := §"tok"; cl_account_id := §"acc" |}.
Definition demo_reply (v : Value) : cf_reply :=
  {| cp_success := true; cp_text := []; cp_json := Some v |}.

Lemma fetch_spec_witness :
  (list_zones (λ _, Some (demo_reply
    (envelope false [{| ce_code := 9109; ce_message := §"Invalid access token" |}] Null)))
    demo_client).2 = Err §"9109: Invalid access token".
Proof.
  apply (fetch_spec _ demo_client GET _ None _ _
    (demo_reply (envelope false [{| ce_code := 9109; ce_message := §"Invalid access token" |}] Null))
    false [{| ce_code := 9109; ce_message := §"Invalid access token" |}] Null);
    [reflexivity|reflexivity|].
  constructor; [split; discriminate|constructor].
Defined.
