(* ===== verification/Tunnel.v ===== *)
(** * Tunnel: the registry the relay's tasks share

    [TunnelEntry], [TunnelMap], [TcpPortSet], [CustomDomainMap] and
    [WebhookCtx] of [crates/seamless-relay/src/tunnel.rs], with the tasks of
    [main.rs] that act on the registry.  An [Arc<TunnelEntry>] is a reference
    into a heap: the map holds references, so an entry that left the map, or
    that another task replaced, keeps its state.

    A handler is a function of the relay's state in the monad [M]: it returns
    the effects it had in order (frames on the control stream, audit events,
    webhooks, metric updates), a value or an error message, and the state. *)

From S2P Require Import Prelude Text Json Store Cloudflare Cidr Codec RateLimit Metrics AuditLog Backends.
Local Open Scope Z_scope.

(** ** Entries *)

Record RequestLog := {
  rq_timestamp : Z;
  rq_method : str;
  rq_path : str;
  rq_status_code : Z;
  rq_duration_ms : Z;
  rq_client_ip : str;
  rq_bytes : Z;
}.

(** [t_disconnect_tx] is the sender kept in the entry, [t_disconnected] the
    signal its receiver sees; [t_mux] names the client's connection. *)
Record TunnelEntry := {
  t_mux : nat;
  t_subdomain : str;
  t_custom_domain : option str;
  t_connected_at : Z;
  t_client_ip : str;
  t_bytes_in : Z;
  t_bytes_out : Z;
  t_paused : bool;
  t_disconnect_tx : bool;
  t_disconnected : bool;
  t_backends : list BackendEntry;
  t_rr_counter : Z;
  t_ddos : DDoS.DDoSProtection;
  t_recent_requests : list RequestLog;
}.

(** The entry [serve_http] and [serve_tcp] build; [instant] dates the bucket. *)
Definition entry_new (mux : nat) (key : str) (now instant : Z) (client_ip : str) : TunnelEntry :=
  {| t_mux := mux; t_subdomain := key; t_custom_domain := None; t_connected_at := now;
     t_client_ip := client_ip; t_bytes_in := 0; t_bytes_out := 0; t_paused := false;
     t_disconnect_tx := true; t_disconnected := false; t_backends := []; t_rr_counter := 0;
     t_ddos := DDoS.new 100 200 instant; t_recent_requests := [] |}.

Definition with_paused (v : bool) (e : TunnelEntry) : TunnelEntry :=
  {| t_mux := t_mux e; t_subdomain := t_subdomain e; t_custom_domain := t_custom_domain e;
     t_connected_at := t_connected_at e; t_client_ip := t_client_ip e;
     t_bytes_in := t_bytes_in e; t_bytes_out := t_bytes_out e; t_paused := v;
     t_disconnect_tx := t_disconnect_tx e; t_disconnected := t_disconnected e;
     t_backends := t_backends e; t_rr_counter := t_rr_counter e; t_ddos := t_ddos e;
     t_recent_requests := t_recent_requests e |}.

(** [disconnect_tx.lock().await.take()] and [tx.send(())] *)
Definition disconnect (e : TunnelEntry) : TunnelEntry :=
  {| t_mux := t_mux e; t_subdomain := t_subdomain e; t_custom_domain := t_custom_domain e;
     t_connected_at := t_connected_at e; t_client_ip := t_client_ip e;
     t_bytes_in := t_bytes_in e; t_bytes_out := t_bytes_out e; t_paused := t_paused e;
     t_disconnect_tx := false; t_disconnected := t_disconnected e || t_disconnect_tx e;
     t_backends := t_backends e; t_rr_counter := t_rr_counter e; t_ddos := t_ddos e;
     t_recent_requests := t_recent_requests e |}.

Definition with_backends (v : list BackendEntry) (e : TunnelEntry) : TunnelEntry :=
  {| t_mux := t_mux e; t_subdomain := t_subdomain e; t_custom_domain := t_custom_domain e;
     t_connected_at := t_connected_at e; t_client_ip := t_client_ip e;
     t_bytes_in := t_bytes_in e; t_bytes_out := t_bytes_out e; t_paused := t_paused e;
     t_disconnect_tx := t_disconnect_tx e; t_disconnected := t_disconnected e;
     t_backends := v; t_rr_counter := t_rr_counter e; t_ddos := t_ddos e;
     t_recent_requests := t_recent_requests e |}.

Definition with_ddos (v : DDoS.DDoSProtection) (e : TunnelEntry) : TunnelEntry :=
  {| t_mux := t_mux e; t_subdomain := t_subdomain e; t_custom_domain := t_custom_domain e;
     t_connected_at := t_connected_at e; t_client_ip := t_client_ip e;
     t_bytes_in := t_bytes_in e; t_bytes_out := t_bytes_out e; t_paused := t_paused e;
     t_disconnect_tx := t_disconnect_tx e; t_disconnected := t_disconnected e;
     t_backends := t_backends e; t_rr_counter := t_rr_counter e; t_ddos := v;
     t_recent_requests := t_recent_requests e |}.

Definition with_bytes (n_in n_out : Z) (e : TunnelEntry) : TunnelEntry :=
  {| t_mux := t_mux e; t_subdomain := t_subdomain e; t_custom_domain := t_custom_domain e;
     t_connected_at := t_connected_at e; t_client_ip := t_client_ip e;
     t_bytes_in := u64_add (t_bytes_in e) n_in; t_bytes_out := u64_add (t_bytes_out e) n_out;
     t_paused := t_paused e;
     t_disconnect_tx := t_disconnect_tx e; t_disconnected := t_disconnected e;
     t_backends := t_backends e; t_rr_counter := t_rr_counter e; t_ddos := t_ddos e;
     t_recent_requests := t_recent_requests e |}.

(** The ring of the last 100 requests. *)
Definition log_request (r : RequestLog) (e : TunnelEntry) : TunnelEntry :=
  {| t_mux := t_mux e; t_subdomain := t_subdomain e; t_custom_domain := t_custom_domain e;
     t_connected_at := t_connected_at e; t_client_ip := t_client_ip e;
     t_bytes_in := t_bytes_in e; t_bytes_out := t_bytes_out e; t_paused := t_paused e;
     t_disconnect_tx := t_disconnect_tx e; t_disconnected := t_disconnected e;
     t_backends := t_backends e; t_rr_counter := t_rr_counter e; t_ddos := t_ddos e;
     t_recent_requests := ring_push 100 (t_recent_requests e) r |}.

(** ** The shared state *)

(** [bound] are the TCP ports on which the operating system has a listener. *)
Record Relay := {
  heap : gmap nat TunnelEntry;
  tunnels : gmap str nat;
  tcp_ports : gset Z;
  bound : gset Z;
  custom_domains : gmap str str;
  rate_limiter : RateLimiter.RateLimiter;
}.

Definition set_heap (v : gmap nat TunnelEntry) (s : Relay) : Relay :=
  {| heap := v; tunnels := tunnels s; tcp_ports := tcp_ports s; bound := bound s;
     custom_domains := custom_domains s; rate_limiter := rate_limiter s |}.
Definition set_tunnels (v : gmap str nat) (s : Relay) : Relay :=
  {| heap := heap s; tunnels := v; tcp_ports := tcp_ports s; bound := bound s;
     custom_domains := custom_domains s; rate_limiter := rate_limiter s |}.
Definition set_tcp_ports (v : gset Z) (s : Relay) : Relay :=
  {| heap := heap s; tunnels := tunnels s; tcp_ports := v; bound := bound s;
     custom_domains := custom_domains s; rate_limiter := rate_limiter s |}.
Definition set_bound (v : gset Z) (s : Relay) : Relay :=
  {| heap := heap s; tunnels := tunnels s; tcp_ports := tcp_ports s; bound := v;
     custom_domains := custom_domains s; rate_limiter := rate_limiter s |}.
Definition set_custom_domains (v : gmap str str) (s : Relay) : Relay :=
  {| heap := heap s; tunnels := tunnels s; tcp_ports := tcp_ports s; bound := bound s;
     custom_domains := v; rate_limiter := rate_limiter s |}.
Definition set_rate_limiter (v : RateLimiter.RateLimiter) (s : Relay) : Relay :=
  {| heap := heap s; tunnels := tunnels s; tcp_ports := tcp_ports s; bound := bound s;
     custom_domains := custom_domains s; rate_limiter := v |}.

Definition relay_new (rl : RateLimiter.RateLimiter) : Relay :=
  {| heap := ∅; tunnels := ∅; tcp_ports := ∅; bound := ∅; custom_domains := ∅;
     rate_limiter := rl |}.

(** [tunnels.lock().await.get(&key).cloned()]: the reference and what it reads. *)
Definition lookup_tunnel (key : str) (s : Relay) : option (nat * TunnelEntry) :=
  r ← tunnels s !! key; e ← heap s !! r; Some (r, e).

(** A store through a reference. *)
Definition update_entry (r : nat) (f : TunnelEntry → TunnelEntry) (s : Relay) : Relay :=
  set_heap (alter f r (heap s)) s.

(** [Arc::new] *)
Definition fresh_ref (s : Relay) : nat := fresh (dom (heap s)).

(** The values of the map. *)
Definition registered (s : Relay) : list TunnelEntry :=
  omap (λ kr, heap s !! kr.2) (map_to_list (tunnels s)).

(** ** Effects *)

(** [Frame] goes to the control stream, [DataFrame] and [DataBytes] to a data
    stream of the client with the given mux, [Reply] to a public connection, [Upstream] is a
    connection to a static upstream with the bytes written on it, [GeoBlocked]
    an increment of [GEOIP_BLOCKED_TOTAL], [SaveStore] a [store::save] whose
    outcome is ignored, [CfCall] a request sent to Cloudflare, [Dial] a
    connection opened to see whether somebody listens. *)
Inductive effect :=
| Frame (f : ControlFrame)
| DataFrame (mux : nat) (f : ControlFrame)
| DataBytes (mux : nat) (bs : str)
| Reply (bs : str)
| Upstream (addr bs : str)
| GeoBlocked
| SaveStore
| CfCall (q : cf_request)
| Dial (addr : str)
| AuditEvent (v : Value)
| Webhook (v : Value)
| LogRequest (e : LogEntry)
| Metric (op : metric_op).

Definition M (A : Type) : Type := Relay → list effect * result str A * Relay.

#[export] Instance M_ret : MRet M := λ A a s, ([], Ok a, s).
#[export] Instance M_bind : MBind M := λ A B f m s,
  match m s with
  | (w, Ok a, s') => let '(w', r, s'') := f a s' in (w ++ w', r, s'')
  | (w, Err e, s') => (w, Err e, s')
  end.

Definition perform (w : list effect) : M unit := λ s, (w, Ok tt, s).
Definition fail {A} (e : str) : M A := λ s, ([], Err e, s).
Definition reading {A} (f : Relay → A) : M A := λ s, ([], Ok (f s), s).
Definition modify (f : Relay → Relay) : M unit := λ s, ([], Ok tt, f s).

(** [WebhookCtx::fire]: nothing without a URL.  Delivery is a task of its own,
    whose failures reach nobody. *)
Definition fire (url : option str) (body : Value) : list effect :=
  match url with Some _ => [Webhook body] | None => [] end.

(** [audit_event!] *)
Definition audit (now : Z) (event : str) (fields : list (str * Value)) : effect :=
  AuditEvent (audit_event now event fields).

(** ** The tasks of [main] *)

(** The task that runs every minute when [--tunnel-max-age] is set. *)
Definition entry_age (now : Z) (e : TunnelEntry) : Z :=
  i64_as_u64 (i64_sat_sub now (t_connected_at e)).

Definition is_expired (s : Relay) (now max_age : Z) (kr : str * nat) : Prop :=
  match heap s !! kr.2 with Some e => max_age <= entry_age now e | None => False end.
#[export] Instance is_expired_dec s now max_age kr : Decision (is_expired s now max_age kr).
Proof. unfold is_expired. destruct (heap s !! kr.2); apply _. Defined.

Definition expire_one (kr : str * nat) (s : Relay) : Relay :=
  let s := update_entry kr.2 disconnect s in set_tunnels (delete kr.1 (tunnels s)) s.

Definition expire (now max_age : Z) (s : Relay) : Relay :=
  let expired := filter (is_expired s now max_age) (map_to_list (tunnels s)) in
  foldl (λ s kr, expire_one kr s) s expired.

(** SIGTERM. *)
Definition shutdown (s : Relay) : Relay :=
  let s' := foldl (λ s kr, update_entry kr.2 disconnect s) s (map_to_list (tunnels s)) in
  set_tunnels ∅ s'.

(** The task that records the statistics every minute. *)
Definition take_snapshot (now : Z) (m : Metrics) (s : Relay) (hist : list StatsSnapshot)
    : list StatsSnapshot :=
  history_push hist {| snap_ts := now; active_tunnels := Z.of_nat (size (tunnels s));
                       total_connections := connections_total m |}.

(** ** Lemmas: stores through references *)

Lemma heap_update r f s : heap (update_entry r f s) !! r = f <$> heap s !! r.
Proof. apply lookup_alter_eq. Qed.
Lemma heap_update_ne r r' f s : r ≠ r' → heap (update_entry r f s) !! r' = heap s !! r'.
Proof. apply lookup_alter_ne. Qed.

(** ** Lemmas: expiry *)

Lemma expire_fold l s :
  let s' := foldl (λ s kr, expire_one kr s) s l in
  tunnels s' = foldl (λ m k, delete k m) (tunnels s) l.*1
  ∧ heap s' = foldl (λ h r, alter disconnect r h) (heap s) l.*2
  ∧ tcp_ports s' = tcp_ports s ∧ bound s' = bound s
  ∧ custom_domains s' = custom_domains s ∧ rate_limiter s' = rate_limiter s.
Proof.
  revert s. induction l as [|[k r] l IH]; intros s; [done|]. cbn [foldl fmap list_fmap fst snd].
  destruct (IH (expire_one (k, r) s)) as (-> & -> & -> & -> & -> & ->). done.
Qed.

Lemma foldl_delete_lookup {A} (ks : list str) (m : gmap str A) k :
  foldl (λ m k, delete k m) m ks !! k = if bool_decide (k ∈ ks) then None else m !! k.
Proof.
  revert m. induction ks as [|k' ks IH]; intros m; [done|]. cbn [foldl]. rewrite IH.
  destruct (decide (k = k')) as [->|Hne].
  - rewrite lookup_delete_eq, (bool_decide_true (k' ∈ k' :: ks)) by left. by case_bool_decide.
  - rewrite lookup_delete_ne by congruence.
    erewrite (bool_decide_ext (k ∈ k' :: ks)); [done|]. rewrite elem_of_cons. naive_solver.
Qed.

Lemma disconnect_idem e : disconnect (disconnect e) = disconnect e.
Proof. unfold disconnect. cbn. by rewrite orb_false_r. Qed.

Lemma foldl_disconnect_lookup (rs : list nat) (h : gmap nat TunnelEntry) r :
  foldl (λ h r, alter disconnect r h) h rs !! r
  = if bool_decide (r ∈ rs) then disconnect <$> h !! r else h !! r.
Proof.
  revert h. induction rs as [|r' rs IH]; intros h; [done|]. cbn [foldl]. rewrite IH.
  destruct (decide (r = r')) as [->|Hne].
  - rewrite lookup_alter_eq, (bool_decide_true (r' ∈ r' :: rs)) by left.
    case_bool_decide; [|done]. destruct (h !! r'); [|done]. cbn. by rewrite disconnect_idem.
  - rewrite lookup_alter_ne by congruence.
    erewrite (bool_decide_ext (r ∈ r' :: rs)); [done|]. rewrite elem_of_cons. naive_solver.
Qed.

Lemma expired_keys s now max_age k r :
  tunnels s !! k = Some r →
  k ∈ (filter (is_expired s now max_age) (map_to_list (tunnels s))).*1
  ↔ is_expired s now max_age (k, r).
Proof.
  intros Hk. rewrite list_elem_of_fmap. split.
  - intros ([k' r'] & -> & H). apply list_elem_of_filter in H as [H Hin].
    apply elem_of_map_to_list in Hin. cbn in *. by simplify_eq.
  - intros H. exists (k, r). split; [done|]. apply list_elem_of_filter.
    split; [done|]. by apply elem_of_map_to_list.
Qed.

(** A reference is among the expired ones when a key leads to it and its entry
    is old enough. *)
Lemma expired_refs s now max_age r :
  r ∈ (filter (is_expired s now max_age) (map_to_list (tunnels s))).*2
  ↔ ∃ k, tunnels s !! k = Some r ∧ is_expired s now max_age (k, r).
Proof.
  rewrite list_elem_of_fmap. split.
  - intros ([k r'] & -> & H). apply list_elem_of_filter in H as [H Hin].
    apply elem_of_map_to_list in Hin. by exists k.
  - intros (k & Hk & H). exists (k, r). split; [done|]. apply list_elem_of_filter.
    split; [done|]. by apply elem_of_map_to_list.
Qed.

(** The computed age is the difference when the clock has not gone back. *)
Lemma entry_age_forward now e :
  0 <= t_connected_at e <= now → now <= i64_max → entry_age now e = now - t_connected_at e.
Proof.
  intros [H1 H2] H3. unfold entry_age, i64_as_u64, i64_sat_sub, i64_min, i64_max, wrap in *.
  rewrite Z.max_r, Z.min_r by lia. apply Z.mod_small. lia.
Qed.

Lemma expire_lookup s now max_age k r e :
  tunnels s !! k = Some r → heap s !! r = Some e →
  let s' := expire now max_age s in
  tunnels s' !! k = (if bool_decide (max_age <= entry_age now e) then None else Some r)
  ∧ heap s' !! r = Some (if bool_decide (max_age <= entry_age now e)
                         then disconnect e else e).
Proof.
  intros Hk Hr s'. unfold s', expire.
  destruct (expire_fold (filter (is_expired s now max_age) (map_to_list (tunnels s))) s)
    as (Ht & Hh & _).
  rewrite Ht, Hh, foldl_delete_lookup, foldl_disconnect_lookup, Hr, Hk.
  assert (HE : ∀ k, is_expired s now max_age (k, r) ↔ max_age <= entry_age now e)
    by (intros; unfold is_expired; cbn; by rewrite Hr).
  rewrite (bool_decide_ext _ _ (iff_trans (expired_keys s now max_age k r Hk) (HE k))).
  rewrite (bool_decide_ext (r ∈ _) (max_age <= entry_age now e)).
  - by case_bool_decide.
  - rewrite expired_refs. setoid_rewrite HE. naive_solver.
Qed.

Lemma expire_others s now max_age :
  let s' := expire now max_age s in
  (∀ k, tunnels s !! k = None → tunnels s' !! k = None)
  ∧ (∀ r, (∀ k, tunnels s !! k ≠ Some r) → heap s' !! r = heap s !! r)
  ∧ tcp_ports s' = tcp_ports s ∧ bound s' = bound s
  ∧ custom_domains s' = custom_domains s ∧ rate_limiter s' = rate_limiter s.
Proof.
  intros s'. unfold s', expire.
  destruct (expire_fold (filter (is_expired s now max_age) (map_to_list (tunnels s))) s)
    as (Ht & Hh & Hrest). split; [|split; [|exact Hrest]].
  - intros k Hk. rewrite Ht, foldl_delete_lookup, Hk. by case_bool_decide.
  - intros r Hr. rewrite Hh, foldl_disconnect_lookup, bool_decide_false; [done|].
    rewrite expired_refs. naive_solver.
Qed.


Definition demo_relay (e : TunnelEntry) : Relay :=
  set_tunnels {[ t_subdomain e := 0%nat ]} (set_heap {[ 0%nat := e ]}
    (relay_new (RateLimiter.new 0 0))).


(** The age is computed in [i64] and read as a [u64]: when the clock stands
    before a tunnel's registration its age is huge, and any age limit below
    2^63 seconds disconnects it. *)
Theorem expire_clock_back s now max_age k r e :
  tunnels s !! k = Some r → heap s !! r = Some e →
  0 <= now < t_connected_at e → t_connected_at e <= i64_max → max_age <= 2 ^ 63 →
  tunnels (expire now max_age s) !! k = None.
Proof.
  intros Hk Hr Hnow Hmax Hage.
  unfold expire. destruct (expire_fold (filter (is_expired s now max_age)
    (map_to_list (tunnels s))) s) as (Ht & _).
  rewrite Ht, foldl_delete_lookup, bool_decide_true; [done|].
  apply (expired_keys s now max_age k r Hk). unfold is_expired. cbn. rewrite Hr.
  unfold entry_age, i64_as_u64, i64_sat_sub, i64_min, i64_max, wrap in *.
  rewrite Z.max_r, Z.min_r by lia.
  replace (now - t_connected_at e) with (now - t_connected_at e + 2 ^ 64 - 1 * 2 ^ 64) by lia.
  rewrite Zminus_mod, Z.mod_mul, Z.sub_0_r, Zmod_mod by lia. rewrite Z.mod_small; lia.
Qed.

Lemma expire_clock_back_witness :
  let e := entry_new 0 §"app" 1000 0 §"192.0.2.1" in
  tunnels (expire 999 86400 (demo_relay e)) !! §"app" = None.
Proof.
  intros e. apply (expire_clock_back (demo_relay e) 999 86400 §"app" 0%nat e).
  - reflexivity.
  - reflexivity.
  - cbn; lia.
  - unfold i64_max; cbn; lia.
  - lia.
Defined.
