(* ===== verification/HandleClient.v ===== *)
(** * HandleClient: what the relay does with a connected client

    [handle_client], [serve_http], [serve_tcp], [bind_random_port] and
    [forward_to_tunnel] of [crates/seamless-relay/src/tunnel.rs].  Every stage
    up to the next lock or [await] that matters to others is a definition;
    [handle_client] puts them together as the code does.  Log lines of
    [tracing] are left out; the messages of the errors returned reach only the
    log. *)

From S2P Require Import Prelude Text Json Cidr Codec Policy RateLimit Metrics AuditLog Backends Tunnel.
Local Open Scope Z_scope.

Record ConnCtx := {
  base_domain : str;
  http_port : Z;
  https_port : option Z;
  auth : AuthPolicy;
  client_ip : str;
  webhook_url : option str;
  max_tunnels_per_ip : Z;
  max_tunnels : Z;
  reserved_subdomains : ReservedSubdomains;
  subdomain_prefix : SubdomainPrefix;
  subdomain_length : nat;
  blocklist : SubdomainBlocklist;
  ip_denylist : IpDenyList.IpDenyList;
  tunnel_keepalive : Z;
}.

(** What becomes of [accept_stream] and [read_frame] under their deadlines. *)
Inductive first_frame :=
| NoStream
| ReadFailed
| SlowLoris
| TimedOut
| Got (f : ControlFrame).

(** [write_frame(..., &ControlFrame::Error { .. }).await.ok(); return Err(..)] *)
Definition reject {A} (w : list effect) (code : Z) (message err : str) : M A :=
  perform (w ++ [Frame (Error code message)]);; fail err.

Section client.
Context `{Unicode} `{ConstantTimeEq}.

(** ** Admission *)

Definition deny_stage (ctx : ConnCtx) (now : Z) : M unit :=
  if IpDenyList.is_enabled (ip_denylist ctx) then
    match parse_ip (client_ip ctx) with
    | Some ip_addr =>
      if IpDenyList.is_denied (ip_denylist ctx) ip_addr then
        perform [Metric inc_auth_failures;
                 audit now §"ip.denylisted" [(§"client_ip", Str (client_ip ctx))]];;
        fail (§"IP denylisted: " ++ client_ip ctx)
      else mret tt
    | None => mret tt
    end
  else mret tt.

Definition frame_stage (ctx : ConnCtx) (first : first_frame) : M (TunnelKind * option str) :=
  match first with
  | NoStream => fail §"client dropped before opening control stream"
  | ReadFailed => fail §"reading register frame"
  | SlowLoris => fail (§"slow loris: register frame not received within 5s from " ++ client_ip ctx)
  | TimedOut => fail (§"registration timeout from " ++ client_ip ctx)
  | Got (Register version token kind) =>
    if negb (version =? PROTOCOL_VERSION)
    then reject [] 400 (§"protocol version " ++ show version ++ §" unsupported")
           §"version mismatch"
    else mret (kind, token)
  | Got _ => fail §"expected Register"
  end.

Definition auth_stage (ctx : ConnCtx) (now handshake_ms : Z) (token : option str) : M unit :=
  match auth_check (auth ctx) token with
  | Err e =>
    let '(code, msg) := match e with
                        | Required => (401, §"auth required")
                        | Invalid => (403, §"invalid token")
                        end in
    reject [Metric inc_auth_failures;
            audit now §"auth.failure"
              [(§"client_ip", Str (client_ip ctx)); (§"reason", Str msg)]]
      code msg (§"auth denied: " ++ msg)
  | Ok tt => perform [Metric (record_handshake_ms handshake_ms)]
  end.

Definition rate_stage (ctx : ConnCtx) (instant : Z) : M unit := λ s,
  let '(ok, rl) := RateLimiter.check_and_record (rate_limiter s) (client_ip ctx) instant in
  (if ok then mret tt
   else reject [Metric inc_rate_limit_hits] 429
          §"too many connections from your IP — try again later"
          (§"rate limited: " ++ client_ip ctx)) (set_rate_limiter rl s).

(** The tunnels of an address. *)
Definition tunnels_of (ip : str) (s : Relay) : list TunnelEntry :=
  filter (λ e, t_client_ip e = ip) (registered s).

Definition per_ip_stage (ctx : ConnCtx) : M unit :=
  if 0 <? max_tunnels_per_ip ctx then
    count ← reading (λ s, wrap 32 (Z.of_nat (length (tunnels_of (client_ip ctx) s))));
    if max_tunnels_per_ip ctx <=? count
    then reject [Metric inc_tunnel_per_ip_rejections] 429
           (§"tunnel limit reached for your IP (" ++ show (max_tunnels_per_ip ctx) ++ §" max)")
           (§"tunnel limit exceeded for " ++ client_ip ctx)
    else mret tt
  else mret tt.

Definition cap_stage (ctx : ConnCtx) : M unit :=
  if 0 <? max_tunnels ctx then
    total ← reading (λ s, wrap 32 (Z.of_nat (size (tunnels s))));
    if max_tunnels ctx <=? total
    then reject [Metric inc_tunnel_cap_rejections] 503
           (§"relay at capacity (" ++ show (max_tunnels ctx) ++ §" tunnels) — try again later")
           (§"global tunnel cap reached for " ++ client_ip ctx)
    else mret tt
  else mret tt.

(** Up to the rate limiter, which is the first shared state the client meets. *)
Definition enter (ctx : ConnCtx) (first : first_frame) (now handshake_ms instant : Z)
    : M TunnelKind :=
  deny_stage ctx now;;
  '(kind, token) ← frame_stage ctx first;
  auth_stage ctx now handshake_ms token;;
  rate_stage ctx instant;;
  mret kind.

Definition admission (ctx : ConnCtx) (first : first_frame) (now handshake_ms instant : Z)
    : M TunnelKind :=
  kind ← enter ctx first now handshake_ms instant;
  per_ip_stage ctx;;
  cap_stage ctx;;
  mret kind.

(** ** HTTP registration *)

Definition http_validate (ctx : ConnCtx) (subdomain : option str) : M unit :=
  match subdomain with
  | None => mret tt
  | Some requested =>
    match validate_subdomain requested with
    | Err e => reject [Metric inc_subdomain_invalid] 400 e
                 (§"invalid subdomain " ++ quoted requested ++ §": " ++ e)
    | Ok _ =>
      if is_reserved (reserved_subdomains ctx) requested
      then reject [Metric inc_subdomain_invalid] 403
             (§"subdomain " ++ quoted requested ++ §" is reserved and cannot be registered")
             (§"reserved subdomain " ++ quoted requested ++ §" blocked for " ++ client_ip ctx)
      else
      match prefix_check (subdomain_prefix ctx) requested with
      | Err e => reject [Metric inc_subdomain_invalid] 403 e
                   (§"subdomain prefix violation for " ++ quoted requested ++ §": " ++ e)
      | Ok _ =>
        if is_blocked (blocklist ctx) requested
        then reject [Metric inc_subdomain_invalid] 403
               (§"subdomain " ++ quoted requested ++ §" is not available")
               (§"blocklisted subdomain " ++ quoted requested ++ §" blocked for "
                ++ client_ip ctx)
        else mret tt
      end
    end
  end.

(** [subdomain.unwrap_or_else(|| random_subdomain_with_length(..))] *)
Definition http_name (ctx : ConnCtx) (draw : nat → Z) (subdomain : option str) : M str :=
  match subdomain with
  | Some sub => mret sub
  | None => match random_subdomain_with_length draw (subdomain_length ctx) with
            | Some sub => mret sub
            | None => fail §"index out of bounds"
            end
  end.

Definition http_url (base_domain : str) (http_port : Z) (https_port : option Z) (sub : str) : str :=
  match https_port with
  | Some port =>
    if port =? 443 then §"https://" ++ sub ++ §"." ++ base_domain
    else §"https://" ++ sub ++ §"." ++ base_domain ++ §":" ++ show port
  | None =>
    if http_port =? 80 then §"http://" ++ sub ++ §"." ++ base_domain
    else §"http://" ++ sub ++ §"." ++ base_domain ++ §":" ++ show http_port
  end.

(** The section under the lock of the map: [contains_key], then [insert]. *)
Definition http_insert (ctx : ConnCtx) (mux : nat) (sub : str) (now instant : Z) : M nat := λ s,
  match tunnels s !! sub with
  | Some _ => reject [] 409 (§"subdomain " ++ quoted sub ++ §" already registered")
                §"subdomain taken" s
  | None =>
    let r := fresh_ref s in
    ([], Ok r,
     set_tunnels (<[sub := r]> (tunnels s))
       (set_heap (<[r := entry_new mux sub now instant (client_ip ctx)]> (heap s)) s))
  end.

(** [write_frame(.., Registered).await?]: [ok] tells whether the write succeeds. *)
Definition send_registered (ok : bool) (url : str) : M unit :=
  perform [Frame (Registered url)];; if ok then mret tt else fail §"write failed".

Definition http_opened (ctx : ConnCtx) (now : Z) (sub url : str) : list effect :=
  [audit now §"tunnel.open"
     [(§"kind", Str §"http"); (§"subdomain", Str sub); (§"url", Str url);
      (§"client_ip", Str (client_ip ctx))]]
  ++ fire (webhook_url ctx)
       (object [(§"event", Str §"tunnel.connect"); (§"kind", Str §"http");
                (§"subdomain", Str sub); (§"url", Str url);
                (§"client_ip", Str (client_ip ctx))]).

(** Everything up to the control loop: the name, the reference of the entry,
    the URL. *)
Definition http_register (ctx : ConnCtx) (mux : nat) (draw : nat → Z) (subdomain : option str)
    (now instant : Z) (written : bool) : M (str * nat * str) :=
  http_validate ctx subdomain;;
  sub ← http_name ctx draw subdomain;
  let url := http_url (base_domain ctx) (http_port ctx) (https_port ctx) sub in
  r ← http_insert ctx mux sub now instant;
  send_registered written url;;
  perform (http_opened ctx now sub url);;
  mret (sub, r, url).

(** ** The control loop *)

(** What the [select!] of the loop meets next.  A write that never completes is
    cut off after ten seconds only when [tunnel_keepalive] is set. *)
Inductive write_outcome := Written | WriteErr | WritePending.
Inductive control_event :=
| DisconnectSignal
| PingTick (o : write_outcome)
| ReadSome
| ReadEnd.

(** [Some keepalive_timeout] when the loop ends; [None] while it runs. *)
Fixpoint control_loop (tunnel_keepalive : Z) (evs : list control_event)
    : list effect * option bool :=
  match evs with
  | [] => ([], None)
  | DisconnectSignal :: _ => ([], Some false)
  | ReadEnd :: _ => ([], Some false)
  | ReadSome :: rest => control_loop tunnel_keepalive rest
  | PingTick o :: rest =>
    if 0 <? tunnel_keepalive then
      match o with
      | Written => let '(w, r) := control_loop tunnel_keepalive rest in (Frame Ping :: w, r)
      | WriteErr | WritePending => ([Frame Ping], Some true)
      end
    else
      match o with
      | Written => let '(w, r) := control_loop tunnel_keepalive rest in (Frame Ping :: w, r)
      | WriteErr => ([Frame Ping], Some false)
      | WritePending => ([Frame Ping], None)
      end
  end.

(** ** HTTP teardown *)

(** [tunnels.lock().await.remove(&sub)] *)
Definition remove_key (key : str) (s : Relay) : Relay := set_tunnels (delete key (tunnels s)) s.

Definition bytes_of (r : nat) (s : Relay) : Z * Z :=
  match heap s !! r with Some e => (t_bytes_in e, t_bytes_out e) | None => (0, 0) end.

Definition http_closed (ctx : ConnCtx) (now connected_at : Z) (timeout : bool)
    (sub url : str) (bytes : Z * Z) : list effect :=
  let duration_secs := now - connected_at in
  (if timeout
   then [audit now §"tunnel.keepalive_timeout"
           [(§"kind", Str §"http"); (§"subdomain", Str sub);
            (§"client_ip", Str (client_ip ctx)); (§"duration_secs", Int duration_secs);
            (§"bytes_in", Int bytes.1); (§"bytes_out", Int bytes.2)]]
   else [audit now §"tunnel.close"
           [(§"kind", Str §"http"); (§"subdomain", Str sub); (§"url", Str url);
            (§"client_ip", Str (client_ip ctx)); (§"duration_secs", Int duration_secs);
            (§"bytes_in", Int bytes.1); (§"bytes_out", Int bytes.2)]])
  ++ fire (webhook_url ctx)
       (object [(§"event", Str §"tunnel.disconnect"); (§"kind", Str §"http");
                (§"subdomain", Str sub); (§"url", Str url);
                (§"client_ip", Str (client_ip ctx)); (§"duration_secs", Int duration_secs)]).

Definition http_teardown (ctx : ConnCtx) (now connected_at : Z) (timeout : bool)
    (sub : str) (r : nat) (url : str) : M unit :=
  modify (remove_key sub);;
  bytes ← reading (bytes_of r);
  perform (http_closed ctx now connected_at timeout sub url bytes).

(** ** TCP registration *)

(** [TcpListener::bind]: [os_ok held p] is the system's answer for the port [p]
    while the relay has listeners on the ports [held]. *)
Definition os_bind (os_ok : gset Z → Z → bool) (p : Z) : M bool := λ s,
  if os_ok (bound s) p then ([], Ok true, set_bound ({[p]} ∪ bound s) s) else ([], Ok false, s).

(** [in_use.lock().await.contains(&port)] *)
Definition port_in_use (p : Z) : M bool := reading (λ s, bool_decide (p ∈ tcp_ports s)).

(** [tcp_ports.lock().await.insert(p)] *)
Definition record_port (p : Z) (s : Relay) : Relay := set_tcp_ports ({[p]} ∪ tcp_ports s) s.

(** [bind_random_port]: [draw i] is the [i]-th [gen_range(10_000..60_000)]. *)
Fixpoint bind_random_port (tries : nat) (os_ok : gset Z → Z → bool) (draw : nat → Z) (i : nat)
    : M Z :=
  match tries with
  | O => fail §"could not find a free port in 10000..60000 after 50 tries"
  | S tries' =>
    let port := draw i in
    used ← port_in_use port;
    if used : bool then bind_random_port tries' os_ok draw (S i)
    else
      ok ← os_bind os_ok port;
      if ok : bool then modify (record_port port);; mret port
      else bind_random_port tries' os_ok draw (S i)
  end.

Definition tcp_bind (requested_port : Z) (os_ok : gset Z → Z → bool) (draw : nat → Z) : M Z :=
  if requested_port =? 0 then bind_random_port 50 os_ok draw 0
  else
    ok ← os_bind os_ok requested_port;
    if ok : bool then modify (record_port requested_port);; mret requested_port
    else fail (§"bind tcp :" ++ show requested_port).

Definition tcp_url (base_domain : str) (port : Z) : str :=
  §"tcp://" ++ base_domain ++ §":" ++ show port.
Definition tcp_key (port : Z) : str := §"tcp:" ++ show port.

Definition tcp_opened (ctx : ConnCtx) (now port : Z) (url : str) : list effect :=
  [audit now §"tunnel.open"
     [(§"kind", Str §"tcp"); (§"port", Int port); (§"url", Str url);
      (§"client_ip", Str (client_ip ctx))]]
  ++ fire (webhook_url ctx)
       (object [(§"event", Str §"tunnel.connect"); (§"kind", Str §"tcp");
                (§"port", Int port); (§"url", Str url);
                (§"client_ip", Str (client_ip ctx))]).

(** The failing write returns with the listener, which is dropped. *)
Definition tcp_registered (ok : bool) (port : Z) (url : str) : M unit :=
  if ok then perform [Frame (Registered url)]
  else modify (λ s, set_bound (bound s ∖ {[port]}) s);; send_registered false url.

(** [insert], which replaces an entry under the same key. *)
Definition tcp_insert (ctx : ConnCtx) (mux : nat) (port now instant : Z) : M nat := λ s,
  let r := fresh_ref s in
  let key := tcp_key port in
  ([], Ok r,
   set_tunnels (<[key := r]> (tunnels s))
     (set_heap (<[r := entry_new mux key now instant (client_ip ctx)]> (heap s)) s)).

Definition tcp_register (ctx : ConnCtx) (mux : nat) (requested_port : Z) (os_ok : gset Z → Z → bool)
    (draw : nat → Z) (now instant : Z) (written : bool) : M (Z * nat * str) :=
  port ← tcp_bind requested_port os_ok draw;
  let url := tcp_url (base_domain ctx) port in
  tcp_registered written port url;;
  perform (tcp_opened ctx now port url);;
  r ← tcp_insert ctx mux port now instant;
  mret (port, r, url).

Definition tcp_closed (ctx : ConnCtx) (now connected_at : Z) (timeout : bool)
    (port : Z) (url : str) (bytes : Z * Z) : list effect :=
  let duration_secs := now - connected_at in
  (if timeout
   then [audit now §"tunnel.keepalive_timeout"
           [(§"kind", Str §"tcp"); (§"port", Int port);
            (§"client_ip", Str (client_ip ctx)); (§"duration_secs", Int duration_secs);
            (§"bytes_in", Int bytes.1); (§"bytes_out", Int bytes.2)]]
   else [audit now §"tunnel.close"
           [(§"kind", Str §"tcp"); (§"port", Int port); (§"url", Str url);
            (§"client_ip", Str (client_ip ctx)); (§"duration_secs", Int duration_secs);
            (§"bytes_in", Int bytes.1); (§"bytes_out", Int bytes.2)]])
  ++ fire (webhook_url ctx)
       (object [(§"event", Str §"tunnel.disconnect"); (§"kind", Str §"tcp");
                (§"port", Int port); (§"url", Str url);
                (§"client_ip", Str (client_ip ctx)); (§"duration_secs", Int duration_secs)]).

(** The teardown takes three locks in turn; the listener is gone first. *)
Definition tcp_drop_listener (port : Z) (s : Relay) : Relay := set_bound (bound s ∖ {[port]}) s.
Definition tcp_release_port (port : Z) (s : Relay) : Relay :=
  set_tcp_ports (tcp_ports s ∖ {[port]}) s.

Definition tcp_teardown (ctx : ConnCtx) (now connected_at : Z) (timeout : bool)
    (port : Z) (r : nat) (url : str) : M unit :=
  modify (tcp_drop_listener port);;
  modify (tcp_release_port port);;
  modify (remove_key (tcp_key port));;
  bytes ← reading (bytes_of r);
  perform (tcp_closed ctx now connected_at timeout port url bytes).

(** ** A whole connection, with nothing in between *)

Record conn_io := {
  io_first : first_frame;
  io_mux : nat;
  io_draw : nat → Z;
  io_os_ok : gset Z → Z → bool;
  io_written : bool;
  io_events : list control_event;
  io_now : Z;
  io_end : Z;
  io_instant : Z;
  io_handshake_ms : Z;
}.

(** [None] when the control loop still runs after [io_events]. *)
Definition serve_http (ctx : ConnCtx) (io : conn_io) (subdomain : option str) : M (option unit) :=
  '(sub, r, url) ← http_register ctx (io_mux io) (io_draw io) subdomain (io_now io)
                     (io_instant io) (io_written io);
  let '(w, outcome) := control_loop (tunnel_keepalive ctx) (io_events io) in
  perform w;;
  match outcome with
  | Some timeout => http_teardown ctx (io_end io) (io_now io) timeout sub r url;; mret (Some tt)
  | None => mret None
  end.

Definition serve_tcp (ctx : ConnCtx) (io : conn_io) (port : Z) : M (option unit) :=
  '(port, r, url) ← tcp_register ctx (io_mux io) port (io_os_ok io) (io_draw io) (io_now io)
                      (io_instant io) (io_written io);
  let '(w, outcome) := control_loop (tunnel_keepalive ctx) (io_events io) in
  perform w;;
  match outcome with
  | Some timeout => tcp_teardown ctx (io_end io) (io_now io) timeout port r url;; mret (Some tt)
  | None => mret None
  end.

Definition handle_client (ctx : ConnCtx) (io : conn_io) : M (option unit) :=
  kind ← admission ctx (io_first io) (io_now io) (io_handshake_ms io) (io_instant io);
  match kind with
  | Http subdomain => serve_http ctx io subdomain
  | Tcp port => serve_tcp ctx io port
  end.

End client.

(** ** Forwarding a public connection *)

(** [forward_to_tunnel]: the preamble, the bytes already read, the copy in both
    directions.  [preamble_ok] and [rest_ok] are the writes' answers, [copied]
    what [copy_bidirectional] counted, when it did not fail. *)
Definition forward_to_tunnel (peer already_read : str) (preamble_ok rest_ok : bool)
    (copied : option (Z * Z)) (mux r : nat) : M unit :=
  perform [DataFrame mux (NewConn peer)];;
  (if preamble_ok then mret tt else fail §"write failed");;
  (if bool_decide (already_read = []) then mret tt
   else
     let n := Z.of_nat (length already_read) in
     perform [DataBytes mux already_read];;
     (if rest_ok then mret tt else fail §"write failed");;
     modify (update_entry r (with_bytes n 0));;
     perform [Metric (inc_bytes_in n)]);;
  match copied with
  | Some (n_in, n_out) =>
    modify (update_entry r (with_bytes n_in n_out));;
    perform [Metric (inc_bytes_in n_in); Metric (inc_bytes_out n_out)]
  | None => mret tt
  end.

(** One connection accepted by [run_tcp_listener]. *)
Definition tcp_accept (peer : str) (preamble_ok : bool) (copied : option (Z * Z)) (mux r : nat)
    : M unit := forward_to_tunnel peer [] preamble_ok true copied mux r.

(** ** Lemmas: reading the effects *)

Definition frames (w : list effect) : list ControlFrame :=
  omap (λ e, match e with Frame f => Some f | _ => None end) w.
Definition audits (w : list effect) : list Value :=
  omap (λ e, match e with AuditEvent v => Some v | _ => None end) w.

Lemma frames_app w w' : frames (w ++ w') = frames w ++ frames w'.
Proof. apply omap_app. Qed.
Lemma audits_app w w' : audits (w ++ w') = audits w ++ audits w'.
Proof. apply omap_app. Qed.
Lemma frames_fire url body : frames (fire url body) = [].
Proof. by destruct url. Qed.
Lemma audits_fire url body : audits (fire url body) = [].
Proof. by destruct url. Qed.

(** Running a sequence. *)
Lemma bind_run {A B} (m : M A) (f : A → M B) s :
  (m ≫= f) s = match m s with
               | (w, Ok a, s') => let '(w', r, s'') := f a s' in (w ++ w', r, s'')
               | (w, Err e, s') => (w, Err e, s')
               end.
Proof. done. Qed.

Lemma reject_run {A} w code msg err s :
  reject (A := A) w code msg err s = (w ++ [Frame (Error code msg)], Err err, s).
Proof. unfold reject, perform, fail, mbind, M_bind. by rewrite app_nil_r. Qed.

Lemma wrap32_nat n : Z.of_nat n <= u32_max → wrap 32 (Z.of_nat n) = Z.of_nat n.
Proof. intros. apply wrap_small. unfold u32_max in *. lia. Qed.

(** ** The verdict on a client *)

Inductive verdict :=
| Admit (kind : TunnelKind)
| Silent
| Refuse (code : Z).

Section admission.
Context `{Unicode} `{ConstantTimeEq}.
Implicit Types (ctx : ConnCtx) (s : Relay).

Definition denied ctx : bool :=
  IpDenyList.is_enabled (ip_denylist ctx)
  && match parse_ip (client_ip ctx) with
     | Some ip => IpDenyList.is_denied (ip_denylist ctx) ip
     | None => false
     end.

(** A limit of 0 is no limit. *)
Definition full (limit : Z) (n : nat) : bool := (0 <? limit) && (limit <=? Z.of_nat n).

(** The tests of [handle_client] in their order, as one decision. *)
Definition verdict_of ctx (first : first_frame) (instant : Z) s : verdict :=
  if denied ctx then Silent
  else match first with
  | Got (Register version token kind) =>
    if negb (version =? PROTOCOL_VERSION) then Refuse 400
    else match auth_check (auth ctx) token with
    | Err Required => Refuse 401
    | Err Invalid => Refuse 403
    | Ok _ =>
      if negb (RateLimiter.check_and_record (rate_limiter s) (client_ip ctx) instant).1
      then Refuse 429
      else if full (max_tunnels_per_ip ctx) (length (tunnels_of (client_ip ctx) s)) then Refuse 429
      else if full (max_tunnels ctx) (size (tunnels s)) then Refuse 503
      else Admit kind
    end
  | _ => Silent
  end.

Lemma deny_run ctx now s :
  deny_stage ctx now s
  = if denied ctx
    then ([Metric inc_auth_failures;
           audit now §"ip.denylisted" [(§"client_ip", Str (client_ip ctx))]],
          Err (§"IP denylisted: " ++ client_ip ctx), s)
    else ([], Ok tt, s).
Proof. unfold deny_stage, denied. repeat (case_match; simplify_eq/=); done. Qed.

Lemma per_ip_run ctx s :
  Z.of_nat (length (tunnels_of (client_ip ctx) s)) <= u32_max →
  per_ip_stage ctx s
  = if full (max_tunnels_per_ip ctx) (length (tunnels_of (client_ip ctx) s))
    then reject [Metric inc_tunnel_per_ip_rejections] 429
           (§"tunnel limit reached for your IP (" ++ show (max_tunnels_per_ip ctx) ++ §" max)")
           (§"tunnel limit exceeded for " ++ client_ip ctx) s
    else ([], Ok tt, s).
Proof.
  intros Hn. unfold per_ip_stage, full. destruct (0 <? _); [|done].
  rewrite bind_run. unfold reading. rewrite wrap32_nat by done. cbn [andb].
  by destruct (_ <=? _).
Qed.

Lemma cap_run ctx s :
  Z.of_nat (size (tunnels s)) <= u32_max →
  cap_stage ctx s
  = if full (max_tunnels ctx) (size (tunnels s))
    then reject [Metric inc_tunnel_cap_rejections] 503
           (§"relay at capacity (" ++ show (max_tunnels ctx) ++ §" tunnels) — try again later")
           (§"global tunnel cap reached for " ++ client_ip ctx) s
    else ([], Ok tt, s).
Proof.
  intros Hn. unfold cap_stage, full. destruct (0 <? _); [|done].
  rewrite bind_run. unfold reading. rewrite wrap32_nat by done. cbn [andb].
  by destruct (_ <=? _).
Qed.

Lemma length_tunnels_of ip s : (length (tunnels_of ip s) <= size (tunnels s))%nat.
Proof.
  unfold tunnels_of, registered. etrans; [apply filter_length_le|].
  rewrite <-length_map_to_list. generalize (map_to_list (tunnels s)) as l.
  induction l as [|kr l IH]; [done|]. cbn [omap list_omap]. case_match; simpl; lia.
Qed.

Lemma admission_cases ctx first now handshake_ms instant s :
  Z.of_nat (size (tunnels s)) <= u32_max →
  let '(w, r, s') := admission ctx first now handshake_ms instant s in
  (match verdict_of ctx first instant s with
   | Admit kind => r = Ok kind ∧ frames w = []
   | Silent => is_ok r = false ∧ frames w = []
   | Refuse code => is_ok r = false ∧ ∃ message, frames w = [Error code message]
   end) ∧ set_rate_limiter (rate_limiter s) s' = s.
Proof.
  intros Hsize. pose proof (length_tunnels_of (client_ip ctx) s) as Hlen.
  unfold admission, enter, verdict_of. rewrite !bind_run, deny_run.
  destruct (denied ctx); [by destruct s|]. rewrite bind_run.
  destruct first as [| | | |f]; try by destruct s.
  destruct f as [version token kind| | | |]; try by destruct s.
  cbn [frame_stage]. destruct (negb (version =? PROTOCOL_VERSION)).
  { rewrite reject_run. split; [|by destruct s]. by split; [|eexists]. }
  cbn [mret M_ret]. unfold auth_stage. rewrite bind_run.
  destruct (auth_check (auth ctx) token) as [[]|[]];
    [|rewrite reject_run; split; [by split; [|eexists]|by destruct s]..].
  cbn [perform]. rewrite bind_run. unfold rate_stage.
  destruct (RateLimiter.check_and_record _ _ _) as [ok rl]. cbn [fst]. destruct ok; cbn [negb].
  2:{ rewrite reject_run. split; [|by destruct s]. by split; [|eexists]. }
  cbn [mret M_ret]. rewrite bind_run.
  change (tunnels_of (client_ip ctx) s) with (tunnels_of (client_ip ctx) (set_rate_limiter rl s)) in *.
  rewrite per_ip_run by lia.
  destruct (full (max_tunnels_per_ip ctx) _).
  { rewrite reject_run. split; [|by destruct s]. by split; [|eexists]. }
  rewrite bind_run, cap_run by done. cbn [tunnels set_rate_limiter].
  destruct (full (max_tunnels ctx) _).
  { rewrite reject_run. split; [|by destruct s]. by split; [|eexists]. }
  cbn [mret M_ret]. split; [|by destruct s]. done.
Qed.

(** C1: the tests of [handle_client] before it serves anything, in the code's
    order: deny list, a first frame that arrives and is a [Register] (none of
    these three gets an answer when it fails), version (400), token (401 when
    missing, 403 when wrong), rate limiter (429), tunnels of the address (429),
    tunnels in all (503).  A client is admitted exactly when it passes them
    all, and then no frame has been sent; otherwise it gets the one error frame
    of the first test it fails, or none; only the rate limiter's memory
    changes. *)
Theorem admission_verdict ctx first now handshake_ms instant s :
  Z.of_nat (size (tunnels s)) <= u32_max →
  let '(w, r, s') := admission ctx first now handshake_ms instant s in
  (match verdict_of ctx first instant s with
   | Admit kind => r = Ok kind ∧ frames w = []
   | Silent => is_ok r = false ∧ frames w = []
   | Refuse code => is_ok r = false ∧ ∃ message, frames w = [Error code message]
   end) ∧ set_rate_limiter (rate_limiter s) s' = s.
Proof. apply admission_cases. Qed.
End admission.

(** A relay on [tunnel.example.com] that takes two tunnels. *)
Definition demo_ctx : ConnCtx :=
  {| base_domain := §"tunnel.example.com"; http_port := 80; https_port := None;
     auth := auth_open; client_ip := §"192.0.2.7"; webhook_url := None;
     max_tunnels_per_ip := 0; max_tunnels := 2;
     reserved_subdomains := reserved_new [§"admin"]; subdomain_prefix := {| prefix := None |};
     subdomain_length := 8; blocklist := blocklist_disabled;
     ip_denylist := IpDenyList.disabled; tunnel_keepalive := 0 |}.
Definition demo_empty : Relay := relay_new (RateLimiter.new 10 60000000000).
Definition demo_first (name : str) : first_frame := Got (Register 1 None (Http (Some name))).

Lemma admission_verdict_witness :
  let '(w, r, s') :=
    admission (H0 := slice_ct_eq) demo_ctx (demo_first §"app") 0 0 0 demo_empty in
  (match verdict_of (H0 := slice_ct_eq) demo_ctx (demo_first §"app") 0 demo_empty with
   | Admit kind => r = Ok kind ∧ frames w = []
   | Silent => is_ok r = false ∧ frames w = []
   | Refuse code => is_ok r = false ∧ ∃ message, frames w = [Error code message]
   end) ∧ set_rate_limiter (rate_limiter demo_empty) s' = demo_empty.
Proof.
  apply (admission_verdict (H0 := slice_ct_eq) demo_ctx (demo_first §"app") 0 0 0 demo_empty).
  vm_compute. discriminate.
Defined.

(** ** HTTP registration *)

Section http.
Context `{Unicode}.
Implicit Types (ctx : ConnCtx) (s : Relay).

(** The naming rules for a requested subdomain. *)
Definition name_allowed ctx (sub : str) : Prop :=
  validate_subdomain sub = Ok tt ∧ is_reserved (reserved_subdomains ctx) sub = false
  ∧ prefix_check (subdomain_prefix ctx) sub = Ok tt ∧ is_blocked (blocklist ctx) sub = false.

Lemma http_validate_run ctx subdomain s :
  let '(w, r, s') := http_validate ctx subdomain s in
  s' = s ∧ audits w = [] ∧
  match r with
  | Ok _ => w = [] ∧ match subdomain with Some sub => name_allowed ctx sub | None => True end
  | Err _ => (∃ code message, (code = 400 ∨ code = 403) ∧ frames w = [Error code message])
             ∧ match subdomain with Some sub => ¬ name_allowed ctx sub | None => False end
  end.
Proof.
  unfold http_validate, name_allowed. destruct subdomain as [sub|]; [|done].
  destruct (validate_subdomain sub) as [[]|e] eqn:E1.
  2:{ rewrite reject_run. split_and!; try done; [by eexists _, _; split; [left|]|naive_solver]. }
  destruct (is_reserved _ sub) eqn:E2.
  { rewrite reject_run. split_and!; try done; [by eexists _, _; split; [right|]|naive_solver]. }
  destruct (prefix_check _ sub) as [[]|e] eqn:E3.
  2:{ rewrite reject_run. split_and!; try done; [by eexists _, _; split; [right|]|naive_solver]. }
  destruct (is_blocked _ sub) eqn:E4.
  { rewrite reject_run. split_and!; try done; [by eexists _, _; split; [right|]|naive_solver]. }
  done.
Qed.

Lemma http_name_run ctx draw subdomain s :
  in_chars draw →
  ∃ sub, http_name ctx draw subdomain s = ([], Ok sub, s)
    ∧ match subdomain with
      | Some name => sub = name
      | None => random_subdomain_with_length draw (subdomain_length ctx) = Some sub
      end.
Proof.
  intros Hd. unfold http_name. destruct subdomain as [name|]; [by exists name|].
  destruct (random_subdomain_with_length _ _) as [sub|] eqn:E; [by exists sub|].
  exfalso. unfold random_subdomain_with_length in E. apply mapM_None in E.
  apply Exists_exists in E as (i & _ & Hi). apply lookup_ge_None in Hi.
  pose proof (Hd i). change (length CHARS) with 36%nat in Hi. lia.
Qed.

(** The state after the section under the lock. *)
Definition with_tunnel (key : str) (r : nat) (e : TunnelEntry) s : Relay :=
  set_tunnels (<[key := r]> (tunnels s)) (set_heap (<[r := e]> (heap s)) s).

Lemma tunnels_with_tunnel key r e s : tunnels (with_tunnel key r e s) = <[key := r]> (tunnels s).
Proof. done. Qed.

Lemma http_insert_run ctx mux sub now instant s :
  http_insert ctx mux sub now instant s
  = match tunnels s !! sub with
    | Some _ => ([Frame (Error 409 (§"subdomain " ++ quoted sub ++ §" already registered"))],
                 Err §"subdomain taken", s)
    | None => ([], Ok (fresh_ref s),
               with_tunnel sub (fresh_ref s) (entry_new mux sub now instant (client_ip ctx)) s)
    end.
Proof. unfold http_insert. by destruct (tunnels s !! sub). Qed.

Lemma fresh_ref_lookup s : heap s !! fresh_ref s = None.
Proof. unfold fresh_ref. apply not_elem_of_dom. apply is_fresh. Qed.

Lemma frames_http_opened ctx now sub url : frames (http_opened ctx now sub url) = [].
Proof. unfold http_opened. by rewrite frames_app, frames_fire. Qed.

(** Whether a registration under the name would be taken. *)
Definition name_free ctx (subdomain : option str) (sub : str) s : Prop :=
  match subdomain with Some name => name_allowed ctx name | None => True end
  ∧ tunnels s !! sub = None.

Lemma http_register_run ctx mux draw subdomain now instant s :
  in_chars draw →
  let '(w, r, s') := http_register ctx mux draw subdomain now instant true s in
  match r with
  | Ok (sub, ref, url) =>
    match subdomain with
    | Some name => sub = name ∧ name_allowed ctx name
    | None => random_subdomain_with_length draw (subdomain_length ctx) = Some sub
    end
    ∧ tunnels s !! sub = None ∧ heap s !! ref = None
    ∧ s' = with_tunnel sub ref (entry_new mux sub now instant (client_ip ctx)) s
    ∧ url = http_url (base_domain ctx) (http_port ctx) (https_port ctx) sub
    ∧ frames w = [Registered url]
  | Err _ => s' = s ∧ ∃ code message, code ∈ [400; 403; 409] ∧ frames w = [Error code message]
  end.
Proof.
  intros Hd. unfold http_register. rewrite bind_run.
  pose proof (http_validate_run ctx subdomain s) as HV.
  destruct (http_validate ctx subdomain s) as [[wv [[]|ev]] sv].
  2:{ destruct HV as (-> & _ & (code & msg & Hc & Hf) & _). split; [done|].
      exists code, msg. split; [|done]. destruct Hc as [-> | ->]; set_solver. }
  destruct HV as (-> & _ & -> & HV). rewrite bind_run.
  destruct (http_name_run ctx draw subdomain s Hd) as (sub & -> & Hsub).
  cbv beta zeta iota. rewrite bind_run, http_insert_run. destruct (tunnels s !! sub) as [r0|] eqn:Et.
  { split; [done|]. eexists _, _. split; [|done]. set_solver. }
  cbn -[http_opened frames].
  split_and!; try done.
  - by destruct subdomain; simplify_eq.
  - apply fresh_ref_lookup.
  - change (Frame (Registered ?u) :: ?w) with ([Frame (Registered u)] ++ w).
    by rewrite !frames_app, frames_http_opened.
Qed.

(** A DNS label: 1 to 63 letters, digits and hyphens, no hyphen at an end. *)
Definition label (name : str) : Prop :=
  (1 ≤ length name ≤ 63)%nat ∧ (∀ c, c ∈ name → name_char c = true)
  ∧ head name ≠ Some "-"%char ∧ last name ≠ Some "-"%char.

(** The names the operator keeps: reserved ones, those without the prefix, and
    those of the blocklist. *)
Definition barred ctx (name : str) : Prop :=
  to_lowercase name ∈ names (reserved_subdomains ctx)
  ∨ (∃ p, prefix (subdomain_prefix ctx) = Some p ∧ ∀ rest, to_lowercase name ≠ p ++ rest)
  ∨ to_lowercase name ∈ blocked (blocklist ctx).

Lemma starts_with_false p t : starts_with p t = false ↔ ∀ rest, t ≠ p ++ rest.
Proof.
  destruct (starts_with p t) eqn:E; split; try done.
  - intros Hno. exfalso. apply starts_with_spec in E as [rest ->]. by apply (Hno rest).
  - intros _ rest ->. by rewrite starts_with_app in E.
Qed.

Lemma name_allowed_spec ctx name : name_allowed ctx name ↔ label name ∧ ¬ barred ctx name.
Proof.
  unfold name_allowed, barred, is_reserved, prefix_check, is_blocked. rewrite validate_subdomain_spec.
  rewrite !bool_decide_eq_false. unfold label.
  destruct (prefix (subdomain_prefix ctx)) as [p|].
  - pose proof (starts_with_false p (to_lowercase name)) as HS.
    destruct (starts_with p (to_lowercase name)); cbn [negb].
    + split; [intros (HL & H1 & _ & H2)|intros (HL & Hn)]; split_and!; try apply HL; try tauto.
      intros [?|[(p' & [= <-] & Hp)|?]]; [tauto|by apply HS in Hp|tauto].
    + split; [by intros (_ & _ & ? & _)|]. intros (_ & []). right. left. exists p. by rewrite <-HS.
  - split; [intros (HL & H1 & _ & H2)|intros (HL & Hn)]; split_and!; try apply HL; try tauto.
    intros [?|[(p' & [=] & _)|?]]; tauto.
Qed.

(** A registration refused with one error frame, and one that adds its tunnel:
    [written] tells whether the [Registered] frame could be written. *)
Definition refused {A} (code : Z) s (out : list effect * result str A * Relay) : Prop :=
  let '(w, r, s') := out in is_ok r = false ∧ s' = s ∧ ∃ message, frames w = [Error code message].

Definition registers ctx mux now instant (written : bool) sub s
    (out : list effect * result str (str * nat * str) * Relay) : Prop :=
  let '(w, r, s') := out in
  let url := http_url (base_domain ctx) (http_port ctx) (https_port ctx) sub in
  ∃ ref, heap s !! ref = None
    ∧ s' = with_tunnel sub ref (entry_new mux sub now instant (client_ip ctx)) s
    ∧ frames w = [Registered url]
    ∧ if written then r = Ok (sub, ref, url) else is_ok r = false.

Lemma http_validate_refuses ctx name s :
  (¬ label name → ∃ w e, http_validate ctx (Some name) s = (w, Err e, s)
                         ∧ ∃ message, frames w = [Error 400 message])
  ∧ (label name → barred ctx name →
     ∃ w e, http_validate ctx (Some name) s = (w, Err e, s)
            ∧ ∃ message, frames w = [Error 403 message])
  ∧ (label name → ¬ barred ctx name → http_validate ctx (Some name) s = ([], Ok tt, s)).
Proof.
  assert (HV := name_allowed_spec ctx name). assert (HL := validate_subdomain_spec name).
  fold (label name) in HL. unfold name_allowed in HV. cbn [http_validate].
  destruct (validate_subdomain name) as [[]|e] eqn:E1.
  2:{ assert (¬ label name) by (intros Hl; by apply HL in Hl). split_and!; [|done|done].
      intros _. rewrite reject_run. by repeat eexists. }
  assert (L : label name) by by apply HL. split; [done|].
  destruct (is_reserved _ name) eqn:E2;
    [|destruct (prefix_check _ name) as [[]|e] eqn:E3; [destruct (is_blocked _ name) eqn:E4|]].
  all: split; intros _ Hb; rewrite ?reject_run; try (by repeat eexists); try done;
    exfalso; naive_solver.
Qed.

Lemma http_register_named ctx mux draw sub subdomain now instant written s :
  http_validate ctx subdomain s = ([], Ok tt, s) →
  http_name ctx draw subdomain s = ([], Ok sub, s) →
  let out := http_register ctx mux draw subdomain now instant written s in
  (is_Some (tunnels s !! sub) → refused 409 s out)
  ∧ (tunnels s !! sub = None → registers ctx mux now instant written sub s out).
Proof.
  intros HV HN out. unfold out, http_register. rewrite bind_run, HV. cbv beta zeta iota.
  rewrite bind_run, HN. cbv beta zeta iota. rewrite bind_run, http_insert_run. split.
  - intros [r0 ->]. cbn. split; [done|]. split; [done|]. by eexists.
  - intros ->. cbv beta zeta iota. unfold registers, send_registered, perform, fail.
    destruct written; rewrite ?bind_run; cbn -[http_opened frames http_url with_tunnel];
      exists (fresh_ref s);
      (split; [apply fresh_ref_lookup|split; [done|split; [|done]]]).
    + rewrite app_nil_r. change (Frame (Registered ?u) :: ?w) with ([Frame (Registered u)] ++ w).
      by rewrite frames_app, frames_http_opened.
    + done.
Qed.

Lemma random_name_shape draw n :
  in_chars draw →
  ∃ sub, random_subdomain_with_length draw n = Some sub
    ∧ length sub = n ∧ ∀ c, c ∈ sub → c ∈ CHARS.
Proof.
  intros Hd. unfold random_subdomain_with_length.
  destruct (mapM (λ i, CHARS !! Z.to_nat (draw i)) (seq 0 n)) as [sub|] eqn:E.
  2:{ apply mapM_None_1, Exists_exists in E as (i & _ & Hi). apply lookup_ge_None in Hi.
      change (length CHARS) with 36%nat in Hi. specialize (Hd i). lia. }
  apply mapM_Some_1 in E as Hf. exists sub. split; [done|]. split.
  - apply Forall2_length in Hf. by rewrite length_seq in Hf.
  - intros c (k & Hk)%list_elem_of_lookup.
    destruct (Forall2_lookup_r _ _ _ _ _ Hf Hk) as (i & _ & Hi). by eapply list_elem_of_lookup_2.
Qed.

(** C7: An HTTP registration, on every branch.  A requested name is refused
    with 400 when it is no DNS label, else with 403 when the operator bars it
    (reserved, without the prefix, or on the blocklist), else with 409 when it is
    taken, each time with nothing changed; else exactly one tunnel is added under
    that name and its URL is sent.  Without a requested name the name is drawn
    from [a-z0-9] in the configured length; it is tested for being taken
    only, not against reserved names, prefix or blocklist.  When the
    [Registered] frame cannot be written the session fails and the tunnel it
    has added stays. *)
Theorem http_register_spec ctx mux draw subdomain now instant written s :
  in_chars draw →
  let out := http_register ctx mux draw subdomain now instant written s in
  match subdomain with
  | Some name =>
    (¬ label name → refused 400 s out)
    ∧ (label name → barred ctx name → refused 403 s out)
    ∧ (label name → ¬ barred ctx name → is_Some (tunnels s !! name) → refused 409 s out)
    ∧ (label name → ¬ barred ctx name → tunnels s !! name = None →
       registers ctx mux now instant written name s out)
  | None =>
    ∃ sub, length sub = subdomain_length ctx ∧ (∀ c, c ∈ sub → c ∈ CHARS)
    ∧ (is_Some (tunnels s !! sub) → refused 409 s out)
    ∧ (tunnels s !! sub = None → registers ctx mux now instant written sub s out)
  end.
Proof.
  intros Hd out. destruct subdomain as [name|].
  - destruct (http_validate_refuses ctx name s) as (H4 & H3 & HA).
    assert (HR : ∀ code w e, http_validate ctx (Some name) s = (w, Err e, s) →
                 (∃ message, frames w = [Error code message]) → refused code s out).
    { intros code w e E Hf. unfold out, http_register. by rewrite bind_run, E. }
    split_and!; [intros L|intros L B|intros L B..].
    + destruct (H4 L) as (w & e & E & Hf). by eapply HR.
    + destruct (H3 L B) as (w & e & E & Hf). by eapply HR.
    + by apply (http_register_named ctx mux draw name (Some name)); [apply HA|].
    + by apply (http_register_named ctx mux draw name (Some name)); [apply HA|].
  - destruct (random_name_shape draw (subdomain_length ctx) Hd) as (sub & E & Hlen & Hc).
    exists sub. split; [done|]. split; [done|].
    apply (http_register_named ctx mux draw sub None); [done|]. cbn [http_name]. by rewrite E.
Qed.

(** A registration whose [Registered] frame cannot be written leaves its
    tunnel behind: [serve_http] returns with an error, the entry stays in the
    registry with nobody to remove it, it counts against the limits, and every
    later client that asks for the name is told 409. *)
Theorem http_register_leaks ctx mux draw name now instant s ctx' mux' now' instant' :
  name_allowed ctx name → name_allowed ctx' name → tunnels s !! name = None →
  let '(_, r, s1) := http_register ctx mux draw (Some name) now instant false s in
  is_ok r = false
  ∧ size (tunnels s1) = S (size (tunnels s))
  ∧ let '(w, r', s2) := http_register ctx' mux' draw (Some name) now' instant' true s1 in
    is_ok r' = false ∧ s2 = s1
    ∧ frames w = [Error 409 (§"subdomain " ++ quoted name ++ §" already registered")].
Proof.
  intros Ha Ha' Hn.
  assert (HV : ∀ c s, name_allowed c name → http_validate c (Some name) s = ([], Ok tt, s)).
  { intros c s0 (E1 & E2 & E3 & E4). cbn [http_validate]. by rewrite E1, E2, E3, E4. }
  unfold http_register. rewrite bind_run, HV by done. cbv beta zeta iota.
  rewrite bind_run. cbn [http_name mret M_ret]. rewrite bind_run, http_insert_run, Hn.
  cbn -[http_opened frames with_tunnel http_validate].
  split; [done|]. split; [by rewrite tunnels_with_tunnel, map_size_insert_None|].
  rewrite bind_run, HV by done. cbv beta zeta iota.
  rewrite bind_run. cbn [http_name mret M_ret]. rewrite bind_run, http_insert_run.
  rewrite tunnels_with_tunnel, lookup_insert_eq. by cbn -[quoted].
Qed.
End http.

#[local] Existing Instance ascii_only.

Lemma http_register_spec_witness :
  registers demo_ctx 0 0 0 true §"app" demo_empty
    (http_register demo_ctx 0 (λ _, 0) (Some §"app") 0 0 true demo_empty)
  ∧ refused 403 demo_empty (http_register demo_ctx 0 (λ _, 0) (Some §"Admin") 0 0 true demo_empty).
Proof.
  assert (Hd : in_chars (λ _, 0)) by (intros i; lia).
  assert (HL : label §"app") by (apply validate_subdomain_spec; reflexivity).
  assert (HL' : label §"Admin") by (apply validate_subdomain_spec; reflexivity).
  assert (Hf : ¬ barred demo_ctx §"app").
  { intros [Hr|[(p & [=] & _)|Hb]].
    - apply (bool_decide_pack _) in Hr. by vm_compute in Hr.
    - apply (bool_decide_pack _) in Hb. by vm_compute in Hb. }
  assert (Hb : barred demo_ctx §"Admin") by (left; by apply (bool_decide_unpack _)).
  destruct (http_register_spec demo_ctx 0 (λ _, 0) (Some §"app") 0 0 true demo_empty Hd)
    as (_ & _ & _ & HP).
  destruct (http_register_spec demo_ctx 0 (λ _, 0) (Some §"Admin") 0 0 true demo_empty Hd)
    as (_ & HR & _).
  split; [exact (HP HL Hf eq_refl)|exact (HR HL' Hb)].
Defined.

Lemma http_register_leaks_witness :
  let '(_, r, s1) := http_register demo_ctx 0 (λ _, 0) (Some §"app") 0 0 false demo_empty in
  is_ok r = false
  ∧ size (tunnels s1) = S (size (tunnels demo_empty))
  ∧ let '(w, r', s2) := http_register demo_ctx 1 (λ _, 0) (Some §"app") 1 1 true s1 in
    is_ok r' = false ∧ s2 = s1
    ∧ frames w = [Error 409 (§"subdomain " ++ quoted §"app" ++ §" already registered")].
Proof.
  apply (@http_register_leaks ascii_only); [by vm_compute..|reflexivity].
Defined.

(** ** The control loop *)

(** No reply to a keepalive ping is ever required.  A client that sends
    nothing, on a connection that accepts the pings, keeps its tunnel for ever,
    whatever [tunnel_keepalive] is. *)
Theorem keepalive_needs_no_reply keepalive n :
  control_loop keepalive (replicate n (PingTick Written)) = (replicate n (Frame Ping), None).
Proof.
  induction n as [|n IH]; [done|]. cbn [replicate control_loop]. rewrite IH.
  by destruct (0 <? keepalive).
Qed.

(** Events that leave the loop running. *)
Definition quiet (ev : control_event) : bool :=
  match ev with PingTick Written | ReadSome => true | _ => false end.

(** The control loop ends at the first event that is neither data nor a ping
    that could be written, and reports a keepalive timeout exactly for a ping
    that failed or hung while [tunnel_keepalive] is set. *)
Theorem control_loop_ends keepalive evs ev rest :
  forallb quiet evs = true → quiet ev = false →
  (0 <? keepalive) = true ∨ ev ≠ PingTick WritePending →
  (control_loop keepalive (evs ++ ev :: rest)).2
  = Some (match ev with PingTick _ => 0 <? keepalive | _ => false end).
Proof.
  intros Hq Hev Hk. induction evs as [|e evs IH]; cbn [app].
  - destruct ev as [|[]| |]; cbn [control_loop]; try done; destruct (0 <? keepalive);
      (done || destruct Hk; done).
  - cbn [forallb] in Hq. apply andb_true_iff in Hq as [He Hq]. specialize (IH Hq).
    destruct e as [|[]| |]; try discriminate; cbn [control_loop]; [|done].
    destruct (control_loop keepalive (evs ++ ev :: rest)) as [w r].
    by destruct (0 <? keepalive).
Qed.

Lemma control_loop_ends_witness :
  (control_loop 30 ([PingTick Written; ReadSome] ++ PingTick WritePending :: [ReadEnd])).2
  = Some true.
Proof. apply control_loop_ends; [reflexivity..|by left]. Defined.

(** ** TCP ports *)

Section tcp.
Implicit Types (ctx : ConnCtx) (s : Relay).

(** The state with a listener on the port, on record. *)
Definition take_port (p : Z) s : Relay :=
  set_tcp_ports ({[p]} ∪ tcp_ports s) (set_bound ({[p]} ∪ bound s) s).

Definition port_taken (os_ok : gset Z → Z → bool) s (p : Z) : Prop :=
  p ∈ tcp_ports s ∨ os_ok (bound s) p = false.

Lemma bind_random_port_run tries os_ok draw i s :
  let '(w, r, s') := bind_random_port tries os_ok draw i s in
  w = [] ∧
  match r with
  | Ok p => s' = take_port p s ∧ ¬ port_taken os_ok s p
            ∧ ∃ j, (i <= j < i + tries)%nat ∧ p = draw j
                   ∧ ∀ k, (i <= k < j)%nat → port_taken os_ok s (draw k)
  | Err _ => s' = s ∧ ∀ k, (i <= k < i + tries)%nat → port_taken os_ok s (draw k)
  end.
Proof.
  revert i. induction tries as [|n IH]; intros i; cbn [bind_random_port].
  - split; [done|]. split; [done|]. lia.
  - assert (Hskip : port_taken os_ok s (draw i) →
      let '(w, r, s') := bind_random_port n os_ok draw (S i) s in
      w = [] ∧
      match r with
      | Ok p => s' = take_port p s ∧ ¬ port_taken os_ok s p
                ∧ ∃ j, (i <= j < i + S n)%nat ∧ p = draw j
                       ∧ ∀ k, (i <= k < j)%nat → port_taken os_ok s (draw k)
      | Err _ => s' = s ∧ ∀ k, (i <= k < i + S n)%nat → port_taken os_ok s (draw k)
      end).
    { intros Ht. specialize (IH (S i)).
      destruct (bind_random_port n os_ok draw (S i) s) as [[w [p|e]] s'];
        destruct IH as (-> & -> & IH); split_and!; try done.
      - by destruct IH.
      - destruct IH as (_ & j & Hj & Hp & Hall). exists j. split; [lia|]. split; [done|].
        intros k Hk. destruct (decide (k = i)) as [->|]; [done|]. apply Hall. lia.
      - intros k Hk. destruct (decide (k = i)) as [->|]; [done|]. apply IH. lia. }
    unfold port_in_use. rewrite bind_run. unfold reading. cbv beta iota.
    case_bool_decide as Hin; [cbn [app]; case_match; case_match; apply Hskip; by left|].
    rewrite bind_run. unfold os_bind.
    destruct (os_ok (bound s) (draw i)) eqn:Hb;
      [|case_match; case_match; apply Hskip; by right].
    split; [done|]. split; [done|]. split.
    + intros [?|?]; congruence.
    + exists i. split; [lia|]. split; [done|]. lia.
Qed.

(** Automatic TCP ports.  The relay binds the first of its fifty draws that
    is neither in its own set nor refused by the system, and records exactly
    that port; it gives up, with nothing changed, only when all fifty draws
    were taken. *)
Theorem bind_random_port_spec os_ok draw s :
  let '(w, r, s') := bind_random_port 50 os_ok draw 0 s in
  w = [] ∧
  match r with
  | Ok p => s' = take_port p s ∧ (p ∉ tcp_ports s) ∧ os_ok (bound s) p = true
            ∧ ∃ j, (j < 50)%nat ∧ p = draw j ∧ ∀ k, (k < j)%nat → port_taken os_ok s (draw k)
  | Err _ => s' = s ∧ ∀ k, (k < 50)%nat → port_taken os_ok s (draw k)
  end.
Proof.
  pose proof (bind_random_port_run 50 os_ok draw 0 s) as P.
  destruct (bind_random_port 50 os_ok draw 0 s) as [[w [p|e]] s']; destruct P as (-> & -> & P).
  - destruct P as (Hnt & j & Hj & -> & Hall). split_and!; try done.
    + intros ?. apply Hnt. by left.
    + destruct (os_ok (bound s) (draw j)) eqn:Hb; [done|]. exfalso. apply Hnt. by right.
    + exists j. split_and!; [lia|done|]. intros k Hk. apply Hall. lia.
  - split_and!; try done. intros k Hk. apply P. lia.
Qed.

(** A requested TCP port that cannot be bound is refused without any frame:
    the client sees its connection end, and nothing is registered. *)
Theorem tcp_port_in_use_is_silent ctx mux port os_ok draw now instant written s :
  port ≠ 0 → os_ok (bound s) port = false →
  let '(w, r, s') := tcp_register ctx mux port os_ok draw now instant written s in
  w = [] ∧ is_ok r = false ∧ s' = s.
Proof.
  intros Hp Hb. unfold tcp_register. rewrite bind_run. unfold tcp_bind.
  rewrite (proj2 (Z.eqb_neq port 0)) by done. unfold os_bind. by rewrite bind_run, Hb.
Qed.

(** A system that gives a port to one listener at a time. *)
Definition exclusive_ports (held : gset Z) (p : Z) : bool := bool_decide (p ∉ held).

Lemma tcp_port_in_use_is_silent_witness :
  let '(w, r, s') :=
    tcp_register demo_ctx 1 8022 exclusive_ports (λ _, 0) 0 0 true (take_port 8022 demo_empty) in
  w = [] ∧ is_ok r = false ∧ s' = take_port 8022 demo_empty.
Proof. apply tcp_port_in_use_is_silent; [done|]. by vm_compute. Defined.

(** A TCP registration whose [Registered] frame cannot be written keeps its
    port in the relay's set for ever, though the listener is closed: no tunnel
    uses it and automatic allocation will not offer it again. *)
Theorem tcp_register_leaks_port ctx mux port os_ok draw now instant s :
  port ≠ 0 → os_ok (bound s) port = true →
  let '(_, r, s') := tcp_register ctx mux port os_ok draw now instant false s in
  is_ok r = false ∧ (port ∈ tcp_ports s') ∧ (port ∉ bound s') ∧ tunnels s' = tunnels s.
Proof.
  intros Hp Hb. unfold tcp_register. rewrite bind_run. unfold tcp_bind.
  rewrite (proj2 (Z.eqb_neq port 0)) by done. unfold os_bind. rewrite bind_run, Hb.
  cbv beta zeta iota. rewrite bind_run. unfold tcp_registered.
  cbn -[union difference]. split_and!; [done|set_solver..|done].
Qed.

Lemma tcp_register_leaks_port_witness :
  let '(_, r, s') := tcp_register demo_ctx 1 8022 exclusive_ports (λ _, 0) 0 0 false demo_empty in
  is_ok r = false ∧ (8022 ∈ tcp_ports s') ∧ (8022 ∉ bound s') ∧ tunnels s' = tunnels demo_empty.
Proof. apply tcp_register_leaks_port; [done|]. by vm_compute. Defined.
End tcp.

(** ** Forwarding *)

(** Byte accounting.  When the streams do not fail, forwarding a public
    connection sends the preamble first, then the bytes already read, and adds
    to the tunnel's counters exactly the bytes sent each way. *)
Theorem forward_counts peer already_read n_in n_out mux r e s :
  heap s !! r = Some e →
  0 <= t_bytes_in e → 0 <= t_bytes_out e → 0 <= n_in → 0 <= n_out →
  t_bytes_in e + Z.of_nat (length already_read) + n_in <= u64_max →
  t_bytes_out e + n_out <= u64_max →
  let '(w, res, s') := forward_to_tunnel peer already_read true true (Some (n_in, n_out)) mux r s in
  res = Ok tt
  ∧ (∃ rest, w = DataFrame mux (NewConn peer)
                  :: (if bool_decide (already_read = []) then [] else [DataBytes mux already_read])
                  ++ rest ∧ Forall (λ ef, match ef with Metric _ => True | _ => False end) rest)
  ∧ ∃ e', heap s' !! r = Some e'
      ∧ t_bytes_in e' = t_bytes_in e + Z.of_nat (length already_read) + n_in
      ∧ t_bytes_out e' = t_bytes_out e + n_out.
Proof.
  intros He H1 H2 H3 H4 H5 H6. unfold forward_to_tunnel.
  case_bool_decide as Hr; cbn -[with_bytes Z.add].
  - subst. split; [done|]. split; [by eexists; split; [|repeat constructor]|].
    rewrite heap_update, He. eexists. split; [done|]. cbn.
    rewrite !u64_add_small by (simpl in *; lia). simpl. lia.
  - split; [done|]. split; [by eexists; split; [|repeat constructor]|].
    rewrite !heap_update, He. eexists. split; [done|]. cbn.
    rewrite !u64_add_small by (rewrite ?u64_add_small by lia; lia). lia.
Qed.

Lemma forward_counts_witness :
  let e := entry_new 0 §"app" 0 0 §"192.0.2.7" in
  let '(w, res, s') := forward_to_tunnel §"198.51.100.1:5000" §"GET" true true (Some (10, 20)) 5 0
                         (demo_relay e) in
  res = Ok tt
  ∧ (∃ rest, w = DataFrame 5 (NewConn §"198.51.100.1:5000")
                  :: (if bool_decide (§"GET" = []) then [] else [DataBytes 5 §"GET"])
                  ++ rest ∧ Forall (λ ef, match ef with Metric _ => True | _ => False end) rest)
  ∧ ∃ e', heap s' !! 0%nat = Some e'
      ∧ t_bytes_in e' = 0 + Z.of_nat (length §"GET") + 10 ∧ t_bytes_out e' = 0 + 20.
Proof.
  intros e. apply (forward_counts §"198.51.100.1:5000" §"GET" 10 20 5 0 e); try (cbn; lia).
  - reflexivity.
  - unfold u64_max; cbn; lia.
  - unfold u64_max; cbn; lia.
Defined.
