(* ===== verification/Sessions.v ===== *)
(** * Sessions: clients served at the same time

    Every client has a task of its own that runs [handle_client] of
    [crates/seamless-relay/src/tunnel.rs]; tasks interleave wherever the code
    takes a lock or awaits.  A session is a program counter and its locals; a
    step is one such section, made of the definitions of [HandleClient].  The
    expiry task and SIGTERM of [main.rs], and whatever the admin interface and
    the ingress store in an entry, are steps too. *)

From S2P Require Import Prelude Text Json Cidr Codec Policy RateLimit Metrics AuditLog.
From S2P Require Import Backends Tunnel HandleClient.
Local Open Scope Z_scope.

(** Where a session stands, before the section it names. *)
Inductive pc :=
| PEnter (first : first_frame)
| PPerIp (kind : TunnelKind)
| PCap (kind : TunnelKind)
| PHttp (subdomain : option str)
| PHttpReg (sub : str) (r : nat) (url : str)
| PHttpOpen (sub : str) (r : nat) (url : str)
| PHttpClose (sub : str) (r : nat) (url : str) (timeout : bool)
| PTcp (requested : Z)
| PTcpDraw (i : nat)
| PTcpTry (i : nat) (port : Z)
| PTcpRecord (port : Z)
| PTcpReg (port : Z) (url : str)
| PTcpIns (port : Z) (url : str)
| PTcpOpen (port : Z) (r : nat) (url : str)
| PTcpClose (port : Z) (r : nat) (url : str) (timeout : bool)
| PTcpRelease (port : Z) (r : nat) (url : str) (timeout : bool)
| PTcpRemove (port : Z) (r : nat) (url : str) (timeout : bool)
| PDone
(** Ended with an error in the section named. *)
| PFailed (p : pc).

Section machine.
Context `{Unicode} `{ConstantTimeEq}.

(** One section of [handle_client]. *)
Definition advance (ctx : ConnCtx) (io : conn_io) (p : pc) : M pc :=
  match p with
  | PEnter first =>
    kind ← enter ctx first (io_now io) (io_handshake_ms io) (io_instant io); mret (PPerIp kind)
  | PPerIp kind => per_ip_stage ctx;; mret (PCap kind)
  | PCap kind =>
    cap_stage ctx;;
    mret (match kind with Http subdomain => PHttp subdomain | Tcp port => PTcp port end)
  | PHttp subdomain =>
    http_validate ctx subdomain;;
    sub ← http_name ctx (io_draw io) subdomain;
    r ← http_insert ctx (io_mux io) sub (io_now io) (io_instant io);
    mret (PHttpReg sub r (http_url (base_domain ctx) (http_port ctx) (https_port ctx) sub))
  | PHttpReg sub r url =>
    send_registered (io_written io) url;;
    perform (http_opened ctx (io_now io) sub url);;
    mret (PHttpOpen sub r url)
  | PHttpOpen sub r url =>
    let '(w, outcome) := control_loop (tunnel_keepalive ctx) (io_events io) in
    perform w;;
    mret (match outcome with
          | Some timeout => PHttpClose sub r url timeout
          | None => PHttpOpen sub r url
          end)
  | PHttpClose sub r url timeout =>
    http_teardown ctx (io_end io) (io_now io) timeout sub r url;; mret PDone
  | PTcp requested =>
    if requested =? 0 then mret (PTcpDraw 0)
    else
      ok ← os_bind (io_os_ok io) requested;
      if ok : bool then mret (PTcpRecord requested)
      else fail (§"bind tcp :" ++ show requested)
  | PTcpDraw i =>
    if bool_decide (i < 50)%nat then
      used ← port_in_use (io_draw io i);
      mret (if used : bool then PTcpDraw (S i) else PTcpTry i (io_draw io i))
    else fail §"could not find a free port in 10000..60000 after 50 tries"
  | PTcpTry i port =>
    ok ← os_bind (io_os_ok io) port;
    mret (if ok : bool then PTcpRecord port else PTcpDraw (S i))
  | PTcpRecord port =>
    modify (record_port port);; mret (PTcpReg port (tcp_url (base_domain ctx) port))
  | PTcpReg port url =>
    tcp_registered (io_written io) port url;;
    perform (tcp_opened ctx (io_now io) port url);;
    mret (PTcpIns port url)
  | PTcpIns port url =>
    r ← tcp_insert ctx (io_mux io) port (io_now io) (io_instant io);
    mret (PTcpOpen port r url)
  | PTcpOpen port r url =>
    let '(w, outcome) := control_loop (tunnel_keepalive ctx) (io_events io) in
    perform w;;
    mret (match outcome with
          | Some timeout => PTcpClose port r url timeout
          | None => PTcpOpen port r url
          end)
  | PTcpClose port r url timeout =>
    modify (tcp_drop_listener port);; mret (PTcpRelease port r url timeout)
  | PTcpRelease port r url timeout =>
    modify (tcp_release_port port);; mret (PTcpRemove port r url timeout)
  | PTcpRemove port r url timeout =>
    modify (remove_key (tcp_key port));;
    bytes ← reading (bytes_of r);
    perform (tcp_closed ctx (io_end io) (io_now io) timeout port url bytes);;
    mret PDone
  | PDone => mret PDone
  | PFailed p => mret (PFailed p)
  end.

(** ** The whole relay *)

Record World := {
  relay : Relay;
  sessions : gmap nat (ConnCtx * pc);
}.

(** What other tasks may store in an entry: anything but who it belongs to. *)
Definition keeps_identity (f : TunnelEntry → TunnelEntry) : Prop :=
  ∀ e, t_subdomain (f e) = t_subdomain e ∧ t_client_ip (f e) = t_client_ip e
       ∧ t_mux (f e) = t_mux e ∧ t_connected_at (f e) = t_connected_at e.

(** The steps of the world; [expiry] tells whether tunnels expire or a SIGTERM
    comes. *)
Inductive step (expiry : bool) : World → World → Prop :=
| step_connect i ctx first w :
    sessions w !! i = None →
    step expiry w {| relay := relay w; sessions := <[i := (ctx, PEnter first)]> (sessions w) |}
| step_session i ctx io p w effs r s' :
    sessions w !! i = Some (ctx, p) → advance ctx io p (relay w) = (effs, r, s') →
    step expiry w
      {| relay := s';
         sessions := <[i := (ctx, match r with Ok p' => p' | Err _ => PFailed p end)]> (sessions w) |}
| step_entry r f w :
    keeps_identity f →
    step expiry w {| relay := update_entry r f (relay w); sessions := sessions w |}
| step_domains cd w :
    step expiry w {| relay := set_custom_domains cd (relay w); sessions := sessions w |}
| step_expire now max_age w :
    expiry = true →
    step expiry w {| relay := expire now max_age (relay w); sessions := sessions w |}
| step_shutdown w :
    expiry = true →
    step expiry w {| relay := shutdown (relay w); sessions := sessions w |}.

Definition world_new (rl : RateLimiter.RateLimiter) : World :=
  {| relay := relay_new rl; sessions := ∅ |}.

(** A connection on its own: sections in a row. *)
Fixpoint drive (n : nat) (ctx : ConnCtx) (io : conn_io) (p : pc) : M pc :=
  match n with
  | O => mret p
  | S n' => p' ← advance ctx io p; drive n' ctx io p'
  end.

(** ** The machine runs [handle_client] *)

Lemma bind_ret_l {A B} (a : A) (f : A → M B) s : (mret a ≫= f) s = f a s.
Proof. rewrite bind_run. cbn. by destruct (f a s) as [[w r] s']. Qed.

Lemma bind_assoc {A B C} (m : M A) (f : A → M B) (g : B → M C) s :
  ((m ≫= f) ≫= g) s = (m ≫= (λ a, f a ≫= g)) s.
Proof.
  rewrite !bind_run. destruct (m s) as [[w [a|e]] s1]; [|done].
  rewrite bind_run. destruct (f a s1) as [[w1 [b|e]] s2]; [|done].
  destruct (g b s2) as [[w2 r] s3]. by rewrite app_assoc.
Qed.

Lemma bind_ext {A B} (m : M A) (f g : A → M B) s :
  (∀ a s, f a s = g a s) → (m ≫= f) s = (m ≫= g) s.
Proof. intros E. rewrite !bind_run. destruct (m s) as [[w [a|e]] s1]; [|done]. by rewrite E. Qed.

(** The outcome of a run of the machine, read as [handle_client]'s. *)
Definition finished (m : M pc) : M (option unit) :=
  p ← m; mret (match p with PDone => Some tt | _ => None end).

Lemma finished_bind {A} (m : M A) (f : A → M pc) s :
  finished (m ≫= f) s = (m ≫= (λ a, finished (f a))) s.
Proof. apply bind_assoc. Qed.

Lemma finished_drive n ctx io p s :
  finished (drive (S n) ctx io p) s
  = (advance ctx io p ≫= λ p', finished (drive n ctx io p')) s.
Proof. apply finished_bind. Qed.

Lemma finished_done n ctx io s : finished (drive n ctx io PDone) s = ([], Ok (Some tt), s).
Proof.
  induction n as [|n IH]; [done|]. rewrite finished_drive. cbn [advance].
  by rewrite bind_ret_l.
Qed.

(** Flattens both sides of an equation between runs and descends. *)
Ltac flatten :=
  repeat (rewrite bind_assoc || rewrite bind_ret_l); try (apply bind_ext; intros).

Lemma run_http_close n ctx io sub r url t s :
  finished (drive (S n) ctx io (PHttpClose sub r url t)) s
  = (http_teardown ctx (io_end io) (io_now io) t sub r url;; mret (Some tt)) s.
Proof.
  rewrite finished_drive. cbn [advance]. flatten. flatten. by rewrite finished_done.
Qed.

Lemma run_http_open n ctx io sub r url s :
  is_Some (control_loop (tunnel_keepalive ctx) (io_events io)).2 →
  finished (drive (S (S n)) ctx io (PHttpOpen sub r url)) s
  = (let '(w, outcome) := control_loop (tunnel_keepalive ctx) (io_events io) in
     perform w;;
     match outcome with
     | Some timeout => http_teardown ctx (io_end io) (io_now io) timeout sub r url;; mret (Some tt)
     | None => mret None
     end) s.
Proof.
  intros [t Ht]. rewrite finished_drive. cbn [advance].
  destruct (control_loop _ _) as [w o]. cbn [snd] in Ht. subst o. flatten. flatten.
  by rewrite run_http_close.
Qed.

Lemma run_http n ctx io subdomain s :
  is_Some (control_loop (tunnel_keepalive ctx) (io_events io)).2 →
  finished (drive (S (S (S (S n)))) ctx io (PHttp subdomain)) s = serve_http ctx io subdomain s.
Proof.
  intros Hl. rewrite finished_drive. unfold serve_http, http_register. cbn [advance].
  flatten. flatten. flatten. flatten. rewrite finished_drive. cbn [advance].
  flatten. flatten. flatten. flatten. by rewrite run_http_open.
Qed.

(** [serve_tcp] from the bound port on. *)
Definition serve_bound (ctx : ConnCtx) (io : conn_io) (port : Z) : M (option unit) :=
  tcp_registered (io_written io) port (tcp_url (base_domain ctx) port);;
  perform (tcp_opened ctx (io_now io) port (tcp_url (base_domain ctx) port));;
  r ← tcp_insert ctx (io_mux io) port (io_now io) (io_instant io);
  let '(w, outcome) := control_loop (tunnel_keepalive ctx) (io_events io) in
  perform w;;
  match outcome with
  | Some timeout =>
    tcp_teardown ctx (io_end io) (io_now io) timeout port r (tcp_url (base_domain ctx) port);;
    mret (Some tt)
  | None => mret None
  end.

Lemma serve_tcp_bound ctx io port s :
  serve_tcp ctx io port s
  = (tcp_bind port (io_os_ok io) (io_draw io) ≫= serve_bound ctx io) s.
Proof.
  unfold serve_tcp, tcp_register, serve_bound. flatten. flatten. flatten. flatten.
  by rewrite ?bind_ret_l.
Qed.

Lemma run_tcp_close n ctx io port r url t s :
  finished (drive (S (S (S n))) ctx io (PTcpClose port r url t)) s
  = (tcp_teardown ctx (io_end io) (io_now io) t port r url;; mret (Some tt)) s.
Proof.
  rewrite finished_drive. unfold tcp_teardown. cbn [advance]. flatten.
  rewrite ?bind_ret_l, finished_drive. cbn [advance]. flatten.
  rewrite ?bind_ret_l, finished_drive. cbn [advance]. flatten. flatten. flatten. flatten.
  by rewrite finished_done.
Qed.

Lemma run_tcp_open n ctx io port r url s :
  is_Some (control_loop (tunnel_keepalive ctx) (io_events io)).2 →
  finished (drive (S (S (S (S n)))) ctx io (PTcpOpen port r url)) s
  = (let '(w, outcome) := control_loop (tunnel_keepalive ctx) (io_events io) in
     perform w;;
     match outcome with
     | Some timeout => tcp_teardown ctx (io_end io) (io_now io) timeout port r url;; mret (Some tt)
     | None => mret None
     end) s.
Proof.
  intros [t Ht]. rewrite finished_drive. cbn [advance].
  destruct (control_loop _ _) as [w o]. cbn [snd] in Ht. subst o. flatten. flatten.
  by rewrite run_tcp_close.
Qed.

Lemma run_tcp_record n ctx io port s :
  is_Some (control_loop (tunnel_keepalive ctx) (io_events io)).2 →
  finished (drive (7 + n) ctx io (PTcpRecord port)) s
  = (modify (record_port port);; serve_bound ctx io port) s.
Proof.
  intros Hl. change (7 + n)%nat with (S (S (S (S (S (S (S n))))))). rewrite finished_drive.
  unfold serve_bound. cbn [advance].
  flatten. rewrite ?bind_ret_l, finished_drive. cbn [advance]. flatten. flatten. flatten.
  rewrite ?bind_ret_l, finished_drive. cbn [advance]. flatten. flatten. by rewrite run_tcp_open.
Qed.

(** The tries of [bind_random_port], two sections each. *)
Lemma run_tcp_draw tries i n ctx io s :
  is_Some (control_loop (tunnel_keepalive ctx) (io_events io)).2 → (i + tries = 50)%nat →
  finished (drive (2 * tries + 8 + n) ctx io (PTcpDraw i)) s
  = (bind_random_port tries (io_os_ok io) (io_draw io) i ≫= serve_bound ctx io) s.
Proof.
  intros Hl. revert i n s. induction tries as [|t IH]; intros i n s Hi.
  - change (2 * 0 + 8 + n)%nat with (S (7 + n)). rewrite finished_drive. cbn [advance].
    by rewrite bool_decide_false by lia.
  - replace (2 * S t + 8 + n)%nat with (S (S (2 * t + 8 + n))) by lia.
    rewrite finished_drive. cbn [advance bind_random_port].
    rewrite bool_decide_true by lia. flatten. rewrite bind_ret_l. destruct a.
    + replace (S (2 * t + 8 + n)) with (2 * t + 8 + S n)%nat by lia. apply IH. lia.
    + rewrite finished_drive. cbn [advance]. flatten. rewrite bind_ret_l.
      destruct a; [|apply IH; lia].
      replace (2 * t + 8 + n)%nat with (7 + (2 * t + 1 + n))%nat by lia.
      rewrite run_tcp_record by done. flatten. by rewrite bind_ret_l.
Qed.

Lemma run_tcp n ctx io port s :
  is_Some (control_loop (tunnel_keepalive ctx) (io_events io)).2 →
  finished (drive (109 + n) ctx io (PTcp port)) s = serve_tcp ctx io port s.
Proof.
  intros Hl. rewrite serve_tcp_bound. unfold tcp_bind.
  change (109 + n)%nat with (S (108 + n)). rewrite finished_drive. cbn [advance].
  destruct (port =? 0).
  - rewrite bind_ret_l. by apply (run_tcp_draw 50).
  - flatten. destruct a; [|done]. rewrite bind_ret_l.
    change (108 + n)%nat with (7 + (101 + n))%nat. rewrite run_tcp_record by done.
    flatten. by rewrite bind_ret_l.
Qed.

(** The sections of the machine, one after the other with nothing in between,
    are [handle_client]: the same effects in the same order, the same answer
    and the same state, for every connection whose control loop ends. *)
Lemma machine_runs_handle_client ctx io s :
  is_Some (control_loop (tunnel_keepalive ctx) (io_events io)).2 →
  finished (drive 112 ctx io (PEnter (io_first io))) s = handle_client ctx io s.
Proof.
  intros Hl. unfold handle_client, admission. change 112%nat with (S (S (S (109 + 0)))).
  rewrite finished_drive. cbn [advance].
  flatten. flatten. rewrite finished_drive. cbn [advance]. flatten.
  rewrite ?bind_ret_l, finished_drive. cbn [advance]. flatten. rewrite !bind_ret_l.
  destruct a as [subdomain|port]; [by apply run_http|by apply run_tcp].
Qed.

End machine.

(** ** What a section does to the registry *)

(** The HTTP tunnel of a session that is registered, serving or closing. *)
Definition name_holder (p : pc) : option (str * nat) :=
  match p with
  | PHttpReg sub r _ | PHttpOpen sub r _ | PHttpClose sub r _ _ => Some (sub, r)
  | _ => None
  end.

(** The tunnel a session put into the registry and still has to remove; one
    that fails at writing its [Registered] frame never will. *)
Definition tunnel_of (p : pc) : option (str * nat) :=
  match p with
  | PHttpReg sub r _ | PHttpOpen sub r _ | PHttpClose sub r _ _
  | PFailed (PHttpReg sub r _) => Some (sub, r)
  | PTcpOpen port r _ | PTcpClose port r _ _ | PTcpRelease port r _ _
  | PTcpRemove port r _ _ => Some (tcp_key port, r)
  | _ => None
  end.

(** The port a session recorded and still has to release. *)
Definition port_of (p : pc) : option Z :=
  match p with
  | PTcpReg port _ | PTcpIns port _ | PTcpOpen port _ _ | PTcpClose port _ _ _
  | PTcpRelease port _ _ _ | PFailed (PTcpReg port _) => Some port
  | _ => None
  end.

(** The port a session has a listener on. *)
Definition listener_of (p : pc) : option Z :=
  match p with
  | PTcpRecord port | PTcpReg port _ | PTcpIns port _ | PTcpOpen port _ _
  | PTcpClose port _ _ _ => Some port
  | _ => None
  end.

Definition same_registry (s s' : Relay) : Prop :=
  heap s' = heap s ∧ tunnels s' = tunnels s ∧ tcp_ports s' = tcp_ports s ∧ bound s' = bound s.

(** Two places with the same possessions. *)
Definition same_holdings (p p' : pc) : Prop :=
  tunnel_of p' = tunnel_of p ∧ port_of p' = port_of p ∧ listener_of p' = listener_of p
  ∧ (name_holder p' = name_holder p ∨ name_holder p' = None).

(** Names of HTTP tunnels are made of letters, digits and [-]. *)
Definition http_key (k : str) : Prop := forallb name_char k = true.

Inductive registry_step : pc → Relay → pc → Relay → Prop :=
| rs_quiet p p' s s' :
    same_registry s s' → same_holdings p p' → registry_step p s p' s'
| rs_insert subdomain sub url e s :
    http_key sub → tunnels s !! sub = None → t_subdomain e = sub →
    registry_step (PHttp subdomain) s (PHttpReg sub (fresh_ref s) url)
      (with_tunnel sub (fresh_ref s) e s)
| rs_remove sub r url timeout s :
    registry_step (PHttpClose sub r url timeout) s PDone (remove_key sub s)
| rs_bind p port s :
    p = PTcp port ∨ (∃ i, p = PTcpTry i port) →
    registry_step p s (PTcpRecord port) (set_bound ({[port]} ∪ bound s) s)
| rs_record port url s :
    registry_step (PTcpRecord port) s (PTcpReg port url) (record_port port s)
| rs_unbind p p' port s :
    listener_of p = Some port → listener_of p' = None → tunnel_of p' = tunnel_of p →
    port_of p' = port_of p → name_holder p' = None →
    registry_step p s p' (tcp_drop_listener port s)
| rs_tcp_insert port url e s :
    t_subdomain e = tcp_key port →
    registry_step (PTcpIns port url) s (PTcpOpen port (fresh_ref s) url)
      (with_tunnel (tcp_key port) (fresh_ref s) e s)
| rs_release port r url timeout s :
    registry_step (PTcpRelease port r url timeout) s (PTcpRemove port r url timeout)
      (tcp_release_port port s)
| rs_tcp_remove port r url timeout s :
    registry_step (PTcpRemove port r url timeout) s PDone (remove_key (tcp_key port) s).

Section sections.
Context `{Unicode} `{ConstantTimeEq}.

Lemma same_registry_refl s : same_registry s s.
Proof. done. Qed.
Lemma same_registry_trans s1 s2 s3 :
  same_registry s1 s2 → same_registry s2 s3 → same_registry s1 s3.
Proof. intros (?&?&?&?) (?&?&?&?). unfold same_registry. split_and!; congruence. Qed.
#[local] Hint Resolve same_registry_refl : core.
#[local] Hint Extern 1 (same_holdings _ _) => (by split_and!; try done; auto) : core.

(** [m] leaves the registry alone. *)
Definition quiet_m {A} (m : M A) : Prop := ∀ s, same_registry s (m s).2.

Lemma quiet_ret {A} (a : A) : quiet_m (mret a).
Proof. done. Qed.
Lemma quiet_perform w : quiet_m (perform w).
Proof. done. Qed.
Lemma quiet_fail {A} e : quiet_m (fail (A := A) e).
Proof. done. Qed.
Lemma quiet_reading {A} (f : Relay → A) : quiet_m (reading f).
Proof. done. Qed.
Lemma quiet_bind {A B} (m : M A) (f : A → M B) :
  quiet_m m → (∀ a, quiet_m (f a)) → quiet_m (m ≫= f).
Proof.
  intros Hm Hf s. rewrite bind_run. specialize (Hm s).
  destruct (m s) as [[w [a|e]] s1]; [|done]. specialize (Hf a s1).
  destruct (f a s1) as [[w' r] s2]. by eapply same_registry_trans.
Qed.
Lemma quiet_reject {A} w code msg err : quiet_m (reject (A := A) w code msg err).
Proof. apply quiet_bind; [apply quiet_perform|intros; apply quiet_fail]. Qed.

Ltac quiet :=
  repeat first
    [ apply quiet_ret | apply quiet_perform | apply quiet_fail | apply quiet_reading
    | apply quiet_reject | apply quiet_bind; [|intros] | case_match ].

Lemma quiet_rate ctx instant : quiet_m (rate_stage ctx instant).
Proof.
  intros s. unfold rate_stage. destruct (RateLimiter.check_and_record _ _ _) as [ok rl].
  destruct ok; [done|]. by rewrite reject_run.
Qed.

Lemma quiet_enter ctx first now ms instant : quiet_m (enter ctx first now ms instant).
Proof.
  unfold enter, deny_stage, frame_stage, auth_stage.
  repeat first [apply quiet_rate | progress quiet].
Qed.

Lemma quiet_per_ip ctx : quiet_m (per_ip_stage ctx).
Proof. unfold per_ip_stage. quiet. Qed.
Lemma quiet_cap ctx : quiet_m (cap_stage ctx).
Proof. unfold cap_stage. quiet. Qed.
Lemma quiet_send ok url : quiet_m (send_registered ok url).
Proof. unfold send_registered. quiet. Qed.

Lemma http_key_tcp port : ¬ http_key (tcp_key port).
Proof. unfold http_key, tcp_key. simpl. done. Qed.

Lemma random_http_key draw n sub : random_subdomain_with_length draw n = Some sub → http_key sub.
Proof.
  unfold random_subdomain_with_length, http_key. intros H1. apply mapM_Some in H1.
  apply Is_true_true, forallb_True, Forall_forall. intros c Hc.
  apply list_elem_of_lookup in Hc as [i Hi].
  destruct (Forall2_lookup_r _ _ _ _ _ H1 Hi) as (j & _ & Hj).
  apply CHARS_name in Hj as [Hj _]. by rewrite Hj.
Qed.

Lemma validated_http_key sub : validate_subdomain sub = Ok tt → http_key sub.
Proof.
  unfold validate_subdomain, http_key. destruct (_ || _); [done|].
  destruct (forallb name_char sub); [done|]. done.
Qed.


Lemma quiet_run {A} (m : M A) s w r s' : quiet_m m → m s = (w, r, s') → same_registry s s'.
Proof. intros Hm E. specialize (Hm s). by rewrite E in Hm. Qed.

(** Once the state is settled, a section that only has effects left. *)
Ltac settle E :=
  rewrite ?bind_run in E; cbv beta zeta iota in E.

Lemma advance_http ctx io subdomain s w r s' :
  advance ctx io (PHttp subdomain) s = (w, r, s') →
  registry_step (PHttp subdomain) s
    (match r with Ok p' => p' | Err _ => PFailed (PHttp subdomain) end) s'.
Proof.
  cbn [advance]. rewrite bind_run.
  pose proof (http_validate_run ctx subdomain s) as HV.
  destruct (http_validate ctx subdomain s) as [[wv [[]|ev]] sv].
  2:{ destruct HV as (-> & _). intros [= <- <- <-]. apply rs_quiet; auto. }
  destruct HV as (-> & _ & _ & HV). rewrite bind_run.
  destruct (http_name ctx (io_draw io) subdomain s) as [[wn [sub|en]] sn] eqn:En.
  - assert (sn = s ∧ http_key sub) as [-> Hkey].
    { unfold http_name in En. destruct subdomain as [name|].
      - injection En as <- <- <-. split; [done|]. destruct HV as [HV _].
        by apply validated_http_key.
      - destruct (random_subdomain_with_length _ _) eqn:Er; [|done]. injection En as <- <- <-.
        split; [done|]. by eapply random_http_key. }
    rewrite bind_run, http_insert_run. destruct (tunnels s !! sub) eqn:Et.
    + intros [= <- <- <-]. apply rs_quiet; auto.
    + cbn -[with_tunnel http_url]. intros [= <- <- <-]. by apply rs_insert.
  - assert (sn = s) as ->.
    { unfold http_name in En. destruct subdomain; [discriminate|].
      destruct (random_subdomain_with_length _ _); [discriminate|]. by injection En. }
    intros [= <- <- <-]. apply rs_quiet; auto.
Qed.

(** Every section is a step of the registry. *)
Lemma advance_registry ctx io p s w r s' :
  advance ctx io p s = (w, r, s') →
  registry_step p s (match r with Ok p' => p' | Err _ => PFailed p end) s'.
Proof.
  destruct p; intros E; try (by apply advance_http with (1 := E)); cbn [advance] in E.
  - (* PEnter *)
    rewrite bind_run in E. pose proof (quiet_enter ctx first (io_now io) (io_handshake_ms io)
      (io_instant io) s) as Q. destruct (enter _ _ _ _ _ s) as [[w0 [k|e]] s0];
      injection E as <- <- <-; apply rs_quiet; auto.
  - (* PPerIp *)
    rewrite bind_run in E. pose proof (quiet_per_ip ctx s) as Q.
    destruct (per_ip_stage ctx s) as [[w0 [[]|e]] s0]; injection E as <- <- <-; apply rs_quiet; auto.
  - (* PCap *)
    rewrite bind_run in E. pose proof (quiet_cap ctx s) as Q.
    destruct (cap_stage ctx s) as [[w0 [[]|e]] s0]; injection E as <- <- <-;
      apply rs_quiet; auto; destruct kind; auto.
  - (* PHttpReg *)
    rewrite bind_run in E. pose proof (quiet_send (io_written io) url s) as Q.
    destruct (send_registered _ _ s) as [[w0 [[]|e]] s0]; injection E as <- <- <-;
      apply rs_quiet; auto.
  - (* PHttpOpen *)
    destruct (control_loop _ _) as [w0 [t|]]; injection E as <- <- <-; apply rs_quiet; auto.
  - (* PHttpClose *)
    injection E as <- <- <-. apply rs_remove.
  - (* PTcp *)
    destruct (requested =? 0); [injection E as <- <- <-; apply rs_quiet; auto|].
    rewrite bind_run in E. unfold os_bind in E.
    destruct (io_os_ok io (bound s) requested); injection E as <- <- <-;
      [apply rs_bind; by left|apply rs_quiet; auto].
  - (* PTcpDraw *)
    case_bool_decide; [|injection E as <- <- <-; apply rs_quiet; auto].
    injection E as <- <- <-. apply rs_quiet; [done|]. case_bool_decide; auto.
  - (* PTcpTry *)
    rewrite bind_run in E. unfold os_bind in E.
    destruct (io_os_ok io (bound s) port); injection E as <- <- <-;
      [apply rs_bind; right; by eexists|apply rs_quiet; auto].
  - (* PTcpRecord *) injection E as <- <- <-. apply rs_record.
  - (* PTcpReg *)
    unfold tcp_registered in E. destruct (io_written io).
    + injection E as <- <- <-. apply rs_quiet; auto.
    + injection E as <- <- <-. by apply rs_unbind with (port := port).
  - (* PTcpIns *) injection E as <- <- <-. by apply rs_tcp_insert.
  - (* PTcpOpen *)
    destruct (control_loop _ _) as [w0 [t|]]; injection E as <- <- <-; apply rs_quiet; auto.
  - (* PTcpClose *) injection E as <- <- <-. by apply rs_unbind with (port := port).
  - (* PTcpRelease *) injection E as <- <- <-. apply rs_release.
  - (* PTcpRemove *) injection E as <- <- <-. apply rs_tcp_remove.
  - (* PDone *) injection E as <- <- <-. apply rs_quiet; auto.
  - (* PFailed *) injection E as <- <- <-. apply rs_quiet; auto.
Qed.
End sections.

(** ** Steps of other tasks *)

(** Tunnels may leave, entries keep whom they belong to, listeners stay. *)
Definition evolves (s s' : Relay) : Prop :=
  tunnels s' ⊆ tunnels s ∧ bound s' = bound s ∧ tcp_ports s' = tcp_ports s
  ∧ ∀ r e, heap s !! r = Some e → ∃ e', heap s' !! r = Some e' ∧ t_subdomain e' = t_subdomain e.

Lemma evolves_refl s : evolves s s.
Proof. split_and!; [done..|]. intros r e He. by exists e. Qed.

Lemma evolves_trans s1 s2 s3 : evolves s1 s2 → evolves s2 s3 → evolves s1 s3.
Proof.
  intros (Ht & Hb & Hp & Hh) (Ht' & Hb' & Hp' & Hh'). split_and!; [by etrans|congruence..|].
  intros r e He. destruct (Hh r e He) as (e1 & He1 & E1).
  destruct (Hh' r e1 He1) as (e2 & He2 & E2). exists e2. split; [done|congruence].
Qed.

Lemma evolves_update s r f : keeps_identity f → evolves s (update_entry r f s).
Proof.
  intros Hf. split_and!; [done..|]. intros r' e He.
  destruct (decide (r = r')) as [->|Hne].
  - exists (f e). rewrite heap_update, He. split; [done|]. apply (Hf e).
  - exists e. by rewrite heap_update_ne.
Qed.

Lemma evolves_shrink s m : m ⊆ tunnels s → evolves s (set_tunnels m s).
Proof. intros. split_and!; [done..|]. intros r e He. by exists e. Qed.

Lemma keeps_disconnect : keeps_identity disconnect.
Proof. done. Qed.

Lemma evolves_expire now max_age s : evolves s (expire now max_age s).
Proof.
  unfold expire. generalize (filter (is_expired s now max_age) (map_to_list (tunnels s))) as l.
  intros l. revert s. induction l as [|[k r] l IH]; intros s; [apply evolves_refl|].
  cbn [foldl]. eapply evolves_trans; [|apply IH].
  eapply evolves_trans; [apply (evolves_update s r disconnect keeps_disconnect)|].
  apply evolves_shrink. apply delete_subseteq.
Qed.

Lemma evolves_shutdown s : evolves s (shutdown s).
Proof.
  unfold shutdown. eapply evolves_trans; [|apply evolves_shrink, map_empty_subseteq].
  generalize (map_to_list (tunnels s)) as l. intros l. revert s.
  induction l as [|[k r] l IH]; intros s; [apply evolves_refl|]. cbn [foldl].
  eapply evolves_trans; [|apply IH]. by apply evolves_update.
Qed.

(** ** The invariant *)

Record inv (w : World) : Prop := {
  (** A key leads to an entry of that name. *)
  inv_keys k r : tunnels (relay w) !! k = Some r →
    ∃ e, heap (relay w) !! r = Some e ∧ t_subdomain e = k;
  (** HTTP names and TCP keys cannot be taken for one another. *)
  inv_shape k r : tunnels (relay w) !! k = Some r → http_key k ∨ ∃ port, k = tcp_key port;
  (** A session's entry has the session's name. *)
  inv_names i ctx p sub r :
    sessions w !! i = Some (ctx, p) → name_holder p = Some (sub, r) →
    http_key sub ∧ ∃ e, heap (relay w) !! r = Some e ∧ t_subdomain e = sub;
}.

(** What satisfies [X] is owned, in the sense of [h], by some session. *)
Definition owned {A} (h : pc → option A) (X : A → Prop) (w : World) : Prop :=
  ∀ x, X x → ∃ i ctx p, sessions w !! i = Some (ctx, p) ∧ h p = Some x.

(** Everything in the registry, on record or listening has an owner. *)
Definition accounted (w : World) : Prop :=
  owned tunnel_of (λ kr, tunnels (relay w) !! kr.1 = Some kr.2) w
  ∧ owned port_of (λ port, port ∈ tcp_ports (relay w)) w
  ∧ owned listener_of (λ port, port ∈ bound (relay w)) w.

Lemma inv_new rl : inv (world_new rl).
Proof. split; intros *; cbn; rewrite ?lookup_empty; done. Qed.

Lemma inv_evolves w s' :
  inv w → evolves (relay w) s' → inv {| relay := s'; sessions := sessions w |}.
Proof.
  intros [Hk Hs Hn] (Ht & _ & _ & Hh). split; cbn [relay sessions].
  - intros k r Hkr. eapply lookup_weaken in Hkr; [|exact Ht].
    destruct (Hk k r Hkr) as (e & Her & <-). apply (Hh r e Her).
  - intros k r Hkr. eapply lookup_weaken in Hkr; [|exact Ht]. by eapply Hs.
  - intros i ctx p sub r Hi Hp. destruct (Hn i ctx p sub r Hi Hp) as (Hsub & e & Her & <-).
    split; [done|]. apply (Hh r e Her).
Qed.

Lemma accounted_evolves w s' :
  accounted w → evolves (relay w) s' → accounted {| relay := s'; sessions := sessions w |}.
Proof.
  intros (HT & HP & HL) (Ht & Hb & Hp & _). unfold accounted. cbn [relay]. rewrite Hb, Hp.
  split_and!; [|exact HP|exact HL]. intros [k r] Hkr. apply (HT (k, r)). cbn in *.
  by eapply lookup_weaken.
Qed.

Section invariant.
Implicit Types (s : Relay) (w : World).

(** The sessions after a step of session [i]. *)
Lemma session_cases w i ctx p' j c q :
  <[i := (ctx, p')]> (sessions w) !! j = Some (c, q) →
  (j = i ∧ c = ctx ∧ q = p') ∨ (j ≠ i ∧ sessions w !! j = Some (c, q)).
Proof.
  destruct (decide (j = i)) as [->|Hne].
  - rewrite lookup_insert_eq. intros [= <- <-]. by left.
  - rewrite lookup_insert_ne by done. by right.
Qed.

Lemma with_tunnel_heap key r e s r' :
  heap (with_tunnel key r e s) !! r' = if bool_decide (r' = r) then Some e else heap s !! r'.
Proof.
  unfold with_tunnel. cbn. case_bool_decide as E.
  - subst. apply lookup_insert_eq.
  - by apply lookup_insert_ne.
Qed.

Lemma with_tunnel_lookup key r e s k :
  tunnels (with_tunnel key r e s) !! k
  = if bool_decide (k = key) then Some r else tunnels s !! k.
Proof.
  rewrite tunnels_with_tunnel. case_bool_decide as E.
  - subst. apply lookup_insert_eq.
  - by apply lookup_insert_ne.
Qed.

Lemma inv_same w i ctx p p' s' :
  inv w → sessions w !! i = Some (ctx, p) →
  tunnels s' ⊆ tunnels (relay w) → heap s' = heap (relay w) →
  name_holder p' = name_holder p ∨ name_holder p' = None →
  inv {| relay := s'; sessions := <[i := (ctx, p')]> (sessions w) |}.
Proof.
  intros [Hk Hs Hn] Hi Ht Hh Hname. split; cbn [relay sessions].
  - intros k r Hkr. rewrite Hh. eapply Hk, lookup_weaken; eauto.
  - intros k r Hkr. eapply Hs, lookup_weaken; eauto.
  - intros j c q sub r. intros [(-> & -> & ->)|[Hne Hj]]%session_cases.
    + rewrite Hh. intros Hp'. destruct Hname as [E|E]; [|congruence]. rewrite E in Hp'. by eapply Hn.
    + rewrite Hh. by eapply Hn.
Qed.

Lemma inv_insert w i ctx p p' key e :
  inv w → sessions w !! i = Some (ctx, p) →
  t_subdomain e = key → http_key key ∨ (∃ port, key = tcp_key port) →
  name_holder p' = None ∨ (name_holder p' = Some (key, fresh_ref (relay w)) ∧ http_key key) →
  inv {| relay := with_tunnel key (fresh_ref (relay w)) e (relay w);
         sessions := <[i := (ctx, p')]> (sessions w) |}.
Proof.
  intros [Hk Hs Hn] Hi Hsub Hshape Hname.
  set (r0 := fresh_ref (relay w)) in *.
  assert (Hfresh : heap (relay w) !! r0 = None) by apply fresh_ref_lookup.
  assert (Hold : ∀ r e0, heap (relay w) !! r = Some e0 →
                         heap (with_tunnel key r0 e (relay w)) !! r = Some e0).
  { intros r e0 Hr. rewrite with_tunnel_heap, bool_decide_false; [done|]. congruence. }
  split; cbn [relay sessions].
  - intros k r. rewrite with_tunnel_lookup. case_bool_decide as E.
    + intros [= <-]. exists e. rewrite with_tunnel_heap, bool_decide_true by done. by subst.
    + intros Hkr. destruct (Hk k r Hkr) as (e0 & Her & He0). exists e0. split; [by apply Hold|done].
  - intros k r. rewrite with_tunnel_lookup. case_bool_decide as E; [by subst|]. apply Hs.
  - intros j c q sub r. intros [(-> & -> & ->)|[Hne Hj]]%session_cases.
    + intros Hp'. destruct Hname as [E|[E Hkey]]; [congruence|]. rewrite E in Hp'.
      injection Hp' as <- <-. split; [done|]. exists e.
      by rewrite with_tunnel_heap, bool_decide_true.
    + intros Hq. destruct (Hn j c q sub r Hj Hq) as (Hs' & e0 & Her & He0).
      split; [done|]. exists e0. split; [by apply Hold|done].
Qed.

(** One session moves from [p] to [p']; what it no longer owns is gone, what is
    new is its own. *)
Lemma owned_move {A} (h : pc → option A) (X X' : A → Prop) w i ctx p p' s' :
  sessions w !! i = Some (ctx, p) → owned h X w →
  (∀ x, X' x → (X x ∧ h p ≠ Some x) ∨ h p' = Some x) →
  owned h X' {| relay := s'; sessions := <[i := (ctx, p')]> (sessions w) |}.
Proof.
  intros Hi HO HX x Hx. destruct (HX x Hx) as [[Hx' Hp]|Hp].
  - destruct (HO x Hx') as (j & c & q & Hj & Hq). exists j, c, q. split; [|done].
    cbn [sessions]. rewrite lookup_insert_ne; [done|]. intros <-. congruence.
  - exists i, ctx, p'. split; [|done]. cbn [sessions]. apply lookup_insert_eq.
Qed.

Lemma owned_connect {A} (h : pc → option A) (X : A → Prop) w i ctx p s' :
  sessions w !! i = None → owned h X w →
  owned h X {| relay := s'; sessions := <[i := (ctx, p)]> (sessions w) |}.
Proof.
  intros Hi HO x Hx. destruct (HO x Hx) as (j & c & q & Hj & Hq). exists j, c, q.
  split; [|done]. cbn [sessions]. rewrite lookup_insert_ne; [done|]. congruence.
Qed.

(** No section loses what it owns or takes what is another's. *)
Lemma registry_step_owns p s p' s' :
  registry_step p s p' s' →
  (∀ kr, tunnels s' !! kr.1 = Some kr.2 →
         (tunnels s !! kr.1 = Some kr.2 ∧ tunnel_of p ≠ Some kr) ∨ tunnel_of p' = Some kr)
  ∧ (∀ port, port ∈ tcp_ports s' → (port ∈ tcp_ports s ∧ port_of p ≠ Some port)
                                   ∨ port_of p' = Some port)
  ∧ (∀ port, port ∈ bound s' → (port ∈ bound s ∧ listener_of p ≠ Some port)
                               ∨ listener_of p' = Some port).
Proof.
  assert (HK : ∀ {A} `{EqDecision A} (h : pc → option A) (P : Prop) q q' x,
             h q' = h q → P → (P ∧ h q ≠ Some x) ∨ h q' = Some x).
  { intros A ? h P q q' x E Hx. destruct (decide (h q = Some x)); [right; congruence|by left]. }
  destruct 1 as [p p' s s' (Hh & Ht & Hp & Hb) (E1 & E2 & E3 & _)|subdomain sub url e s Hkey Hfree Hsub
    |sub r url t s|p port s Hp|port url s|p p' port s Hl Hl' Et Ep Hn|port url e s Hsub
    |port r url t s|port r url t s].
  - rewrite Ht, Hp, Hb. split_and!; intros x Hx; by apply (HK _ _).
  - split_and!; [|by left..]. intros [k r]. rewrite with_tunnel_lookup. cbn [fst snd].
    case_bool_decide as E; [intros [= <-]; right; by subst|by left].
  - split_and!; [|by left..]. intros [k r'] Hk. cbn in Hk. apply lookup_delete_Some in Hk as (Hne & Hk).
    left. cbn. split; [done|congruence].
  - assert (E : tunnel_of p = None ∧ port_of p = None ∧ listener_of p = None)
      by (destruct Hp as [->|[i ->]]; done).
    destruct E as (-> & -> & ->). split_and!; [by left..|]. cbn. set_solver.
  - split_and!; [by left|cbn; set_solver|]. intros x Hx. by apply (HK _ _).
  - rewrite Et, Ep, Hl, Hl'. split_and!; cbn.
    + intros kr Hk. destruct (decide (tunnel_of p = Some kr)); [by right|by left].
    + intros x Hx. destruct (decide (port_of p = Some x)); [by right|by left].
    + intros x Hx. left. set_solver.
  - split_and!; [|by intros; apply (HK _ _)..]. intros [k r]. rewrite with_tunnel_lookup. cbn [fst snd].
    case_bool_decide as E; [intros [= <-]; right; by subst|by left].
  - split_and!; [by intros; apply (HK _ _)| |by left]. cbn. intros x Hx. left. set_solver.
  - split_and!; [|by left..]. intros [k r'] Hk. cbn in Hk. apply lookup_delete_Some in Hk as (Hne & Hk).
    left. cbn. split; [done|congruence].
Qed.

Lemma accounted_session w i ctx p p' s' :
  accounted w → sessions w !! i = Some (ctx, p) → registry_step p (relay w) p' s' →
  accounted {| relay := s'; sessions := <[i := (ctx, p')]> (sessions w) |}.
Proof.
  intros (HT & HP & HL) Hi Hr. destruct (registry_step_owns _ _ _ _ Hr) as (ET & EP & EL).
  split_and!; (eapply owned_move; [exact Hi|done|done]).
Qed.
End invariant.

Section reachable.
Context `{Unicode} `{ConstantTimeEq}.

Lemma inv_session w i ctx p p' s' :
  inv w → sessions w !! i = Some (ctx, p) → registry_step p (relay w) p' s' →
  inv {| relay := s'; sessions := <[i := (ctx, p')]> (sessions w) |}.
Proof.
  intros I Hi Hr. remember (relay w) as s eqn:Es. revert Es.
  destruct Hr as [p p' s s' (Hh & Ht & Hp & Hb) (_ & _ & _ & Hn)|subdomain sub url e s Hkey Hfree Hsub
    |sub r url t s|p port s Hp|port url s|p p' port s Hl Hl' Et Ep Hn|port url e s Hsub
    |port r url t s|port r url t s]; intros ->.
  - eapply inv_same; [done|done|by rewrite Ht|done|done].
  - eapply inv_insert; [done|done|done|by left|right; done].
  - eapply inv_same; [done|done|apply delete_subseteq|done|by right].
  - eapply inv_same; [done|done|done|done|by right].
  - eapply inv_same; [done|done|done|done|by right].
  - eapply inv_same; [done|done|done|done|by right].
  - eapply inv_insert; [done|done|done|right; by eexists|by left].
  - eapply inv_same; [done|done|done|done|by right].
  - eapply inv_same; [done|done|apply delete_subseteq|done|by right].
Qed.

Lemma inv_step expiry w w' : step expiry w w' → inv w ∧ accounted w → inv w' ∧ accounted w'.
Proof.
  destruct 1 as [i ctx first w Hi|i ctx io p w effs r s' Hi E|r f w Hf|cd w|now max_age w _|w _];
    intros [I A].
  - split; [|destruct A as (?&?&?); split_and!; by apply owned_connect].
    destruct I as [Hk Hs Hn]. split; cbn [relay sessions]; [done|done|].
    intros j c q sub r Hj. apply session_cases in Hj as [(-> & -> & ->)|[Hne Hj]]; [done|].
    by eapply Hn.
  - apply advance_registry in E. split; [by eapply inv_session|by eapply accounted_session].
  - assert (V := evolves_update (relay w) r f Hf). split; [by apply inv_evolves|by apply accounted_evolves].
  - assert (V : evolves (relay w) (set_custom_domains cd (relay w)))
      by (split_and!; [done..|]; intros r e He; by exists e).
    split; [by apply inv_evolves|by apply accounted_evolves].
  - assert (V := evolves_expire now max_age (relay w)).
    split; [by apply inv_evolves|by apply accounted_evolves].
  - assert (V := evolves_shutdown (relay w)).
    split; [by apply inv_evolves|by apply accounted_evolves].
Qed.

Lemma inv_reachable expiry rl w :
  rtc (step expiry) (world_new rl) w → inv w ∧ accounted w.
Proof.
  intros R. assert (I : inv (world_new rl) ∧ accounted (world_new rl)).
  { split; [apply inv_new|]. split_and!; intros x Hx; exfalso; cbn in Hx.
    - by rewrite lookup_empty in Hx.
    - set_solver.
    - set_solver. }
  revert I. induction R; [done|]. eauto using inv_step.
Qed.

(** C4: The registry is well formed in every reachable state, however the
    clients, the expiry task, a SIGTERM and the other tasks interleave: every
    key leads to an entry of that very name, and a key is either an HTTP name
    ([A-Z], [a-z], [0-9] and [-]) or the key of a TCP port, never both. *)
Theorem registry_well_formed expiry rl w k r :
  rtc (step expiry) (world_new rl) w →
  tunnels (relay w) !! k = Some r →
  (∃ e, heap (relay w) !! r = Some e ∧ t_subdomain e = k)
  ∧ ((http_key k ∧ ∀ port, k ≠ tcp_key port) ∨ (¬ http_key k ∧ ∃ port, k = tcp_key port)).
Proof.
  intros R Hk. destruct (inv_reachable _ _ _ R) as [I _]. split; [by eapply inv_keys|].
  destruct (inv_shape _ I k r Hk) as [Hkey|[port ->]].
  - left. split; [done|]. intros port ->. by apply http_key_tcp in Hkey.
  - right. split; [apply http_key_tcp|by eexists].
Qed.

(** C5: Nothing is left behind.  However clients, tries of automatic ports,
    expiry, SIGTERM and the other tasks interleave: every tunnel in the registry
    and every TCP port on record belongs to a session that still has to remove
    it, or to one that ended because its [Registered] frame could not be
    written, and every listener belongs to a session that is still running.
    So once every session has ended, and none of them at that frame, registry,
    ports and listeners are empty. *)
Theorem nothing_left_behind expiry rl w :
  rtc (step expiry) (world_new rl) w →
  (∀ k r, tunnels (relay w) !! k = Some r →
     ∃ i ctx p, sessions w !! i = Some (ctx, p) ∧ tunnel_of p = Some (k, r))
  ∧ (∀ port, port ∈ tcp_ports (relay w) →
     ∃ i ctx p, sessions w !! i = Some (ctx, p) ∧ port_of p = Some port)
  ∧ (∀ port, port ∈ bound (relay w) →
     ∃ i ctx p, sessions w !! i = Some (ctx, p) ∧ listener_of p = Some port)
  ∧ ((∀ i ctx p, sessions w !! i = Some (ctx, p) →
        p = PDone ∨ ∃ q, p = PFailed q ∧ (∀ sub r url, q ≠ PHttpReg sub r url)
                                       ∧ (∀ port url, q ≠ PTcpReg port url)) →
     tunnels (relay w) = ∅ ∧ tcp_ports (relay w) = ∅ ∧ bound (relay w) = ∅).
Proof.
  intros R. destruct (inv_reachable _ _ _ R) as [_ (HT & HP & HL)].
  split; [intros k r Hk; by apply (HT (k, r))|]. split; [done|]. split; [done|].
  intros Hend. assert (Hnone : ∀ i ctx p, sessions w !! i = Some (ctx, p) →
    tunnel_of p = None ∧ port_of p = None ∧ listener_of p = None).
  { intros i ctx p Hi. destruct (Hend i ctx p Hi) as [->|(q & -> & H1 & H2)]; [done|].
    destruct q; try done; [by destruct (H1 sub r url)|by destruct (H2 port url)]. }
  split_and!.
  - apply map_empty. intros k. destruct (tunnels (relay w) !! k) as [r|] eqn:Hk; [|done].
    destruct (HT (k, r) Hk) as (i & ctx & p & Hi & Hp). by destruct (Hnone i ctx p Hi) as (? & _); simplify_eq.
  - apply set_eq. intros port. split; [|set_solver]. intros Hin.
    destruct (HP port Hin) as (i & ctx & p & Hi & Hp). by destruct (Hnone i ctx p Hi) as (_ & ? & _); simplify_eq.
  - apply set_eq. intros port. split; [|set_solver]. intros Hin.
    destruct (HL port Hin) as (i & ctx & p & Hi & Hp). by destruct (Hnone i ctx p Hi) as (_ & _ & ?); simplify_eq.
Qed.

(** ** Without expiry, names are exclusive *)

(** Every session that holds a name is the one the registry knows. *)
Definition names_current (w : World) : Prop := ∀ i ctx p sub r,
  sessions w !! i = Some (ctx, p) → name_holder p = Some (sub, r) →
  tunnels (relay w) !! sub = Some r.

Definition names_distinct (w : World) : Prop := ∀ i j ctx ctx' p p' sub r r',
  sessions w !! i = Some (ctx, p) → sessions w !! j = Some (ctx', p') →
  name_holder p = Some (sub, r) → name_holder p' = Some (sub, r') → i = j.

(** A session's new place in the code holds no name, or the one it held. *)
Definition keeps_holder (w : World) (i : nat) (ctx : ConnCtx) (p1 : pc) : Prop :=
  name_holder p1 = None ∨ ∃ p, sessions w !! i = Some (ctx, p) ∧ name_holder p1 = name_holder p.

Lemma held_before w i ctx p1 j c q x :
  keeps_holder w i ctx p1 → <[i := (ctx, p1)]> (sessions w) !! j = Some (c, q) → name_holder q = Some x →
  ∃ q', sessions w !! j = Some (c, q') ∧ name_holder q' = Some x.
Proof.
  intros Hk Hj Hq. apply session_cases in Hj as [(-> & -> & ->)|[Hne Hj]]; [|eauto].
  destruct Hk as [Hn|(p & Hp & Hn)]; [congruence|]. exists p. split; [done|congruence].
Qed.

Lemma distinct_kept w i ctx p1 s' :
  names_distinct w → keeps_holder w i ctx p1 →
  names_distinct {| relay := s'; sessions := <[i := (ctx, p1)]> (sessions w) |}.
Proof.
  intros HD Hk j1 j2 c1 c2 q1 q2 sub r r' H1 H2 P1 P2. cbn [sessions] in *.
  destruct (held_before _ _ _ _ _ _ _ _ Hk H1 P1) as (q1' & H1' & P1').
  destruct (held_before _ _ _ _ _ _ _ _ Hk H2 P2) as (q2' & H2' & P2'). by eapply HD.
Qed.

Lemma current_kept w i ctx p1 s' :
  names_current w → keeps_holder w i ctx p1 → tunnels s' = tunnels (relay w) →
  names_current {| relay := s'; sessions := <[i := (ctx, p1)]> (sessions w) |}.
Proof.
  intros HC Hk Ht j c q sub r Hj Hq. cbn [relay sessions] in *. rewrite Ht.
  destruct (held_before _ _ _ _ _ _ _ _ Hk Hj Hq) as (q' & Hj' & Hq'). by eapply HC.
Qed.

(** A section that changes no key another session holds. *)
Lemma names_moved w i ctx p1 s' :
  names_current w ∧ names_distinct w → name_holder p1 = None →
  (∀ j c q sub r, j ≠ i → sessions w !! j = Some (c, q) → name_holder q = Some (sub, r) →
     tunnels s' !! sub = tunnels (relay w) !! sub) →
  let w' := {| relay := s'; sessions := <[i := (ctx, p1)]> (sessions w) |} in
  names_current w' ∧ names_distinct w'.
Proof.
  intros [HC HD] Hn Hsame. split; [|apply distinct_kept; [done|by left]].
  intros j c q sub r Hj Hq. cbn [relay sessions] in *.
  apply session_cases in Hj as [(-> & -> & ->)|[Hne Hj]]; [congruence|].
  rewrite (Hsame j c q sub r) by done. by eapply HC.
Qed.

(** A section that registers a free name. *)
Lemma names_added w i ctx p1 sub r e :
  names_current w ∧ names_distinct w → name_holder p1 = Some (sub, r) →
  tunnels (relay w) !! sub = None →
  let w' := {| relay := with_tunnel sub r e (relay w);
               sessions := <[i := (ctx, p1)]> (sessions w) |} in
  names_current w' ∧ names_distinct w'.
Proof.
  intros [HC HD] Hn Hfree. split.
  - intros j c q sub' r' Hj Hq. cbn [relay sessions] in *. rewrite with_tunnel_lookup.
    apply session_cases in Hj as [(-> & -> & ->)|[Hne Hj]].
    + rewrite Hn in Hq. injection Hq as <- <-. by rewrite bool_decide_true.
    + rewrite bool_decide_false; [by eapply HC|]. intros ->.
      by rewrite (HC j c q sub r' Hj Hq) in Hfree.
  - intros j1 j2 c1 c2 q1 q2 sub' r1 r2 H1 H2 P1 P2. cbn [sessions] in *.
    apply session_cases in H1 as [(-> & -> & ->)|[N1 H1]],
      H2 as [(-> & -> & ->)|[N2 H2]]; [done| | |by eapply HD]; exfalso.
    + rewrite Hn in P1. injection P1 as <- <-. by rewrite (HC _ _ _ _ _ H2 P2) in Hfree.
    + rewrite Hn in P2. injection P2 as <- <-. by rewrite (HC _ _ _ _ _ H1 P1) in Hfree.
Qed.

Lemma names_step w w' :
  step false w w' → inv w → names_current w ∧ names_distinct w →
  names_current w' ∧ names_distinct w'.
Proof.
  destruct 1 as [i ctx first w Hi|i ctx io p w effs r s' Hi E|r f w Hf|cd w|? ? ? [=]|? [=]];
    intros I N; [by apply names_moved| |done|done].
  apply advance_registry in E. remember (relay w) as s eqn:Es.
  remember (match r with Ok p' => p' | Err _ => PFailed p end) as p1 eqn:Ep. clear Ep r effs.
  assert (Hquiet : tunnels s' = tunnels s → keeps_holder w i ctx p1 →
    names_current {| relay := s'; sessions := <[i := (ctx, p1)]> (sessions w) |}
    ∧ names_distinct {| relay := s'; sessions := <[i := (ctx, p1)]> (sessions w) |}).
  { destruct N as [HC HD]. intros Ht Hk.
    split; [by apply (current_kept w); [..|by rewrite <-Es]|by apply distinct_kept]. }
  destruct E as [p p' s s' (Hh & Ht & Hp & Hb) (_ & _ & _ & Hn)|subdomain sub url e s Hkey Hfree Hsub
    |sub r url t s|p port s Hp|port url s|p p' port s Hl Hl' Et Ep Hn|port url e s Hsub
    |port r url t s|port r url t s]; subst s.
  - apply Hquiet; [done|]. destruct Hn as [Hn|Hn]; [right; by exists p|by left].
  - by apply names_added.
  - (* a name goes: it is no other session's *)
    apply names_moved; [done..|]. intros j c q sub' r' Hne Hj Hq. cbn.
    apply lookup_delete_ne. intros <-. apply Hne. by eapply (proj2 N j i).
  - apply Hquiet; [done|by left].
  - apply Hquiet; [done|by left].
  - apply Hquiet; [done|by left].
  - (* a TCP key comes: no session holds it as a name *)
    apply names_moved; [done..|]. intros j c q sub' r' Hne Hj Hq. rewrite with_tunnel_lookup.
    rewrite bool_decide_false; [done|]. intros ->.
    destruct (inv_names _ I j c q _ r' Hj Hq) as [Hkey _]. by apply http_key_tcp in Hkey.
  - apply Hquiet; [done|by left].
  - (* a TCP key goes *)
    apply names_moved; [done..|]. intros j c q sub' r' Hne Hj Hq. cbn.
    apply lookup_delete_ne. intros E.
    destruct (inv_names _ I j c q sub' r' Hj Hq) as [Hkey _]. rewrite <-E in Hkey.
    by apply http_key_tcp in Hkey.
Qed.

Lemma names_reachable rl w :
  rtc (step false) (world_new rl) w → names_current w ∧ names_distinct w.
Proof.
  intros R.
  assert (I : (inv (world_new rl) ∧ accounted (world_new rl))
              ∧ names_current (world_new rl) ∧ names_distinct (world_new rl)).
  { split; [by apply (inv_reachable false rl)|]. split; intros ?*; cbn; by rewrite lookup_empty. }
  revert I. induction R as [|w1 w2 w3 Hs R IH]; [by intros [_ ?]|].
  intros (I & N). apply IH. split; [by eapply inv_step|]. by eapply names_step; [|apply I|].
Qed.

(** C6: As long as no tunnel expires and no SIGTERM comes, subdomains are
    exclusive: in every reachable state two HTTP sessions that are registered, serving or closing
    have different names, and the registry leads each name to the session's
    own entry; so the teardown of a session removes its own tunnel. *)
Theorem http_names_exclusive rl w :
  rtc (step false) (world_new rl) w →
  (∀ i j ctx ctx' p p' sub r r',
     sessions w !! i = Some (ctx, p) → sessions w !! j = Some (ctx', p') →
     name_holder p = Some (sub, r) → name_holder p' = Some (sub, r') → i = j)
  ∧ (∀ i ctx p sub r,
     sessions w !! i = Some (ctx, p) → name_holder p = Some (sub, r) →
     tunnels (relay w) !! sub = Some r).
Proof. intros R. destruct (names_reachable rl w R) as (HC & HD). done. Qed.
End reachable.

(** ** Schedules

    Concrete interleavings, run by computation. *)

Inductive action :=
| Connect (i : nat) (ctx : ConnCtx) (first : first_frame)
| Section_of (i : nat) (io : conn_io)
| Expire (now max_age : Z).

Section schedules.
Context `{Unicode} `{ConstantTimeEq}.

Definition act (expiry : bool) (a : action) (w : World) : option World :=
  match a with
  | Connect i ctx first =>
    match sessions w !! i with
    | None => Some {| relay := relay w;
                      sessions := <[i := (ctx, PEnter first)]> (sessions w) |}
    | Some _ => None
    end
  | Section_of i io =>
    match sessions w !! i with
    | Some (ctx, p) =>
      let '(_, r, s') := advance ctx io p (relay w) in
      Some {| relay := s';
              sessions := <[i := (ctx, match r with Ok p' => p' | Err _ => PFailed p end)]>
                            (sessions w) |}
    | None => None
    end
  | Expire now max_age =>
    if expiry then Some {| relay := expire now max_age (relay w); sessions := sessions w |}
    else None
  end.

Fixpoint run_schedule (expiry : bool) (l : list action) (w : World) : option World :=
  match l with
  | [] => Some w
  | a :: l' => w' ← act expiry a w; run_schedule expiry l' w'
  end.

Lemma act_step expiry a w w' : act expiry a w = Some w' → step expiry w w'.
Proof.
  destruct a as [i ctx first|i io|now max_age]; cbn [act].
  - destruct (sessions w !! i) eqn:E; [done|]. intros [= <-]. by apply step_connect.
  - destruct (sessions w !! i) as [[ctx p]|] eqn:E; [|done].
    destruct (advance ctx io p (relay w)) as [[effs r] s'] eqn:Ea. intros [= <-].
    by eapply step_session.
  - destruct expiry; [|done]. intros [= <-]. by apply step_expire.
Qed.

Lemma run_schedule_rtc expiry l w w' :
  run_schedule expiry l w = Some w' → rtc (step expiry) w w'.
Proof.
  revert w. induction l as [|a l IH]; intros w; cbn [run_schedule]; [by intros [= ->]|].
  destruct (act expiry a w) as [w1|] eqn:E; [|done]. cbn. intros Hr.
  eapply rtc_l; [by eapply act_step|by apply IH].
Qed.
End schedules.

(** ** What interleaving allows *)

#[local] Existing Instance ascii_only.
#[local] Existing Instance slice_ct_eq.

Definition quiet_io (mux : nat) (events : list control_event) (now : Z) : conn_io :=
  {| io_first := NoStream; io_mux := mux; io_draw := λ _, 0; io_os_ok := exclusive_ports;
     io_written := true; io_events := events; io_now := now; io_end := now; io_instant := now;
     io_handshake_ms := 0 |}.

Definition one_tunnel_ctx : ConnCtx :=
  {| base_domain := §"tunnel.example.com"; http_port := 80; https_port := None;
     auth := auth_open; client_ip := §"192.0.2.7"; webhook_url := None;
     max_tunnels_per_ip := 1; max_tunnels := 1;
     reserved_subdomains := reserved_new []; subdomain_prefix := {| prefix := None |};
     subdomain_length := 8; blocklist := blocklist_disabled;
     ip_denylist := IpDenyList.disabled; tunnel_keepalive := 0 |}.

Definition demo_world : World := world_new (RateLimiter.new 10 60000000000).
Definition sections (i n : nat) (io : conn_io) : list action := replicate n (Section_of i io).

(** Two clients pass the limits before either is inserted. *)
Definition cap_schedule : list action :=
  [Connect 0 one_tunnel_ctx (demo_first §"a"); Connect 1 one_tunnel_ctx (demo_first §"b")]
  ++ sections 0 3 (quiet_io 0 [] 0) ++ sections 1 3 (quiet_io 1 [] 0)
  ++ sections 0 1 (quiet_io 0 [] 0) ++ sections 1 1 (quiet_io 1 [] 0).

(** The tunnel limits are not invariants.  The count is read under one lock
    and the tunnel inserted under a later one, so clients that arrive together
    exceed them: with at most one tunnel allowed, in all and per address, two
    from one address get registered. *)
Theorem tunnel_cap_race :
  ∃ w, rtc (step false) demo_world w
    ∧ (∀ i ctx p, sessions w !! i = Some (ctx, p) → max_tunnels ctx = 1 ∧ max_tunnels_per_ip ctx = 1)
    ∧ size (tunnels (relay w)) = 2%nat
    ∧ length (tunnels_of §"192.0.2.7" (relay w)) = 2%nat.
Proof.
  assert (HC : (λ w, (forallb (λ s, (max_tunnels s.2.1 =? 1) && (max_tunnels_per_ip s.2.1 =? 1))
                        (map_to_list (sessions w)),
                      size (tunnels (relay w)), length (tunnels_of §"192.0.2.7" (relay w))))
    <$> run_schedule false cap_schedule demo_world = Some (true, 2%nat, 2%nat))
    by (vm_compute; reflexivity).
  apply fmap_Some in HC as (w & E & HC). symmetry in HC. injection HC as H0 H1 H2.
  exists w. split; [by apply run_schedule_rtc in E|]. split; [|done].
  intros i ctx p Hi. apply elem_of_map_to_list in Hi.
  rewrite forallb_forall in H0. apply list_elem_of_In in Hi. apply H0 in Hi. cbn in Hi.
  bool_to_prop. done.
Qed.

(** The first holder of a name expires; before its task has cleaned up, a second
    client registers the name. *)
Definition expiry_schedule : list action :=
  [Connect 0 demo_ctx (demo_first §"app"); Connect 1 demo_ctx (demo_first §"app")]
  ++ sections 0 5 (quiet_io 0 [] 0)
  ++ [Expire 3600 3600]
  ++ sections 1 5 (quiet_io 1 [] 3600)
  ++ sections 0 2 (quiet_io 0 [DisconnectSignal] 3600).

(** Expiry breaks that exclusivity.  The expiry task removes a tunnel and
    its session removes the key again later, whatever it leads to by then: a
    client that registers the name in between is left serving a tunnel that is
    registered nowhere, and was never told to disconnect. *)
Theorem expiry_steals_tunnel :
  ∃ w ctx r url e, rtc (step true) demo_world w
    ∧ sessions w !! 1%nat = Some (ctx, PHttpOpen §"app" r url)
    ∧ heap (relay w) !! r = Some e ∧ t_disconnected e = false
    ∧ tunnels (relay w) !! §"app" = None.
Proof.
  assert (HC : (λ w, (sessions w !! 1%nat, heap (relay w) !! 1%nat, tunnels (relay w) !! §"app"))
    <$> run_schedule true expiry_schedule demo_world
    = Some (Some (demo_ctx, PHttpOpen §"app" 1%nat §"http://app.tunnel.example.com"),
            Some (entry_new 1 §"app" 3600 3600 §"192.0.2.7"), None)) by (vm_compute; reflexivity).
  apply fmap_Some in HC as (w & E & HC). symmetry in HC. injection HC as H1 H2 H3.
  exists w, demo_ctx, 1%nat, §"http://app.tunnel.example.com",
    (entry_new 1 §"app" 3600 3600 §"192.0.2.7").
  split; [by apply run_schedule_rtc in E|].
  exact (conj H1 (conj H2 (conj eq_refl H3))).
Qed.

(** A port changes hands between two locks of the first holder's teardown. *)
Definition tcp_schedule : list action :=
  [Connect 0 demo_ctx (Got (Register 1 None (Tcp 8022)));
   Connect 1 demo_ctx (Got (Register 1 None (Tcp 8022)))]
  ++ sections 0 7 (quiet_io 0 [] 0)
  ++ sections 0 2 (quiet_io 0 [ReadEnd] 0)
  ++ sections 1 7 (quiet_io 1 [] 0)
  ++ sections 0 2 (quiet_io 0 [] 0).

(** The same happens to TCP tunnels without any expiry: a client that takes
    a port just after its listener closed, and before the former holder has
    finished its teardown, ends up serving the port with neither the port nor
    the tunnel on record, out of reach of every limit and of the admin
    interface. *)
Theorem tcp_reuse_steals_tunnel :
  ∃ w ctx r url, rtc (step false) demo_world w
    ∧ sessions w !! 1%nat = Some (ctx, PTcpOpen 8022 r url)
    ∧ 8022 ∈ bound (relay w)
    ∧ tunnels (relay w) !! tcp_key 8022 = None ∧ (8022 ∉ tcp_ports (relay w)).
Proof.
  assert (HC : (λ w, (sessions w !! 1%nat, tunnels (relay w) !! tcp_key 8022,
      bool_decide (8022 ∈ bound (relay w)), bool_decide (8022 ∈ tcp_ports (relay w))))
    <$> run_schedule false tcp_schedule demo_world
    = Some (Some (demo_ctx, PTcpOpen 8022 1%nat §"tcp://tunnel.example.com:8022"),
            None, true, false)) by (vm_compute; reflexivity).
  apply fmap_Some in HC as (w & E & HC). symmetry in HC. injection HC as H1 H2 H3 H4.
  exists w, demo_ctx, 1%nat, §"tcp://tunnel.example.com:8022".
  split; [by apply run_schedule_rtc in E|].
  apply bool_decide_eq_true in H3. apply bool_decide_eq_false in H4.
  exact (conj H1 (conj H3 (conj H2 H4))).
Qed.

(** ** Two clients served at once *)

Definition demo_schedule : list action :=
  [Connect 0 demo_ctx (demo_first §"app"); Connect 1 demo_ctx (Got (Register 1 None (Tcp 8022)))]
  ++ sections 0 5 (quiet_io 0 [] 0) ++ sections 1 7 (quiet_io 1 [] 0).
Definition demo_open : World := default demo_world (run_schedule false demo_schedule demo_world).

Lemma demo_open_reachable : rtc (step false) demo_world demo_open.
Proof.
  apply (run_schedule_rtc false demo_schedule). unfold demo_open.
  destruct (run_schedule false demo_schedule demo_world) eqn:E; [done|].
  apply (f_equal (λ o, bool_decide (is_Some o))) in E. by vm_compute in E.
Qed.

Lemma registry_well_formed_witness :
  tunnels (relay demo_open) !! §"app" = Some 0%nat
  ∧ (∃ e, heap (relay demo_open) !! 0%nat = Some e ∧ t_subdomain e = §"app")
  ∧ ((http_key §"app" ∧ ∀ port, §"app" ≠ tcp_key port)
     ∨ (¬ http_key §"app" ∧ ∃ port, §"app" = tcp_key port)).
Proof.
  assert (E : tunnels (relay demo_open) !! §"app" = Some 0%nat) by (vm_compute; reflexivity).
  split; [exact E|].
  apply (registry_well_formed false (RateLimiter.new 10 60000000000) demo_open §"app" 0%nat
           demo_open_reachable E).
Defined.

(** Both clients leave. *)
Definition demo_close_schedule : list action :=
  sections 0 2 (quiet_io 0 [ReadEnd] 60) ++ sections 1 4 (quiet_io 1 [DisconnectSignal] 60).
Definition demo_closed : World := default demo_open (run_schedule false demo_close_schedule demo_open).

Lemma demo_closed_reachable : rtc (step false) demo_world demo_closed.
Proof.
  transitivity demo_open; [apply demo_open_reachable|].
  apply (run_schedule_rtc false demo_close_schedule). unfold demo_closed.
  destruct (run_schedule false demo_close_schedule demo_open) eqn:E; [done|].
  apply (f_equal (λ o, bool_decide (is_Some o))) in E. by vm_compute in E.
Qed.

Lemma nothing_left_behind_witness :
  (∃ i ctx p, sessions demo_open !! i = Some (ctx, p) ∧ tunnel_of p = Some (§"app", 0%nat))
  ∧ tunnels (relay demo_closed) = ∅ ∧ tcp_ports (relay demo_closed) = ∅
  ∧ bound (relay demo_closed) = ∅.
Proof.
  split.
  - assert (E : tunnels (relay demo_open) !! §"app" = Some 0%nat) by (vm_compute; reflexivity).
    exact (proj1 (nothing_left_behind false (RateLimiter.new 10 60000000000) demo_open
                    demo_open_reachable) _ _ E).
  - assert (E : forallb (λ s, match s.2.2 with PDone => true | _ => false end)
                  (map_to_list (sessions demo_closed)) = true) by (vm_compute; reflexivity).
    destruct (nothing_left_behind false (RateLimiter.new 10 60000000000) demo_closed
                demo_closed_reachable) as (_ & _ & _ & HE).
    apply HE. intros i ctx p Hi. left. apply elem_of_map_to_list, list_elem_of_In in Hi.
    rewrite forallb_forall in E. apply E in Hi. cbn in Hi. by destruct p.
Defined.

Lemma http_names_exclusive_witness :
  sessions demo_open !! 0%nat
    = Some (demo_ctx, PHttpOpen §"app" 0%nat §"http://app.tunnel.example.com")
  ∧ tunnels (relay demo_open) !! §"app" = Some 0%nat.
Proof.
  assert (E : sessions demo_open !! 0%nat
              = Some (demo_ctx, PHttpOpen §"app" 0%nat §"http://app.tunnel.example.com"))
    by (vm_compute; reflexivity).
  split; [exact E|].
  exact (proj2 (http_names_exclusive (RateLimiter.new 10 60000000000) demo_open
                  demo_open_reachable) 0%nat _ _ §"app" 0%nat E eq_refl).
Defined.
