(* ===== verification/Http.v ===== *)
(** * Http: the text the ingress reads and writes

    The pure functions of [crates/seamless-relay/src/ingress.rs]: reading the
    head of a request, its request line and headers, the subdomain of a host,
    the headers added on the way to a tunnel, and the responses the relay makes
    itself. *)

From S2P Require Import Prelude Text.
Local Open Scope Z_scope.

(** ** TLS fingerprint *)

Definition fnv1a_32 (data : str) : Z :=
  foldl (λ hash byte, wrap 32 (Z.lxor hash (code byte) * 16777619)) 2166136261 data.

Definition hex_digit (n : Z) : ascii := chr (if n <? 10 then 48 + n else 87 + n).
(** [{:08x}] of a [u32] *)
Definition show_hex8 (n : Z) : str :=
  (λ i, hex_digit (Z.land (Z.shiftr n (4 * Z.of_nat i)) 15)) <$> [7; 6; 5; 4; 3; 2; 1; 0]%nat.

(** [protocol] and [cipher] are the names rustls gives them. *)
Definition tls_connection_fingerprint (protocol cipher : str) : str :=
  let input := protocol ++ [chr 0] ++ cipher in
  protocol ++ §":" ++ cipher ++ §":" ++ show_hex8 (fnv1a_32 input).

(** ** Reading the head *)

(** What [stream.read] yields: some bytes (at most 4096), the end, an error.
    When the list is used up, the thirty seconds are over. *)
Inductive read_result :=
| Bytes (bs : str)
| Eof
| ReadErr.

Inductive head_result :=
| Complete
| EndOfStream
| Oversized
| IdleTimeout
| IoError.

Definition head_end : str := crlf ++ crlf.
Definition MAX_HEAD : nat := Z.to_nat 65536.

Fixpoint read_head (reads : list read_result) (head : str) : str * head_result :=
  match reads with
  | [] => (head, IdleTimeout)
  | ReadErr :: _ => (head, IoError)
  | Eof :: _ => (head, if (MAX_HEAD <? length head)%nat then Oversized else EndOfStream)
  | Bytes bs :: rest =>
    let head := head ++ bs in
    if contains_str head_end head then (head, Complete)
    else if (MAX_HEAD <? length head)%nat then (head, Oversized)
    else read_head rest head
  end.

(** ** Headers *)

Definition header_of (line : str) : option (str * str) := find_char ":"%char line.

Fixpoint find_content_length (lines : list str) : option Z :=
  match lines with
  | [] => None
  | line :: rest =>
    match header_of line with
    | Some (name, value) =>
      if eq_ignore_ascii_case name §"content-length"
      then parse_uint u64_max (trim value) else find_content_length rest
    | None => find_content_length rest
    end
  end.

Definition parse_content_length (bytes : str) : option Z :=
  s ← from_utf8 bytes; find_content_length (split_crlf s).

Definition parse_request_line (bytes : str) : str * str :=
  match from_utf8 bytes with
  | Some s =>
    match split_crlf s with
    | line :: _ =>
      let parts := splitn 3 " "%char line in
      (default §"?" (parts !! 0%nat), default §"/" (parts !! 1%nat))
    | [] => (§"?", §"/")
    end
  | None => (§"?", §"/")
  end.

Fixpoint find_host (lines : list str) : option str :=
  match lines with
  | [] => None
  | line :: rest =>
    match header_of line with
    | Some (name, value) =>
      if eq_ignore_ascii_case name §"host" then Some (trim value) else find_host rest
    | None => find_host rest
    end
  end.

Definition parse_host_header (bytes : str) : option str :=
  s ← from_utf8 bytes; find_host (split_crlf s).

Fixpoint upgrade_flags (lines : list str) (flags : bool * bool) : bool * bool :=
  match lines with
  | [] => flags
  | line :: rest =>
    match header_of line with
    | Some (n, v) =>
      let name := trim n in
      let value := trim v in
      upgrade_flags rest
        (flags.1 || (eq_ignore_ascii_case name §"upgrade"
                     && eq_ignore_ascii_case value §"websocket"),
         flags.2 || (eq_ignore_ascii_case name §"connection"
                     && contains_str §"upgrade" (to_ascii_lowercase value)))
    | None => upgrade_flags rest flags
    end
  end.

Definition is_websocket_upgrade (head : str) : bool :=
  match from_utf8 head with
  | None => false
  | Some s => let '(u, c) := upgrade_flags (split_crlf s) (false, false) in u && c
  end.

(** ** Hosts and upstreams *)

(** [host.split(':').next().unwrap_or(host)] *)
Definition before_colon (host : str) : str := default host (head (split_char ":"%char host)).

Definition extract_subdomain (host base : str) : option str :=
  strip_suffix (§"." ++ base) (before_colon host).

(** [trim_start_matches] *)
Fixpoint trim_start_matches (fuel : nat) (p s : str) : str :=
  match fuel with
  | O => s
  | S fuel' => match strip_prefix p s with Some s' => trim_start_matches fuel' p s' | None => s end
  end.

Definition parse_upstream_addr (url : str) : result str str :=
  let trimmed p s := trim_start_matches (length s) p s in
  let stripped := trimmed §"http://" (trimmed §"https://" url) in
  let host_port := default stripped (head (split_char "/"%char stripped)) in
  if bool_decide (host_port = [])
  then Err (§"empty host in upstream URL '" ++ url ++ §"'")
  else if contains_char ":"%char host_port then Ok host_port
  else let default_port := if starts_with §"https://" url then 443 else 80 in
       Ok (host_port ++ §":" ++ show default_port).

(** ** Forwarding *)

(** The text up to and with the first end of line, and the rest. *)
Fixpoint first_crlf (s : str) : option (str * str) :=
  match s with
  | [] => None
  | d :: s' =>
    match s' with
    | e :: s'' =>
      if bool_decide (d = cr) && bool_decide (e = lf) then Some ([d; e], s'')
      else match first_crlf s' with Some (a, b) => Some (d :: a, b) | None => None end
    | [] => None
    end
  end.

Definition injected_headers (peer_ip : str) (is_https : bool) : str :=
  §"X-Forwarded-For: " ++ peer_ip ++ crlf
  ++ §"X-Real-IP: " ++ peer_ip ++ crlf
  ++ §"X-Forwarded-Proto: " ++ (if is_https then §"https" else §"http") ++ crlf.

Definition inject_forwarding_headers (head peer_ip : str) (is_https : bool) : str :=
  match first_crlf head with
  | None => head
  | Some (line, rest) => line ++ injected_headers peer_ip is_https ++ rest
  end.

(** ** Responses *)

Definition hsts_line (is_https : bool) : str :=
  if is_https then §"Strict-Transport-Security: max-age=63072000; includeSubDomains" ++ crlf
  else [].

Definition error_response (status body : str) (is_https : bool) : str :=
  §"HTTP/1.1 " ++ status ++ crlf
  ++ §"Content-Length: " ++ show (Z.of_nat (length body)) ++ crlf
  ++ §"Content-Type: text/plain" ++ crlf
  ++ hsts_line is_https ++ §"Connection: close" ++ crlf ++ crlf ++ body.

(** The answer of a tunnel in challenge mode. *)
Definition challenge_response (rps : Z) : str :=
  §"HTTP/1.1 429 Too Many Requests" ++ crlf
  ++ §"Retry-After: 1" ++ crlf
  ++ §"X-RateLimit-Limit: " ++ show rps ++ crlf
  ++ §"X-RateLimit-Remaining: 0" ++ crlf
  ++ §"Content-Length: 25" ++ crlf
  ++ §"Content-Type: text/plain" ++ crlf
  ++ §"Connection: close" ++ crlf ++ crlf
  ++ §"rate limit exceeded" ++ [lf].

(** A quoted JSON string and the member it is, in the body of [/health]. *)
Definition dq : str := [chr 34].
Definition member (k v : str) : str := dq ++ k ++ dq ++ §":" ++ v.
Definition health_body (version : str) (uptime_secs tunnels ws_active : Z) (is_https : bool) : str :=
  §"{" ++ member §"status" (dq ++ §"ok" ++ dq) ++ §","
  ++ member §"version" (dq ++ version ++ dq) ++ §","
  ++ member §"uptime_seconds" (show uptime_secs) ++ §","
  ++ member §"tunnels_active" (show tunnels) ++ §","
  ++ member §"ws_connections_active" (show ws_active) ++ §","
  ++ member §"tls_version" (dq ++ (if is_https then §"TLS1.3" else §"none") ++ dq) ++ §","
  ++ member §"fips_mode" §"false" ++ §"}".
Definition health_response (version : str) (uptime_secs tunnels ws_active : Z) (is_https : bool)
    : str :=
  let body := health_body version uptime_secs tunnels ws_active is_https in
  §"HTTP/1.1 200 OK" ++ crlf
  ++ §"Content-Length: " ++ show (Z.of_nat (length body)) ++ crlf
  ++ §"Content-Type: application/json" ++ crlf
  ++ hsts_line is_https ++ §"Cache-Control: no-store" ++ crlf
  ++ §"Connection: close" ++ crlf ++ crlf ++ body.

(** The tests of the repository. *)
Definition sample (host_line : str) : str :=
  §"GET / HTTP/1.1" ++ crlf ++ host_line ++ crlf ++ crlf.
Example repository_tests :
  parse_host_header (sample §"HoSt: a.b.c") = Some §"a.b.c"
  ∧ parse_host_header (sample §"Content-Type: text/plain") = None
  ∧ extract_subdomain §"foo.example.com:8080" §"example.com" = Some §"foo"
  ∧ extract_subdomain §"notexample.com" §"example.com" = None
  ∧ extract_subdomain §"example.com" §"example.com" = None
  ∧ parse_upstream_addr §"http://localhost:3000" = Ok §"localhost:3000"
  ∧ parse_upstream_addr §"https://api.example.com" = Ok §"api.example.com:443"
  ∧ is_ok (parse_upstream_addr §"http://") = false
  ∧ parse_content_length (sample §"CONTENT-LENGTH: 500") = Some 500
  ∧ parse_content_length (sample §"Content-Length: not-a-number") = None
  ∧ fnv1a_32 §"hello" = 0x4f9f2cab.
Proof. vm_compute. tauto. Qed.

(** ** Lemmas: the injected headers *)

Lemma split_crlf_cons2 d e r :
  split_crlf (d :: e :: r)
  = if bool_decide (d = cr) && bool_decide (e = lf) then [] :: split_crlf r
    else match split_crlf (e :: r) with [] => [[d]] | h :: t => (d :: h) :: t end.
Proof. done. Qed.

Lemma first_crlf_spec s a b :
  first_crlf s = Some (a, b) →
  ∃ l, a = l ++ crlf ∧ s = a ++ b ∧ ∀ b', split_crlf (a ++ b') = l :: split_crlf b'.
Proof.
  revert a b. induction s as [|d s IH]; intros a b; [done|]. cbn [first_crlf].
  destruct s as [|e s]; [done|].
  destruct (bool_decide (d = cr) && bool_decide (e = lf)) eqn:E.
  - intros [= <- <-]. apply andb_true_iff in E as [->%bool_decide_eq_true ->%bool_decide_eq_true].
    exists []. split_and!; [done|done|]. intros b'. by apply (split_crlf_app []), not_elem_of_nil.
  - destruct (first_crlf (e :: s)) as [[a' b0]|] eqn:F; [|done]. intros [= <- <-].
    destruct (IH a' b0 eq_refl) as (l & -> & Hs & Hl). exists (d :: l).
    split_and!; [done|by rewrite Hs|]. intros b'. specialize (Hl b').
    destruct ((l ++ crlf) ++ b') as [|e' r] eqn:Er.
    { by destruct l. }
    assert (e' = e) as ->.
    { destruct l; cbn in Hs, Er; congruence. }
    cbn [app]. rewrite Er, split_crlf_cons2, E, Hl. done.
Qed.

Lemma utf8_after_crlf l b : utf8_valid ((l ++ crlf) ++ b) = utf8_valid (l ++ crlf) && utf8_valid b.
Proof.
  rewrite <-app_assoc. change (crlf ++ b) with (cr :: lf :: b). unfold crlf.
  rewrite !utf8_valid_app by reflexivity. change (utf8_valid (lf :: b)) with (utf8_valid b).
  change (utf8_valid [lf]) with true. by rewrite andb_true_r.
Qed.

Definition injected_lines (peer_ip : str) (is_https : bool) : list str :=
  [§"X-Forwarded-For: " ++ peer_ip; §"X-Real-IP: " ++ peer_ip;
   §"X-Forwarded-Proto: " ++ (if is_https then §"https" else §"http")].

Lemma split_injected ip h b :
  forallb plain ip = true →
  split_crlf (injected_headers ip h ++ b) = injected_lines ip h ++ split_crlf b.
Proof.
  intros Hip. apply plain_no_cr in Hip as Hcr. unfold injected_headers, injected_lines.
  assert (N : ∀ p, cr ∉ p → cr ∉ p ++ ip) by (intros p Hp; rewrite elem_of_app; tauto).
  rewrite <-!app_assoc. rewrite (app_assoc §"X-Forwarded-For: "), split_crlf_app.
  2:{ apply N. apply (bool_decide_unpack _). reflexivity. }
  rewrite (app_assoc §"X-Real-IP: "), split_crlf_app.
  2:{ apply N. apply (bool_decide_unpack _). reflexivity. }
  rewrite (app_assoc §"X-Forwarded-Proto: "), split_crlf_app; [done|].
  destruct h; apply (bool_decide_unpack _); reflexivity.
Qed.

Lemma utf8_injected ip h b :
  forallb plain ip = true → utf8_valid (injected_headers ip h ++ b) = utf8_valid b.
Proof.
  intros Hip. unfold injected_headers.
  rewrite !app_assoc, utf8_after_crlf. rewrite (utf8_ascii (_ ++ crlf)); [done|].
  rewrite !forallb_app. rewrite (plain_ascii ip Hip). by destruct h.
Qed.

(** The relay's own headers are none the ingress looks for. *)
Lemma skip_injected ip h :
  Forall (λ line, ∃ name value, header_of line = Some (name, value)
          ∧ eq_ignore_ascii_case name §"host" = false
          ∧ eq_ignore_ascii_case name §"content-length" = false
          ∧ eq_ignore_ascii_case (trim name) §"upgrade" = false
          ∧ eq_ignore_ascii_case (trim name) §"connection" = false) (injected_lines ip h).
Proof.
  unfold injected_lines.
  repeat (apply Forall_cons; split; [by eexists _, _; split; [reflexivity|split_and!; reflexivity]|]).
  apply Forall_nil. done.
Qed.

Lemma find_host_skip l rest :
  Forall (λ line, ∃ name value, header_of line = Some (name, value)
          ∧ eq_ignore_ascii_case name §"host" = false) l →
  find_host (l ++ rest) = find_host rest.
Proof.
  induction 1 as [|line l (name & value & Hh & Hn) _ IH]; [done|].
  cbn [app find_host]. by rewrite Hh, Hn.
Qed.

Lemma find_content_length_skip l rest :
  Forall (λ line, ∃ name value, header_of line = Some (name, value)
          ∧ eq_ignore_ascii_case name §"content-length" = false) l →
  find_content_length (l ++ rest) = find_content_length rest.
Proof.
  induction 1 as [|line l (name & value & Hh & Hn) _ IH]; [done|].
  cbn [app find_content_length]. by rewrite Hh, Hn.
Qed.

Lemma upgrade_flags_skip l rest fl :
  Forall (λ line, ∃ name value, header_of line = Some (name, value)
          ∧ eq_ignore_ascii_case (trim name) §"upgrade" = false
          ∧ eq_ignore_ascii_case (trim name) §"connection" = false) l →
  upgrade_flags (l ++ rest) fl = upgrade_flags rest fl.
Proof.
  induction 1 as [|line l (name & value & Hh & Hu & Hc) _ IH]; [done|].
  cbn [app upgrade_flags]. rewrite Hh, Hu, Hc. cbn [andb]. rewrite !orb_false_r.
  by destruct fl.
Qed.

(** C34: what the relay adds to a request hides nothing from the service behind
    the tunnel: for a peer address in plain text, the request line, the [Host],
    the declared length and the upgrade of the forwarded head are those of the
    head received, whatever that head is. *)
Theorem inject_preserves head peer_ip is_https :
  forallb plain peer_ip = true →
  let head' := inject_forwarding_headers head peer_ip is_https in
  parse_request_line head' = parse_request_line head
  ∧ parse_host_header head' = parse_host_header head
  ∧ parse_content_length head' = parse_content_length head
  ∧ is_websocket_upgrade head' = is_websocket_upgrade head.
Proof.
  intros Hip. unfold inject_forwarding_headers.
  destruct (first_crlf head) as [[a b]|] eqn:F; [|done].
  destruct (first_crlf_spec head a b F) as (l & -> & -> & Hl). cbv zeta.
  assert (HU : utf8_valid ((l ++ crlf) ++ injected_headers peer_ip is_https ++ b)
               = utf8_valid ((l ++ crlf) ++ b))
    by (rewrite !utf8_after_crlf; by rewrite utf8_injected).
  pose proof (skip_injected peer_ip is_https) as HS.
  unfold parse_request_line, parse_host_header, parse_content_length, is_websocket_upgrade, from_utf8.
  rewrite HU. destruct (utf8_valid ((l ++ crlf) ++ b)); [|done]. cbn [mbind option_bind].
  rewrite !Hl, split_injected by done. split; [done|].
  cbn [find_host find_content_length upgrade_flags].
  rewrite find_host_skip, find_content_length_skip.
  2,3: eapply Forall_impl; [exact HS|]; intros line (n & v & ? & ? & ? & ? & ?); by exists n, v.
  split_and!; [done|done|].
  destruct (header_of l) as [[n v]|]; by rewrite upgrade_flags_skip by
    (eapply Forall_impl; [exact HS|]; intros line (n' & v' & ? & ? & ? & ? & ?); by exists n', v').
Qed.

Lemma inject_preserves_witness :
  parse_host_header (inject_forwarding_headers (sample §"Host: app.example.com") §"192.0.2.7" true)
  = parse_host_header (sample §"Host: app.example.com").
Proof. apply (inject_preserves (sample §"Host: app.example.com") §"192.0.2.7" true). reflexivity. Defined.

(** ** The relay's own responses *)

Definition status_text (s : str) : Prop :=
  forallb is_ascii s = true ∧ (cr ∉ s) ∧ (":"%char ∉ s).

Lemma content_length_next line rest :
  header_of line = None → find_content_length (line :: rest) = find_content_length rest.
Proof. intros H. cbn [find_content_length]. by rewrite H. Qed.

Lemma header_of_app name value : (":"%char ∉ name) → header_of (name ++ §":" ++ value) = Some (name, value).
Proof. apply find_char_app. Qed.

Lemma content_length_line n rest :
  0 <= n <= u64_max →
  find_content_length ((§"Content-Length: " ++ show n) :: rest) = Some n.
Proof.
  intros Hn. cbn [find_content_length].
  change (§"Content-Length: " ++ show n) with (§"Content-Length" ++ §":" ++ (" "%char :: show n)).
  rewrite header_of_app by (apply (bool_decide_unpack _); reflexivity).
  change (eq_ignore_ascii_case §"Content-Length" §"content-length") with true. cbv iota.
  rewrite trim_blank by apply show_plain. apply parse_show; [done|]. unfold u64_max in Hn. lia.
Qed.

(** The relay's error pages are well-formed messages: the head, with a
    [Content-Length] that is the length of the body in bytes, the empty line,
    the body, and nothing else. *)
Theorem error_response_framed status body is_https :
  status_text status → utf8_valid body = true → Z.of_nat (length body) <= u64_max →
  parse_content_length (error_response status body is_https) = Some (Z.of_nat (length body))
  ∧ ∃ head, error_response status body is_https = head ++ head_end ++ body
            ∧ forallb is_ascii head = true.
Proof.
  intros (Ha & Hcr & Hcol) Hb Hlen. split.
  - unfold parse_content_length, from_utf8.
    assert (HU : utf8_valid (error_response status body is_https) = true).
    { unfold error_response. rewrite !app_assoc, utf8_after_crlf, Hb, andb_true_r.
      apply utf8_ascii. rewrite !forallb_app, Ha.
      rewrite (plain_ascii _ (show_plain (Z.of_nat (length body)))). by destruct is_https. }
    rewrite HU. cbn [mbind option_bind]. unfold error_response.
    rewrite (app_assoc §"HTTP/1.1 "), split_crlf_app.
    2:{ rewrite elem_of_app. intros [H|H]; [|done]. revert H. apply (bool_decide_unpack _). reflexivity. }
    rewrite (app_assoc §"Content-Length: "), split_crlf_app.
    2:{ rewrite elem_of_app. intros [H|H].
        - revert H. apply (bool_decide_unpack _). reflexivity.
        - revert H. apply plain_no_cr, show_plain. }
    rewrite content_length_next.
    2:{ apply find_char_None. rewrite elem_of_app. intros [H|H]; [|done].
        revert H. apply (bool_decide_unpack _). reflexivity. }
    apply content_length_line. lia.
  - exists (§"HTTP/1.1 " ++ status ++ crlf
      ++ §"Content-Length: " ++ show (Z.of_nat (length body)) ++ crlf
      ++ §"Content-Type: text/plain" ++ crlf ++ hsts_line is_https ++ §"Connection: close").
    split.
    + unfold error_response, head_end. by rewrite <-!app_assoc.
    + rewrite !forallb_app, Ha, (plain_ascii _ (show_plain (Z.of_nat (length body)))).
      by destruct is_https.
Qed.

Lemma error_response_framed_witness :
  parse_content_length (error_response §"502 Bad Gateway" §"oops" true) = Some 4
  ∧ ∃ head, error_response §"502 Bad Gateway" §"oops" true = head ++ head_end ++ §"oops"
            ∧ forallb is_ascii head = true.
Proof.
  apply (error_response_framed §"502 Bad Gateway" §"oops" true).
  - split; [reflexivity|]. split; apply (bool_decide_unpack _); reflexivity.
  - reflexivity.
  - unfold u64_max; cbn; lia.
Defined.

(** The answer of a tunnel in challenge mode is framed wrongly: it declares
    25 bytes and sends a body of 20, so a client waits for five bytes that
    never come. *)
Theorem challenge_response_short rps :
  parse_content_length (challenge_response rps) = Some 25
  ∧ ∃ head body, challenge_response rps = head ++ head_end ++ body ∧ length body = 20%nat.
Proof.
  split.
  - unfold parse_content_length, from_utf8.
    assert (HU : utf8_valid (challenge_response rps) = true).
    { apply utf8_ascii. unfold challenge_response. rewrite !forallb_app.
      by rewrite (plain_ascii _ (show_plain rps)). }
    rewrite HU. cbn [mbind option_bind]. unfold challenge_response.
    assert (N : ∀ s : str, bool_decide (cr ∈ s) = false → cr ∉ s)
      by (intros s Hs; by apply bool_decide_eq_false in Hs).
    rewrite split_crlf_app by (by apply N). rewrite split_crlf_app by (by apply N).
    rewrite (app_assoc §"X-RateLimit-Limit: "), split_crlf_app.
    2:{ rewrite elem_of_app. intros [H|H]; [by apply N in H|].
        revert H. apply plain_no_cr, show_plain. }
    rewrite split_crlf_app by (by apply N). rewrite split_crlf_app by (by apply N).
    reflexivity.
  - eexists (§"HTTP/1.1 429 Too Many Requests" ++ crlf ++ §"Retry-After: 1" ++ crlf
      ++ §"X-RateLimit-Limit: " ++ show rps ++ crlf ++ §"X-RateLimit-Remaining: 0" ++ crlf
      ++ §"Content-Length: 25" ++ crlf ++ §"Content-Type: text/plain" ++ crlf
      ++ §"Connection: close"), (§"rate limit exceeded" ++ [lf]).
    split; [|done]. unfold challenge_response, head_end. by rewrite <-!app_assoc.
Qed.
