(* ===== verification/Ingress.v ===== *)
(** * Ingress: routing of public HTTP connections

    [run_http_ingress], [run_https_ingress] and [route_http] of
    [crates/seamless-relay/src/ingress.rs]: what the relay does with one public
    connection, from its first bytes to its end. *)

From S2P Require Import Prelude Text Json Cidr Codec Policy RateLimit Metrics AuditLog Backends.
From S2P Require Import Tunnel HandleClient Http Store.
Local Open Scope Z_scope.

(** ** Inputs *)

(** The part of [AppState] that does not change here. *)
Record AppState := {
  app_base_domain : str;
  app_store : Store;
  app_geoip : GeoipFilter;
  app_max_body_bytes : Z;
  app_version : str;
}.

Inductive connect_result :=
| Connected
| Unreachable
| ConnectTimeout.

(** One connection: its peer, what its reads yield, the clocks, and the answers
    of the operations on the other side.  [c_copied] is what
    [copy_bidirectional] counts, when it does not fail. *)
Record conn := {
  c_ip : ip_addr;
  c_peer : str;
  c_peer_ip : str;
  c_https : bool;
  c_reads : list read_result;
  c_now : Z;
  c_instant : Z;
  c_uptime : Z;
  c_ws_active : Z;
  c_connect : connect_result;
  c_preamble_ok : bool;
  c_head_ok : bool;
  c_copied : option (Z * Z);
  c_nanos : Z;
}.

Definition respond (c : conn) (status body : str) : M unit :=
  perform [Reply (error_response status body (c_https c))].

Definition log_push (c : conn) (method path host routed_to : str) (status : Z) : M unit :=
  perform [LogRequest {| log_ts := c_now c; log_method := method; log_path := path;
                         log_host := host; log_routed_to := routed_to; log_status := status |}].

Definition when (b : bool) (m : M unit) : M unit := if b then m else mret tt.
Definition check_write (ok : bool) : M unit := if ok then mret tt else fail §"write failed".

(** [copy_bidirectional_counted] *)
Definition counted (copied : option (Z * Z)) : Z * Z := default (0, 0) copied.

Section ingress.
Context `{Unicode}.

(** ** Tests on the head *)

Definition is_health (method path : str) : bool :=
  bool_decide (method = §"GET")
  && (bool_decide (path = §"/health") || bool_decide (path = §"/health/")).

(** The declared length, when it is over the limit. *)
Definition too_large (max_body_bytes : Z) (head : str) : option Z :=
  if 0 <? max_body_bytes
  then match parse_content_length head with
       | Some cl => if max_body_bytes <? cl then Some cl else None
       | None => None
       end
  else None.

Definition host_only (host : str) : str := to_lowercase (before_colon host).

Fixpoint find_route (rs : list ProxyRoute) (host : str) : option str :=
  match rs with
  | [] => None
  | r :: rest =>
    if pr_enabled r && bool_decide (to_lowercase (pr_domain r) = host_only host)
    then Some (pr_upstream_url r) else find_route rest host
  end.

(** Custom domains come first. *)
Definition find_subdomain (st : AppState) (host : str) (s : Relay) : option str :=
  match custom_domains s !! host_only host with
  | Some sub => Some sub
  | None => extract_subdomain host (app_base_domain st)
  end.

(** ** The branches *)

Definition health (st : AppState) (c : conn) : M unit :=
  n ← reading (λ s, Z.of_nat (size (tunnels s)));
  perform [Reply (health_response (app_version st) (c_uptime c) n (c_ws_active c) (c_https c))].

Definition route_proxy (c : conn) (head method path host url : str) : M unit :=
  match parse_upstream_addr url with
  | Err _ => respond c §"502 Bad Gateway"
               (§"seamless: misconfigured upstream for '" ++ host ++ §"'" ++ [lf])
  | Ok addr =>
    match c_connect c with
    | Unreachable =>
      log_push c method path host (§"proxy:" ++ url) 502;;
      respond c §"502 Bad Gateway" (§"seamless: upstream '" ++ addr ++ §"' unreachable" ++ [lf])
    | ConnectTimeout =>
      log_push c method path host (§"proxy:" ++ url) 504;;
      respond c §"504 Gateway Timeout" (§"seamless: upstream '" ++ addr ++ §"' timed out" ++ [lf])
    | Connected =>
      let is_ws := is_websocket_upgrade head in
      perform [Upstream addr (inject_forwarding_headers head (c_peer_ip c) (c_https c))];;
      check_write (c_head_ok c);;
      log_push c method path host (§"proxy:" ++ url) 0;;
      when is_ws (perform [Metric inc_ws_connections]);;
      when is_ws (perform [Metric dec_ws_connections])
    end
  end.

(** A connection the token bucket refuses. *)
Definition ddos_blocked (c : conn) (sub : str) (d : DDoS.DDoSProtection) : M unit :=
  perform [audit (c_now c) §"ddos.blocked"
             [(§"tunnel_id", Str sub); (§"client_ip", Str (c_peer_ip c))]];;
  if DDoS.challenge_mode d then perform [Reply (challenge_response (DDoS.get_rps d))]
  else respond c §"429 Too Many Requests" (§"rate limit exceeded" ++ [lf]).

(** The connection to a tunnel, through the entry [r] and its mux. *)
Definition forward_http (c : conn) (head method path host sub : str) (mux r : nat) : M unit :=
  let is_ws := is_websocket_upgrade head in
  perform [Metric inc_connections];;
  log_push c method path host (§"tunnel:" ++ sub) 0;;
  perform [DataFrame mux (NewConn (c_peer c))];;
  check_write (c_preamble_ok c);;
  when (negb (bool_decide (head = [])))
    (let fwd_head := inject_forwarding_headers head (c_peer_ip c) (c_https c) in
     let n := Z.of_nat (length fwd_head) in
     perform [DataBytes mux fwd_head];;
     check_write (c_head_ok c);;
     modify (update_entry r (with_bytes n 0));;
     perform [Metric (inc_bytes_in n)]);;
  when is_ws (perform [Metric inc_ws_connections]);;
  let '(n_in, n_out) := counted (c_copied c) in
  when is_ws (perform [Metric dec_ws_connections]);;
  perform [Metric (record_request_duration (c_nanos c))];;
  modify (update_entry r (with_bytes n_in n_out));;
  perform [Metric (inc_bytes_in n_in); Metric (inc_bytes_out n_out)];;
  modify (update_entry r (log_request
    {| rq_timestamp := c_now c; rq_method := method; rq_path := path; rq_status_code := 0;
       rq_duration_ms := wrap 64 (c_nanos c / 1000000); rq_client_ip := c_peer_ip c;
       rq_bytes := u64_add n_in n_out |})).

Definition route_tunnel (c : conn) (head method path host sub : str) (r : nat)
    (e : TunnelEntry) : M unit :=
  if t_paused e
  then respond c §"503 Service Unavailable" (§"seamless: tunnel '" ++ sub ++ §"' is paused" ++ [lf])
  else
    let '(ok, d) := DDoS.check (t_ddos e) (c_instant c) in
    modify (update_entry r (with_ddos d));;
    if ok then forward_http c head method path host sub (t_mux e) r else ddos_blocked c sub d.

Definition no_route (c : conn) (method path host : str) : M unit :=
  log_push c method path host §"none" 502;;
  respond c §"502 Bad Gateway" (§"seamless: no route for '" ++ host ++ §"'" ++ [lf]).

(** ** One connection *)

Definition route_head (st : AppState) (c : conn) (head host : str) : M unit :=
  let '(method, path) := parse_request_line head in
  if is_health method path then health st c
  else match too_large (app_max_body_bytes st) head with
  | Some cl =>
    respond c §"413 Content Too Large"
      (§"seamless: request body too large (" ++ show cl ++ §" bytes, limit "
       ++ show (app_max_body_bytes st) ++ §" bytes)" ++ [lf])
  | None =>
    match find_route (routes (app_store st)) host with
    | Some url => route_proxy c head method path host url
    | None => λ s,
      match find_subdomain st host s with
      | Some sub =>
        match lookup_tunnel sub s with
        | Some (r, e) => route_tunnel c head method path host sub r e s
        | None => no_route c method path host s
        end
      | None => no_route c method path host s
      end
    end
  end.

Definition route_http (st : AppState) (c : conn) : M unit :=
  if (geo_is_blocked (app_geoip st) (c_ip c) 0).1
  then perform [GeoBlocked;
                audit (c_now c) §"http.geo_blocked"
                  [(§"peer", Str (c_peer c));
                   (§"country", Str (default §"unknown" (country_code (app_geoip st) (c_ip c))))]]
  else
    let '(head, end_of_head) := read_head (c_reads c) [] in
    match end_of_head with
    | IdleTimeout | EndOfStream => mret tt
    | IoError => fail §"read failed"
    | Oversized => respond c §"431 Request Header Fields Too Large" []
    | Complete =>
      match parse_host_header head with
      | None => respond c §"400 Bad Request" (§"missing Host: header" ++ [lf])
      | Some host => route_head st c head host
      end
    end.

(** One accepted connection of [run_https_ingress]: [tls] is the outcome of the
    handshake with the names rustls has for it. *)
Definition https_connection (st : AppState) (c : conn) (tls : option (str * str)) : M unit :=
  match tls with
  | None => mret tt
  | Some (protocol, cipher) =>
    let fingerprint := tls_connection_fingerprint protocol cipher in
    when (negb (bool_decide (fingerprint = [])))
      (perform [audit (c_now c) §"tls.connection"
                  [(§"peer", Str (c_peer c)); (§"fingerprint", Str fingerprint)]]);;
    route_http st c
  end.
End ingress.

(** ** Lemmas: reading the effects *)

(** What the relay itself answers, and what it hands on. *)
Definition replies (w : list effect) : list str :=
  omap (λ e, match e with Reply bs => Some bs | _ => None end) w.
Definition to_tunnel (w : list effect) : list effect :=
  omap (λ e, match e with DataFrame _ _ | DataBytes _ _ => Some e | _ => None end) w.
Definition to_upstream (w : list effect) : list (str * str) :=
  omap (λ e, match e with Upstream addr bs => Some (addr, bs) | _ => None end) w.

Section routing.
Context `{Unicode}.
Implicit Types (s : Relay) (c : conn) (st : AppState).

(** ** What becomes of a connection *)

(** A request the relay takes up: the peer's country is not blocked and its
    head arrives, is text and names a host. *)
Definition request st c (head host method path : str) : Prop :=
  (geo_is_blocked (app_geoip st) (c_ip c) 0).1 = false
  ∧ read_head (c_reads c) [] = (head, Complete) ∧ parse_host_header head = Some host
  ∧ parse_request_line head = (method, path).

Definition health_request (method path : str) : Prop :=
  method = §"GET" ∧ (path = §"/health" ∨ path = §"/health/").

(** The body it declares is over a limit that is set. *)
Definition oversized st (head : str) : Prop :=
  ∃ n, parse_content_length head = Some n ∧ 0 < app_max_body_bytes st < n.

(** A request that gets to the static routes. *)
Definition routed st c (head host method path : str) : Prop :=
  request st c head host method path ∧ ¬ health_request method path ∧ ¬ oversized st head.

(** The route that serves a host, the first of those enabled for it. *)
Definition serves_host (rt : ProxyRoute) (host : str) : Prop :=
  pr_enabled rt = true ∧ to_lowercase (pr_domain rt) = host_only host.
Definition route_for st (host : str) (rt : ProxyRoute) : Prop :=
  ∃ before after, routes (app_store st) = before ++ rt :: after ∧ serves_host rt host
                  ∧ ∀ x, x ∈ before → ¬ serves_host x host.
Definition no_route_for st (host : str) : Prop :=
  ∀ rt, rt ∈ routes (app_store st) → ¬ serves_host rt host.

(** The tunnel a host stands for: by a custom domain, or by its name under the
    base domain. *)
Definition name_for st (host : str) s (sub : str) : Prop :=
  custom_domains s !! host_only host = Some sub
  ∨ (custom_domains s !! host_only host = None
     ∧ before_colon host = sub ++ §"." ++ app_base_domain st).
Definition addressed st (host : str) s (r : nat) (e : TunnelEntry) : Prop :=
  ∃ sub, name_for st host s sub ∧ tunnels s !! sub = Some r ∧ heap s !! r = Some e.

(** The reasons for which the relay answers by itself, with the status line. *)
Inductive refusal st c s : str → Prop :=
| refusal_head head :
    (geo_is_blocked (app_geoip st) (c_ip c) 0).1 = false →
    read_head (c_reads c) [] = (head, Oversized) →
    refusal st c s §"431 Request Header Fields Too Large"
| refusal_host head :
    (geo_is_blocked (app_geoip st) (c_ip c) 0).1 = false →
    read_head (c_reads c) [] = (head, Complete) → parse_host_header head = None →
    refusal st c s §"400 Bad Request"
| refusal_health head host method path :
    request st c head host method path → health_request method path → refusal st c s §"200 OK"
| refusal_body head host method path :
    request st c head host method path → ¬ health_request method path → oversized st head →
    refusal st c s §"413 Content Too Large"
| refusal_upstream head host method path rt :
    routed st c head host method path → route_for st host rt →
    is_ok (parse_upstream_addr (pr_upstream_url rt)) = false ∨ c_connect c = Unreachable →
    refusal st c s §"502 Bad Gateway"
| refusal_slow head host method path rt :
    routed st c head host method path → route_for st host rt → c_connect c = ConnectTimeout →
    is_ok (parse_upstream_addr (pr_upstream_url rt)) = true →
    refusal st c s §"504 Gateway Timeout"
| refusal_unknown head host method path :
    routed st c head host method path → no_route_for st host →
    (∀ r e, ¬ addressed st host s r e) → refusal st c s §"502 Bad Gateway"
| refusal_paused head host method path r e :
    routed st c head host method path → no_route_for st host → addressed st host s r e →
    t_paused e = true → refusal st c s §"503 Service Unavailable".

(** The ways a connection can go. *)
Inductive fate st c s : list effect * result str unit * Relay → Prop :=
(** No answer: a blocked country, or a head that never came. *)
| fate_silent w o :
    (geo_is_blocked (app_geoip st) (c_ip c) 0).1 = true
    ∨ (read_head (c_reads c) []).2 ∈ [EndOfStream; IdleTimeout; IoError] →
    replies w = [] → to_tunnel w = [] → to_upstream w = [] → fate st c s (w, o, s)
(** One answer, and nothing else. *)
| fate_answered status w rest :
    refusal st c s status → replies w = [§"HTTP/1.1 " ++ status ++ crlf ++ rest] →
    to_tunnel w = [] → to_upstream w = [] → fate st c s (w, Ok tt, s)
(** The protection of the tunnel answers. *)
| fate_limited head host method path r e d w rest :
    routed st c head host method path → no_route_for st host → addressed st host s r e →
    t_paused e = false → DDoS.check (t_ddos e) (c_instant c) = (false, d) →
    replies w = [§"HTTP/1.1 429 Too Many Requests" ++ crlf ++ rest] →
    to_tunnel w = [] → to_upstream w = [] →
    fate st c s (w, Ok tt, update_entry r (with_ddos d) s)
(** One upstream. *)
| fate_proxied head host method path rt addr w o :
    routed st c head host method path → route_for st host rt →
    parse_upstream_addr (pr_upstream_url rt) = Ok addr → c_connect c = Connected →
    replies w = [] → to_tunnel w = [] →
    to_upstream w = [(addr, inject_forwarding_headers head (c_peer_ip c) (c_https c))] →
    fate st c s (w, o, s)
(** One tunnel: only its client is written to and only its entry changes. *)
| fate_tunnelled head host method path r e d w o s' :
    routed st c head host method path → no_route_for st host → addressed st host s r e →
    t_paused e = false → DDoS.check (t_ddos e) (c_instant c) = (true, d) →
    replies w = [] → to_upstream w = [] →
    to_tunnel w = DataFrame (t_mux e) (NewConn (c_peer c))
                  :: (if c_preamble_ok c
                      then [DataBytes (t_mux e)
                              (inject_forwarding_headers head (c_peer_ip c) (c_https c))]
                      else []) →
    set_heap (heap s) s' = s → (∀ r', r' ≠ r → heap s' !! r' = heap s !! r') →
    fate st c s (w, o, s').

(** ** Lemmas: the tests on a request *)

Lemma is_health_spec method path : is_health method path = true ↔ health_request method path.
Proof.
  unfold is_health, health_request. rewrite andb_true_iff, orb_true_iff, !bool_decide_eq_true. done.
Qed.

Lemma too_large_spec st head :
  match too_large (app_max_body_bytes st) head with
  | Some _ => oversized st head
  | None => ¬ oversized st head
  end.
Proof.
  unfold too_large, oversized. destruct (Z.ltb_spec 0 (app_max_body_bytes st)).
  - destruct (parse_content_length head) as [cl|]; [|naive_solver].
    destruct (Z.ltb_spec (app_max_body_bytes st) cl); [by exists cl|]. intros (n & [= <-] & ?). lia.
  - intros (n & _ & ?). lia.
Qed.

Lemma find_route_spec st host :
  match find_route (routes (app_store st)) host with
  | Some url => ∃ rt, route_for st host rt ∧ pr_upstream_url rt = url
  | None => no_route_for st host
  end.
Proof.
  unfold route_for, no_route_for. induction (routes (app_store st)) as [|x rs IH]; cbn [find_route].
  { by intros rt ?%elem_of_nil. }
  assert (Hx : pr_enabled x && bool_decide (to_lowercase (pr_domain x) = host_only host) = true
               ↔ serves_host x host)
    by (unfold serves_host; by rewrite andb_true_iff, bool_decide_eq_true).
  destruct (pr_enabled x && _).
  { exists x. split; [|done]. exists [], rs. split_and!; [done|by apply Hx|].
    by intros ? ?%elem_of_nil. }
  assert (Hno : ¬ serves_host x host) by (intros F; by apply Hx in F).
  destruct (find_route rs host) as [url|].
  - destruct IH as (rt & (b & a & -> & Hrt & Hb) & Hu). exists rt. split; [|done].
    exists (x :: b), a. split_and!; [done|done|]. intros y [->|Hy]%elem_of_cons; auto.
  - intros rt [->|Hrt]%elem_of_cons; auto.
Qed.

Lemma find_subdomain_spec st host s sub :
  find_subdomain st host s = Some sub ↔ name_for st host s sub.
Proof.
  unfold find_subdomain, name_for, extract_subdomain.
  destruct (custom_domains s !! host_only host) as [x|]; [naive_solver|]. split.
  - intros E%strip_suffix_spec. by right.
  - intros [?|[_ ->]]; [done|]. apply strip_suffix_app.
Qed.

Lemma lookup_tunnel_spec sub s r e :
  lookup_tunnel sub s = Some (r, e) ↔ tunnels s !! sub = Some r ∧ heap s !! r = Some e.
Proof.
  unfold lookup_tunnel. destruct (tunnels s !! sub) as [r0|]; cbn; [|naive_solver].
  destruct (heap s !! r0) eqn:E; cbn; naive_solver.
Qed.

(** ** Lemmas: forwarding to a tunnel *)

(** A run that writes no entry but [r], answers nothing and reaches no upstream. *)
Definition serves (r : nat) (m : M unit) : Prop :=
  ∀ s, let '(w, _, s') := m s in
       set_heap (heap s) s' = s ∧ (∀ r', r' ≠ r → heap s' !! r' = heap s !! r')
       ∧ replies w = [] ∧ to_upstream w = [].

Lemma serves_pure r m : (∀ s, let '(w, _, s') := m s in s' = s ∧ replies w = [] ∧ to_upstream w = [])
  → serves r m.
Proof.
  intros Hm s. pose proof (Hm s) as Hs. destruct (m s) as [[w o] s'].
  destruct Hs as (-> & ? & ?). split_and!; [by destruct s|done..].
Qed.

Lemma serves_update r f : serves r (modify (update_entry r f)).
Proof.
  intros s. split_and!; [by destruct s| |done|done]. intros r' Hr. by apply heap_update_ne.
Qed.

Lemma serves_bind r m (k : unit → M unit) : serves r m → (∀ x, serves r (k x)) → serves r (m ≫= k).
Proof.
  intros Hm Hk s. rewrite bind_run. pose proof (Hm s) as Hs. destruct (m s) as [[w [x|e]] s1].
  - specialize (Hk x s1). destruct (k x s1) as [[w' o] s2].
    destruct Hs as (E1 & F1 & R1 & U1), Hk as (E2 & F2 & R2 & U2). split_and!.
    + rewrite <-E1. rewrite <-E2. by destruct s2.
    + intros r' Hr. by rewrite F2, F1.
    + unfold replies in *. by rewrite omap_app, R1, R2.
    + unfold to_upstream in *. by rewrite omap_app, U1, U2.
  - done.
Qed.

Lemma serves_when r b m : serves r m → serves r (when b m).
Proof. intros. destruct b; [done|]. apply serves_pure. by intros s. Qed.

Lemma serves_check_write r ok : serves r (check_write ok).
Proof. destruct ok; apply serves_pure; by intros s. Qed.

Lemma serves_perform r w : replies w = [] → to_upstream w = [] → serves r (perform w).
Proof. intros. apply serves_pure. by intros s. Qed.

Lemma forward_http_serves c head method path host sub mux r :
  serves r (forward_http c head method path host sub mux r).
Proof.
  unfold forward_http. destruct (counted (c_copied c)) as [n_in n_out].
  repeat first
    [ apply serves_bind; [|intros []] | apply serves_check_write | apply serves_when
    | apply serves_update | by apply serves_perform ].
Qed.

Lemma forward_http_to_tunnel c head method path host sub mux r s :
  head ≠ [] →
  to_tunnel (forward_http c head method path host sub mux r s).1.1
  = DataFrame mux (NewConn (c_peer c))
    :: (if c_preamble_ok c
        then [DataBytes mux (inject_forwarding_headers head (c_peer_ip c) (c_https c))] else []).
Proof.
  intros Hne. unfold forward_http. rewrite (bool_decide_false (head = [])) by done.
  destruct (counted (c_copied c)) as [n_in n_out].
  destruct (c_preamble_ok c), (c_head_ok c), (is_websocket_upgrade head); reflexivity.
Qed.

(** ** The theorem *)

Lemma answered_fate st c s status (m : M unit) w :
  refusal st c s status → m s = (w, Ok tt, s) →
  (∃ rest, replies w = [§"HTTP/1.1 " ++ status ++ crlf ++ rest]) →
  to_tunnel w = [] → to_upstream w = [] → fate st c s (m s).
Proof. intros Hr -> [rest Hw] Ht Hu. by eapply fate_answered. Qed.

Lemma route_proxy_fate st c s head host method path rt :
  routed st c head host method path → route_for st host rt →
  fate st c s (route_proxy c head method path host (pr_upstream_url rt) s).
Proof.
  intros Hq Hrt. unfold route_proxy.
  destruct (parse_upstream_addr (pr_upstream_url rt)) as [addr|e] eqn:Eu.
  2:{ eapply answered_fate; [|reflexivity|by eexists|done|done].
      eapply refusal_upstream; [done|done|]. left. by rewrite Eu. }
  destruct (c_connect c) eqn:Ec.
  - assert (E : ∃ w o, (perform [Upstream addr (inject_forwarding_headers head (c_peer_ip c) (c_https c))];;
        check_write (c_head_ok c);;
        log_push c method path host (§"proxy:" ++ pr_upstream_url rt) 0;;
        when (is_websocket_upgrade head) (perform [Metric inc_ws_connections]);;
        when (is_websocket_upgrade head) (perform [Metric dec_ws_connections])) s = (w, o, s)
      ∧ replies w = [] ∧ to_tunnel w = []
      ∧ to_upstream w = [(addr, inject_forwarding_headers head (c_peer_ip c) (c_https c))])
      by (destruct (c_head_ok c), (is_websocket_upgrade head); by repeat eexists).
    destruct E as (w & o & E & Hrep & Ht & Hu). cbv zeta. rewrite E. by eapply fate_proxied.
  - eapply answered_fate; [|reflexivity|by eexists|done|done].
    eapply refusal_upstream; [done|done|by right].
  - eapply answered_fate; [|reflexivity|by eexists|done|done].
    eapply refusal_slow; [done|done|done|by rewrite Eu].
Qed.

Lemma route_tunnel_fate st c s head host method path sub r e :
  routed st c head host method path → no_route_for st host → addressed st host s r e →
  fate st c s (route_tunnel c head method path host sub r e s).
Proof.
  intros Hq Hno Ha. unfold route_tunnel. destruct (t_paused e) eqn:Ep.
  { eapply answered_fate; [|reflexivity|by eexists|done|done]. by eapply refusal_paused. }
  destruct (DDoS.check (t_ddos e) (c_instant c)) as [[] d] eqn:Ed; rewrite bind_run; cbn [modify].
  - assert (Hne : head ≠ []).
    { destruct Hq as ((_ & _ & Hhost & _) & _). intros ->. by vm_compute in Hhost. }
    pose proof (serves_bind r _ _ (serves_update r (with_ddos d))
      (λ _, forward_http_serves c head method path host sub (t_mux e) r) s) as HS.
    rewrite bind_run in HS. cbn [modify] in HS.
    pose proof (forward_http_to_tunnel c head method path host sub (t_mux e) r
      (update_entry r (with_ddos d) s) Hne) as HT.
    destruct (forward_http _ _ _ _ _ _ _ _ _) as [[w o] s']. cbn [app fst] in *.
    destruct HS as (Hs & Hh & Hr & Hu). by eapply fate_tunnelled.
  - unfold ddos_blocked. destruct (DDoS.challenge_mode d);
      (eapply fate_limited; [done..|reflexivity|done|done]).
Qed.

(** C11: what becomes of a public connection, whatever its peer sends.  Either
    the relay says nothing, and then the peer's country is blocked or the head
    never came; or the peer gets one answer, of the status its case asks for
    (431, 400, 200 for [/health], 413, 502, 504, 503, or 429 from the tunnel's
    protection), and nothing is handed on; or one upstream gets the request,
    that of the first enabled route for the host; or the client of one tunnel
    gets it, that of the unpaused tunnel the host stands for, on its own mux,
    with the peer's address first and the head with the relay's headers after
    it.  In no case does any entry change but that tunnel's, nor the registry,
    the ports, the custom domains or the rate limiter. *)
Theorem route_http_fate st c s : fate st c s (route_http st c s).
Proof.
  unfold route_http. destruct (geo_is_blocked _ _ _).1 eqn:Eg.
  { apply fate_silent; [by left|done..]. }
  destruct (read_head (c_reads c) []) as [head eoh] eqn:Eh.
  destruct eoh; try (apply fate_silent; [right; rewrite Eh; set_solver|done..]).
  2:{ eapply answered_fate; [by eapply refusal_head|reflexivity|by eexists|done|done]. }
  destruct (parse_host_header head) as [host|] eqn:Ehost.
  2:{ eapply answered_fate; [by eapply refusal_host|reflexivity|by eexists|done|done]. }
  unfold route_head. destruct (parse_request_line head) as [method path] eqn:El.
  assert (Hq : request st c head host method path) by done.
  pose proof (is_health_spec method path) as HH. destruct (is_health method path).
  { eapply answered_fate; [eapply refusal_health; [done|by apply HH]|reflexivity|by eexists|done|done]. }
  assert (Hnh : ¬ health_request method path) by (intros F; by apply HH in F).
  pose proof (too_large_spec st head) as HB. destruct (too_large _ head) as [cl|].
  { eapply answered_fate; [by eapply refusal_body|reflexivity|by eexists|done|done]. }
  assert (Hrt : routed st c head host method path) by done.
  pose proof (find_route_spec st host) as HR. destruct (find_route _ host) as [url|].
  { destruct HR as (rt & HR & <-). by apply route_proxy_fate. }
  pose proof (find_subdomain_spec st host s) as HN.
  destruct (find_subdomain st host s) as [sub|].
  - pose proof (lookup_tunnel_spec sub s) as HL. destruct (lookup_tunnel sub s) as [[r e]|].
    + apply (route_tunnel_fate st); [done|done|]. exists sub. split; [by apply HN|by apply HL].
    + eapply answered_fate; [|reflexivity|by eexists|done|done].
      eapply refusal_unknown; [done|done|]. intros r e (sub' & Hn & Ht).
      apply HN in Hn. injection Hn as ->. by apply HL in Ht.
  - eapply answered_fate; [|reflexivity|by eexists|done|done].
    eapply refusal_unknown; [done|done|]. intros r e (sub' & Hn & _). by apply HN in Hn.
Qed.

(** A static route for the host takes the connection from the tunnels. *)
Lemma routed_not_tunnelled st c s head host :
  read_head (c_reads c) [] = (head, Complete) → parse_host_header head = Some host →
  find_route (routes (app_store st)) host ≠ None → to_tunnel (route_http st c s).1.1 = [].
Proof.
  intros Hread Hhost Hroute. unfold route_http. destruct (geo_is_blocked _ _ _).1; [done|].
  rewrite Hread, Hhost. unfold route_head. destruct (parse_request_line head) as [method path].
  destruct (is_health method path); [done|]. destruct (too_large _ _); [done|].
  destruct (find_route _ host); [|done]. unfold route_proxy.
  destruct (parse_upstream_addr _); [|done]. destruct (c_connect c); [|done..].
  by destruct (c_head_ok c), (is_websocket_upgrade head).
Qed.
End routing.

(** ** Lemmas: the request of a browser *)

(** The authority of a tunnel's URL, and the request a browser sends for a
    path of it. *)
Definition authority (url : str) : str :=
  match strip_prefix §"https://" url with
  | Some a => a
  | None => default url (strip_prefix §"http://" url)
  end.
Definition get_request (path host : str) : str :=
  §"GET " ++ path ++ §" HTTP/1.1" ++ crlf ++ §"Host: " ++ host ++ crlf ++ crlf.

Lemma url_authority base hp hsp sub :
  ∃ port, authority (http_url base hp hsp sub) = sub ++ §"." ++ base ++ port
          ∧ (port = [] ∨ ∃ n, port = §":" ++ show n).
Proof.
  unfold http_url. destruct hsp as [p|].
  - destruct (p =? 443).
    + exists []. rewrite app_nil_r. by split; [|left].
    + exists (§":" ++ show p). by split; [|right; exists p].
  - destruct (hp =? 80).
    + exists []. rewrite app_nil_r. by split; [|left].
    + exists (§":" ++ show hp). by split; [|right; exists hp].
Qed.

Lemma before_colon_port name port :
  (":"%char ∉ name) → (port = [] ∨ ∃ n, port = §":" ++ show n) → before_colon (name ++ port) = name.
Proof.
  intros Hn [-> | [n ->]]; unfold before_colon.
  - by rewrite app_nil_r, head_split_none.
  - change (§":" ++ show n) with (":"%char :: show n). by rewrite head_split_char.
Qed.

Lemma name_char_plain c : name_char c = true → plain c = true ∧ c ≠ ":"%char.
Proof. destruct c as [[] [] [] [] [] [] [] []]; vm_compute; intuition congruence. Qed.

Lemma name_plain sub :
  validate_subdomain sub = Ok tt → forallb plain sub = true ∧ (":"%char ∉ sub).
Proof.
  intros H. assert (Hc : forallb name_char sub = true).
  { destruct (forallb name_char sub) eqn:E; [done|]. unfold validate_subdomain in H.
    rewrite E in H. by destruct (_ || _) in H. }
  split.
  - eapply forallb_impl; [|exact Hc]. intros c Hn. by apply name_char_plain.
  - intros Hin. rewrite forallb_forall in Hc. apply list_elem_of_In, Hc, name_char_plain in Hin.
    by destruct Hin.
Qed.

Section browser.
Variables (path host : str).
Hypothesis Hpath : forallb plain path = true.
Hypothesis Hhost : forallb plain host = true.

Lemma get_request_utf8 : utf8_valid (get_request path host) = true.
Proof.
  apply utf8_ascii. unfold get_request. rewrite !forallb_app.
  by rewrite (plain_ascii path), (plain_ascii host).
Qed.

Lemma get_request_lines :
  split_crlf (get_request path host)
  = [§"GET " ++ path ++ §" HTTP/1.1"; §"Host: " ++ host; []; []].
Proof.
  assert (N : ∀ p l q : str, bool_decide (cr ∈ p) = false → bool_decide (cr ∈ q) = false →
              forallb plain l = true → cr ∉ p ++ l ++ q).
  { intros p l q Hp%bool_decide_eq_false Hq%bool_decide_eq_false Hl%plain_no_cr.
    rewrite !elem_of_app. tauto. }
  unfold get_request.
  replace (§"GET " ++ path ++ §" HTTP/1.1" ++ crlf ++ §"Host: " ++ host ++ crlf ++ crlf)
    with ((§"GET " ++ path ++ §" HTTP/1.1") ++ crlf ++ (§"Host: " ++ host ++ []) ++ crlf
          ++ [] ++ crlf ++ []) by (rewrite app_nil_r, <-!app_assoc; done).
  rewrite !split_crlf_app; [by rewrite app_nil_r|..].
  - apply not_elem_of_nil.
  - by apply N.
  - by apply N.
Qed.

Lemma get_request_line : parse_request_line (get_request path host) = (§"GET", path).
Proof.
  unfold parse_request_line, from_utf8. rewrite get_request_utf8, get_request_lines.
  change (§"GET " ++ path ++ §" HTTP/1.1") with (§"GET" ++ " "%char :: path ++ §" HTTP/1.1").
  change (path ++ §" HTTP/1.1") with (path ++ " "%char :: §"HTTP/1.1").
  cbn [splitn]. rewrite find_char_app by (by apply (bool_decide_unpack _)).
  rewrite find_char_app; [done|]. intros Hin. rewrite forallb_forall in Hpath.
  apply list_elem_of_In, Hpath in Hin. discriminate.
Qed.

(** The first line is a header only by its name, which begins with a [G]. *)
Lemma first_line_name name value :
  header_of (§"GET " ++ path ++ §" HTTP/1.1") = Some (name, value) →
  eq_ignore_ascii_case name §"host" = false
  ∧ eq_ignore_ascii_case name §"content-length" = false.
Proof.
  unfold header_of. change (§"GET " ++ path ++ §" HTTP/1.1") with
    ("G"%char :: §"ET " ++ path ++ §" HTTP/1.1"). cbn [find_char].
  rewrite bool_decide_false by done.
  destruct (find_char ":"%char (§"ET " ++ path ++ §" HTTP/1.1")) as [[a b]|]; [|done].
  intros [= <- _]. by split.
Qed.

Lemma get_request_host : parse_host_header (get_request path host) = Some host.
Proof.
  unfold parse_host_header, from_utf8. rewrite get_request_utf8. cbn [mbind option_bind].
  rewrite get_request_lines. cbn [find_host].
  change (§"Host: " ++ host) with (§"Host" ++ ":"%char :: " "%char :: host).
  assert (E : header_of (§"Host" ++ ":"%char :: " "%char :: host) = Some (§"Host", " "%char :: host))
    by (apply header_of_app, (bool_decide_unpack _); done).
  rewrite E, trim_blank by done.
  destruct (header_of (§"GET " ++ _)) as [[n v]|] eqn:F; [|done].
  apply first_line_name in F as [-> _]. done.
Qed.

Lemma get_request_length : parse_content_length (get_request path host) = None.
Proof.
  unfold parse_content_length, from_utf8. rewrite get_request_utf8. cbn [mbind option_bind].
  rewrite get_request_lines. cbn [find_content_length].
  change (§"Host: " ++ host) with (§"Host" ++ ":"%char :: " "%char :: host).
  assert (E : header_of (§"Host" ++ ":"%char :: " "%char :: host) = Some (§"Host", " "%char :: host))
    by (apply header_of_app, (bool_decide_unpack _); done).
  rewrite E. destruct (header_of (§"GET " ++ _)) as [[n v]|] eqn:F; [|done].
  apply first_line_name in F as [_ ->]. done.
Qed.

Lemma get_request_read : read_head [Bytes (get_request path host)] [] = (get_request path host, Complete).
Proof.
  cbn [read_head app]. assert (E : contains_str head_end (get_request path host) = true).
  { unfold get_request. rewrite !app_assoc, <-(app_assoc _ crlf crlf).
    rewrite <-(app_nil_r (crlf ++ crlf)). apply contains_str_app. }
  by rewrite E.
Qed.
End browser.

Section reach.
Context `{Unicode}.

(** Nothing stands between the peer and the tunnel registry. *)
Definition open_way (st : AppState) (c : conn) (host : str) (s : Relay) : Prop :=
  (geo_is_blocked (app_geoip st) (c_ip c) 0).1 = false
  ∧ find_route (routes (app_store st)) host = None
  ∧ custom_domains s !! host_only host = None.

(** The entry after a connection that brought [n] bytes of head. *)
Definition served (c : conn) (path : str) (n : Z) (e : TunnelEntry) : TunnelEntry :=
  let '(n_in, n_out) := counted (c_copied c) in
  log_request {| rq_timestamp := c_now c; rq_method := §"GET"; rq_path := path;
                 rq_status_code := 0; rq_duration_ms := wrap 64 (c_nanos c / 1000000);
                 rq_client_ip := c_peer_ip c; rq_bytes := u64_add n_in n_out |}
    (with_bytes n_in n_out (with_bytes n 0 e)).

Lemma forward_http_run c head method path host sub mux r e s :
  heap s !! r = Some e → c_preamble_ok c = true → c_head_ok c = true → head ≠ [] →
  let fwd := inject_forwarding_headers head (c_peer_ip c) (c_https c) in
  let '(w, o, s') := forward_http c head method path host sub mux r s in
  o = Ok tt ∧ to_tunnel w = [DataFrame mux (NewConn (c_peer c)); DataBytes mux fwd] ∧ replies w = []
  ∧ (method = §"GET" → heap s' !! r = Some (served c path (Z.of_nat (length fwd)) e)).
Proof.
  intros Hr Hp Hh Hne. unfold forward_http, served. rewrite Hp, Hh.
  rewrite (bool_decide_false (head = [])) by done.
  destruct (counted (c_copied c)) as [n_in n_out].
  destruct (is_websocket_upgrade head); cbn -[heap update_entry inject_forwarding_headers Z.of_nat];
    (split_and!; [done..|]); intros ->; rewrite !heap_update, Hr; done.
Qed.

(** The address the relay gives out works.  For every valid name and every
    configuration of the ports, the request a browser makes for the URL of the
    [Registered] frame finds the tunnel of that name: the client gets the
    connection and the request with the relay's headers, the peer gets no answer
    of the relay's own, and the entry counts the bytes and logs the request. *)
Theorem tunnel_url_reaches st c s ctx sub path r e :
  app_base_domain st = base_domain ctx → validate_subdomain sub = Ok tt →
  forallb plain (base_domain ctx) = true → (":"%char ∉ base_domain ctx) →
  forallb plain path = true → is_health §"GET" path = false →
  let host := authority (http_url (base_domain ctx) (http_port ctx) (https_port ctx) sub) in
  read_head (c_reads c) [] = (get_request path host, Complete) →
  open_way st c host s → lookup_tunnel sub s = Some (r, e) →
  t_paused e = false → DDoS.enabled (t_ddos e) = false →
  c_preamble_ok c = true → c_head_ok c = true →
  let fwd := inject_forwarding_headers (get_request path host) (c_peer_ip c) (c_https c) in
  let '(w, o, s') := route_http st c s in
  o = Ok tt ∧ to_tunnel w = [DataFrame (t_mux e) (NewConn (c_peer c)); DataBytes (t_mux e) fwd]
  ∧ replies w = [] ∧ heap s' !! r = Some (served c path (Z.of_nat (length fwd)) e).
Proof.
  intros Hbase Hsub Hplain Hcolon Hpath Hhealth host Hread (Hgeo & Hroute & Hcustom) Hlook Hpause
    Hddos Hp Hh fwd.
  destruct (name_plain sub Hsub) as [Hsubp Hsubc].
  destruct (url_authority (base_domain ctx) (http_port ctx) (https_port ctx) sub) as (port & Hu & Hport).
  fold host in Hu.
  assert (Hhost : forallb plain host = true).
  { rewrite Hu, !forallb_app, Hsubp, Hplain. destruct Hport as [-> | [n ->]]; [done|].
    rewrite forallb_app, show_plain. done. }
  assert (Hname : before_colon host = sub ++ §"." ++ base_domain ctx).
  { rewrite Hu, !app_assoc. apply before_colon_port; [|done].
    rewrite !elem_of_app. intros [[?|Hd]|?]; [done| |done].
    apply list_elem_of_singleton in Hd. discriminate. }
  unfold route_http. rewrite Hgeo, Hread, get_request_host by done.
  unfold route_head. rewrite get_request_line, Hhealth by done.
  unfold too_large. rewrite get_request_length by done.
  replace (if 0 <? app_max_body_bytes st then None else None) with (@None Z) by (by case_match).
  rewrite Hroute. unfold find_subdomain, extract_subdomain.
  rewrite Hcustom, Hname, Hbase, strip_suffix_app, Hlook. unfold route_tunnel. rewrite Hpause.
  assert (Hd : DDoS.check (t_ddos e) (c_instant c) = (true, t_ddos e))
    by (unfold DDoS.check; by rewrite Hddos).
  rewrite Hd, bind_run. cbn [modify].
  assert (Hr : heap s !! r = Some e).
  { unfold lookup_tunnel in Hlook. destruct (tunnels s !! sub) as [r'|]; [|done].
    cbn in Hlook. destruct (heap s !! r') eqn:E; [|done]. cbn in Hlook. congruence. }
  pose proof (forward_http_run c (get_request path host) §"GET" path host sub (t_mux e) r e
    (update_entry r (with_ddos (t_ddos e)) s)) as HF.
  destruct (forward_http _ _ _ _ _ _ _ _ _) as [[w o] s'].
  destruct HF as (-> & Hw & Hrep & Hheap); [|done|done|done|].
  { rewrite heap_update, Hr. by destruct e. }
  cbn [app]. split_and!; [done|done|done|by apply Hheap].
Qed.
End reach.

(** A relay without routes, and the connection of a browser. *)
Definition demo_app : AppState :=
  {| app_base_domain := §"tunnel.example.com"; app_store := store_default;
     app_geoip := geoip_disabled; app_max_body_bytes := 0; app_version := §"0.2.0" |}.
Definition demo_conn (request : str) : conn :=
  {| c_ip := V4 0xC0000209; c_peer := §"192.0.2.9:4711"; c_peer_ip := §"192.0.2.9";
     c_https := false; c_reads := [Bytes request]; c_now := 1700000000; c_instant := 0;
     c_uptime := 10; c_ws_active := 0; c_connect := Unreachable; c_preamble_ok := true;
     c_head_ok := true; c_copied := Some (100, 2000); c_nanos := 3000000 |}.

Lemma tunnel_url_reaches_witness :
  let e := entry_new 0 §"app" 1000 0 §"192.0.2.1" in
  let request := get_request §"/" §"app.tunnel.example.com" in
  let '(w, _, _) := route_http (H := ascii_only) demo_app (demo_conn request) (demo_relay e) in
  to_tunnel w = [DataFrame 0 (NewConn §"192.0.2.9:4711");
                 DataBytes 0 (inject_forwarding_headers request §"192.0.2.9" false)].
Proof.
  intros e request.
  pose proof (tunnel_url_reaches (H := ascii_only) demo_app (demo_conn request) (demo_relay e)
    demo_ctx §"app" §"/" 0%nat e eq_refl eq_refl eq_refl) as HT.
  destruct (route_http _ _ _) as [[w o] s']. apply HT; try reflexivity.
  - by apply (bool_decide_unpack _).
  - by split_and!.
Defined.

(** ** The body limit *)

Lemma before_colon_in host c : c ∈ before_colon host → c ∈ host.
Proof.
  unfold before_colon. induction host as [|d host IH]; [done|]. cbn [split_char].
  case_bool_decide; cbn [head default]; [by intros ?%elem_of_nil|].
  destruct (split_char ":"%char host); cbn in *; rewrite !elem_of_cons; [intros [->|[]%elem_of_nil]; by left|].
  intros [->|Hc]; [by left|right; auto].
Qed.

Section limit.
Context `{Unicode}.

#[local] Instance over_limit_dec (o : option Z) limit :
  Decision (∃ n, o = Some n ∧ limit < n).
Proof.
  destruct o as [n|]; [destruct (decide (limit < n))|]; [left|right|right]; naive_solver lia.
Defined.

(** The same relay without a limit. *)
Definition unlimited (st : AppState) : AppState :=
  {| app_base_domain := app_base_domain st; app_store := app_store st;
     app_geoip := app_geoip st; app_max_body_bytes := 0; app_version := app_version st |}.

(** The body limit is a test of the declared length only.  Over the limit
    the peer gets 413 and nothing is handed on; any other head, one without a
    readable [Content-Length] included (a chunked body, or a length that is no
    [u64]), is routed as if there were no limit: nothing later looks at it. *)
Theorem body_limit_is_declared st c s head host method path :
  (geo_is_blocked (app_geoip st) (c_ip c) 0).1 = false →
  read_head (c_reads c) [] = (head, Complete) → parse_host_header head = Some host →
  parse_request_line head = (method, path) → is_health method path = false →
  0 < app_max_body_bytes st →
  ∃ body, route_http st c s
  = if bool_decide (∃ n, parse_content_length head = Some n ∧ app_max_body_bytes st < n)
    then ([Reply (error_response §"413 Content Too Large" body (c_https c))], Ok tt, s)
    else route_http (unlimited st) c s.
Proof.
  intros Hgeo Hread Hhost Hline Hhealth Hlimit. unfold route_http. cbn [app_geoip unlimited].
  rewrite Hgeo, Hread, Hhost. unfold route_head. rewrite Hline, Hhealth. unfold too_large.
  cbn [app_max_body_bytes app_store unlimited]. rewrite (proj2 (Z.ltb_lt _ _) Hlimit).
  destruct (parse_content_length head) as [n|]; [destruct (Z.ltb_spec (app_max_body_bytes st) n)|].
  - eexists. by rewrite bool_decide_true by eauto.
  - exists []. rewrite bool_decide_false; [done|]. intros (m & [= <-] & Hm). lia.
  - exists []. rewrite bool_decide_false; [done|]. by intros (m & ? & _).
Qed.

(** A request is refused for the bytes of its body.  The head is parsed
    together with whatever came in the same reads, and must be text as a whole:
    when the first bytes of an upload are not UTF-8 the peer is told that the
    [Host] header is missing, whether it is or not. *)
Theorem binary_body_refused st c s head :
  (geo_is_blocked (app_geoip st) (c_ip c) 0).1 = false →
  read_head (c_reads c) [] = (head, Complete) → utf8_valid head = false →
  route_http st c s
  = ([Reply (error_response §"400 Bad Request" (§"missing Host: header" ++ [lf]) (c_https c))],
     Ok tt, s).
Proof.
  intros Hgeo Hread Hutf. unfold route_http. rewrite Hgeo, Hread.
  unfold parse_host_header, from_utf8. by rewrite Hutf.
Qed.

(** The names of tunnels are looked up with the letters the peer sends.
    A tunnel registered under a name with an upper-case letter, which
    registration accepts, is never found under the lower-case [Host] that a
    browser sends for its URL. *)
Theorem upper_case_unreachable host base sub :
  forallb (λ c, negb (is_upper c)) host = true → existsb is_upper sub = true →
  extract_subdomain host base ≠ Some sub.
Proof.
  intros Hlow Hup E. unfold extract_subdomain, strip_suffix in E.
  destruct (ends_with _ _); [|done]. injection E as E.
  apply existsb_exists in Hup as (c & Hc & Hu). rewrite <-E in Hc.
  assert (Hc' : c ∈ host).
  { apply list_elem_of_In in Hc. apply elem_of_take in Hc as (i & Hi & _).
    by apply before_colon_in, (list_elem_of_lookup_2 _ i). }
  rewrite forallb_forall in Hlow. apply list_elem_of_In, Hlow in Hc'. by rewrite Hu in Hc'.
Qed.
End limit.

Definition upload (length_line body : str) : str :=
  §"POST /up HTTP/1.1" ++ crlf ++ §"Host: app.tunnel.example.com" ++ crlf ++ length_line ++ crlf
  ++ crlf ++ body.
Definition limited_app : AppState :=
  {| app_base_domain := §"tunnel.example.com"; app_store := store_default;
     app_geoip := geoip_disabled; app_max_body_bytes := 10; app_version := §"0.2.0" |}.

Lemma body_limit_is_declared_witness :
  let e := entry_new 0 §"app" 1000 0 §"192.0.2.1" in
  let c := demo_conn (upload §"Transfer-Encoding: chunked" []) in
  route_http (H := ascii_only) limited_app c (demo_relay e)
  = route_http (H := ascii_only) (unlimited limited_app) c (demo_relay e).
Proof.
  intros e c.
  destruct (body_limit_is_declared (H := ascii_only) limited_app c (demo_relay e)
    (upload §"Transfer-Encoding: chunked" []) §"app.tunnel.example.com" §"POST" §"/up")
    as [body ->]; try reflexivity.
Defined.

Lemma binary_body_refused_witness :
  let c := demo_conn (upload §"Content-Length: 1" [chr 255]) in
  (route_http (H := ascii_only) demo_app c demo_empty).1.1
  = [Reply (error_response §"400 Bad Request" (§"missing Host: header" ++ [lf]) false)].
Proof.
  intros c. rewrite (binary_body_refused (H := ascii_only) demo_app c demo_empty
    (upload §"Content-Length: 1" [chr 255])); reflexivity.
Defined.

Lemma upper_case_unreachable_witness :
  validate_subdomain §"App" = Ok tt
  ∧ extract_subdomain §"app.example.com" §"example.com" ≠ Some §"App".
Proof. split; [reflexivity|]. apply upper_case_unreachable; reflexivity. Defined.
