(* ===== verification/Admin.v ===== *)
(** * Admin: the management interface

    The handlers of [crates/seamless-relay/src/admin.rs] as functions of a typed
    request: each with the token check it begins with, if it has one, what it
    answers, what it does outside, and what it changes in the registry, the
    tunnels, the custom domains and the store; and the address filter in front
    of them.  The way from an HTTP request to a typed one is [Router].  The page
    of the interface is not modelled. *)

From S2P Require Import Prelude Text Json Cidr Codec Policy RateLimit Metrics Exposition.
From S2P Require Import AuditLog Backends Tunnel HandleClient Http Store Ingress Cloudflare.
Local Open Scope Z_scope.

(** ** Configuration, inputs, state *)

Record AdminConfig := {
  ad_token : option str;
  ad_cidrs : list (Z * Z);
  ad_base_domain : str;
  ad_http_port : Z;
  ad_https_port : option Z;
  ad_webhook_url : option str;
  ad_allow_custom_domains : bool;
  ad_custom_domain_allowlist : gset str;
  ad_status : list (str * Value);
  ad_version : str;
}.

(** What a handler reads of the clock, of the other parts of the relay and of
    the network: [a_connect] answers [tcp_health_check], [a_send] the requests of
    the Cloudflare client; [a_secret] is the secret drawn for a new tunnel. *)
Record admin_io := {
  a_now : Z;
  a_uptime : Z;
  a_uuid : str;
  a_audit_ring : list Value;
  a_history : list Value;
  a_logs : list LogEntry;
  a_metrics : Metrics;
  a_tcp_passthrough_active : Z;
  a_connect : str → bool;
  a_send : cf_request → option cf_reply;
  a_secret : str;
}.

Record World := {
  relay : Relay;
  store : Store;
}.
Definition set_relay (v : Relay) (w : World) : World := {| relay := v; store := store w |}.
Definition set_store (v : Store) (w : World) : World := {| relay := relay w; store := v |}.

Inductive content :=
| NoBody
| Page
| PlainText (text : str)
| JsonBody (v : Value).

(** A status and a body; [None] instead of a response is a panic. *)
Record response := {
  rs_status : Z;
  rs_body : content;
}.
Definition json_body (r : response) : option Value :=
  match rs_body r with JsonBody v => Some v | _ => None end.
Definition handler : Type := World → list effect * option response * World.

Definition answer (status : Z) (body : content) : handler :=
  λ w, ([], Some {| rs_status := status; rs_body := body |}, w).
Definition error_body (msg : str) : content := JsonBody (object [(§"error", Str msg)]).
Definition ok_json (v : Value) : handler := answer 200 (JsonBody v).
Definition bad_request (msg : str) : handler := answer 400 (error_body msg).
Definition not_found : handler := answer 404 (error_body §"not found").
Definition err (msg : str) : handler := answer 500 (error_body msg).
Definition credentials_required : handler :=
  answer 422 (error_body
    §"credentials not configured — set CF API token and account ID in Settings").
Definition no_content : handler := answer 204 NoBody.

Definition with_effects (es : list effect) (h : handler) : handler :=
  λ w, let '(es', r, w') := h w in (es ++ es', r, w').

(** [let Some(entry) = tunnels.get(&id).cloned() else { not_found }] *)
Definition with_entry (id : str) (k : nat → TunnelEntry → handler) : handler := λ w,
  match lookup_tunnel id (relay w) with
  | Some (r, e) => k r e w
  | None => not_found w
  end.

(** A store through the reference, then an answer that reads the new entry. *)
Definition updating (r : nat) (f : TunnelEntry → TunnelEntry) (h : handler) : handler :=
  λ w, h (set_relay (update_entry r f (relay w)) w).

(** ** Access *)

Section admin.
Context `{Unicode} `{ConstantTimeEq}.

(** [HeaderValue::to_str] *)
Definition visible_ascii (c : ascii) : bool :=
  ((32 <=? code c) && (code c <? 127)) || (code c =? 9).

(** [authorization] is the first such header of the request. *)
Definition check_admin_auth (authorization : option str) (expected : option str) : bool :=
  match expected with
  | None => true
  | Some tok =>
    match v ← authorization; if forallb visible_ascii v then strip_prefix §"Bearer " v else None with
    | Some t => ct_eq t tok =? 1
    | None => false
    end
  end.

Definition unauthorized : handler :=
  answer 401 (JsonBody (object [(§"error", Str §"invalid or missing admin token");
                            (§"hint", Str §"Authorization: Bearer <token>")])).

(** [if let Some(deny) = check_admin_auth(&headers, &s.admin_token) { return deny }],
    with which a handler begins. *)
Definition authorized (cfg : AdminConfig) (authorization : option str) (h : handler) : handler :=
  if check_admin_auth authorization (ad_token cfg) then h else unauthorized.

(** ** Proxy routes *)

Definition list_routes : handler := λ w, ok_json (Arr (route_to_value <$> routes (store w))) w.

Definition create_route (io : admin_io) (domain upstream_url : str) (enabled : bool) : handler :=
  let domain := to_lowercase (trim domain) in
  let upstream_url := trim upstream_url in
  if bool_decide (domain = []) || bool_decide (upstream_url = [])
  then bad_request §"domain and upstream_url required"
  else λ w,
    let route := {| pr_id := a_uuid io; pr_domain := domain; pr_upstream_url := upstream_url;
                    pr_enabled := enabled; pr_created_at := a_now io |} in
    if existsb (λ r, bool_decide (pr_domain r = domain)) (routes (store w))
    then answer 409 (error_body §"domain already exists") w
    else with_effects [SaveStore] (answer 201 (JsonBody (route_to_value route)))
           (set_store (set_routes (routes (store w) ++ [route]) (store w)) w).

(** [iter_mut().find(|r| r.id == id)]: the first route of the id. *)
Fixpoint update_first (id : str) (f : ProxyRoute → ProxyRoute) (rs : list ProxyRoute)
    : option (ProxyRoute * list ProxyRoute) :=
  match rs with
  | [] => None
  | r :: rest =>
    if bool_decide (pr_id r = id) then Some (f r, f r :: rest)
    else '(r', rest') ← update_first id f rest; Some (r', r :: rest')
  end.

Definition update_route (id domain upstream_url : str) (enabled : bool) : handler := λ w,
  let f r := {| pr_id := pr_id r; pr_domain := to_lowercase (trim domain);
                pr_upstream_url := trim upstream_url; pr_enabled := enabled;
                pr_created_at := pr_created_at r |} in
  match update_first id f (routes (store w)) with
  | Some (r, rs) =>
    with_effects [SaveStore] (ok_json (route_to_value r)) (set_store (set_routes rs (store w)) w)
  | None => not_found w
  end.

Definition delete_route (id : str) : handler := λ w,
  let rs := filter (λ r, pr_id r ≠ id) (routes (store w)) in
  let w' := set_store (set_routes rs (store w)) w in
  if (length rs <? length (routes (store w)))%nat
  then with_effects [SaveStore] no_content w'
  else answer 404 NoBody w'.

(** ** Tunnels *)

Definition is_tcp (e : TunnelEntry) : bool := starts_with §"tcp:" (t_subdomain e).
Definition tcp_port_text (e : TunnelEntry) : str :=
  trim_start_matches (length (t_subdomain e)) §"tcp:" (t_subdomain e).
Definition entry_url (cfg : AdminConfig) (e : TunnelEntry) : str :=
  http_url (ad_base_domain cfg) (ad_http_port cfg) (ad_https_port cfg) (t_subdomain e).
Definition entry_tcp_url (cfg : AdminConfig) (e : TunnelEntry) : str :=
  §"tcp://" ++ ad_base_domain cfg ++ §":" ++ tcp_port_text e.

(** The order of the list is that of a hash map. *)
Definition list_seamless_tunnels (cfg : AdminConfig) (auth : option str) (io : admin_io)
    : handler :=
  authorized cfg auth (
    λ w,
    let all := registered (relay w) in
    let http := (λ e, object [
        (§"subdomain", Str (t_subdomain e)); (§"url", Str (entry_url cfg e));
        (§"paused", Bool (t_paused e)); (§"connected_at", Int (t_connected_at e));
        (§"uptime_secs", Int (a_now io - t_connected_at e));
        (§"duration_secs", Int (a_now io - t_connected_at e));
        (§"client_ip", Str (t_client_ip e)); (§"bytes_in", Int (t_bytes_in e));
        (§"bytes_out", Int (t_bytes_out e)); (§"ddos_enabled", Bool (DDoS.enabled (t_ddos e)));
        (§"ddos_blocked", Int (DDoS.blocked_count (t_ddos e)))])
      <$> filter (λ e, is_tcp e = false) all in
    let tcp := (λ e, object [
        (§"key", Str (t_subdomain e)); (§"url", Str (entry_tcp_url cfg e));
        (§"connected_at", Int (t_connected_at e));
        (§"duration_secs", Int (a_now io - t_connected_at e));
        (§"client_ip", Str (t_client_ip e)); (§"bytes_in", Int (t_bytes_in e));
        (§"bytes_out", Int (t_bytes_out e))])
      <$> filter (λ e, is_tcp e = true) all in
    ok_json (object [(§"http", Arr http); (§"tcp", Arr tcp)]) w).

Definition tunnel_value (cfg : AdminConfig) (io : admin_io) (e : TunnelEntry) : Value :=
  if is_tcp e
  then object [
      (§"id", Str (t_subdomain e)); (§"tunnel_type", Str §"tcp");
      (§"url", Str (entry_tcp_url cfg e)); (§"connected_at", Int (t_connected_at e));
      (§"uptime_secs", Int (a_now io - t_connected_at e)); (§"client_ip", Str (t_client_ip e));
      (§"bytes_in", Int (t_bytes_in e)); (§"bytes_out", Int (t_bytes_out e));
      (§"paused", Bool (t_paused e))]
  else object [
      (§"id", Str (t_subdomain e)); (§"tunnel_type", Str §"http");
      (§"subdomain", Str (t_subdomain e)); (§"url", Str (entry_url cfg e));
      (§"connected_at", Int (t_connected_at e));
      (§"uptime_secs", Int (a_now io - t_connected_at e)); (§"client_ip", Str (t_client_ip e));
      (§"bytes_in", Int (t_bytes_in e)); (§"bytes_out", Int (t_bytes_out e));
      (§"paused", Bool (t_paused e)); (§"ddos_enabled", Bool (DDoS.enabled (t_ddos e)));
      (§"ddos_blocked", Int (DDoS.blocked_count (t_ddos e)));
      (§"ddos_rps", Int (DDoS.get_rps (t_ddos e)))].

Definition get_seamless_tunnel (cfg : AdminConfig) (auth : option str) (io : admin_io) (id : str)
    : handler :=
  authorized cfg auth (
    with_entry id (λ _ e, ok_json (tunnel_value cfg io e))).

(** The audit event and the webhook of one disconnection. *)
Definition disconnect_events (cfg : AdminConfig) (io : admin_io) (event : str) (e : TunnelEntry)
    : list effect :=
  let duration_secs := a_now io - t_connected_at e in
  audit (a_now io) event
    [(§"subdomain", Str (t_subdomain e)); (§"client_ip", Str (t_client_ip e));
     (§"duration_secs", Int duration_secs); (§"bytes_in", Int (t_bytes_in e));
     (§"bytes_out", Int (t_bytes_out e))]
  :: fire (ad_webhook_url cfg)
       (object [(§"event", Str event); (§"subdomain", Str (t_subdomain e));
                (§"client_ip", Str (t_client_ip e)); (§"duration_secs", Int duration_secs)]).

Definition admin_disconnect_tunnel (cfg : AdminConfig) (auth : option str) (io : admin_io) (id : str)
    : handler :=
  authorized cfg auth (
    with_entry id (λ r e,
      with_effects (disconnect_events cfg io §"tunnel.admin_disconnect" e)
        (updating r disconnect (answer 204 (JsonBody Null))))).

Definition admin_tunnel_stats (cfg : AdminConfig) (auth : option str) (io : admin_io) (id : str)
    : handler :=
  authorized cfg auth (
    with_entry id (λ _ e, ok_json (object [
      (§"subdomain", Str (t_subdomain e)); (§"client_ip", Str (t_client_ip e));
      (§"connected_at", Int (t_connected_at e));
      (§"duration_secs", Int (a_now io - t_connected_at e)); (§"bytes_in", Int (t_bytes_in e));
      (§"bytes_out", Int (t_bytes_out e)); (§"paused", Bool (t_paused e))]))).

Definition admin_pause_tunnel (cfg : AdminConfig) (auth : option str) (id : str) : handler :=
  authorized cfg auth (
    with_entry id (λ r _, updating r (with_paused true) (answer 204 (JsonBody Null)))).
Definition admin_resume_tunnel (cfg : AdminConfig) (auth : option str) (id : str) : handler :=
  authorized cfg auth (
    with_entry id (λ r _, updating r (with_paused false) (answer 204 (JsonBody Null)))).

Definition stats_history_handler (cfg : AdminConfig) (auth : option str) (io : admin_io)
    : handler :=
  authorized cfg auth (
    ok_json (object [(§"history", Arr (a_history io))])).

(** The entries of an address, with their references. *)
Definition matching (ip : str) (s : Relay) : list (nat * TunnelEntry) :=
  omap (λ kr, e ← heap s !! kr.2; if bool_decide (t_client_ip e = ip) then Some (kr.2, e) else None)
    (map_to_list (tunnels s)).

Definition admin_bulk_disconnect (cfg : AdminConfig) (auth : option str) (io : admin_io) (client_ip : str)
    : handler :=
  authorized cfg auth (
    let target_ip := trim client_ip in
    if bool_decide (target_ip = []) then bad_request §"client_ip is required"
    else λ w,
      let found := matching target_ip (relay w) in
      match found with
      | [] =>
        answer 404 (JsonBody (object [
          (§"error", Str (§"no active tunnels found for IP " ++ target_ip));
          (§"disconnected", Int 0)])) w
      | _ =>
        with_effects (mjoin ((λ re, disconnect_events cfg io §"tunnel.admin_bulk_disconnect" re.2)
                               <$> found))
          (ok_json (object [(§"disconnected", Int (Z.of_nat (length found)));
                            (§"client_ip", Str target_ip)]))
          (set_relay (foldl (λ s re, update_entry re.1 disconnect s) (relay w) found) w)
      end).

(** ** The audit log, health and status *)

Definition admin_audit_query (cfg : AdminConfig) (auth : option str) (io : admin_io) (since_ts : option Z) (limit : option nat)
    : handler :=
  authorized cfg auth (
    let limit := Nat.min (default 100%nat limit) 1024 in
    let events := query (a_audit_ring io) since_ts limit in
    ok_json (object [(§"count", Int (Z.of_nat (length events))); (§"events", Arr events)])).

Definition health_check (cfg : AdminConfig) (io : admin_io) : handler := λ w,
  ok_json (object [
    (§"status", Str §"ok"); (§"version", Str (ad_version cfg));
    (§"uptime_seconds", Int (a_uptime io));
    (§"tunnels_active", Int (Z.of_nat (size (tunnels (relay w)))));
    (§"ws_connections_active", Int (ws_connections_active (a_metrics io)));
    (§"tls_version", Str (match ad_https_port cfg with Some _ => §"TLS1.3" | None => §"none" end));
    (§"fips_mode", Bool false)]) w.

(** [ready_check] answers the same. *)
Definition ready_check (cfg : AdminConfig) (io : admin_io) : handler := health_check cfg io.

Definition metrics_handler (cfg : AdminConfig) (io : admin_io) : handler := λ w,
  answer 200 (PlainText (metrics_text
    {| g_version := ad_version cfg; g_uptime_secs := a_uptime io;
       g_tunnels_active := Z.of_nat (size (tunnels (relay w)));
       g_tcp_passthrough_active := a_tcp_passthrough_active io |} (a_metrics io))) w.

Definition get_status (cfg : AdminConfig) (io : admin_io) : handler :=
  ok_json (object (ad_status cfg ++ [(§"uptime_secs", Int (a_uptime io));
                                     (§"version", Str (ad_version cfg))])).

Definition log_value (l : LogEntry) : Value :=
  object [(§"ts", Int (log_ts l)); (§"method", Str (log_method l)); (§"path", Str (log_path l));
          (§"host", Str (log_host l)); (§"routed_to", Str (log_routed_to l));
          (§"status", Int (log_status l))].
(** Newest first. *)
Definition get_logs (cfg : AdminConfig) (auth : option str) (io : admin_io) : handler :=
  authorized cfg auth (
    ok_json (Arr (log_value <$> reverse (a_logs io)))).

(** The connections a look at the routes opens, one for each upstream that can
    be read. *)
Definition route_dials (r : ProxyRoute) : list effect :=
  match parse_upstream_addr (pr_upstream_url r) with Err _ => [] | Ok addr => [Dial addr] end.
Definition route_health (connect : str → bool) (r : ProxyRoute) : str * Value :=
  (pr_id r, Str (match parse_upstream_addr (pr_upstream_url r) with
                 | Err _ => §"unknown"
                 | Ok addr => if connect addr then §"up" else §"down"
                 end)).
Definition health_routes (io : admin_io) : handler := λ w,
  with_effects (mjoin (route_dials <$> routes (store w)))
    (ok_json (object (route_health (a_connect io) <$> routes (store w)))) w.

(** ** Settings *)

Definition ellipsis : str := §"…".
(** [str::is_char_boundary] inside a text *)
Definition is_char_boundary (s : str) (i : nat) : bool :=
  match s !! i with Some c => negb (is_cont c) | None => (i =? length s)%nat end.

(** [None] is the panic of a slice that cuts a character. *)
Definition masked (token : str) : option str :=
  if (4 <? length token)%nat
  then let i := (length token - 4)%nat in
       if is_char_boundary token i then Some (ellipsis ++ drop i token) else None
  else Some (if bool_decide (token = []) then [] else ellipsis).

Definition cf_or_default (s : Store) : CfSettings :=
  default {| api_token := []; account_id := [] |} (cf s).

Definition get_settings : handler := λ w,
  let c := cf_or_default (store w) in
  match masked (api_token c) with
  | None => ([], None, w)
  | Some m =>
    ok_json (object [(§"cf_api_token_masked", Str m);
                     (§"cf_api_token_set", Bool (negb (bool_decide (api_token c = []))));
                     (§"cf_account_id", Str (account_id c))]) w
  end.

Definition new_token (cf_api_token : option str) (existing : str) : str :=
  match cf_api_token with
  | Some t => if negb (bool_decide (t = [])) && negb (starts_with ellipsis t) then t else existing
  | None => existing
  end.

Definition save_settings (cf_api_token : option str) (cf_account_id : str) : handler := λ w,
  let existing := match cf (store w) with Some c => api_token c | None => [] end in
  with_effects [SaveStore] no_content
    (set_store (set_cf (Some {| api_token := new_token cf_api_token existing;
                                account_id := trim cf_account_id |}) (store w)) w).

(** ** Cloudflare *)

Definition cf_client (s : Store) : option CfClient :=
  c ← cf s;
  if bool_decide (api_token c = []) || bool_decide (account_id c = []) then None
  else Some {| cl_token := api_token c; cl_account_id := account_id c |}.

(** The handlers that pass a call on differ in the call, the status of success
    and the body. *)
Definition cf_call {A} (call : CfClient → cf_result A) (success : Z) (body : A → content)
    : handler := λ w,
  match cf_client (store w) with
  | None => credentials_required w
  | Some cf =>
    let '(sent, r) := call cf in
    with_effects (CfCall <$> sent)
      match r with
      | Ok a => answer success (body a)
      | Err e => err e
      end w
  end.

Definition cf_list_tunnels (io : admin_io) : handler :=
  cf_call (list_tunnels (a_send io)) 200 (λ ts, JsonBody (Arr (tunnel_to_value <$> ts))).
Definition cf_create_tunnel (io : admin_io) (name : str) : handler :=
  cf_call (λ cf, create_tunnel (a_send io) cf (trim name) (a_secret io)) 201
    (λ t, JsonBody (tunnel_to_value t)).
Definition cf_delete_tunnel (io : admin_io) (id : str) : handler :=
  cf_call (λ cf, delete_tunnel (a_send io) cf id) 204 (λ _, NoBody).
Definition cf_tunnel_token (io : admin_io) (id : str) : handler :=
  cf_call (λ cf, get_tunnel_token (a_send io) cf id) 200
    (λ t, JsonBody (object [(§"token", Str t)])).
Definition cf_list_zones (io : admin_io) : handler :=
  cf_call (list_zones (a_send io)) 200 (λ zs, JsonBody (Arr (zone_to_value <$> zs))).
Definition cf_list_dns (io : admin_io) (zone_id : str) : handler :=
  cf_call (λ cf, list_dns_records (a_send io) cf zone_id) 200
    (λ rs, JsonBody (Arr (record_to_value <$> rs))).
Definition cf_create_dns (io : admin_io) (zone_id : str) (req : CreateDnsRecord) : handler :=
  cf_call (λ cf, create_dns_record (a_send io) cf zone_id req) 201 (λ r, JsonBody (record_to_value r)).
Definition cf_update_dns (io : admin_io) (zone_id record_id : str) (req : CreateDnsRecord) : handler :=
  cf_call (λ cf, update_dns_record (a_send io) cf zone_id record_id req) 200
    (λ r, JsonBody (record_to_value r)).
Definition cf_delete_dns (io : admin_io) (zone_id record_id : str) : handler :=
  cf_call (λ cf, delete_dns_record (a_send io) cf zone_id record_id) 204 (λ _, NoBody).

(** ** Custom domains *)

Definition list_custom_domains (cfg : AdminConfig) (auth : option str) : handler :=
  authorized cfg auth (
    λ w,
    let entries := (λ kv, object [(§"custom_domain", Str kv.1); (§"tunnel_id", Str kv.2)])
                     <$> map_to_list (custom_domains (relay w)) in
    ok_json (object [(§"custom_domains", Arr entries); (§"count", Int (Z.of_nat (length entries)))]) w).

Definition set_custom_domain (cfg : AdminConfig) (auth : option str) (io : admin_io) (tunnel_id domain : str)
    : handler :=
  authorized cfg auth (
    let domain := to_lowercase (trim domain) in
    if bool_decide (domain = []) || negb (contains_char "."%char domain)
    then bad_request §"domain must be a valid FQDN"
    else λ w,
      match tunnels (relay w) !! tunnel_id with
      | None => not_found w
      | Some _ =>
        if negb (ad_allow_custom_domains cfg)
           && negb (bool_decide (domain ∈ ad_custom_domain_allowlist cfg))
        then answer 403 (error_body (§"domain '" ++ domain ++ §"' is not in the allowlist")) w
        else
          with_effects [audit (a_now io) §"custom_domain.registered"
                          [(§"domain", Str domain); (§"tunnel_id", Str tunnel_id)]]
            (answer 201 (JsonBody (object [(§"custom_domain", Str domain); (§"tunnel_id", Str tunnel_id)])))
            (set_relay (set_custom_domains (<[domain := tunnel_id]> (custom_domains (relay w)))
                          (relay w)) w)
      end).

Definition remove_custom_domain (cfg : AdminConfig) (auth : option str) (tunnel_id : str)
    : handler :=
  authorized cfg auth (
    λ w,
    let map := custom_domains (relay w) in
    let removed := (filter (λ kv, kv.2 = tunnel_id) (map_to_list map)).*1 in
    let w' := set_relay (set_custom_domains (foldl (λ m d, delete d m) map removed) (relay w)) w in
    match removed with [] => not_found w' | _ => no_content w' end).

(** ** DDoS protection *)

Definition is_block_of (id : str) (ev : Value) : Prop :=
  (get §"event" ev ≫= as_str) = Some §"ddos.blocked" ∧ (get §"tunnel_id" ev ≫= as_str) = Some id.
#[local] Instance is_block_of_dec id ev : Decision (is_block_of id ev).
Proof. unfold is_block_of. apply _. Defined.

Definition get_ddos_config (cfg : AdminConfig) (auth : option str) (io : admin_io) (id : str)
    : handler :=
  authorized cfg auth (
    with_entry id (λ _ e,
      let d := t_ddos e in
      let recent_blocks :=
        length (filter (is_block_of id) (query (a_audit_ring io) (Some (a_now io - 3600)) 1024)) in
      ok_json (object [
        (§"tunnel_id", Str id); (§"enabled", Bool (DDoS.enabled d));
        (§"requests_per_second_limit", Int (DDoS.get_rps d));
        (§"burst_size", Int (DDoS.get_burst d)); (§"challenge_mode", Bool (DDoS.challenge_mode d));
        (§"blocked_count", Int (DDoS.blocked_count d));
        (§"blocked_last_hour", Int (Z.of_nat recent_blocks))]))).

Record DdosConfigReq := {
  dr_enabled : option bool;
  dr_rps : option Z;
  dr_burst : option Z;
  dr_challenge : option bool;
}.

Definition ddos_configured (req : DdosConfigReq) (d : DDoS.DDoSProtection) : DDoS.DDoSProtection :=
  let d := match dr_enabled req with Some v => DDoS.set_enabled v d | None => d end in
  let d := match dr_rps req with Some v => DDoS.set_rps (Z.max v 1) d | None => d end in
  let d := match dr_burst req with Some v => DDoS.set_burst (Z.max v 1) d | None => d end in
  match dr_challenge req with Some v => DDoS.set_challenge v d | None => d end.

Definition set_ddos_config (cfg : AdminConfig) (auth : option str) (io : admin_io) (id : str) (req : DdosConfigReq)
    : handler :=
  authorized cfg auth (
    with_entry id (λ r e,
      let d := ddos_configured req (t_ddos e) in
      with_effects [audit (a_now io) §"ddos.config_updated"
                      [(§"tunnel_id", Str id); (§"enabled", Bool (DDoS.enabled d));
                       (§"rps", Int (DDoS.get_rps d)); (§"burst", Int (DDoS.get_burst d))]]
        (updating r (with_ddos d)
          (ok_json (object [
            (§"tunnel_id", Str id); (§"enabled", Bool (DDoS.enabled d));
            (§"requests_per_second_limit", Int (DDoS.get_rps d));
            (§"burst_size", Int (DDoS.get_burst d)); (§"challenge_mode", Bool (DDoS.challenge_mode d));
            (§"blocked_count", Int (DDoS.blocked_count d))]))))).

(** ** Request log *)

Definition request_value (r : RequestLog) : Value :=
  object [(§"timestamp", Int (rq_timestamp r)); (§"method", Str (rq_method r));
          (§"path", Str (rq_path r)); (§"status_code", Int (rq_status_code r));
          (§"duration_ms", Int (rq_duration_ms r)); (§"client_ip", Str (rq_client_ip r));
          (§"bytes", Int (rq_bytes r))].

Definition recent (limit : option nat) (e : TunnelEntry) : list RequestLog :=
  take (Nat.min (default 20%nat limit) 100) (reverse (t_recent_requests e)).

Definition get_tunnel_requests (cfg : AdminConfig) (auth : option str) (id : str) (limit : option nat)
    : handler :=
  authorized cfg auth (
    with_entry id (λ _ e,
      ok_json (object [(§"tunnel_id", Str id); (§"count", Int (Z.of_nat (length (recent limit e))));
                       (§"requests", Arr (request_value <$> recent limit e))]))).

(** ** Backends *)

Definition backend_value (b : BackendEntry) : Value :=
  object [(§"id", Str (b_id b)); (§"addr", Str (b_addr b)); (§"weight", Int (b_weight b));
          (§"healthy", Bool (b_healthy b)); (§"requests", Int (b_requests b));
          (§"errors", Int (b_errors b))].

Definition list_backends (cfg : AdminConfig) (auth : option str) (tunnel_id : str) : handler :=
  authorized cfg auth (
    with_entry tunnel_id (λ _ e,
      ok_json (object [(§"backends", Arr (backend_value <$> t_backends e));
                       (§"count", Int (Z.of_nat (length (t_backends e))))]))).

(** [addr] is the text of the parsed [SocketAddr], when the body has one. *)
Definition add_backend (cfg : AdminConfig) (auth : option str) (io : admin_io) (tunnel_id : str) (addr : option str) (weight : Z)
    : handler :=
  authorized cfg auth (
    match addr with
    | None => bad_request §"invalid addr — expected host:port"
    | Some addr =>
      with_entry tunnel_id (λ r e,
        updating r (with_backends (push_backend (a_uuid io) addr weight (t_backends e)))
          (answer 201 (JsonBody (object [
            (§"id", Str (a_uuid io)); (§"addr", Str addr); (§"weight", Int (Z.max weight 1));
            (§"healthy", Bool true); (§"requests", Int 0); (§"errors", Int 0)]))))
    end).

Definition remove_backend (cfg : AdminConfig) (auth : option str) (tunnel_id backend_id : str)
    : handler :=
  authorized cfg auth (
    with_entry tunnel_id (λ r e,
      match drop_backend backend_id (t_backends e) with
      | None => not_found
      | Some bs => updating r (with_backends bs) no_content
      end)).

Definition force_health_check (cfg : AdminConfig) (auth : option str) (io : admin_io) (tunnel_id backend_id : str)
    : handler :=
  authorized cfg auth (
    with_entry tunnel_id (λ r e,
      match find_backend backend_id (t_backends e) with
      | None => not_found
      | Some b =>
        let healthy := a_connect io (b_addr b) in
        with_effects [Dial (b_addr b)]
          (updating r (with_backends (store_healthy backend_id healthy (t_backends e)))
            (ok_json (object [(§"id", Str (b_id b)); (§"addr", Str (b_addr b));
                              (§"healthy", Bool healthy)])))
      end)).

(** ** The router *)

Inductive admin_req :=
| ServeUi
| HealthCheck
| ReadyCheck
| MetricsText
| ListRoutes
| CreateRoute (domain upstream_url : str) (enabled : bool)
| UpdateRoute (id domain upstream_url : str) (enabled : bool)
| DeleteRoute (id : str)
| ListTunnels
| GetTunnel (id : str)
| GetDdos (id : str)
| SetDdos (id : str) (req : DdosConfigReq)
| GetRequests (id : str) (limit : option nat)
| StatsHistory
| BulkDisconnect (client_ip : str)
| DisconnectTunnel (id : str)
| TunnelStats (id : str)
| PauseTunnel (id : str)
| ResumeTunnel (id : str)
| AuditQuery (since_ts : option Z) (limit : option nat)
| ListCustomDomains
| SetCustomDomain (id domain : str)
| RemoveCustomDomain (id : str)
| ListBackends (id : str)
| AddBackend (id : str) (addr : option str) (weight : Z)
| RemoveBackend (id backend_id : str)
| ForceHealthCheck (id backend_id : str)
| GetLogs
| HealthRoutes
| GetStatus
| GetSettings
| SaveSettings (cf_api_token : option str) (cf_account_id : str)
| CfListTunnels
| CfCreateTunnel (name : str)
| CfDeleteTunnel (id : str)
| CfTunnelToken (id : str)
| CfListZones
| CfListDns (zone_id : str)
| CfCreateDns (zone_id : str) (req : CreateDnsRecord)
| CfUpdateDns (zone_id record_id : str) (req : CreateDnsRecord)
| CfDeleteDns (zone_id record_id : str).

Definition handle (cfg : AdminConfig) (io : admin_io) (auth : option str) (req : admin_req)
    : handler :=
  match req with
  | ServeUi => answer 200 Page
  | MetricsText => metrics_handler cfg io
  | HealthCheck => health_check cfg io
  | ReadyCheck => ready_check cfg io
  | ListRoutes => list_routes
  | CreateRoute d u e => create_route io d u e
  | UpdateRoute id d u e => update_route id d u e
  | DeleteRoute id => delete_route id
  | ListTunnels => list_seamless_tunnels cfg auth io
  | GetTunnel id => get_seamless_tunnel cfg auth io id
  | GetDdos id => get_ddos_config cfg auth io id
  | SetDdos id req => set_ddos_config cfg auth io id req
  | GetRequests id limit => get_tunnel_requests cfg auth id limit
  | StatsHistory => stats_history_handler cfg auth io
  | BulkDisconnect ip => admin_bulk_disconnect cfg auth io ip
  | DisconnectTunnel id => admin_disconnect_tunnel cfg auth io id
  | TunnelStats id => admin_tunnel_stats cfg auth io id
  | PauseTunnel id => admin_pause_tunnel cfg auth id
  | ResumeTunnel id => admin_resume_tunnel cfg auth id
  | AuditQuery since_ts limit => admin_audit_query cfg auth io since_ts limit
  | ListCustomDomains => list_custom_domains cfg auth
  | SetCustomDomain id d => set_custom_domain cfg auth io id d
  | RemoveCustomDomain id => remove_custom_domain cfg auth id
  | ListBackends id => list_backends cfg auth id
  | AddBackend id a wt => add_backend cfg auth io id a wt
  | RemoveBackend id b => remove_backend cfg auth id b
  | ForceHealthCheck id b => force_health_check cfg auth io id b
  | GetLogs => get_logs cfg auth io
  | HealthRoutes => health_routes io
  | GetStatus => get_status cfg io
  | GetSettings => get_settings
  | SaveSettings t a => save_settings t a
  | CfListTunnels => cf_list_tunnels io
  | CfCreateTunnel name => cf_create_tunnel io name
  | CfDeleteTunnel id => cf_delete_tunnel io id
  | CfTunnelToken id => cf_tunnel_token io id
  | CfListZones => cf_list_zones io
  | CfListDns zone_id => cf_list_dns io zone_id
  | CfCreateDns zone_id req => cf_create_dns io zone_id req
  | CfUpdateDns zone_id record_id req => cf_update_dns io zone_id record_id req
  | CfDeleteDns zone_id record_id => cf_delete_dns io zone_id record_id
  end.

Definition access_denied : str := §"Admin access denied from your IP" ++ [lf].

(** [require_admin_ip] *)
Definition from_allowed (cfg : AdminConfig) (ip : ip_addr) (h : handler) : handler :=
  if negb (AdminCidr.ip_in_cidr ip (ad_cidrs cfg)) then answer 403 (PlainText access_denied)
  else h.

(** One request that an operation is found for: the address filter, the handler. *)
Definition serve (cfg : AdminConfig) (io : admin_io) (ip : ip_addr) (authorization : option str)
    (req : admin_req) : handler := from_allowed cfg ip (handle cfg io authorization req).
End admin.

(** ** Access control *)

Section access.
Context `{Unicode} `{ConstantTimeEqLaws}.
Implicit Types (cfg : AdminConfig) (io : admin_io) (w : World).

Lemma check_admin_auth_spec authorization tok :
  forallb visible_ascii tok = true →
  check_admin_auth authorization (Some tok)
  = bool_decide (authorization = Some (§"Bearer " ++ tok)).
Proof.
  intros Htok. unfold check_admin_auth. destruct authorization as [v|]; [|done].
  cbn [mbind option_bind].
  assert (E : (if forallb visible_ascii v then strip_prefix §"Bearer " v else None) = Some tok
              ↔ v = §"Bearer " ++ tok).
  { split.
    - destruct (forallb visible_ascii v); [|done]. unfold strip_prefix.
      destruct (starts_with §"Bearer " v) eqn:Es; [|done].
      destruct (starts_with_spec _ _ Es) as [t ->]. rewrite drop_app_length. congruence.
    - intros ->. rewrite forallb_app, Htok. unfold strip_prefix.
      by rewrite starts_with_app, drop_app_length. }
  destruct (if forallb visible_ascii v then _ else _) as [t|].
  - rewrite ct_eq_spec. apply eq_bool_prop_intro. rewrite !Is_true_true, bool_decide_eq_true.
    case_bool_decide as Et; naive_solver.
  - symmetry. apply bool_decide_eq_false. intros [= Hv]. by apply E in Hv.
Qed.

(** The operations that are for holders of the token. *)
Definition needs_token (req : admin_req) : bool :=
  match req with
  | ListTunnels | GetTunnel _ | GetDdos _ | SetDdos _ _ | GetRequests _ _ | StatsHistory
  | BulkDisconnect _ | DisconnectTunnel _ | TunnelStats _ | PauseTunnel _ | ResumeTunnel _
  | AuditQuery _ _ | ListCustomDomains | SetCustomDomain _ _ | RemoveCustomDomain _
  | ListBackends _ | AddBackend _ _ _ | RemoveBackend _ _ | ForceHealthCheck _ _ | GetLogs => true
  | _ => false
  end.

(** Each of them asks for it before anything else. *)
Lemma handle_needs_token cfg io authorization req tok :
  ad_token cfg = Some tok → forallb visible_ascii tok = true →
  authorization ≠ Some (§"Bearer " ++ tok) → needs_token req = true → handle cfg io authorization req = unauthorized.
Proof.
  intros Hcfg Htok Hauth.
  assert (E : ∀ h, authorized cfg authorization h = unauthorized).
  { intros h. unfold authorized. rewrite Hcfg, check_admin_auth_spec by done.
    by rewrite bool_decide_false. }
  destruct req; try discriminate; intros; apply E.
Qed.

Lemma find_route_none rs host r :
  r ∈ rs → pr_enabled r = true → to_lowercase (pr_domain r) = host_only host →
  find_route rs host ≠ None.
Proof.
  intros Hin He Hd. induction rs as [|r' rs IH]; [by apply elem_of_nil in Hin|].
  apply elem_of_cons in Hin as [<-|Hin]; cbn [find_route].
  - rewrite He, Hd, bool_decide_true by done. done.
  - destruct (_ && _); [done|]. by apply IH.
Qed.

(** The token does not protect the routes.  With a token configured, any
    request from an allowed address, without the token, adds a static route for
    the public name of somebody's tunnel; from then on no connection to that
    name reaches the tunnel. *)
Theorem route_needs_no_token cfg io ip d u w :
  AdminCidr.ip_in_cidr ip (ad_cidrs cfg) = true →
  d ≠ [] → forallb plain d = true → to_lowercase d = d → u ≠ [] → forallb plain u = true →
  (∀ r, r ∈ routes (store w) → pr_domain r ≠ d) →
  let '(_, r, w') := serve cfg io ip None (CreateRoute d u true) w in
  rs_status <$> r = Some 201 ∧ relay w' = relay w
  ∧ ∀ st c s head host,
      app_store st = store w' → read_head (c_reads c) [] = (head, Complete) →
      parse_host_header head = Some host → host_only host = d →
      to_tunnel (route_http st c s).1.1 = [].
Proof.
  intros Hip Hd Hdp Hlow Hu Hup Hnew. unfold serve, from_allowed. rewrite Hip. cbn [negb handle].
  unfold create_route. rewrite !trim_plain, Hlow by done.
  rewrite (bool_decide_false (d = [])), (bool_decide_false (u = [])) by done. cbn [orb].
  destruct (existsb _ _) eqn:Ex.
  { apply existsb_exists in Ex as (r & Hr & Hr'). apply bool_decide_eq_true in Hr'.
    apply list_elem_of_In, Hnew in Hr. done. }
  cbn. split_and!; [done|done|]. intros st c s head host Hst Hread Hhost Hh.
  eapply routed_not_tunnelled; [done|done|]. rewrite Hst. cbn [store set_store set_routes routes].
  eapply find_route_none; [apply elem_of_app; right; by left|done|cbn; by rewrite Hlow].
Qed.
End access.

(** A relay whose interface has a token and no address filter. *)
Definition demo_admin : AdminConfig :=
  {| ad_token := Some §"s3cret"; ad_cidrs := []; ad_base_domain := §"tunnel.example.com";
     ad_http_port := 80; ad_https_port := None; ad_webhook_url := None;
     ad_allow_custom_domains := true; ad_custom_domain_allowlist := ∅; ad_status := [];
     ad_version := §"0.2.0" |}.
Definition demo_io : admin_io :=
  {| a_now := 1700000000; a_uptime := 10; a_uuid := §"u1"; a_audit_ring := []; a_history := [];
     a_logs := []; a_metrics := new_metrics; a_tcp_passthrough_active := 0; a_connect := λ _, true; a_send := λ _, None;
     a_secret := §"c2VjcmV0" |}.
Definition demo_world : World :=
  {| relay := demo_relay (entry_new 0 §"app" 1000 0 §"192.0.2.1"); store := store_default |}.
Definition demo_auth : option str := Some §"Bearer s3cret".
Definition demo_ip : ip_addr := V4 0xC0000209.

#[local] Existing Instance ascii_only.
#[local] Existing Instance slice_ct_eq.
#[local] Existing Instance slice_ct_eq_laws.

Lemma route_needs_no_token_witness :
  let '(_, r, w') :=
    serve demo_admin demo_io demo_ip None
      (CreateRoute §"app.tunnel.example.com" §"http://evil.example" true) demo_world in
  rs_status <$> r = Some 201 ∧ relay w' = relay demo_world.
Proof.
  pose proof (route_needs_no_token demo_admin demo_io demo_ip §"app.tunnel.example.com"
    §"http://evil.example" demo_world) as HT.
  destruct (serve _ _ _ _ _ _) as [[es r] w'].
  destruct HT as (Hr & Hw & _); [reflexivity|discriminate|reflexivity|reflexivity|discriminate
    |reflexivity|intros r' Hr'; by apply elem_of_nil in Hr'|]. by split.
Defined.

(** ** The route table *)

Create HintDb admin.
#[export] Hint Unfold cf_list_tunnels cf_create_tunnel cf_delete_tunnel cf_tunnel_token cf_list_zones
  cf_list_dns cf_create_dns cf_update_dns cf_delete_dns : admin.

Section table.
Context `{Unicode} `{ConstantTimeEq}.
Implicit Types (cfg : AdminConfig) (io : admin_io) (w : World).

(** One route for a domain, none for the empty one. *)
Definition routes_ok (s : Store) : Prop :=
  NoDup (pr_domain <$> routes s) ∧ Forall (λ r, pr_domain r ≠ []) (routes s).

Lemma with_entry_store id k w :
  (∀ r e, store (k r e w).2 = store w) → store (with_entry id k w).2 = store w.
Proof. intros Hk. unfold with_entry. destruct (lookup_tunnel id (relay w)) as [[r e]|]; auto. Qed.

Lemma create_route_ok io d u e w :
  routes_ok (store w) → routes_ok (store (create_route io d u e w).2).
Proof.
  intros [Hn Hf]. unfold create_route. set (dom := to_lowercase (trim d)).
  destruct (bool_decide (dom = [])) eqn:Ed; [done|].
  apply bool_decide_eq_false in Ed. destruct (bool_decide (trim u = [])); [done|]. cbn [orb].
  destruct (existsb _ _) eqn:Ex; [done|]. unfold routes_ok.
  cbn [with_effects answer set_store store set_routes routes snd]. split.
  - rewrite fmap_app. apply NoDup_app. split_and!; [done| |apply NoDup_singleton].
    intros x Hx Hx'. apply list_elem_of_singleton in Hx'. cbn in Hx'. subst x.
    apply list_elem_of_fmap in Hx as (r & Hr & Hin).
    assert (existsb (λ r, bool_decide (pr_domain r = dom)) (routes (store w)) = true) as Ht; [|congruence].
    apply existsb_exists. exists r. split; [by apply list_elem_of_In|]. by rewrite bool_decide_true.
  - apply Forall_app. split; [done|]. by apply Forall_singleton.
Qed.

Lemma delete_route_ok id w :
  routes_ok (store w) → routes_ok (store (delete_route id w).2).
Proof.
  intros [Hn Hf]. unfold delete_route. set (rs := filter _ _).
  assert (Hok : routes_ok (set_routes rs (store w))).
  { split; cbn [routes set_routes].
    - eapply sublist_NoDup; [exact Hn|]. apply fmap_sublist, sublist_filter.
    - unfold rs. rewrite Forall_forall in Hf |- *. intros r [_ Hr]%list_elem_of_filter. auto. }
  by destruct (length rs <? length (routes (store w)))%nat.
Qed.

Lemma cf_call_world {A} (call : CfClient → cf_result A) success body w :
  (cf_call call success body w).2 = w.
Proof.
  unfold cf_call. destruct (cf_client _) as [c|]; [|done]. by destruct (call c) as [sent []].
Qed.

Lemma authorized_store cfg auth h w :
  store (h w).2 = store w → store (authorized cfg auth h w).2 = store w.
Proof. intros Hh. unfold authorized. by destruct (check_admin_auth _ _). Qed.

(** Every request but an update keeps the route table in order: no domain
    twice, no empty domain. *)
Theorem route_table_kept cfg io ip authorization req w :
  (∀ id d u e, req ≠ UpdateRoute id d u e) →
  routes_ok (store w) → routes_ok (store (serve cfg io ip authorization req w).2).
Proof.
  intros Hreq Hok. unfold serve, from_allowed. destruct (negb (AdminCidr.ip_in_cidr _ _)); [done|].
  assert (E : ∀ w', store w' = store w → routes_ok (store w')) by (by intros w' ->).
  destruct req; cbn [handle]; try done;
    try (apply E, authorized_store, with_entry_store; intros r e; done);
    try (apply E, authorized_store; done);
    try (autounfold with admin; rewrite cf_call_world; exact Hok).
  - by apply create_route_ok.
  - exfalso. by eapply Hreq.
  - by apply delete_route_ok.
  - apply E, authorized_store. cbv zeta. destruct (bool_decide _); [done|]. by destruct (matching _ _).
  - apply E, authorized_store. cbv zeta. destruct (_ || _); [done|].
    destruct (tunnels _ !! _); [|done]. by destruct (_ && _).
  - apply E, authorized_store. cbv zeta. by case_match.
  - apply E, authorized_store. destruct addr; [|done]. by apply with_entry_store.
  - apply E, authorized_store, with_entry_store. intros r e. by destruct (drop_backend _ _).
  - apply E, authorized_store, with_entry_store. intros r e. by destruct (find_backend _ _).
  - apply E. unfold get_settings. by destruct (masked _).
Qed.
End table.

Lemma route_table_kept_witness :
  routes_ok (store (serve demo_admin demo_io demo_ip None
    (CreateRoute §" Shop.Example " §"http://10.0.0.7" true) demo_world).2).
Proof.
  apply route_table_kept; [discriminate|]. split; constructor.
Defined.

Section updates.
Context `{Unicode} `{ConstantTimeEq}.

Lemma update_first_in id f rs r :
  r ∈ rs → pr_id r = id → ∃ r' rs', update_first id f rs = Some (r', rs').
Proof.
  intros Hin Hid. induction rs as [|r0 rs IH]; [by apply elem_of_nil in Hin|]. cbn [update_first].
  destruct (decide (pr_id r0 = id)) as [E|E].
  - rewrite bool_decide_true by done. by eexists _, _.
  - rewrite bool_decide_false by done. apply elem_of_cons in Hin as [->|Hin]; [done|].
    destruct (IH Hin) as (r' & rs' & ->). by eexists _, _.
Qed.

Lemma update_first_spec id f rs r' rs' :
  update_first id f rs = Some (r', rs') →
  ∃ a r b, rs = a ++ r :: b ∧ rs' = a ++ f r :: b ∧ r' = f r ∧ pr_id r = id
           ∧ (∀ x, x ∈ a → pr_id x ≠ id).
Proof.
  revert r' rs'. induction rs as [|r0 rs IH]; intros r' rs'; [done|]. cbn [update_first].
  case_bool_decide as E.
  - intros [= <- <-]. exists [], r0, rs. split_and!; try done. by intros x ?%elem_of_nil.
  - destruct (update_first id f rs) as [[r1 rs1]|] eqn:E1; [|done]. intros [= <- <-].
    destruct (IH r1 rs1 eq_refl) as (a & r & b & -> & -> & -> & Hid & Ha).
    exists (r0 :: a), r, b. split_and!; try done. intros x [->|Hx]%elem_of_cons; auto.
Qed.

(** An update checks nothing that a creation checks.  Any route takes the
    domain of any other, or a blank domain, with a 200: the table then has two
    routes for one domain, of which requests only ever find one, or a route for
    the empty domain. *)
Theorem update_route_unchecked cfg io ip authorization w id r other upstream :
  AdminCidr.ip_in_cidr ip (ad_cidrs cfg) = true →
  r ∈ routes (store w) → pr_id r = id → other ∈ routes (store w) → pr_id other ≠ id →
  to_lowercase (trim (pr_domain other)) = pr_domain other → to_lowercase [] = [] →
  (let '(_, a, w') := serve cfg io ip authorization
                        (UpdateRoute id (pr_domain other) upstream true) w in
   rs_status <$> a = Some 200 ∧ ¬ routes_ok (store w'))
  ∧ (let '(_, a, w') := serve cfg io ip authorization (UpdateRoute id §" " upstream true) w in
     rs_status <$> a = Some 200 ∧ ¬ routes_ok (store w')).
Proof.
  intros Hip Hr Hid Ho Hne Hlow Hnil. unfold serve, from_allowed. rewrite Hip. cbn [negb handle].
  assert (S : ∀ d, ∃ a r0 b rd, routes (store w) = a ++ r0 :: b ∧ pr_id r0 = id
    ∧ pr_domain rd = to_lowercase (trim d)
    ∧ update_route id d upstream true w
      = ([SaveStore], Some {| rs_status := 200; rs_body := JsonBody (route_to_value rd) |},
         set_store (set_routes (a ++ rd :: b) (store w)) w)).
  { intros d. unfold update_route. set (f := λ r : ProxyRoute, _).
    destruct (update_first_in id f (routes (store w)) r Hr Hid) as (r' & rs' & Hu). rewrite Hu.
    apply update_first_spec in Hu as (a & r0 & b & Hrs & -> & -> & Hr0 & _).
    by exists a, r0, b, (f r0). }
  split.
  - destruct (S (pr_domain other)) as (a & r0 & b & rd & Hrs & Hr0 & Hrd & ->).
    split; [done|]. rewrite Hlow in Hrd. intros [Hn _].
    cbn [store set_store set_routes routes] in Hn. rewrite fmap_app, fmap_cons, Hrd in Hn.
    apply NoDup_app in Hn as (_ & Ha & Hb). apply NoDup_cons in Hb as [Hb _].
    rewrite Hrs in Ho. apply elem_of_app in Ho as [Ho|Ho].
    + apply (Ha (pr_domain other)); [by apply list_elem_of_fmap_2|by left].
    + apply elem_of_cons in Ho as [->|Ho]; [congruence|].
      by apply Hb, list_elem_of_fmap_2.
  - destruct (S §" ") as (a & r0 & b & rd & Hrs & Hr0 & Hrd & ->).
    split; [done|]. change (trim §" ") with ([] : str) in Hrd. rewrite Hnil in Hrd.
    intros [_ Hf]. cbn [store set_store set_routes routes] in Hf.
    apply Forall_app in Hf as [_ Hf]. apply Forall_cons in Hf as [Hf _]. done.
Qed.
End updates.

Definition two_routes : World :=
  set_store (set_routes
    [{| pr_id := §"1"; pr_domain := §"a.example"; pr_upstream_url := §"http://10.0.0.1";
        pr_enabled := true; pr_created_at := 0 |};
     {| pr_id := §"2"; pr_domain := §"b.example"; pr_upstream_url := §"http://10.0.0.2";
        pr_enabled := true; pr_created_at := 0 |}] store_default) demo_world.

Lemma update_route_unchecked_witness :
  let '(_, a, w') := serve demo_admin demo_io demo_ip None
                       (UpdateRoute §"2" §"a.example" §"http://10.0.0.3" true) two_routes in
  rs_status <$> a = Some 200 ∧ ¬ routes_ok (store w').
Proof.
  set (r := {| pr_id := §"2"; pr_domain := §"b.example"; pr_upstream_url := §"http://10.0.0.2";
               pr_enabled := true; pr_created_at := 0 |}).
  set (other := {| pr_id := §"1"; pr_domain := §"a.example"; pr_upstream_url := §"http://10.0.0.1";
                   pr_enabled := true; pr_created_at := 0 |}).
  assert (Hr : r ∈ routes (store two_routes)) by (right; by left).
  assert (Ho : other ∈ routes (store two_routes)) by (by left).
  assert (Hne : pr_id other ≠ §"2") by discriminate.
  exact (proj1 (update_route_unchecked demo_admin demo_io demo_ip None two_routes §"2" r other
           §"http://10.0.0.3" eq_refl Hr eq_refl Ho Hne eq_refl eq_refl)).
Defined.

(** ** Pausing, disconnecting *)

Section control.
Context `{Unicode} `{ConstantTimeEq}.
Implicit Types (io : admin_io) (w : World).
(** A request with the token, or a relay without one. *)
Context (cfg : AdminConfig) (auth : option str).
Hypothesis Hauth : check_admin_auth auth (ad_token cfg) = true.

Lemma authorized_pass h : authorized cfg auth h = h.
Proof. unfold authorized. by rewrite Hauth. Qed.

Lemma lookup_update key r f s r' e :
  lookup_tunnel key s = Some (r', e) →
  lookup_tunnel key (update_entry r f s) = Some (r', if bool_decide (r' = r) then f e else e).
Proof.
  unfold lookup_tunnel. change (tunnels (update_entry r f s)) with (tunnels s).
  destruct (tunnels s !! key) as [r0|]; [|done]. cbn [mbind option_bind].
  destruct (heap s !! r0) as [e0|] eqn:E; [|done]. intros [= -> ->].
  case_bool_decide as Er; [subst; by rewrite heap_update, E|].
  by rewrite heap_update_ne, E by congruence.
Qed.

Lemma lookup_heap key s r e : lookup_tunnel key s = Some (r, e) → heap s !! r = Some e.
Proof.
  unfold lookup_tunnel. destruct (tunnels s !! key) as [r0|]; [|done]. cbn.
  destruct (heap s !! r0) eqn:E; [|done]. cbn. congruence.
Qed.

Lemma update_twice r f g s e :
  heap s !! r = Some e → g (f e) = e → update_entry r g (update_entry r f s) = s.
Proof.
  intros Hr Hfg. destruct s as [h t tp b cd rl]. unfold update_entry, set_heap. cbn in *. f_equal.
  apply map_eq. intros r'. destruct (decide (r' = r)) as [->|Hne].
  - rewrite !lookup_alter_eq, Hr. cbn. by rewrite Hfg.
  - by rewrite !lookup_alter_ne by congruence.
Qed.
(** Pausing and resuming.  While a tunnel is paused every HTTP request that
    maps to it is answered 503 and changes nothing; resuming a tunnel that was
    not paused before gives back the state there was.  The listener of a TCP
    tunnel does not look at the flag: it goes on handing connections to a paused
    tunnel. *)
Theorem pause_spec io w id r e :
  lookup_tunnel id (relay w) = Some (r, e) →
  let '(_, a, w1) := handle cfg io auth (PauseTunnel id) w in
  rs_status <$> a = Some 204
  ∧ (∀ st c head host method path,
       (geo_is_blocked (app_geoip st) (c_ip c) 0).1 = false →
       read_head (c_reads c) [] = (head, Complete) → parse_host_header head = Some host →
       parse_request_line head = (method, path) → is_health method path = false →
       too_large (app_max_body_bytes st) head = None →
       find_route (routes (app_store st)) host = None →
       find_subdomain st host (relay w) = Some id →
       ∃ body, route_http st c (relay w1)
         = ([Reply (error_response §"503 Service Unavailable" body (c_https c))], Ok tt, relay w1))
  ∧ (∀ peer n, to_tunnel (tcp_accept peer true n (t_mux e) r (relay w1)).1.1
               = [DataFrame (t_mux e) (NewConn peer)])
  ∧ (t_paused e = false → (handle cfg io auth (ResumeTunnel id) w1).2 = w).
Proof.
  intros Hl. cbn [handle]. unfold admin_pause_tunnel. rewrite authorized_pass. unfold with_entry.
  rewrite Hl.
  unfold updating, answer. set (w1 := set_relay _ w).
  assert (Hl1 : lookup_tunnel id (relay w1) = Some (r, with_paused true e)).
  { unfold w1. cbn [relay set_relay]. rewrite (lookup_update _ _ _ _ r e) by done.
    by rewrite bool_decide_true. }
  split_and!; [done|..].
  - intros st c head host method path Hgeo Hread Hhost Hline Hhealth Hbig Hroute Hsub.
    exists (§"seamless: tunnel '" ++ id ++ §"' is paused" ++ [lf]).
    unfold route_http. rewrite Hgeo, Hread, Hhost. unfold route_head.
    rewrite Hline, Hhealth, Hbig, Hroute.
    change (find_subdomain st host (relay w1)) with (find_subdomain st host (relay w)).
    by rewrite Hsub, Hl1.
  - intros peer n. unfold tcp_accept, forward_to_tunnel. by destruct n as [[n_in n_out]|].
  - intros Hp. unfold admin_resume_tunnel. rewrite authorized_pass. unfold with_entry. rewrite Hl1. unfold updating, answer.
    cbn [snd]. unfold w1. cbn [set_relay relay].
    rewrite (update_twice r _ _ _ e) by (first [by eapply lookup_heap | by destruct e; cbn in *; subst]).
    by destruct w.
Qed.

Lemma matching_in ip s r e :
  (r, e) ∈ matching ip s ↔ ∃ k, lookup_tunnel k s = Some (r, e) ∧ t_client_ip e = ip.
Proof.
  unfold matching. rewrite list_elem_of_omap. split.
  - intros ([k r'] & Hin & Hm). apply elem_of_map_to_list in Hin. cbn [snd] in Hm.
    destruct (heap s !! r') as [e'|] eqn:Er; [|done]. cbn [mbind option_bind] in Hm.
    case_bool_decide; [|done]. simplify_eq. exists k. unfold lookup_tunnel. by rewrite Hin; cbn; rewrite Er.
  - intros (k & Hl & Hip). exists (k, r). unfold lookup_tunnel in Hl.
    destruct (tunnels s !! k) as [r'|] eqn:Ek; [|done]. cbn in Hl.
    destruct (heap s !! r') as [e'|] eqn:Er; [|done]. cbn in Hl. simplify_eq.
    split; [by apply elem_of_map_to_list|]. cbn. rewrite Er. cbn. by rewrite bool_decide_true.
Qed.

Lemma fold_disconnect (l : list (nat * TunnelEntry)) s :
  foldl (λ s re, update_entry re.1 disconnect s) s l
  = set_heap (foldl (λ h r, alter disconnect r h) (heap s) (l.*1 : list nat)) s.
Proof.
  revert s. induction l as [|[r e] l IH]; intros s; [by destruct s|]. rewrite fmap_cons.
  cbn [foldl fst]. by rewrite IH.
Qed.

(** One call evicts an address.  With the address trimmed and not blank, a
    bulk disconnect signals exactly the registered tunnels of that address, the
    others keep their state, the number it reports is the number of registered
    names it found, with an audit event each, and it leaves the registry to the
    tunnels' own tasks; with no such tunnel it answers 404 and changes nothing. *)
Theorem bulk_disconnect_spec io ip w :
  trim ip ≠ [] →
  let found := matching (trim ip) (relay w) in
  let '(es, a, w') := handle cfg io auth (BulkDisconnect ip) w in
  tunnels (relay w') = tunnels (relay w) ∧ store w' = store w
  ∧ (∀ k r e, lookup_tunnel k (relay w) = Some (r, e) →
       heap (relay w') !! r
       = Some (if bool_decide (t_client_ip e = trim ip) then disconnect e else e))
  ∧ length (audits es) = length found
  ∧ (if bool_decide (found = []) then rs_status <$> a = Some 404 ∧ w' = w
     else rs_status <$> a = Some 200
          ∧ ((a ≫= json_body) ≫= get §"disconnected") = Some (Int (Z.of_nat (length found)))).
Proof.
  intros Hip. cbn [handle]. unfold admin_bulk_disconnect. rewrite authorized_pass.
  rewrite bool_decide_false by done. cbv zeta.
  assert (Hheap : ∀ k r e, lookup_tunnel k (relay w) = Some (r, e) →
    foldl (λ h r, alter disconnect r h) (heap (relay w)) (matching (trim ip) (relay w)).*1 !! r
    = Some (if bool_decide (t_client_ip e = trim ip) then disconnect e else e)).
  { intros k r e Hl. rewrite foldl_disconnect_lookup, (lookup_heap k _ _ e) by done. cbn [fmap option_fmap option_map].
    assert (Hiff : r ∈ (matching (trim ip) (relay w)).*1 ↔ t_client_ip e = trim ip).
    { rewrite list_elem_of_fmap. split.
      - intros ([r' e'] & -> & Hin). apply matching_in in Hin as (k' & Hl' & Hip').
        apply lookup_heap in Hl, Hl'. cbn [fst] in *. congruence.
      - intros He. exists (r, e). split; [done|]. apply matching_in. by exists k. }
    rewrite (bool_decide_ext _ _ Hiff). by case_bool_decide. }
  destruct (matching (trim ip) (relay w)) as [|re found] eqn:Ef.
  { cbn. split_and!; try done. }
  rewrite bool_decide_false by done. unfold with_effects, ok_json, answer.
  rewrite fold_disconnect. split_and!; try done.
  rewrite app_nil_r. clear. generalize (re :: found) as l. intros l.
  set (f := λ re : nat * TunnelEntry, _).
  assert (Hf : ∀ x, length (audits (f x)) = 1%nat)
    by (intros x; unfold f, disconnect_events, fire; by destruct (ad_webhook_url cfg)).
  induction l as [|x l IH]; [done|]. rewrite fmap_cons.
  change (mjoin (f x :: (f <$> l))) with (f x ++ mjoin (f <$> l)).
  rewrite audits_app, length_app, Hf, IH. done.
Qed.
End control.

Lemma pause_spec_witness :
  let '(_, a, w1) := handle demo_admin demo_io demo_auth (PauseTunnel §"app") demo_world in
  rs_status <$> a = Some 204 ∧ (handle demo_admin demo_io demo_auth (ResumeTunnel §"app") w1).2 = demo_world.
Proof.
  pose proof (pause_spec demo_admin demo_auth eq_refl demo_io demo_world §"app" 0%nat
    (entry_new 0 §"app" 1000 0 §"192.0.2.1") eq_refl) as HT.
  destruct (handle _ _ _ (PauseTunnel _) _) as [[es a] w1].
  destruct HT as (Ha & _ & _ & Hr). split; [exact Ha|]. by apply Hr.
Defined.

Lemma bulk_disconnect_spec_witness :
  let '(_, a, w') := handle demo_admin demo_io demo_auth (BulkDisconnect §" 192.0.2.1 ") demo_world in
  rs_status <$> a = Some 200
  ∧ heap (relay w') !! 0%nat = Some (disconnect (entry_new 0 §"app" 1000 0 §"192.0.2.1")).
Proof.
  assert (Hne : trim §" 192.0.2.1 " ≠ []) by (vm_compute; discriminate).
  pose proof (bulk_disconnect_spec demo_admin demo_auth eq_refl demo_io §" 192.0.2.1 " demo_world Hne) as HT.
  assert (Hf : bool_decide (matching (trim §" 192.0.2.1 ") (relay demo_world) = []) = false)
    by (apply bool_decide_eq_false; vm_compute; discriminate).
  cbv zeta in HT. rewrite Hf in HT.
  destruct (handle _ _ _ _ _) as [[es a] w']. destruct HT as (_ & _ & Hh & _ & Ha & _).
  split; [exact Ha|].
  rewrite (Hh §"app" 0%nat (entry_new 0 §"app" 1000 0 §"192.0.2.1") eq_refl). by vm_compute.
Defined.

(** ** Custom domains and settings *)

Section domains.
Context `{Unicode} `{ConstantTimeEq}.
Implicit Types (cfg : AdminConfig) (io : admin_io) (w : World).

(** A custom domain is granted by name and outlives the tunnel it was
    granted for.  An accepted domain (one on the allow-list, or any when that is
    switched off) routes to the tunnel of that name; closing the tunnel leaves
    the mapping, and whoever registers the name next receives the connections
    for the domain. *)
Theorem custom_domain_outlives_tunnel cfg io auth w id domain r e ctx now connected_at timeout url
    r' e' :
  let d := to_lowercase (trim domain) in
  check_admin_auth auth (ad_token cfg) = true → d ≠ [] → contains_char "."%char d = true → lookup_tunnel id (relay w) = Some (r, e) →
  ad_allow_custom_domains cfg = true ∨ d ∈ ad_custom_domain_allowlist cfg →
  let '(_, a, w1) := handle cfg io auth (SetCustomDomain id domain) w in
  rs_status <$> a = Some 201
  ∧ ∀ st host, host_only host = d →
    find_subdomain st host (relay w1) = Some id
    ∧ let closed := (http_teardown ctx now connected_at timeout id r url (relay w1)).2 in
      lookup_tunnel id closed = None
      ∧ let later := with_tunnel id r' e' closed in
        find_subdomain st host later = Some id ∧ lookup_tunnel id later = Some (r', e').
Proof.
  intros d Hauth Hd Hdot Hl Hallow. cbn [handle]. unfold set_custom_domain, authorized. rewrite Hauth.
  fold d.
  rewrite (bool_decide_false (d = [])), Hdot by done. cbn [negb orb].
  assert (Ht : tunnels (relay w) !! id = Some r).
  { unfold lookup_tunnel in Hl. destruct (tunnels (relay w) !! id) as [r0|]; [|done].
    cbn in Hl. destruct (heap (relay w) !! r0); [|done]. cbn in Hl. congruence. }
  rewrite Ht.
  assert (Hg : negb (ad_allow_custom_domains cfg)
               && negb (bool_decide (d ∈ ad_custom_domain_allowlist cfg)) = false).
  { destruct Hallow as [-> |Hin]; [done|]. rewrite (bool_decide_true _ Hin). apply andb_false_r. }
  rewrite Hg. unfold with_effects, answer. split; [done|]. intros st host Hh.
  set (s1 := relay _).
  assert (Hsub : find_subdomain st host s1 = Some id).
  { unfold find_subdomain, s1. cbn [relay set_relay custom_domains set_custom_domains].
    by rewrite Hh, lookup_insert_eq. }
  split; [done|].
  assert (Hc : (http_teardown ctx now connected_at timeout id r url s1).2 = remove_key id s1)
    by (by destruct timeout).
  cbv zeta. rewrite Hc. split; [|split].
  - unfold lookup_tunnel, remove_key. cbn [tunnels set_tunnels]. by rewrite lookup_delete_eq.
  - exact Hsub.
  - unfold lookup_tunnel, with_tunnel. cbn [tunnels set_tunnels heap set_heap].
    rewrite lookup_insert_eq. cbn [mbind option_bind]. by rewrite lookup_insert_eq.
Qed.

(** The settings page is safe to save.  Saving what [get_settings] shows,
    unchanged, keeps the stored token; what it shows of the token is at most its
    last four bytes; and a new token, one that is not empty and does not begin
    with the ellipsis, replaces it. *)
Theorem settings_round_trip cfg io auth w c v t :
  cf (store w) = Some c → (get_settings w).1.2 = Some {| rs_status := 200; rs_body := JsonBody v |} →
  let shown := get §"cf_api_token_masked" v ≫= as_str in
  let keep := (handle cfg io auth (SaveSettings shown (account_id c)) w).2 in
  cf (store keep) = Some {| api_token := api_token c; account_id := trim (account_id c) |}
  ∧ (∃ tail, shown = Some [] ∧ api_token c = [] ∨
             shown = Some (ellipsis ++ tail) ∧ (length tail <= 4)%nat
             ∧ (tail = [] ∨ ∃ hidden, api_token c = hidden ++ tail ∧ hidden ≠ []))
  ∧ (t ≠ [] → starts_with ellipsis t = false →
     cf (store (handle cfg io auth (SaveSettings (Some t) (account_id c)) w).2)
     = Some {| api_token := t; account_id := trim (account_id c) |}).
Proof.
  intros Hcf Hget shown keep. unfold get_settings, cf_or_default in Hget.
  cbv beta zeta in Hget. rewrite Hcf in Hget. cbn [default] in Hget. change (id c) with c in Hget.
  destruct (masked (api_token c)) as [m|] eqn:Em; cbn [fst snd] in Hget; [|done].
  unfold ok_json, answer in Hget. cbn [fst snd] in Hget. injection Hget as Hv.
  assert (Hs : shown = Some m) by (unfold shown; rewrite <-Hv; reflexivity).
  assert (Hm : m = [] ∧ api_token c = [] ∨
    ∃ tail, m = ellipsis ++ tail ∧ (length tail <= 4)%nat
            ∧ (tail = [] ∨ ∃ hidden, api_token c = hidden ++ tail ∧ hidden ≠ [])).
  { unfold masked in Em. destruct (Nat.ltb_spec 4 (length (api_token c))) as [Hlen|Hlen].
    - destruct (is_char_boundary _ _); [|done]. injection Em as <-. right.
      exists (drop (length (api_token c) - 4) (api_token c)). split_and!; [done|rewrite length_drop; lia|].
      right. exists (take (length (api_token c) - 4) (api_token c)).
      split; [by rewrite take_drop|]. intros E. apply (f_equal length) in E.
      rewrite length_take in E. cbn in E. lia.
    - injection Em as <-. case_bool_decide; [by left|]. right. exists [].
      rewrite app_nil_r. split_and!; [done|cbn; lia|by left]. }
  split_and!.
  - unfold keep. rewrite Hs. cbn [handle]. unfold save_settings. rewrite Hcf. cbn [snd with_effects no_content answer set_store store set_cf cf].
    unfold new_token. destruct Hm as [[-> _]|(tail & -> & _)]; [done|].
    by rewrite starts_with_app, andb_false_r.
  - destruct Hm as [[-> Hc]|(tail & -> & Hl & Ht)]; [exists []; by left|].
    exists tail. right. by split_and!.
  - intros Ht Hp. cbn [handle]. unfold save_settings, new_token. rewrite Hcf.
    rewrite (bool_decide_false (t = [])), Hp by done. done.
Qed.

(** A token that ends in a character of more than one byte takes the settings
    page away: the last four bytes are cut out of the text without regard for
    its characters, and the handler panics. *)
Theorem settings_panic w c :
  cf (store w) = Some c → (4 < length (api_token c))%nat →
  is_char_boundary (api_token c) (length (api_token c) - 4) = false →
  (get_settings w).1.2 = None.
Proof.
  intros Hcf Hlen Hb. unfold get_settings, cf_or_default, masked. rewrite Hcf. cbn [default].
  change (id c) with c.
  by rewrite (proj2 (Nat.ltb_lt _ _) Hlen), Hb.
Qed.
End domains.

Lemma custom_domain_outlives_tunnel_witness :
  let '(_, a, w1) := handle demo_admin demo_io demo_auth (SetCustomDomain §"app" §"Shop.Example") demo_world in
  rs_status <$> a = Some 201
  ∧ find_subdomain demo_app §"shop.example:443" (relay w1) = Some §"app".
Proof.
  assert (Hd : to_lowercase (trim §"Shop.Example") ≠ []) by (vm_compute; discriminate).
  pose proof (custom_domain_outlives_tunnel demo_admin demo_io demo_auth demo_world §"app" §"Shop.Example"
    0%nat (entry_new 0 §"app" 1000 0 §"192.0.2.1") demo_ctx 2000 1000 false [] 1%nat
    (entry_new 1 §"app" 2000 0 §"192.0.2.66") eq_refl Hd eq_refl eq_refl (or_introl eq_refl)) as HT.
  destruct (handle _ _ _ _ _) as [[es a] w1]. destruct HT as [Ha HT]. split; [exact Ha|].
  exact (proj1 (HT demo_app §"shop.example:443" eq_refl)).
Defined.

Definition cf_world (token : str) : World :=
  set_store (set_cf (Some {| api_token := token; account_id := §"acc" |}) store_default) demo_world.

Lemma settings_round_trip_witness :
  cf (store (handle demo_admin demo_io None (SaveSettings (Some §"…cdef") §"acc") (cf_world §"89abcdef")).2)
  = Some {| api_token := §"89abcdef"; account_id := §"acc" |}.
Proof.
  exact (proj1 (settings_round_trip demo_admin demo_io None (cf_world §"89abcdef") _ _ [] eq_refl eq_refl)).
Defined.

Lemma settings_panic_witness : (get_settings (cf_world §"tökén€xy")).1.2 = None.
Proof.
  apply (settings_panic (cf_world §"tökén€xy") {| api_token := §"tökén€xy"; account_id := §"acc" |}).
  - reflexivity.
  - apply Nat.ltb_lt. reflexivity.
  - reflexivity.
Defined.

(** ** The Cloudflare endpoints *)

Section cloudflare.
Context `{Unicode} `{ConstantTimeEq}.

(** Creating a DNS record.  With credentials stored, the request to
    Cloudflare is the record asked for, in the zone asked for, under the stored
    token; the record of a successful reply is answered with 201 and the error of
    a failed one with 500.  Without credentials the answer is 422, whatever the
    network would answer.  Neither the relay nor the store changes. *)
Theorem cf_create_dns_relayed cfg io auth w zone req :
  match cf_client (store w) with
  | None => handle cfg io auth (CfCreateDns zone req) w = credentials_required w
  | Some c =>
    let sent := {| cq_method := POST; cq_url := CF_API ++ §"/zones/" ++ zone ++ §"/dns_records";
                   cq_bearer := cl_token c; cq_body := Some (create_record_to_value req) |} in
    ∀ rp success errors result,
      a_send io sent = Some rp → Forall err_wf errors →
      cp_json rp = Some (envelope success errors (opt_value record_to_value result)) →
      (∀ r, result = Some r → record_wf r) →
      handle cfg io auth (CfCreateDns zone req) w
      = ([CfCall sent], Some match success, result, errors with
                  | true, Some r, _ => {| rs_status := 201; rs_body := JsonBody (record_to_value r) |}
                  | true, None, _ => {| rs_status := 500;
                      rs_body := error_body §"CF API returned null result" |}
                  | false, _, e :: _ => {| rs_status := 500;
                      rs_body := error_body (show (ce_code e) ++ §": " ++ ce_message e) |}
                  | false, _, [] => {| rs_status := 500;
                      rs_body := error_body §"unknown CF API error" |}
                  end, w)
  end.
Proof.
  destruct (cf_client (store w)) as [c|] eqn:Hc; cbn [handle]; unfold cf_create_dns, cf_call;
    rewrite Hc; [|done].
  intros rp success errors result Hs He Hj Hr. unfold create_dns_record, post.
  assert (optional record_of_value (opt_value record_to_value result) = Ok result) as Ho.
  { destruct result as [r|]; [|done]. cbn [opt_value]. unfold optional.
    rewrite record_round_trip by auto. done. }
  pose proof (fetch_reply (a_send io) c POST _ _ §"CF POST failed" record_of_value rp success errors _
    Hs Hj He) as HF.
  destruct (fetch _ _ _ _ _ _ _) as [sent' res] eqn:Ef. cbn [snd] in HF. subst res.
  injection Ef as <- _. rewrite Ho. by destruct success, result, errors.
Qed.
End cloudflare.

Lemma cf_create_dns_relayed_witness :
  let w := cf_world §"tok" in
  let req := {| cd_name := §"a"; cd_record_type := §"A"; cd_content := §"192.0.2.1";
                cd_proxied := true; cd_ttl := 1 |} in
  let r := {| dr_id := §"r1"; dr_name := §"a.example"; dr_record_type := §"A";
              dr_content := §"192.0.2.1"; dr_proxied := true; dr_ttl := 1;
              dr_modified_on := None |} in
  let io := {| a_now := 0; a_uptime := 0; a_uuid := []; a_audit_ring := []; a_history := [];
               a_logs := []; a_metrics := new_metrics; a_tcp_passthrough_active := 0; a_connect := λ _, true;
               a_send := λ _, Some (demo_reply (envelope true [] (record_to_value r)));
               a_secret := [] |} in
  handle demo_admin io None (CfCreateDns §"z" req) w
  = ([CfCall {| cq_method := POST; cq_url := CF_API ++ §"/zones/z/dns_records"; cq_bearer := §"tok";
                cq_body := Some (create_record_to_value req) |}],
     Some {| rs_status := 201; rs_body := JsonBody (record_to_value r) |}, w).
Proof.
  intros w req r io.
  apply (cf_create_dns_relayed demo_admin io None w §"z" req
    (demo_reply (envelope true [] (record_to_value r))) true [] (Some r));
    [reflexivity|constructor|reflexivity|].
  intros r' [= <-]. split; discriminate.
Defined.
