(* ===== verification/Passthrough.v ===== *)
(** * Passthrough: raw TCP forwarding

    [crates/seamless-relay/src/tcp_passthrough.rs]: the rule syntax, the checks
    a connection passes, and the two copies of [forward] as a machine that
    takes one event at a time. *)

From S2P Require Import Prelude Text Json Cidr Codec Policy RateLimit Metrics AuditLog.
From S2P Require Import Backends Tunnel HandleClient.
Local Open Scope Z_scope.

(** ** Rules *)

Record TcpPassthroughConfig := {
  listen_port : Z;
  backend_host : str;
  backend_port : Z;
}.

Definition parse (s : str) : result str TcpPassthroughConfig :=
  match splitn 3 ":"%char s with
  | [p; host; q] =>
    p' ← ok_or (§"invalid listen port '" ++ p ++ §"' in --tcp-passthrough") (parse_uint u16_max p);
    q' ← ok_or (§"invalid backend port '" ++ q ++ §"' in --tcp-passthrough") (parse_uint u16_max q);
    Ok {| listen_port := p'; backend_host := host; backend_port := q' |}
  | _ => Err (§"invalid --tcp-passthrough format '" ++ s
              ++ §"': expected <listen_port>:<backend_host>:<backend_port>")
  end.

Definition backend_addr (cfg : TcpPassthroughConfig) : str :=
  backend_host cfg ++ §":" ++ show (backend_port cfg).

(** ** Admission *)

(** What happens to one accepted connection. *)
Inductive decision :=
| Dropped
| Forwarded.

Section passthrough.
Context `{Unicode}.

(** The checks of the accept loop, on the shared rate limiter. *)
Definition accept (cfg : TcpPassthroughConfig) (dl : IpDenyList.IpDenyList) (geo : GeoipFilter)
    (peer_ip : ip_addr) (peer peer_ip_text : str) (now instant : Z)
    (rl : RateLimiter.RateLimiter) : list effect * decision * RateLimiter.RateLimiter :=
  let port := (§"listen_port", Int (listen_port cfg)) in
  let who := (§"peer", Str peer) in
  if IpDenyList.is_denied dl peer_ip
  then ([audit now §"tcp_passthrough.denied" [who; port; (§"reason", Str §"ip_denylist")]],
        Dropped, rl)
  else match country_code geo peer_ip with
  | Some cc =>
    if (geo_is_blocked geo peer_ip 0).1
    then ([GeoBlocked; audit now §"tcp_passthrough.geo_blocked" [who; port; (§"country", Str cc)]],
          Dropped, rl)
    else
      let '(ok, rl) := RateLimiter.check_and_record rl peer_ip_text instant in
      if ok then ([], Forwarded, rl)
      else ([audit now §"tcp_passthrough.rate_limited" [who; port]; Metric inc_rate_limit_hits],
            Dropped, rl)
  | None =>
    if (geo_is_blocked geo peer_ip 0).1
    then ([GeoBlocked;
           audit now §"tcp_passthrough.geo_blocked" [who; port; (§"country", Str §"unknown")]],
          Dropped, rl)
    else
      let '(ok, rl) := RateLimiter.check_and_record rl peer_ip_text instant in
      if ok then ([], Forwarded, rl)
      else ([audit now §"tcp_passthrough.rate_limited" [who; port]; Metric inc_rate_limit_hits],
            Dropped, rl)
  end.
End passthrough.

(** ** Forwarding *)

(** What one of the two sockets does to a copy: [n] bytes read there and written
    to the other side, the end of its stream, a read from it that fails (a
    reset), a write towards it that fails.  [tokio::io::copy] ends with [Ok] on
    the second and with [Err] on the last two. *)
Inductive wire_event :=
| ClientBytes (n : Z)
| ClientEof
| ClientReset
| ClientGone
| BackendBytes (n : Z)
| BackendEof
| BackendReset
| BackendGone.

(** The two copies: bytes copied so far, or ended with a result. *)
Inductive copy :=
| Copying (n : Z)
| Ended (r : option Z).

Record splice := {
  client_to_backend : copy;
  backend_to_client : copy;
}.

Definition splice_start : splice :=
  {| client_to_backend := Copying 0; backend_to_client := Copying 0 |}.

Definition more (n : Z) (c : copy) : copy :=
  match c with Copying k => Copying (u64_add k n) | Ended r => Ended r end.
Definition eof (c : copy) : copy :=
  match c with Copying k => Ended (Some k) | Ended r => Ended r end.
Definition failed (c : copy) : copy :=
  match c with Copying k => Ended None | Ended r => Ended r end.

Definition splice_step (s : splice) (ev : wire_event) : splice :=
  match ev with
  | ClientBytes n => {| client_to_backend := more n (client_to_backend s);
                        backend_to_client := backend_to_client s |}
  | ClientEof => {| client_to_backend := eof (client_to_backend s);
                    backend_to_client := backend_to_client s |}
  | ClientReset | BackendGone =>
      {| client_to_backend := failed (client_to_backend s);
         backend_to_client := backend_to_client s |}
  | BackendBytes n => {| client_to_backend := client_to_backend s;
                         backend_to_client := more n (backend_to_client s) |}
  | BackendEof => {| client_to_backend := client_to_backend s;
                     backend_to_client := eof (backend_to_client s) |}
  | BackendReset | ClientGone =>
      {| client_to_backend := client_to_backend s;
         backend_to_client := failed (backend_to_client s) |}
  end.

(** [tokio::join!] of the two: both must have ended. *)
Definition joined (s : splice) : option (Z * Z) :=
  match client_to_backend s, backend_to_client s with
  | Ended a, Ended b => Some (default 0 a, default 0 b)
  | _, _ => None
  end.

(** [forward]: its result, when it has returned after these events.  Neither
    socket is shut down before that. *)
Definition forward (connected : bool) (evs : list wire_event) : option (Z * Z) :=
  if connected then joined (foldl splice_step splice_start evs) else Some (0, 0).

(** The task of a connection: the gauge of active connections and the effects,
    while it runs and when it has ended. *)
Definition connection_task (cfg : TcpPassthroughConfig) (peer : str) (now end_now : Z)
    (connected : bool) (evs : list wire_event) (active : Z) : list effect * Z :=
  let fields := [(§"peer", Str peer); (§"listen_port", Int (listen_port cfg));
                 (§"backend", Str (backend_addr cfg))] in
  let opened := [audit now §"tcp_passthrough.connect" fields] in
  match forward connected evs with
  | None => (opened, u64_add active 1)
  | Some (bytes_in, bytes_out) =>
    (opened ++ [audit end_now §"tcp_passthrough.disconnect"
                  (fields ++ [(§"bytes_in", Int bytes_in); (§"bytes_out", Int bytes_out)])],
     u64_sub (u64_add active 1) 1)
  end.

(** ** Theorems *)

Lemma splitn_1 c s : splitn 1 c s = [s].
Proof. done. Qed.

Lemma show_no_colon n : ":"%char ∉ show n.
Proof.
  intros Hin. assert (Hd : forallb is_digit (show n) = true) by apply show_all_digits.
  rewrite forallb_forall in Hd. apply list_elem_of_In, Hd in Hin. discriminate.
Qed.

(** A rule is read back as it is written, for every port and every host
    without a colon; and no rule reaches a backend by a host with a colon in it:
    a literal IPv6 address, bracketed or not, is refused or read as another
    rule. *)
Theorem rule_round_trip p host q :
  0 <= p <= u16_max → 0 <= q <= u16_max →
  (":"%char ∉ host → parse (show p ++ §":" ++ host ++ §":" ++ show q)
                     = Ok {| listen_port := p; backend_host := host; backend_port := q |})
  ∧ ∀ s cfg, parse s = Ok cfg → (":"%char ∉ backend_host cfg).
Proof.
  intros Hp Hq. unfold u16_max in *. split.
  - intros Hh. unfold parse. cbn [splitn]. 
    change (show p ++ §":" ++ host ++ §":" ++ show q) with
      (show p ++ ":"%char :: (host ++ ":"%char :: show q)).
    rewrite find_char_app by apply show_no_colon. rewrite find_char_app by done.
    rewrite !parse_show by (unfold u16_max; lia). done.
  - intros s cfg. unfold parse. cbn [splitn].
    destruct (find_char ":"%char s) as [[a b]|] eqn:Ea; [|done].
    destruct (find_char ":"%char b) as [[h c]|] eqn:Eb; [|done].
    destruct (parse_uint u16_max a); [|done]. destruct (parse_uint u16_max c); [|done].
    intros [= <-]. cbn. clear -Eb. revert h c Eb.
    induction b as [|d b IH]; intros h c; cbn [find_char]; [done|].
    case_bool_decide as Ed; [intros [= <- _]; apply not_elem_of_nil|].
    destruct (find_char ":"%char b) as [[h' c']|]; [|done]. intros [= <- <-].
    rewrite elem_of_cons. intros [E|Hin]; [congruence|]. by eapply IH.
Qed.

Lemma rule_round_trip_witness :
  parse §"5432:db.internal:5433"
  = Ok {| listen_port := 5432; backend_host := §"db.internal"; backend_port := 5433 |}.
Proof.
  assert (Hp : 0 <= 5432 <= u16_max) by (unfold u16_max; lia).
  assert (Hq : 0 <= 5433 <= u16_max) by (unfold u16_max; lia).
  apply (proj1 (rule_round_trip 5432 §"db.internal" 5433 Hp Hq)).
  by apply (bool_decide_unpack _).
Defined.

(** One direction by itself: the bytes before its end, and how it ends. *)
Inductive side_event :=
| Moved (n : Z)
| Closed
| Broken.

Definition client_side (ev : wire_event) : option side_event :=
  match ev with
  | ClientBytes n => Some (Moved n)
  | ClientEof => Some Closed
  | ClientReset | BackendGone => Some Broken
  | _ => None
  end.
Definition backend_side (ev : wire_event) : option side_event :=
  match ev with
  | BackendBytes n => Some (Moved n)
  | BackendEof => Some Closed
  | BackendReset | ClientGone => Some Broken
  | _ => None
  end.

(** [None] while no end has come; a broken direction counts nothing. *)
Fixpoint side_result (n : Z) (evs : list side_event) : option Z :=
  match evs with
  | [] => None
  | Moved k :: rest => side_result (u64_add n k) rest
  | Closed :: _ => Some n
  | Broken :: _ => Some 0
  end.

Definition side_copy (c : copy) (evs : list side_event) : option Z :=
  match c with Copying n => side_result n evs | Ended r => Some (default 0 r) end.

Lemma splice_sides evs s :
  joined (foldl splice_step s evs)
  = match side_copy (client_to_backend s) (omap client_side evs),
          side_copy (backend_to_client s) (omap backend_side evs) with
    | Some a, Some b => Some (a, b)
    | _, _ => None
    end.
Proof.
  revert s. induction evs as [|ev evs IH]; intros [a b].
  - unfold joined. cbn. by destruct a, b.
  - cbn [foldl]. rewrite IH.
    destruct ev, a, b; cbn [splice_step client_to_backend backend_to_client more eof failed
      omap list_omap client_side backend_side side_copy side_result default]; done.
Qed.

(** Without an end event of its own a direction has no result. *)
Lemma side_unended (side : wire_event → option side_event) evs n :
  (∀ ev, ev ∈ evs → side ev ≠ Some Closed ∧ side ev ≠ Some Broken) →
  side_result n (omap side evs) = None.
Proof.
  revert n. induction evs as [|ev evs IH]; intros n Hno; [done|].
  assert (IH' := λ n, IH n (λ ev' Hin, Hno ev' ltac:(by right))).
  destruct (Hno ev ltac:(by left)) as [H1 H2]. cbn [omap list_omap].
  destruct (side ev) as [[]|]; cbn [side_result]; [apply IH'|done|done|apply IH'].
Qed.

(** C36: a forwarded connection ends when both directions have ended, not when
    one has.  The bytes it reports are those each direction carried before the
    end of its own stream, and 0 for a direction in which a read or a write
    failed.  Until the backend closes or resets, or a write to the client
    fails, it runs on whatever the client does, closing and resetting included,
    and counts as an active connection; and the same holds the other way
    round. *)
Theorem forward_waits_for_both evs :
  forward true evs
  = match side_result 0 (omap client_side evs), side_result 0 (omap backend_side evs) with
    | Some bytes_in, Some bytes_out => Some (bytes_in, bytes_out)
    | _, _ => None
    end
  ∧ ((∀ ev, ev ∈ evs → ev ≠ BackendEof ∧ ev ≠ BackendReset ∧ ev ≠ ClientGone)
     ∨ (∀ ev, ev ∈ evs → ev ≠ ClientEof ∧ ev ≠ ClientReset ∧ ev ≠ BackendGone) →
     forward true evs = None
     ∧ ∀ cfg peer now end_now active,
         (connection_task cfg peer now end_now true evs active).2 = u64_add active 1).
Proof.
  assert (E := splice_sides evs splice_start). split; [exact E|]. intros Hno.
  assert (N : forward true evs = None).
  { unfold forward. rewrite E. cbn [side_copy splice_start client_to_backend backend_to_client].
    destruct Hno as [Hno|Hno].
    - rewrite (side_unended backend_side evs) by (intros [] [? []]%Hno; naive_solver).
      by destruct (side_result _ _).
    - by rewrite (side_unended client_side evs) by (intros [] [? []]%Hno; naive_solver). }
  split; [done|]. intros. unfold connection_task. by rewrite N.
Qed.

Section checks.
Context `{Unicode}.

(** What a passthrough connection must pass: it is forwarded exactly when
    its address is not on the deny list, not in a blocked country, and within
    the rate limit, and only then, or when the rate limit alone stops it, does
    it use up the address's budget, the same that registrations use; the case
    of an address with no known country that is blocked never arises. *)
Theorem accept_spec cfg dl geo ip peer ip_text now instant rl :
  let '(w, d, rl') := accept cfg dl geo ip peer ip_text now instant rl in
  let barred := IpDenyList.is_denied dl ip || (geo_is_blocked geo ip 0).1 in
  let '(ok, rl1) := RateLimiter.check_and_record rl ip_text instant in
  d = (if barred || negb ok then Dropped else Forwarded)
  ∧ rl' = (if barred then rl else rl1)
  ∧ (d = Forwarded → w = [])
  ∧ (country_code geo ip = None → (geo_is_blocked geo ip 0).1 = false).
Proof.
  assert (G : country_code geo ip = None → (geo_is_blocked geo ip 0).1 = false).
  { unfold country_code, geo_is_blocked. destruct (db geo) as [reader|]; [|done].
    cbn [mbind option_bind]. intros ->. by case_bool_decide. }
  unfold accept. destruct (RateLimiter.check_and_record rl ip_text instant) as [ok rl1].
  destruct (IpDenyList.is_denied dl ip); [by split_and!|]. cbn [orb].
  destruct (country_code geo ip) as [cc|] eqn:Ec.
  - destruct (geo_is_blocked geo ip 0).1, ok; by split_and!.
  - rewrite G by done. destruct ok; by split_and!.
Qed.
End checks.

Lemma forward_waits_for_both_witness :
  forward true [ClientBytes 10; BackendBytes 200; ClientEof; BackendBytes 5; BackendEof]
  = Some (10, 205)
  ∧ forward true [ClientBytes 10; BackendBytes 200; BackendReset; ClientEof] = Some (10, 0)
  ∧ forward true [ClientBytes 10; BackendBytes 200; ClientReset] = None.
Proof.
  split; [reflexivity|]. split; [reflexivity|].
  apply (forward_waits_for_both [ClientBytes 10; BackendBytes 200; ClientReset]). left.
  intros ev Hin. rewrite !elem_of_cons in Hin.
  destruct Hin as [->|[->|[->|[]%elem_of_nil]]]; by split_and!.
Defined.
