(* ===== verification/Acme.v ===== *)
(** * Acme: certificate expiry, renewal and challenges

    The parts of [crates/seamless-relay/src/acme.rs] around the issuance of a
    certificate: reading the expiry date out of a stored one, the decision to
    renew, the zone of a domain, and the HTTP-01 challenge server.  The issuance
    itself is in [Issuance]. *)

From S2P Require Import Prelude Text Calendar Json Http.
Local Open Scope Z_scope.

(** ** Results that may panic

    A slice out of range or inside a character panics. *)
Inductive outcome (A : Type) :=
| Value_of (a : A)
| Panic.
Arguments Value_of {A} a.
Arguments Panic {A}.

Definition char_boundary (s : str) (i : nat) : bool :=
  match s !! i with Some c => negb (is_cont c) | None => (i =? length s)%nat end.

(** [&s[a..b]] and [&s[a..]] *)
Definition slice (s : str) (a b : nat) : option str :=
  if (a <=? b)%nat && (b <=? length s)%nat && char_boundary s a && char_boundary s b
  then Some (take (b - a) (drop a s)) else None.

(** [str::parse::<i64>] *)
Definition parse_i64 (s : str) : option Z :=
  match s with
  | c :: r =>
    if bool_decide (c = "-"%char)
    then match r with [] => None | _ => Z.opp <$> parse_digits 9223372036854775808 0 r end
    else parse_uint i64_max s
  | [] => None
  end.

(** ** The expiry date *)

(** The body of the first certificate block, its lines joined. *)
Fixpoint skip_to_begin (ls : list str) : list str :=
  match ls with
  | [] => []
  | l :: rest => if starts_with §"-----BEGIN CERTIFICATE-----" l then ls else skip_to_begin rest
  end.
Fixpoint take_to_end (ls : list str) : str :=
  match ls with
  | [] => []
  | l :: rest => if starts_with §"-----END CERTIFICATE-----" l then [] else l ++ take_to_end rest
  end.
Definition pem_body (pem : str) : str := take_to_end (drop 1 (skip_to_begin (lines pem))).

Definition is_time_tag (c : ascii) : bool := (code c =? 0x17) || (code c =? 0x18).

(** The scan for time values: [fuel] bounds the bytes, [left] is how many are
    still looked for.  [i + 2 < der.len()] is that three bytes are left. *)
Fixpoint scan_times (fuel left : nat) (der : str) : list str :=
  match fuel, left with
  | S fuel', S left' =>
    match der with
    | tag :: len :: body =>
      let n := Z.to_nat (code len) in
      if bool_decide (body = []) then []
      else if is_time_tag tag
      then if (n <=? length body)%nat
           then take n body :: scan_times fuel' left' (drop n body)
           else scan_times fuel' left (drop n body)
      else scan_times fuel' left (len :: body)
    | _ => []
    end
  | _, _ => []
  end.

Definition found_times (der : str) : list str := scan_times (length der) 2 der.

(** The date at the head of a [UTCTime] or [GeneralizedTime]: [None] where the
    code returns [None]. *)
Definition time_date (s : str) : outcome (option (Z * Z * Z)) :=
  let year_rest :=
    if (15 <=? length s)%nat
    then match slice s 0 4, slice s 4 (length s) with
         | Some y, Some rest => Value_of ((λ y, (y, rest)) <$> parse_i64 y)
         | None, _ => Panic
         | Some y, None => match parse_i64 y with Some _ => Panic | None => Value_of None end
         end
    else match slice s 0 2 with
         | Some yy =>
           match parse_i64 yy with
           | Some yy =>
             match slice s 2 (length s) with
             | Some rest => Value_of (Some ((if yy <? 50 then 2000 + yy else 1900 + yy), rest))
             | None => Panic
             end
           | None => Value_of None
           end
         | None => Panic
         end in
  match year_rest with
  | Panic => Panic
  | Value_of None => Value_of None
  | Value_of (Some (year, rest)) =>
    match slice rest 0 2 with
    | None => Panic
    | Some m =>
      match parse_i64 m with
      | None => Value_of None
      | Some month =>
        match slice rest 2 4 with
        | None => Panic
        | Some d => Value_of ((λ day, (year, month, day)) <$> parse_i64 d)
        end
      end
    end
  end.

Section expiry.
(** The standard base64 decoder. *)
Variable base64_decode : str → option str.

Definition days_until_expiry (now_secs : Z) (pem : str) : outcome (option Z) :=
  let b64 := pem_body pem in
  if bool_decide (b64 = []) then Value_of None
  else match base64_decode b64 with
  | None => Value_of None
  | Some der =>
    match found_times der !! 1%nat with
    | None => Value_of None
    | Some bytes =>
      match from_utf8 bytes with
      | None => Value_of None
      | Some s =>
        match time_date s with
        | Panic => Panic
        | Value_of None => Value_of None
        | Value_of (Some (year, month, day)) =>
          Value_of (exp_days ← days_since_epoch year month day;
                    Some (exp_days - Z.quot now_secs 86400))
        end
      end
    end
  end.

(** [needs_renewal]: [stored] is the certificate file of the first domain, when
    it exists; its reading may fail. *)
Definition needs_renewal (domains : list str) (stored : option (option str)) (now_secs : Z)
    : outcome bool :=
  match domains with
  | [] => Value_of false
  | _ :: _ =>
    match stored with
    | None => Value_of true
    | Some None => Value_of true
    | Some (Some pem) =>
      match days_until_expiry now_secs pem with
      | Panic => Panic
      | Value_of None => Value_of true
      | Value_of (Some d) => Value_of (d <? 30)
      end
    end
  end.
End expiry.

(** ** Zones *)

(** The zone asked of Cloudflare: the last two labels. *)
Definition zone_name (domain : str) : str :=
  match reverse (split_char "."%char domain) with
  | tld :: label :: _ => label ++ §"." ++ tld
  | _ => domain
  end.

(** ** The challenge server *)

(** The width in bytes of the white space a text begins with, 0 when it does not. *)
Definition ws_width (s : str) : nat :=
  match s with
  | [] => 0
  | a :: r =>
    if ws1 a then 1
    else match r with
         | [] => 0
         | b :: r1 => if ws2 a b then 2
                      else match r1 with [] => 0 | c :: _ => if ws3 a b c then 3 else 0 end
         end
  end%nat.

(** [split_whitespace]; [word] is the word being read. *)
Fixpoint words (fuel : nat) (word s : str) : list str :=
  let close := if bool_decide (word = []) then [] else [word] in
  match fuel, s with
  | S fuel', c :: r =>
    match ws_width s with
    | O => words fuel' (word ++ [c]) r
    | w => close ++ words fuel' [] (drop w s)
    end
  | _, _ => close
  end.
Definition split_whitespace (s : str) : list str := words (length s) [] s.

Definition request_path (req : str) : str :=
  default §"/" (l ← head (lines req); split_whitespace l !! 1%nat).

Definition trim_slashes (s : str) : str :=
  let fix go (s : str) := match s with
                          | c :: r => if bool_decide (c = "/"%char) then go r else s
                          | [] => []
                          end in
  reverse (go (reverse s)).

Definition PREFIX : str := §"/.well-known/acme-challenge/".

Definition not_found_response : str :=
  §"HTTP/1.1 404 Not Found" ++ crlf ++ §"Content-Length: 0" ++ crlf ++ §"Connection: close"
  ++ crlf ++ crlf.
Definition key_response (body : str) : str :=
  §"HTTP/1.1 200 OK" ++ crlf ++ §"Content-Type: text/plain" ++ crlf
  ++ §"Content-Length: " ++ show (Z.of_nat (length body)) ++ crlf
  ++ §"Connection: close" ++ crlf ++ crlf ++ body.

(** One connection: [None] when nothing is sent. *)
Definition challenge_response_to (tokens : gmap str str) (read : option str) : option str :=
  buf ← read;
  req ← from_utf8 buf;
  Some match strip_prefix PREFIX (request_path req) with
       | Some token =>
         match tokens !! trim_slashes token with
         | Some key_auth => key_response key_auth
         | None => not_found_response
         end
       | None => not_found_response
       end.

Example repository_test_expiry :
  days_until_expiry (λ _, None) 0 §"not a cert" = Value_of None.
Proof. reflexivity. Qed.

(** ** Lemmas: the scan *)

Lemma scan_skip pre suf fuel left :
  forallb (λ c, negb (is_time_tag c)) pre = true → (3 <= length suf)%nat →
  (length pre <= fuel)%nat →
  scan_times fuel (S left) (pre ++ suf) = scan_times (fuel - length pre) (S left) suf.
Proof.
  intros Hpre Hs. revert fuel. induction pre as [|c pre IH]; intros fuel Hf.
  - by rewrite Nat.sub_0_r.
  - destruct fuel as [|fuel]; cbn [length] in Hf; [lia|].
    cbn [forallb] in Hpre. apply andb_true_iff in Hpre as [Hc Hpre]. apply negb_true_iff in Hc.
    change ((c :: pre) ++ suf) with (c :: (pre ++ suf)). cbn [length Nat.sub].
    assert (Hl : (2 <= length (pre ++ suf))%nat) by (rewrite length_app; lia).
    rewrite <-IH by (done || lia).
    destruct (pre ++ suf) as [|x [|y r]]; cbn [length] in Hl; [lia|lia|].
    cbn [scan_times]. by rewrite Hc, bool_decide_false by done.
Qed.

Lemma scan_hit tag len t rest fuel left :
  is_time_tag tag = true → Z.to_nat (code len) = length t → t ≠ [] →
  scan_times (S fuel) (S left) (tag :: len :: t ++ rest) = t :: scan_times fuel left rest.
Proof.
  intros Htag Hlen Ht. cbn [scan_times]. rewrite Htag, Hlen.
  rewrite bool_decide_false by (by destruct t).
  rewrite (proj2 (Nat.leb_le _ _)) by (rewrite length_app; lia).
  by rewrite take_app_length, drop_app_length.
Qed.

(** A time value in the encoding. *)
Definition time_value (t : str) : str := chr 0x17 :: chr (Z.of_nat (length t)) :: t.
Definition no_tag (s : str) : Prop := forallb (λ c, negb (is_time_tag c)) s = true.

Lemma scan_value t rest fuel left :
  t ≠ [] → (length t < 256)%nat →
  scan_times (S fuel) (S left) (time_value t ++ rest) = t :: scan_times fuel left rest.
Proof.
  intros Ht Hl. unfold time_value. cbn [app]. apply scan_hit; [done| |done].
  rewrite code_chr by lia. lia.
Qed.

(** The first two values of a text that begins without any. *)
Lemma found_two pre t1 mid t2 post :
  no_tag pre → no_tag mid → t1 ≠ [] → t2 ≠ [] → (length t1 < 256)%nat → (length t2 < 256)%nat →
  found_times (pre ++ time_value t1 ++ mid ++ time_value t2 ++ post) = [t1; t2].
Proof.
  intros Hpre Hmid Ht1 Ht2 Hl1 Hl2. unfold found_times.
  assert (L : ∀ t rest, t ≠ [] → (3 <= length (time_value t ++ rest))%nat).
  { intros t rest Ht. unfold time_value. cbn. rewrite length_app. destruct t; [done|]. cbn. lia. }
  set (n := length _). assert (Hn : n = (length pre + (2 + length t1) + length mid + (2 + length t2) + length post)%nat).
  { unfold n. unfold time_value. rewrite !length_app. cbn [length]. lia. }
  rewrite scan_skip by (auto; lia).
  destruct (n - length pre)%nat as [|f1] eqn:E1; [lia|]. rewrite scan_value by done. f_equal.
  rewrite scan_skip by (auto; lia).
  destruct (f1 - length mid)%nat as [|f2] eqn:E2; [lia|]. rewrite scan_value by done. f_equal.
  by destruct f2.
Qed.

(** ** Lemmas: the date in a time value *)

(** [YYMMDDHHMMSSZ] *)
Definition utc_time (y m d : Z) (hms : str) : str :=
  show_pad 2 (y mod 100) ++ show_pad 2 m ++ show_pad 2 d ++ hms ++ §"Z".

Lemma two_digits n :
  0 <= n < 100 →
  ∃ a b, show_pad 2 n = [a; b] ∧ is_ascii a = true ∧ is_ascii b = true ∧ parse_i64 [a; b] = Some n.
Proof.
  intros Hn.
  assert (C : forallb (λ n : nat, match show_pad 2 (Z.of_nat n) with
     | [a; b] => is_ascii a && is_ascii b && bool_decide (parse_i64 [a; b] = Some (Z.of_nat n))
     | _ => false end) (seq 0 100) = true) by (vm_compute; reflexivity).
  rewrite forallb_forall in C. specialize (C (Z.to_nat n)).
  rewrite Z2Nat.id in C by lia. destruct (show_pad 2 n) as [|a [|b [|? ?]]].
  1,2,4: by (discriminate C; apply in_seq; lia).
  assert (C' := C ltac:(apply in_seq; lia)). apply andb_true_iff in C' as [C1 C3].
  apply andb_true_iff in C1 as [C1 C2]. apply bool_decide_eq_true in C3. by exists a, b.
Qed.

Lemma boundary_ascii s i : forallb is_ascii s = true → (i <= length s)%nat → char_boundary s i = true.
Proof.
  intros Hs Hi. unfold char_boundary. destruct (s !! i) as [c|] eqn:E.
  - apply list_elem_of_lookup_2, list_elem_of_In in E. rewrite forallb_forall in Hs.
    apply Hs in E. unfold is_cont. unfold is_ascii in E. apply Z.ltb_lt in E.
    apply negb_true_iff, andb_false_iff. left. apply Z.leb_gt. lia.
  - apply lookup_ge_None in E. apply Nat.eqb_eq. lia.
Qed.

Lemma slice_ascii s a b :
  forallb is_ascii s = true → (a <= b <= length s)%nat → slice s a b = Some (take (b - a) (drop a s)).
Proof.
  intros Hs Hab. unfold slice. rewrite !boundary_ascii by (done || lia).
  rewrite (proj2 (Nat.leb_le a b)), (proj2 (Nat.leb_le b _)) by lia. done.
Qed.

Lemma two_digit_year y :
  1950 <= y < 2050 → (if y mod 100 <? 50 then 2000 + y mod 100 else 1900 + y mod 100) = y.
Proof.
  intros Hy. pose proof (Z.div_mod y 100). pose proof (Z.mod_pos_bound y 100).
  assert (y / 100 = 19 ∨ y / 100 = 20) as [E|E] by lia.
  - rewrite (proj2 (Z.ltb_ge _ _)) by lia. lia.
  - rewrite (proj2 (Z.ltb_lt _ _)) by lia. lia.
Qed.

Lemma utc_time_date y m d hms :
  1950 <= y < 2050 → 0 <= m < 100 → 0 <= d < 100 → length hms = 6%nat →
  forallb is_ascii hms = true →
  time_date (utc_time y m d hms) = Value_of (Some (y, m, d))
  ∧ utf8_valid (utc_time y m d hms) = true ∧ length (utc_time y m d hms) = 13%nat.
Proof.
  intros Hy Hm Hd Hlen Ha. unfold utc_time.
  destruct (two_digits (y mod 100)) as (y1 & y2 & -> & Hy1 & Hy2 & Py); [by apply Z.mod_pos_bound|].
  destruct (two_digits m Hm) as (m1 & m2 & -> & Hm1 & Hm2 & Pm).
  destruct (two_digits d Hd) as (d1 & d2 & -> & Hd1 & Hd2 & Pd). cbn [app].
  set (tl := hms ++ §"Z"). assert (Htl : forallb is_ascii tl = true) by (unfold tl; by rewrite forallb_app, Ha).
  assert (Hl : length tl = 7%nat) by (unfold tl; rewrite length_app, Hlen; done).
  assert (Hall : forallb is_ascii (y1 :: y2 :: m1 :: m2 :: d1 :: d2 :: tl) = true)
    by (cbn [forallb]; by rewrite Hy1, Hy2, Hm1, Hm2, Hd1, Hd2).
  assert (Hrest : forallb is_ascii (m1 :: m2 :: d1 :: d2 :: tl) = true)
    by (cbn [forallb]; by rewrite Hm1, Hm2, Hd1, Hd2).
  split_and!; [|by apply utf8_ascii|cbn [length]; lia].
  unfold time_date. set (s := y1 :: y2 :: _).
  assert (Hs : length s = 13%nat) by (unfold s; cbn [length]; lia).
  rewrite (proj2 (Nat.leb_gt 15 _)) by lia.
  rewrite !(slice_ascii s) by (done || lia). rewrite Hs. unfold s. cbn [drop take Nat.sub].
  rewrite Py.
  assert (Hyy : (if y mod 100 <? 50 then 2000 + y mod 100 else 1900 + y mod 100) = y).
  { by apply two_digit_year. }
  rewrite Hyy, (take_ge tl) by lia. set (r := m1 :: m2 :: _).
  assert (Hr' : length r = 11%nat) by (unfold r; cbn [length]; lia).
  assert (S1 : slice r 0 2 = Some [m1; m2]) by (rewrite slice_ascii by (done || lia); done).
  assert (S2 : slice r 2 4 = Some [d1; d2]) by (rewrite slice_ascii by (done || lia); done).
  cbn [fmap option_fmap option_map]. by rewrite S1, Pm, S2, Pd.
Qed.

(** ** The expiry date of a certificate *)

Section certificates.
Variable base64_decode : str → option str.

(** A stored certificate: its body is the encoding of [der]. *)
Definition holds (pem der : str) : Prop :=
  pem_body pem ≠ [] ∧ base64_decode (pem_body pem) = Some der.

(** An instant in the years a [UTCTime] can name. *)
Definition utc_instant (secs : Z) : Prop :=
  0 <= secs <= last_second ∧ let '(y, _, _) := epoch_to_ymd secs in 1950 <= y < 2050.
Definition utc_text (secs : Z) (hms : str) : str :=
  let '(y, m, d) := epoch_to_ymd secs in utc_time y m d hms.


Lemma utc_text_ok secs hms :
  utc_instant secs → length hms = 6%nat → forallb is_ascii hms = true →
  ∃ y m d, days_since_epoch y m d = Some (secs / 86400)
    ∧ time_date (utc_text secs hms) = Value_of (Some (y, m, d))
    ∧ utf8_valid (utc_text secs hms) = true ∧ length (utc_text secs hms) = 13%nat.
Proof.
  intros [Hs Hy] Hl Ha. pose proof (days_of_epoch secs Hs) as D.
  pose proof (epoch_to_ymd_range secs Hs) as R. unfold utc_text.
  destruct (epoch_to_ymd secs) as [[y m] d]. exists y, m, d. split; [done|].
  apply utc_time_date; (done || lia).
Qed.

Lemma utc_text_short secs hms :
  utc_instant secs → length hms = 6%nat → forallb is_ascii hms = true →
  utc_text secs hms ≠ [] ∧ (length (utc_text secs hms) < 256)%nat.
Proof.
  intros H1 H2 H3. destruct (utc_text_ok secs hms H1 H2 H3) as (_ & _ & _ & _ & _ & _ & L).
  rewrite L. split; [intros E; rewrite E in L; discriminate|lia].
Qed.

(** The second value of the scan is the date that counts. *)
Lemma second_time pem der t secs hms now :
  holds pem der → found_times der = [t; utc_text secs hms] →
  utc_instant secs → length hms = 6%nat → forallb is_ascii hms = true → 0 <= now →
  days_until_expiry base64_decode now pem = Value_of (Some (secs / 86400 - now / 86400)).
Proof.
  intros [Hne Hdec] Hf Hs Hl Ha Hnow.
  destruct (utc_text_ok secs hms Hs Hl Ha) as (y & m & d & Hd & Ht & Hu & _).
  unfold days_until_expiry. rewrite bool_decide_false, Hdec, Hf by done.
  cbn [lookup list_lookup]. unfold from_utf8. rewrite Hu, Ht, Hd.
  cbn [mbind option_bind]. by rewrite Z.quot_div_nonneg by lia.
Qed.

(** C26: renewal is due in the last thirty days.  For a stored certificate whose
    encoding has no byte 0x17 or 0x18 before its validity, the check computes the
    number of days from now to the day of [notAfter], for every instant the
    two-digit years can name, and asks for renewal exactly when that is below
    30. *)
Theorem renewal_spec domains pem pre t1 mid secs hms post now :
  domains ≠ [] → no_tag pre → no_tag mid → t1 ≠ [] → (length t1 < 256)%nat →
  utc_instant secs → length hms = 6%nat → forallb is_ascii hms = true → 0 <= now →
  holds pem (pre ++ time_value t1 ++ mid ++ time_value (utc_text secs hms) ++ post) →
  days_until_expiry base64_decode now pem = Value_of (Some (secs / 86400 - now / 86400))
  ∧ needs_renewal base64_decode domains (Some (Some pem)) now
    = Value_of (secs / 86400 - now / 86400 <? 30).
Proof.
  intros Hdom Hpre Hmid Ht1 Hl1 Hs Hl Ha Hnow Hpem.
  destruct (utc_text_short secs hms Hs Hl Ha) as [Hne Hlen].
  assert (D : days_until_expiry base64_decode now pem = Value_of (Some (secs / 86400 - now / 86400))).
  { eapply second_time; [exact Hpem|by apply found_two|done..]. }
  split; [done|]. unfold needs_renewal. destruct domains; [done|]. by rewrite D.
Qed.

(** A stray byte hides the expiry date.  The check does not parse the
    certificate, it looks for the bytes 0x17 and 0x18: when one occurs before
    the validity, in the serial number say, what follows it passes for the first
    date and [notBefore] for the second, so a certificate is found due for
    renewal from the moment it is issued, however long it is valid. *)
Theorem stray_tag_renews domains pem pre junk mid before hms rest now :
  domains ≠ [] → no_tag pre → no_tag mid → junk ≠ [] → (length junk < 256)%nat →
  utc_instant before → length hms = 6%nat → forallb is_ascii hms = true → before <= now →
  holds pem (pre ++ time_value junk ++ mid ++ time_value (utc_text before hms) ++ rest) →
  needs_renewal base64_decode domains (Some (Some pem)) now = Value_of true.
Proof.
  intros Hdom Hpre Hmid Ht1 Hl1 Hs Hl Ha Hnow Hpem.
  destruct (utc_text_short before hms Hs Hl Ha) as [Hne Hlen].
  assert (0 <= before) by (destruct Hs; lia).
  assert (D : days_until_expiry base64_decode now pem = Value_of (Some (before / 86400 - now / 86400))).
  { eapply second_time; [exact Hpem|by apply found_two|done..|lia]. }
  unfold needs_renewal. destruct domains; [done|]. rewrite D.
  assert (before / 86400 <= now / 86400) by (apply Z.div_le_mono; lia).
  by rewrite (proj2 (Z.ltb_lt _ _)) by lia.
Qed.
End certificates.

(** A decoder for the witnesses: hexadecimal instead of base64. *)
Definition nibble (c : ascii) : Z := if is_digit c then code c - 48 else code c - 87.
Fixpoint hex_decode (s : str) : option str :=
  match s with
  | [] => Some []
  | [_] => None
  | a :: b :: r => t ← hex_decode r; Some (chr (16 * nibble a + nibble b) :: t)
  end.
Definition hex_encode (s : str) : str :=
  mjoin ((λ c, [hex_digit (code c / 16); hex_digit (code c mod 16)]) <$> s).
Definition demo_pem (der : str) : str :=
  §"-----BEGIN CERTIFICATE-----" ++ [lf] ++ hex_encode der ++ [lf]
  ++ §"-----END CERTIFICATE-----" ++ [lf].
Definition demo_der (serial : str) : str :=
  serial ++ time_value (utc_text 1700000000 §"000000") ++ time_value (utc_text 1707776000 §"000000")
  ++ §"key".

Lemma renewal_spec_witness :
  needs_renewal hex_decode [§"example.com"] (Some (Some (demo_pem (demo_der §"0")))) 1705276000
  = Value_of (1707776000 / 86400 - 1705276000 / 86400 <? 30).
Proof.
  apply (renewal_spec hex_decode [§"example.com"] (demo_pem (demo_der §"0")) §"0"
    (utc_text 1700000000 §"000000") [] 1707776000 §"000000" §"key" 1705276000).
  - discriminate.
  - reflexivity.
  - reflexivity.
  - vm_compute. discriminate.
  - apply Nat.ltb_lt. vm_compute. reflexivity.
  - split; [unfold last_second; lia|]. vm_compute. split; [discriminate|reflexivity].
  - reflexivity.
  - reflexivity.
  - lia.
  - split; [vm_compute; discriminate|vm_compute; reflexivity].
Defined.

Lemma stray_tag_renews_witness :
  needs_renewal hex_decode [§"example.com"]
    (Some (Some (demo_pem (demo_der (chr 0x17 :: chr 2 :: §"ab"))))) 1700000000 = Value_of true.
Proof.
  apply (stray_tag_renews hex_decode [§"example.com"] (demo_pem (demo_der (chr 0x17 :: chr 2 :: §"ab")))
    [] §"ab" [] 1700000000 §"000000"
    (time_value (utc_text 1707776000 §"000000") ++ §"key") 1700000000).
  - discriminate.
  - reflexivity.
  - reflexivity.
  - discriminate.
  - apply Nat.ltb_lt. reflexivity.
  - split; [unfold last_second; lia|]. vm_compute. split; [discriminate|reflexivity].
  - reflexivity.
  - reflexivity.
  - lia.
  - split; [vm_compute; discriminate|vm_compute; reflexivity].
Defined.

(** ** The challenge server *)

Lemma first_line l rest : (lf ∉ l) → head (lines (l ++ crlf ++ rest)) = Some l.
Proof.
  intros Hl. unfold lines. change (crlf ++ rest) with ([cr] ++ lf :: rest).
  rewrite app_assoc, split_char_app.
  2:{ rewrite elem_of_app. intros [H|H]; [done|]. by apply list_elem_of_singleton in H. }
  assert (Hne : split_char lf rest ≠ []).
  { destruct rest as [|d r]; cbn [split_char]; [done|]. case_bool_decide; [done|].
    by destruct (split_char lf r). }
  destruct (split_char lf rest) as [|x xs]; [done|]. cbn [lines_of head].
  unfold strip_cr. by rewrite strip_suffix_app.
Qed.

Lemma ws_width_plain c r : plain c = true → ws_width (c :: r) = 0%nat.
Proof.
  intros Hc. unfold plain in Hc. apply andb_true_iff in Hc as [Ha Hw]. apply negb_true_iff in Hw.
  cbn [ws_width]. rewrite Hw. destruct r as [|b [|d r]]; [done| |];
    rewrite ws2_ascii by done; [done|]. by rewrite ws3_ascii.
Qed.

Lemma words_plain p fuel w s :
  forallb plain p = true → (length p <= fuel)%nat →
  words fuel w (p ++ s) = words (fuel - length p) (w ++ p) s.
Proof.
  revert fuel w. induction p as [|c p IH]; intros fuel w Hp Hf.
  - by rewrite app_nil_r, Nat.sub_0_r.
  - destruct fuel as [|fuel]; cbn [length] in Hf; [lia|].
    cbn [forallb] in Hp. apply andb_true_iff in Hp as [Hc Hp].
    change ((c :: p) ++ s) with (c :: (p ++ s)). cbn [words length Nat.sub].
    rewrite ws_width_plain, IH by (done || lia). by rewrite <-app_assoc.
Qed.

Lemma words_blank fuel w s :
  w ≠ [] → words (S fuel) w (" "%char :: s) = w :: words fuel [] s.
Proof. intros Hw. cbn [words]. rewrite bool_decide_false by done. done. Qed.

(** The path of a request line. *)
Lemma second_word a b c :
  forallb plain a = true → forallb plain b = true → a ≠ [] → b ≠ [] →
  split_whitespace (a ++ §" " ++ b ++ §" " ++ c) !! 1%nat = Some b.
Proof.
  intros Ha Hb Hna Hnb. unfold split_whitespace. set (n := length _).
  assert (Hn : n = (length a + S (length b + S (length c)))%nat)
    by (unfold n; rewrite !length_app; cbn; lia).
  rewrite words_plain by (done || lia).
  replace (n - length a)%nat with (S (length b + S (length c))) by lia.
  change (§" " ++ b ++ §" " ++ c) with (" "%char :: b ++ " "%char :: c).
  rewrite words_blank by done. rewrite words_plain by (done || lia).
  replace (length b + S (length c) - length b)%nat with (S (length c)) by lia.
  cbn [app]. by rewrite words_blank by done.
Qed.

Lemma trim_no_slash t : ("/"%char ∉ t) → trim_slashes t = t.
Proof.
  intros Ht. unfold trim_slashes. destruct (reverse t) as [|c r] eqn:E.
  - apply (f_equal reverse) in E. by rewrite reverse_involutive in E.
  - assert (c ≠ "/"%char).
    { intros ->. apply Ht. apply elem_of_reverse. rewrite E. by left. }
    rewrite bool_decide_false by done. by rewrite <-E, reverse_involutive.
Qed.

Definition challenge_request (path tail : str) : str :=
  §"GET " ++ path ++ §" HTTP/1.1" ++ crlf ++ tail.

Lemma challenge_path path tail :
  forallb plain path = true → path ≠ [] → request_path (challenge_request path tail) = path.
Proof.
  intros Hp Hne. unfold request_path, challenge_request.
  rewrite !app_assoc. rewrite <-(app_assoc _ crlf tail), first_line.
  - cbn [mbind option_bind]. rewrite <-!app_assoc.
    change (§"GET " ++ path ++ §" HTTP/1.1") with (§"GET" ++ §" " ++ path ++ §" " ++ §"HTTP/1.1").
    by rewrite second_word.
  - rewrite !elem_of_app. intros [[H|H]|H].
    + revert H. by apply (bool_decide_unpack _).
    + rewrite forallb_forall in Hp. apply list_elem_of_In, Hp in H. discriminate.
    + revert H. by apply (bool_decide_unpack _).
Qed.

(** A request for a path of the challenge directory. *)
Lemma serves_token tokens token tail :
  forallb plain token = true → ("/"%char ∉ token) →
  utf8_valid (challenge_request (PREFIX ++ token) tail) = true →
  challenge_response_to tokens (Some (challenge_request (PREFIX ++ token) tail))
  = Some match tokens !! token with Some k => key_response k | None => not_found_response end.
Proof.
  intros Ht Hs Hu. unfold challenge_response_to, from_utf8. cbn [mbind option_bind].
  rewrite Hu. cbn [mbind option_bind]. rewrite challenge_path.
  - unfold strip_prefix. rewrite starts_with_app, drop_app_length. by rewrite trim_no_slash.
  - by rewrite forallb_app, Ht.
  - done.
Qed.

(** The challenge server serves the pending keys and nothing else.  The
    request of the certificate authority for a token gets the token's key
    authorization, with its length, when one is stored, and 404 when none is;
    a path outside the challenge directory gets 404. *)
Theorem challenge_server_spec tokens path token tail :
  forallb plain path = true → path ≠ [] → forallb plain token = true → ("/"%char ∉ token) →
  utf8_valid (challenge_request path tail) = true →
  (path = PREFIX ++ token →
   challenge_response_to tokens (Some (challenge_request path tail))
   = Some match tokens !! token with Some k => key_response k | None => not_found_response end)
  ∧ (starts_with PREFIX path = false →
     challenge_response_to tokens (Some (challenge_request path tail)) = Some not_found_response).
Proof.
  intros Hp Hne Ht Hs Hu. split; [by intros ->; apply serves_token|]. intros Hpre.
  unfold challenge_response_to, from_utf8. cbn [mbind option_bind].
  rewrite Hu. cbn [mbind option_bind]. rewrite challenge_path by done.
  unfold strip_prefix. by rewrite Hpre.
Qed.

Lemma challenge_server_spec_witness :
  challenge_response_to {[ §"tok" := §"tok.key" ]}
    (Some (challenge_request §"/.well-known/acme-challenge/tok" (§"Host: a" ++ crlf ++ crlf)))
  = Some (key_response §"tok.key").
Proof.
  assert (Hs : "/"%char ∉ §"tok") by (by apply (bool_decide_unpack _)).
  assert (Hne : §"/.well-known/acme-challenge/tok" ≠ []) by discriminate.
  rewrite (proj1 (challenge_server_spec {[ §"tok" := §"tok.key" ]} §"/.well-known/acme-challenge/tok"
    §"tok" (§"Host: a" ++ crlf ++ crlf) eq_refl Hne eq_refl Hs eq_refl) eq_refl).
  by rewrite lookup_singleton_eq.
Defined.
