(* ===== verification/Router.v ===== *)
(** * Router: from an HTTP request to an operation of the admin interface

    The route table of [start_admin] in [crates/seamless-relay/src/admin.rs], the
    request types its handlers read from path, query and body, and the order of
    the layers around them: the CORS layer, the address filter, the table with
    its extractors, the handlers, which are those of [Admin].  What axum does
    with a table, and tower-http with a preflight, is the interface [Axum].

    [request_for] writes out the request of each operation, independently of the
    table; [admin_access] says who gets through to which of them. *)

From S2P Require Import Prelude Text Json Cidr Addr Codec Policy RateLimit Metrics AuditLog Backends.
From S2P Require Import Tunnel HandleClient Http Store Cloudflare Ingress Admin Acme.
Local Open Scope Z_scope.

(** ** The table *)

Inductive http_method := GET | HEAD | POST | PUT | DELETE | OPTIONS | OtherMethod.
#[export] Instance http_method_eq_dec : EqDecision http_method.
Proof. solve_decision. Defined.

Inductive segment :=
| Lit (s : str)
| Param.
#[export] Instance segment_eq_dec : EqDecision segment.
Proof. solve_decision. Defined.

(** axum's notation for a path: a segment in braces is a parameter. *)
Definition pattern_of (path : str) : list segment :=
  (λ s, match s with
        | c :: _ => if bool_decide (c = "{"%char) then Param else Lit s
        | [] => Lit s
        end) <$> split_char "/"%char (drop 1 path).

(** The handlers, by name. *)
Inductive endpoint :=
| On_serve_ui | On_health_check | On_ready_check | On_metrics
| On_list_routes | On_create_route | On_update_route | On_delete_route
| On_list_tunnels | On_get_tunnel | On_get_ddos | On_set_ddos | On_get_requests
| On_stats_history | On_bulk_disconnect | On_disconnect_tunnel | On_tunnel_stats
| On_pause_tunnel | On_resume_tunnel | On_audit_query
| On_list_custom_domains | On_set_custom_domain | On_remove_custom_domain
| On_list_backends | On_add_backend | On_remove_backend | On_force_health_check
| On_get_logs | On_health_routes | On_get_status | On_get_settings | On_save_settings
| On_cf_list_tunnels | On_cf_create_tunnel | On_cf_delete_tunnel | On_cf_tunnel_token
| On_cf_list_zones | On_cf_list_dns | On_cf_create_dns | On_cf_update_dns | On_cf_delete_dns.
#[export] Instance endpoint_eq_dec : EqDecision endpoint.
Proof. solve_decision. Defined.

Definition api : list (list segment * list (http_method * endpoint)) :=
  prod_map pattern_of id <$>
  [(§"/", [(GET, On_serve_ui)]);
   (§"/health", [(GET, On_health_check)]);
   (§"/ready", [(GET, On_ready_check)]);
   (§"/metrics", [(GET, On_metrics)]);
   (§"/api/routes", [(GET, On_list_routes); (POST, On_create_route)]);
   (§"/api/routes/{id}", [(PUT, On_update_route); (DELETE, On_delete_route)]);
   (§"/api/tunnels", [(GET, On_list_tunnels)]);
   (§"/api/tunnels/{id}", [(GET, On_get_tunnel)]);
   (§"/api/tunnels/{id}/ddos", [(GET, On_get_ddos); (PUT, On_set_ddos)]);
   (§"/api/tunnels/{id}/requests", [(GET, On_get_requests)]);
   (§"/api/stats/history", [(GET, On_stats_history)]);
   (§"/admin/tunnels/disconnect", [(POST, On_bulk_disconnect)]);
   (§"/admin/tunnels/{id}", [(DELETE, On_disconnect_tunnel)]);
   (§"/admin/tunnels/{id}/stats", [(GET, On_tunnel_stats)]);
   (§"/admin/tunnels/{id}/pause", [(POST, On_pause_tunnel)]);
   (§"/admin/tunnels/{id}/resume", [(POST, On_resume_tunnel)]);
   (§"/admin/audit", [(GET, On_audit_query)]);
   (§"/api/custom-domains", [(GET, On_list_custom_domains)]);
   (§"/api/tunnels/{id}/custom-domain",
    [(POST, On_set_custom_domain); (DELETE, On_remove_custom_domain)]);
   (§"/api/tunnels/{id}/backends", [(GET, On_list_backends); (POST, On_add_backend)]);
   (§"/api/tunnels/{id}/backends/{backend_id}", [(DELETE, On_remove_backend)]);
   (§"/api/tunnels/{id}/backends/{backend_id}/health", [(POST, On_force_health_check)]);
   (§"/api/logs", [(GET, On_get_logs)]);
   (§"/api/routes/health", [(GET, On_health_routes)]);
   (§"/api/status", [(GET, On_get_status)]);
   (§"/api/settings", [(GET, On_get_settings); (PUT, On_save_settings)]);
   (§"/api/cf/tunnels", [(GET, On_cf_list_tunnels); (POST, On_cf_create_tunnel)]);
   (§"/api/cf/tunnels/{id}", [(DELETE, On_cf_delete_tunnel)]);
   (§"/api/cf/tunnels/{id}/token", [(GET, On_cf_tunnel_token)]);
   (§"/api/cf/zones", [(GET, On_cf_list_zones)]);
   (§"/api/cf/dns/{zone_id}", [(GET, On_cf_list_dns); (POST, On_cf_create_dns)]);
   (§"/api/cf/dns/{zone_id}/{record_id}", [(PUT, On_cf_update_dns); (DELETE, On_cf_delete_dns)])].
Definition patterns : list (list segment) := api.*1.

(** ** Paths *)

(** The parameters of a path, given by its segments, that fits a pattern. *)
Fixpoint captures (p : list segment) (path : list str) : option (list str) :=
  match p, path with
  | [], [] => Some []
  | Lit l :: p, s :: path => if bool_decide (s = l) then captures p path else None
  | Param :: p, s :: path => if bool_decide (s = []) then None else cons s <$> captures p path
  | _, _ => None
  end.

(** [q] has a literal where [p], alike up to there, has a parameter. *)
Fixpoint more_static (q p : list segment) : bool :=
  match q, p with
  | Lit _ :: _, Param :: _ => true
  | Lit a :: q, Lit b :: p => bool_decide (a = b) && more_static q p
  | Param :: q, Param :: p => more_static q p
  | _, _ => false
  end.

(** axum: the route of a path among some patterns, by its position, with the
    parameters as they stand there; the decoding of a parameter, which need not
    be text; and the body of an answer of its own. *)
Class Axum := {
  route_at : list (list segment) → list str → option (nat * list str);
  percent_decode : str → option str;
  own_answer : Z → content;
}.
Class AxumLaws `{Axum} := {
  route_sound path i args : route_at patterns path = Some (i, args) →
    ∃ p, patterns !! i = Some p ∧ captures p path = Some args;
  route_complete path p : p ∈ patterns → is_Some (captures p path) →
    is_Some (route_at patterns path);
  route_static path i args p q : route_at patterns path = Some (i, args) → patterns !! i = Some p →
    q ∈ patterns → is_Some (captures q path) → more_static q p = false;
}.

(** ** Requests *)

(** A body: not JSON, with the status axum refuses it with, or a document; the
    query as decoded pairs. *)
Inductive body_in :=
| NoJson (status : Z)
| Document (v : Value).

Definition read_string (k : str) (m : list (str * Value)) : result str str :=
  required_member as_str k m.
Definition u32_of_value (v : Value) : result str Z :=
  ok_or §"invalid type"
    (n ← as_u64 v; if n <=? u32_max then Some n else None).
Definition bool_of_value (v : Value) : result str bool := ok_or §"invalid type" (as_bool v).

(** The request types, as serde derives their readers. *)
Definition route_req (v : Value) : result str (str * str * bool) :=
  m ← members v;
  domain ← read_string §"domain" m;
  upstream_url ← read_string §"upstream_url" m;
  enabled ← default_member bool_of_value true §"enabled" m;
  Ok (domain, upstream_url, enabled).

Definition one_string_req (k : str) (v : Value) : result str str :=
  m ← members v; read_string k m.

Definition save_settings_req (v : Value) : result str (option str * str) :=
  m ← members v;
  token ← option_member string_of_value §"cf_api_token" m;
  account ← read_string §"cf_account_id" m;
  Ok (token, account).

Definition ddos_config_req (v : Value) : result str DdosConfigReq :=
  m ← members v;
  enabled ← option_member bool_of_value §"enabled" m;
  rps ← option_member u32_of_value §"requests_per_second_limit" m;
  burst ← option_member u32_of_value §"burst_size" m;
  challenge ← option_member bool_of_value §"challenge_mode" m;
  Ok {| dr_enabled := enabled; dr_rps := rps; dr_burst := burst; dr_challenge := challenge |}.

Definition add_backend_req (v : Value) : result str (str * Z) :=
  m ← members v;
  addr ← read_string §"addr" m;
  weight ← default_member u32_of_value 1 §"weight" m;
  Ok (addr, weight).

Definition create_dns_req (v : Value) : result str CreateDnsRecord :=
  m ← members v;
  name ← read_string §"name" m;
  record_type ← read_string §"type" m;
  content ← read_string §"content" m;
  proxied ← required_member as_bool §"proxied" m;
  ttl ← member_of §"ttl" m;
  match ttl with
  | None => Err §"missing field `ttl`"
  | Some ttl =>
    ttl ← u32_of_value ttl;
    Ok {| cd_name := name; cd_record_type := record_type; cd_content := content;
          cd_proxied := proxied; cd_ttl := ttl |}
  end.

(** An optional number of the query. *)
Definition query_number {A} (parse : str → option A) (k : str) (query : list (str * str))
    : result str (option A) :=
  match filter (λ kv, kv.1 = k) query with
  | [] => Ok None
  | [(_, text)] => ok_or §"invalid digit" (Some <$> parse text)
  | _ => Err (§"duplicate field `" ++ k ++ §"`")
  end.
Definition query_limit (query : list (str * str)) : result str (option nat) :=
  match query_number (parse_uint u64_max) §"limit" query with
  | Ok n => Ok (Z.to_nat <$> n)
  | Err e => Err e
  end.

(** What the extractors of a handler make of a request: the operation, or the
    status it is refused with.  (Path parameters come in the order of the
    pattern.) *)
Definition with_body {A} (body : body_in) (read : Value → result str A) (f : A → admin_req)
    : result Z admin_req :=
  match body with
  | NoJson status => Err status
  | Document v => match read v with Ok a => Ok (f a) | Err _ => Err 422 end
  end.
Definition with_query {A} (q : result str A) (f : A → admin_req) : result Z admin_req :=
  match q with Ok a => Ok (f a) | Err _ => Err 400 end.

Definition request_of (e : endpoint) (args : list str) (query : list (str * str)) (body : body_in)
    : result Z admin_req :=
  match e, args with
  | On_serve_ui, [] => Ok ServeUi
  | On_health_check, [] => Ok HealthCheck
  | On_ready_check, [] => Ok ReadyCheck
  | On_metrics, [] => Ok MetricsText
  | On_list_routes, [] => Ok ListRoutes
  | On_create_route, [] => with_body body route_req (λ '(d, u, en), CreateRoute d u en)
  | On_update_route, [id] => with_body body route_req (λ '(d, u, en), UpdateRoute id d u en)
  | On_delete_route, [id] => Ok (DeleteRoute id)
  | On_list_tunnels, [] => Ok ListTunnels
  | On_get_tunnel, [id] => Ok (GetTunnel id)
  | On_get_ddos, [id] => Ok (GetDdos id)
  | On_set_ddos, [id] => with_body body ddos_config_req (SetDdos id)
  | On_get_requests, [id] => with_query (query_limit query) (GetRequests id)
  | On_stats_history, [] => Ok StatsHistory
  | On_bulk_disconnect, [] => with_body body (one_string_req §"client_ip") BulkDisconnect
  | On_disconnect_tunnel, [id] => Ok (DisconnectTunnel id)
  | On_tunnel_stats, [id] => Ok (TunnelStats id)
  | On_pause_tunnel, [id] => Ok (PauseTunnel id)
  | On_resume_tunnel, [id] => Ok (ResumeTunnel id)
  | On_audit_query, [] =>
    with_query (since_ts ← query_number parse_i64 §"since" query;
                limit ← query_limit query; Ok (since_ts, limit))
      (λ '(since_ts, limit), AuditQuery since_ts limit)
  | On_list_custom_domains, [] => Ok ListCustomDomains
  | On_set_custom_domain, [id] => with_body body (one_string_req §"domain") (SetCustomDomain id)
  | On_remove_custom_domain, [id] => Ok (RemoveCustomDomain id)
  | On_list_backends, [id] => Ok (ListBackends id)
  | On_add_backend, [id] =>
    with_body body add_backend_req
      (λ '(addr, weight), AddBackend id (show_socket_addr <$> parse_socket_addr addr) weight)
  | On_remove_backend, [id; backend_id] => Ok (RemoveBackend id backend_id)
  | On_force_health_check, [id; backend_id] => Ok (ForceHealthCheck id backend_id)
  | On_get_logs, [] => Ok GetLogs
  | On_health_routes, [] => Ok HealthRoutes
  | On_get_status, [] => Ok GetStatus
  | On_get_settings, [] => Ok GetSettings
  | On_save_settings, [] => with_body body save_settings_req (λ '(t, a), SaveSettings t a)
  | On_cf_list_tunnels, [] => Ok CfListTunnels
  | On_cf_create_tunnel, [] =>
    with_body body (one_string_req §"name") CfCreateTunnel
  | On_cf_delete_tunnel, [id] => Ok (CfDeleteTunnel id)
  | On_cf_tunnel_token, [id] => Ok (CfTunnelToken id)
  | On_cf_list_zones, [] => Ok CfListZones
  | On_cf_list_dns, [zone_id] => Ok (CfListDns zone_id)
  | On_cf_create_dns, [zone_id] => with_body body create_dns_req (CfCreateDns zone_id)
  | On_cf_update_dns, [zone_id; record_id] =>
    with_body body create_dns_req (CfUpdateDns zone_id record_id)
  | On_cf_delete_dns, [zone_id; record_id] => Ok (CfDeleteDns zone_id record_id)
  | _, _ => Err 500
  end.

(** ** The service *)

(** The handler of a method; axum answers HEAD with the handler of GET. *)
Fixpoint method_endpoint (m : http_method) (methods : list (http_method * endpoint)) : option endpoint :=
  match methods with
  | [] => None
  | (m', e) :: rest =>
    if bool_decide (m = m' ∨ m = HEAD ∧ m' = GET) then Some e else method_endpoint m rest
  end.

Definition without_body (resp : option response) : option response :=
  (λ r, {| rs_status := rs_status r; rs_body := NoBody |}) <$> resp.

(** What the table makes of a request. *)
Inductive routed :=
| Own (status : Z)
| Operation (req : admin_req).

Record http_request := {
  hr_method : http_method;
  hr_path : list str;
  hr_query : list (str * str);
  hr_authorization : option str;
  hr_body : body_in;
}.

Section service.
Context `{Unicode} `{JsonFile} `{ConstantTimeEq} `{Axum}.

Definition routed_to (r : http_request) : routed :=
  match route_at patterns (hr_path r) with
  | None => Own 404
  | Some (i, raw) =>
    match method_endpoint (hr_method r) (default [] (snd <$> api !! i)) with
    | None => Own 405
    | Some e =>
      match mapM percent_decode raw with
      | None => Own 400
      | Some args =>
        match request_of e args (hr_query r) (hr_body r) with
        | Ok req => Operation req
        | Err status => Own status
        end
      end
    end
  end.

(** The address filter, the table, the operation. *)
Definition answered (cfg : AdminConfig) (io : admin_io) (ip : ip_addr) (r : http_request)
    : handler :=
  from_allowed cfg ip
    match routed_to r with
    | Own status => answer status (own_answer status)
    | Operation req => handle cfg io (hr_authorization r) req
    end.

(** One request, with the preflight of the CORS layer around. *)
Definition service (cfg : AdminConfig) (io : admin_io) (ip : ip_addr) (r : http_request) : handler := λ w,
  match hr_method r with
  | OPTIONS => answer 200 NoBody w
  | _ =>
    let '(es, resp, w') := answered cfg io ip r w in
    (es, if bool_decide (hr_method r = HEAD) then without_body resp else resp, w')
  end.
End service.

(** ** Lemmas: paths *)

(** Two patterns that some path fits. *)
Fixpoint compatible (p q : list segment) : bool :=
  match p, q with
  | [], [] => true
  | Lit a :: p, Lit b :: q => bool_decide (a = b) && compatible p q
  | _ :: p, _ :: q => compatible p q
  | _, _ => false
  end.

Lemma captures_compatible p q path :
  is_Some (captures p path) → is_Some (captures q path) → compatible p q = true.
Proof.
  revert q path. induction p as [|[l|] p IH]; intros q path [a Hp] [b Hq].
  - destruct path; [|done]. by destruct q as [|[?|] ?].
  - destruct path as [|s path]; [done|]. cbn in Hp. case_bool_decide as E; [|done]. subst s.
    destruct q as [|[l'|] q]; [done|..]; cbn in Hq |- *.
    + destruct (decide (l = l')) as [<-|Hne]; [|by rewrite bool_decide_false in Hq].
      rewrite bool_decide_true in * by done. by apply (IH q path); eexists.
    + case_bool_decide; [done|]. apply fmap_Some in Hq as (? & ? & _). by apply (IH q path); eexists.
  - destruct path as [|s path]; [done|]. cbn in Hp. case_bool_decide; [done|].
    apply fmap_Some in Hp as (? & Hp & _).
    destruct q as [|[l'|] q]; [done|..]; cbn in Hq |- *.
    + case_bool_decide; [|done]. by apply (IH q path); eexists.
    + case_bool_decide; [done|]. apply fmap_Some in Hq as (? & ? & _). by apply (IH q path); eexists.
Qed.

(** In the table, of two different patterns that a path fits one is the more
    static. *)
Lemma patterns_apart i j p q :
  patterns !! i = Some p → patterns !! j = Some q → compatible p q = true →
  i = j ∨ more_static p q = true ∨ more_static q p = true.
Proof.
  set (ok := λ i p j q, negb (compatible p q) || (i =? j)%nat || more_static p q || more_static q p).
  assert (T : forallb (λ '(i, p), forallb (λ '(j, q), ok i p j q) (zip (seq 0 32) patterns))
                (zip (seq 0 32) patterns) = true) by (vm_compute; reflexivity).
  assert (Z : ∀ k r, patterns !! k = Some r → In (k, r) (zip (seq 0 32) patterns)).
  { intros k r Hk. apply list_elem_of_In, list_elem_of_lookup. exists k.
    apply lookup_zip_with_Some. exists k, r. split; [done|]. split; [|done].
    apply lookup_lt_Some in Hk. by apply lookup_seq_lt. }
  intros Hp Hq Hc. rewrite forallb_forall in T. specialize (T _ (Z _ _ Hp)). cbn beta iota in T.
  rewrite forallb_forall in T. specialize (T _ (Z _ _ Hq)). unfold ok in T. rewrite Hc in T.
  apply orb_true_iff in T as [T|T]; [|auto]. apply orb_true_iff in T as [T|T]; [|auto].
  cbn in T. apply Nat.eqb_eq in T. auto.
Qed.

(** A path made of a pattern and parameters. *)
Fixpoint render (p : list segment) (args : list str) : list str :=
  match p, args with
  | Lit l :: p, _ => l :: render p args
  | Param :: p, a :: args => a :: render p args
  | _, _ => []
  end.
Definition arity (p : list segment) : nat := length (filter (λ s, s = Param) p).

Lemma captures_render p args :
  length args = arity p → Forall (λ a, a ≠ []) args → captures p (render p args) = Some args.
Proof.
  revert args. induction p as [|[l|] p IH]; intros args Hlen Hargs; unfold arity in *.
  - by destruct args.
  - cbn. rewrite bool_decide_true by done. by apply IH.
  - rewrite filter_cons_True in Hlen by done. destruct args as [|a args]; [done|].
    apply Forall_cons in Hargs as [Ha Hargs]. cbn. rewrite bool_decide_false by done.
    rewrite IH; [done|by injection Hlen|done].
Qed.

Section theorems.
Context `{Unicode} `{JsonFile} `{ConstantTimeEq} `{AxumLaws}.
Implicit Types (r : http_request).

Definition shadowed (p : list segment) (args : list str) : bool :=
  existsb (λ q, more_static q p && bool_decide (is_Some (captures q (render p args)))) patterns.

Lemma routed_at r i p methods args :
  api !! i = Some (p, methods) → hr_path r = render p args → length args = arity p →
  Forall (λ a, a ≠ [] ∧ percent_decode a = Some a) args → shadowed p args = false →
  route_at patterns (hr_path r) = Some (i, args).
Proof.
  intros Hi -> Hlen Hargs Hsh.
  assert (Hcap : captures p (render p args) = Some args).
  { apply captures_render; [done|]. eapply Forall_impl; [done|]. by intros a [? _]. }
  assert (Hp : patterns !! i = Some p).
  { unfold patterns. rewrite list_lookup_fmap, Hi. done. }
  destruct (route_complete (render p args) p) as [[j raw'] Hr];
    [by eapply list_elem_of_lookup_2|by eexists|].
  destruct (route_sound _ _ _ Hr) as (q & Hq & Hcq).
  assert (Hc : compatible p q = true) by (eapply captures_compatible; by eexists).
  destruct (patterns_apart i j p q Hp Hq Hc) as [<-|[Hms|Hms]].
  - rewrite Hp in Hq. injection Hq as <-. rewrite Hcap in Hcq. injection Hcq as <-.
    exact Hr.
  - exfalso. pose proof (route_static _ _ _ _ p Hr Hq) as Hst.
    rewrite Hst in Hms; [done|by eapply list_elem_of_lookup_2|by eexists].
  - exfalso. unfold shadowed in Hsh. apply not_true_iff_false in Hsh. apply Hsh, existsb_exists.
    exists q. split; [by eapply list_elem_of_In, list_elem_of_lookup_2|].
    rewrite Hms. cbn [andb]. apply bool_decide_eq_true. by eexists.
Qed.

Lemma Forall_plain args :
  Forall (λ a, a ≠ [] ∧ percent_decode a = Some a) args →
  Forall2 (λ a b, percent_decode a = Some b) args args.
Proof. induction 1 as [|a args [_ ?] _ IH]; by constructor. Qed.

(** A request whose path is made of a pattern of the table and plain parameters,
    and whose method the table has for it, goes to the handler the table has,
    with exactly these parameters; unless a more static pattern of the table
    takes the same path. *)
Lemma reached_at r i p methods e args :
  api !! i = Some (p, methods) → method_endpoint (hr_method r) methods = Some e →
  hr_path r = render p args → length args = arity p →
  Forall (λ a, a ≠ [] ∧ percent_decode a = Some a) args → shadowed p args = false →
  routed_to r = match request_of e args (hr_query r) (hr_body r) with
                | Ok req => Operation req
                | Err status => Own status
                end.
Proof.
  intros Hi Hm Hpath Hlen Hargs Hsh. unfold routed_to.
  rewrite (routed_at r i p methods args) by done. rewrite Hi. cbn [fmap option_fmap option_map default snd].
  cbn. rewrite Hm, (proj2 (mapM_Some _ _ _) (Forall_plain args Hargs)). done.
Qed.

(** The patterns that can take a path from another. *)
Definition rivals (p : list segment) : list (list segment) :=
  filter (λ q, more_static q p && compatible p q) patterns.

Lemma shadowed_rivals p args :
  length args = arity p → Forall (λ a, a ≠ []) args →
  (∀ q, q ∈ rivals p → captures q (render p args) = None) → shadowed p args = false.
Proof.
  intros Hlen Hargs Hr. apply not_true_iff_false. intros (q & Hq & Hs)%existsb_exists.
  apply andb_true_iff in Hs as [Hm Hc]. apply bool_decide_eq_true in Hc.
  destruct (captures_render p args Hlen Hargs).
  assert (captures q (render p args) = None) as E; [|rewrite E in Hc; by destruct Hc].
  apply Hr, list_elem_of_filter. split; [|by apply list_elem_of_In].
  rewrite Hm, (captures_compatible p q (render p args)); [done| |done].
  eexists. by apply captures_render.
Qed.

(** The place of a handler in the table: the first pattern that has it for a
    method. *)
Definition place (m : http_method) (e : endpoint)
    : option (nat * (list segment * list (http_method * endpoint))) :=
  list_find (λ pm, method_endpoint m pm.2 = Some e) api.

Lemma reached_place r e args i p methods :
  place (hr_method r) e = Some (i, (p, methods)) →
  hr_path r = render p args → length args = arity p →
  Forall (λ a, a ≠ [] ∧ percent_decode a = Some a) args →
  (∀ q, q ∈ rivals p → captures q (render p args) = None) →
  routed_to r = match request_of e args (hr_query r) (hr_body r) with
                | Ok req => Operation req
                | Err status => Own status
                end.
Proof.
  intros (Hi & Hm & _)%list_find_Some Hpath Hlen Hargs Hr. cbn [snd] in Hm.
  eapply reached_at; try done. apply shadowed_rivals; [done| |done].
  eapply Forall_impl; [done|]. by intros a [? _].
Qed.

(** A tunnel of this name cannot be taken down alone.  [disconnect] is a name
    a client may register and the relay does not reserve, but the path that
    would disconnect that tunnel belongs to the bulk operation, which knows no
    DELETE: the answer is always 405. *)
Theorem disconnect_name_shadowed r :
  hr_method r = DELETE → hr_path r = [§"admin"; §"tunnels"; §"disconnect"] →
  routed_to r = Own 405
  ∧ is_ok (validate_subdomain §"disconnect") = true
  ∧ is_reserved (reserved_of None) §"disconnect" = false.
Proof.
  intros Hm Hpath. split; [|split; vm_compute; reflexivity]. unfold routed_to.
  rewrite (routed_at r 11 (pattern_of §"/admin/tunnels/disconnect") [(POST, On_bulk_disconnect)] []);
    [|reflexivity|exact Hpath|reflexivity|constructor|vm_compute; reflexivity].
  rewrite Hm. reflexivity.
Qed.

(** ** The request of each operation *)

(** What a client of the interface sends: method, path, query and body, written
    out for each operation. *)
Definition request_for (authorization : option str) (req : admin_req) : http_request :=
  let call m path query body :=
    {| hr_method := m; hr_path := path; hr_query := query; hr_authorization := authorization;
       hr_body := body |} in
  let bare m path := call m path [] (NoJson 415) in
  let send m path kvs := call m path [] (Document (object kvs)) in
  let limited limit := match limit with Some n => [(§"limit", show (Z.of_nat n))] | None => [] end in
  let record m path dns := call m path [] (Document (create_record_to_value dns)) in
  match req with
  | ServeUi => bare GET [[]]
  | HealthCheck => bare GET [§"health"]
  | ReadyCheck => bare GET [§"ready"]
  | MetricsText => bare GET [§"metrics"]
  | ListRoutes => bare GET [§"api"; §"routes"]
  | CreateRoute d u e =>
    send POST [§"api"; §"routes"] [(§"domain", Str d); (§"upstream_url", Str u); (§"enabled", Bool e)]
  | UpdateRoute id d u e =>
    send PUT [§"api"; §"routes"; id]
      [(§"domain", Str d); (§"upstream_url", Str u); (§"enabled", Bool e)]
  | DeleteRoute id => bare DELETE [§"api"; §"routes"; id]
  | ListTunnels => bare GET [§"api"; §"tunnels"]
  | GetTunnel id => bare GET [§"api"; §"tunnels"; id]
  | GetDdos id => bare GET [§"api"; §"tunnels"; id; §"ddos"]
  | SetDdos id c =>
    send PUT [§"api"; §"tunnels"; id; §"ddos"]
      [(§"enabled", opt_value Bool (dr_enabled c));
       (§"requests_per_second_limit", opt_value Int (dr_rps c));
       (§"burst_size", opt_value Int (dr_burst c));
       (§"challenge_mode", opt_value Bool (dr_challenge c))]
  | GetRequests id limit =>
    call GET [§"api"; §"tunnels"; id; §"requests"] (limited limit) (NoJson 415)
  | StatsHistory => bare GET [§"api"; §"stats"; §"history"]
  | BulkDisconnect ip =>
    send POST [§"admin"; §"tunnels"; §"disconnect"] [(§"client_ip", Str ip)]
  | DisconnectTunnel id => bare DELETE [§"admin"; §"tunnels"; id]
  | TunnelStats id => bare GET [§"admin"; §"tunnels"; id; §"stats"]
  | PauseTunnel id => bare POST [§"admin"; §"tunnels"; id; §"pause"]
  | ResumeTunnel id => bare POST [§"admin"; §"tunnels"; id; §"resume"]
  | AuditQuery since_ts limit =>
    call GET [§"admin"; §"audit"]
      (match since_ts with Some t => [(§"since", show t)] | None => [] end ++ limited limit)
      (NoJson 415)
  | ListCustomDomains => bare GET [§"api"; §"custom-domains"]
  | SetCustomDomain id d =>
    send POST [§"api"; §"tunnels"; id; §"custom-domain"] [(§"domain", Str d)]
  | RemoveCustomDomain id => bare DELETE [§"api"; §"tunnels"; id; §"custom-domain"]
  | ListBackends id => bare GET [§"api"; §"tunnels"; id; §"backends"]
  | AddBackend id addr weight =>
    send POST [§"api"; §"tunnels"; id; §"backends"]
      [(§"addr", Str (default [] addr)); (§"weight", Int weight)]
  | RemoveBackend id b => bare DELETE [§"api"; §"tunnels"; id; §"backends"; b]
  | ForceHealthCheck id b => bare POST [§"api"; §"tunnels"; id; §"backends"; b; §"health"]
  | GetLogs => bare GET [§"api"; §"logs"]
  | HealthRoutes => bare GET [§"api"; §"routes"; §"health"]
  | GetStatus => bare GET [§"api"; §"status"]
  | GetSettings => bare GET [§"api"; §"settings"]
  | SaveSettings t a =>
    send PUT [§"api"; §"settings"]
      [(§"cf_api_token", opt_value Str t); (§"cf_account_id", Str a)]
  | CfListTunnels => bare GET [§"api"; §"cf"; §"tunnels"]
  | CfCreateTunnel name => send POST [§"api"; §"cf"; §"tunnels"] [(§"name", Str name)]
  | CfDeleteTunnel id => bare DELETE [§"api"; §"cf"; §"tunnels"; id]
  | CfTunnelToken id => bare GET [§"api"; §"cf"; §"tunnels"; id; §"token"]
  | CfListZones => bare GET [§"api"; §"cf"; §"zones"]
  | CfListDns z => bare GET [§"api"; §"cf"; §"dns"; z]
  | CfCreateDns z dns => record POST [§"api"; §"cf"; §"dns"; z] dns
  | CfUpdateDns z id dns => record PUT [§"api"; §"cf"; §"dns"; z; id] dns
  | CfDeleteDns z id => bare DELETE [§"api"; §"cf"; §"dns"; z; id]
  end.

(** A parameter a path can hold as it is. *)
Definition simple (a : str) : Prop := a ≠ [] ∧ percent_decode a = Some a.
Definition at_most (max : Z) (o : option Z) : Prop := ∀ n, o = Some n → 0 ≤ n ≤ max.

(** The operations that have a request: parameters that stand for themselves,
    numbers in the range of their type, an address of a backend as it is
    printed.  Two names are taken by other operations. *)
Definition request_ok (req : admin_req) : Prop :=
  match req with
  | UpdateRoute id _ _ _ | DeleteRoute id => simple id ∧ id ≠ §"health"
  | DisconnectTunnel id => simple id ∧ id ≠ §"disconnect"
  | GetTunnel id | GetDdos id | TunnelStats id | PauseTunnel id | ResumeTunnel id
  | SetCustomDomain id _ | RemoveCustomDomain id | ListBackends id | CfDeleteTunnel id
  | CfTunnelToken id | CfListDns id => simple id
  | SetDdos id c => simple id ∧ at_most u32_max (dr_rps c) ∧ at_most u32_max (dr_burst c)
  | GetRequests id limit => simple id ∧ at_most u64_max (Z.of_nat <$> limit)
  | AuditQuery since_ts limit => at_most i64_max since_ts ∧ at_most u64_max (Z.of_nat <$> limit)
  | AddBackend id addr weight =>
    simple id ∧ 0 ≤ weight ≤ u32_max
    ∧ (∀ a, addr = Some a → show_socket_addr <$> parse_socket_addr a = Some a)
  | RemoveBackend id b | ForceHealthCheck id b | CfDeleteDns id b => simple id ∧ simple b
  | CfCreateDns z dns => simple z ∧ 0 ≤ cd_ttl dns ≤ u32_max
  | CfUpdateDns z id dns => simple z ∧ simple id ∧ 0 ≤ cd_ttl dns ≤ u32_max
  | _ => True
  end.

Lemma u32_of_value_int n : 0 ≤ n ≤ u32_max → u32_of_value (Int n) = Ok n.
Proof.
  intros Hn. unfold u32_of_value, as_u64. unfold u32_max, u64_max in *.
  rewrite !(proj2 (Z.leb_le _ _)) by lia. cbn. by rewrite (proj2 (Z.leb_le _ _)) by lia.
Qed.

(** A member written as an [Option] is read as one. *)
Lemma option_member_read {A} (read : Value → result str A) (write : A → Value) k m o :
  member_of k m = Ok (Some (opt_value write o)) →
  (∀ a, o = Some a → read (write a) = Ok a ∧ write a ≠ Null) → option_member read k m = Ok o.
Proof.
  intros Hk Hr. unfold option_member, default_member. rewrite Hk. cbn.
  destruct o as [a|]; [|done]. destruct (Hr a eq_refl) as [Ha Hn]. cbn [opt_value].
  destruct (write a); rewrite ?Ha; done.
Qed.

Lemma ddos_config_read c v m :
  members v = Ok m →
  member_of §"enabled" m = Ok (Some (opt_value Bool (dr_enabled c))) →
  member_of §"requests_per_second_limit" m = Ok (Some (opt_value Int (dr_rps c))) →
  member_of §"burst_size" m = Ok (Some (opt_value Int (dr_burst c))) →
  member_of §"challenge_mode" m = Ok (Some (opt_value Bool (dr_challenge c))) →
  at_most u32_max (dr_rps c) → at_most u32_max (dr_burst c) → ddos_config_req v = Ok c.
Proof.
  intros Hv He Hr Hb Hc Hrn Hbn. unfold ddos_config_req. rewrite Hv. cbn [mbind result_bind].
  rewrite (option_member_read _ _ _ _ _ He) by done. cbn [mbind result_bind].
  rewrite (option_member_read _ _ _ _ _ Hr) by (split; [by apply u32_of_value_int, Hrn|done]).
  cbn [mbind result_bind].
  rewrite (option_member_read _ _ _ _ _ Hb) by (split; [by apply u32_of_value_int, Hbn|done]).
  cbn [mbind result_bind].
  rewrite (option_member_read _ _ _ _ _ Hc) by done. by destruct c.
Qed.

Lemma query_limit_shown limit rest :
  at_most u64_max (Z.of_nat <$> limit) → filter (λ kv, kv.1 = §"limit") rest = [] →
  query_limit (rest ++ match limit with Some n => [(§"limit", show (Z.of_nat n))] | None => [] end)
  = Ok limit.
Proof.
  intros Hl Hrest. unfold query_limit, query_number. rewrite filter_app, Hrest.
  destruct limit as [n|]; [|done].
  rewrite filter_cons_True by done. cbn [app filter].
  rewrite parse_show; [|by apply Hl|]; cbn; [by rewrite Nat2Z.id|].
  specialize (Hl _ eq_refl). unfold u64_max in Hl. lia.
Qed.

Lemma parse_i64_show n : 0 ≤ n ≤ i64_max → parse_i64 (show n) = Some n.
Proof.
  intros Hn. unfold parse_i64, show.
  destruct (show_go_cons 20 n []) as (d & r & Hd & E); [lia|].
  assert (P : parse_uint i64_max (show n) = Some n) by (apply parse_show; unfold i64_max in *; lia).
  unfold show in P. rewrite E in *. rewrite bool_decide_false; [done|].
  intros Hc. apply (f_equal code) in Hc. rewrite code_chr in Hc by lia.
  replace (code "-"%char) with 45 in Hc by reflexivity. lia.
Qed.

Lemma add_backend_read addr weight :
  0 ≤ weight ≤ u32_max →
  add_backend_req (object [(§"addr", Str addr); (§"weight", Int weight)]) = Ok (addr, weight).
Proof.
  intros Hw%u32_of_value_int. unfold add_backend_req. generalize dependent u32_of_value.
  intros read Hr. vm_compute. by rewrite Hr.
Qed.

Lemma create_dns_read dns :
  0 ≤ cd_ttl dns ≤ u32_max → create_dns_req (create_record_to_value dns) = Ok dns.
Proof.
  intros Ht%u32_of_value_int. unfold create_dns_req. generalize dependent u32_of_value.
  intros read Hr. destruct dns. vm_compute in Hr |- *. by rewrite Hr.
Qed.

Lemma query_number_since since rest :
  at_most i64_max since → filter (λ kv, kv.1 = §"since") rest = [] →
  query_number parse_i64 §"since"
    (match since with Some t => [(§"since", show t)] | None => [] end ++ rest) = Ok since.
Proof.
  intros Hs Hrest. unfold query_number. rewrite filter_app, Hrest, app_nil_r.
  destruct since as [t|]; [|done]. rewrite filter_cons_True by done. cbn [filter].
  rewrite parse_i64_show; [done|by apply Hs].
Qed.

(** The parameters of an operation, in the order of its path, and its handler. *)
Definition handler_of (req : admin_req) : endpoint * list str :=
  match req with
  | ServeUi => (On_serve_ui, []) | HealthCheck => (On_health_check, [])
  | ReadyCheck => (On_ready_check, []) | MetricsText => (On_metrics, [])
  | ListRoutes => (On_list_routes, []) | CreateRoute _ _ _ => (On_create_route, [])
  | UpdateRoute id _ _ _ => (On_update_route, [id]) | DeleteRoute id => (On_delete_route, [id])
  | ListTunnels => (On_list_tunnels, []) | GetTunnel id => (On_get_tunnel, [id])
  | GetDdos id => (On_get_ddos, [id]) | SetDdos id _ => (On_set_ddos, [id])
  | GetRequests id _ => (On_get_requests, [id]) | StatsHistory => (On_stats_history, [])
  | BulkDisconnect _ => (On_bulk_disconnect, [])
  | DisconnectTunnel id => (On_disconnect_tunnel, [id]) | TunnelStats id => (On_tunnel_stats, [id])
  | PauseTunnel id => (On_pause_tunnel, [id]) | ResumeTunnel id => (On_resume_tunnel, [id])
  | AuditQuery _ _ => (On_audit_query, []) | ListCustomDomains => (On_list_custom_domains, [])
  | SetCustomDomain id _ => (On_set_custom_domain, [id])
  | RemoveCustomDomain id => (On_remove_custom_domain, [id])
  | ListBackends id => (On_list_backends, [id]) | AddBackend id _ _ => (On_add_backend, [id])
  | RemoveBackend id b => (On_remove_backend, [id; b])
  | ForceHealthCheck id b => (On_force_health_check, [id; b])
  | GetLogs => (On_get_logs, []) | HealthRoutes => (On_health_routes, [])
  | GetStatus => (On_get_status, []) | GetSettings => (On_get_settings, [])
  | SaveSettings _ _ => (On_save_settings, []) | CfListTunnels => (On_cf_list_tunnels, [])
  | CfCreateTunnel _ => (On_cf_create_tunnel, []) | CfDeleteTunnel id => (On_cf_delete_tunnel, [id])
  | CfTunnelToken id => (On_cf_tunnel_token, [id]) | CfListZones => (On_cf_list_zones, [])
  | CfListDns z => (On_cf_list_dns, [z]) | CfCreateDns z _ => (On_cf_create_dns, [z])
  | CfUpdateDns z id _ => (On_cf_update_dns, [z; id])
  | CfDeleteDns z id => (On_cf_delete_dns, [z; id])
  end.

Lemma request_parameters req : request_ok req → Forall simple (handler_of req).2.
Proof.
  destruct req; cbn [request_ok handler_of snd]; intros Hok;
    rewrite ?Forall_cons, Forall_nil; tauto.
Qed.

(** Its path is the pattern of its handler, and no other pattern takes it. *)
Lemma request_placed authorization req :
  request_ok req →
  let r := request_for authorization req in
  ∃ i p methods,
    place (hr_method r) (handler_of req).1 = Some (i, (p, methods))
    ∧ hr_path r = render p (handler_of req).2 ∧ length (handler_of req).2 = arity p
    ∧ ∀ q, q ∈ rivals p → captures q (render p (handler_of req).2) = None.
Proof.
  intros Hok. destruct req; cbn [request_for handler_of fst snd hr_method hr_path];
    (eexists _, _, _; split; [vm_compute; reflexivity|]; split; [reflexivity|];
     split; [reflexivity|]; intros q Hq).
  all: match type of Hq with _ ∈ rivals ?p =>
         let l := eval vm_compute in (rivals p) in change (q ∈ l) in Hq end.
  all: try (by apply elem_of_nil in Hq).
  all: apply list_elem_of_singleton in Hq as ->; cbn;
    repeat match goal with |- context [bool_decide (?a = ?a)] =>
             rewrite (bool_decide_true (a = a)) by done end;
    rewrite bool_decide_false; [done|exact (proj2 Hok)].
Qed.

(** The extractors read back what was sent. *)
Lemma request_read authorization req :
  request_ok req →
  let r := request_for authorization req in
  request_of (handler_of req).1 (handler_of req).2 (hr_query r) (hr_body r) = Ok req.
Proof.
  destruct req as [| | | | | | | | | | |id c|id limit| | | | | | |since limit| | | | |id addr weight
    | | | | | | |t a| | | | | | |z dns|z id dns|]; intros Hok; try reflexivity;
    cbn [request_for handler_of fst snd hr_query hr_body request_of].
  - destruct Hok as (_ & Hr & Hb). cbn [with_body].
    erewrite (ddos_config_read c); [by destruct c|reflexivity..|done|done].
  - destruct Hok as [_ Hl]. pose proof (query_limit_shown limit [] Hl eq_refl) as E.
    cbn [app] in E. unfold with_query. by rewrite E.
  - destruct Hok as [Hs Hl]. unfold with_query.
    rewrite query_number_since by (done || by destruct limit). cbn [mbind option_bind].
    rewrite query_limit_shown; [done|done|by destruct since].
  - destruct Hok as (_ & Hw & Ha). cbn [with_body].
    rewrite (add_backend_read (default [] addr) weight) by done.
    destruct addr as [addr|]; cbn [default]; [by rewrite Ha|reflexivity].
  - by destruct t.
  - destruct Hok as [_ Ht]. cbn [with_body]. by rewrite create_dns_read.
  - destruct Hok as (_ & _ & Ht). cbn [with_body]. by rewrite create_dns_read.
Qed.

Lemma request_reaches cfg io ip authorization req w :
  request_ok req → AdminCidr.ip_in_cidr ip (ad_cidrs cfg) = true →
  routed_to (request_for authorization req) = Operation req
  ∧ service cfg io ip (request_for authorization req) w = handle cfg io authorization req w.
Proof.
  intros Hok Hip. set (r := request_for authorization req).
  assert (Hr : routed_to r = Operation req).
  { destruct (request_placed authorization req Hok) as (i & p & methods & Hpl & Hpath & Hlen & Hri).
    rewrite (reached_place r _ _ _ _ _ Hpl Hpath Hlen (request_parameters req Hok) Hri).
    unfold r. by rewrite request_read. }
  split; [exact Hr|]. unfold service, answered, from_allowed. rewrite Hip, Hr. cbn [negb].
  assert (Hm : hr_method r ≠ OPTIONS ∧ hr_method r ≠ HEAD ∧ hr_authorization r = authorization)
    by (by destruct req).
  destruct Hm as (Ho & Hh & ->). rewrite bool_decide_false by done.
  destruct (handle cfg io authorization req w) as [[es resp] w']. by destruct (hr_method r).
Qed.

(** C18: Every operation has its request.  For each of the 41 operations of the
    interface, the method, path, query and body written out in [request_for],
    with its parameters in their places, are taken by the table and the
    extractors for that very operation with those very parameters; so an
    allowed address that sends it gets what the handler of the operation does
    and answers. *)
Theorem every_operation_has_its_request cfg io ip authorization req w :
  request_ok req → AdminCidr.ip_in_cidr ip (ad_cidrs cfg) = true →
  routed_to (request_for authorization req) = Operation req
  ∧ service cfg io ip (request_for authorization req) w = handle cfg io authorization req w.
Proof. apply request_reaches. Qed.

(** C20: The controls of a tunnel, over HTTP.  Sent from an allowed address with the
    token, [POST /admin/tunnels/{id}/pause] on a registered tunnel makes every
    HTTP request that maps to it be answered 503 without any effect, while the
    listener of a TCP tunnel goes on handing connections to it; the [resume]
    after it gives back the state there was, if it was not paused before.
    [DELETE /admin/tunnels/{id}] tells the session of the tunnel, and no other,
    to end, with one audit event, and leaves it registered until the session
    has. *)
Theorem tunnel_controls cfg io ip auth w id n e :
  check_admin_auth auth (ad_token cfg) = true → AdminCidr.ip_in_cidr ip (ad_cidrs cfg) = true →
  simple id → id ≠ §"disconnect" → lookup_tunnel id (relay w) = Some (n, e) →
  let request m tail :=
    {| hr_method := m; hr_path := [§"admin"; §"tunnels"; id] ++ tail; hr_query := [];
       hr_authorization := auth; hr_body := NoJson 415 |} in
  (let '(es, a, w1) := service cfg io ip (request POST [§"pause"]) w in
   es = [] ∧ rs_status <$> a = Some 204
   ∧ (∀ st c head host method path,
        (geo_is_blocked (app_geoip st) (c_ip c) 0).1 = false →
        read_head (c_reads c) [] = (head, Complete) → parse_host_header head = Some host →
        parse_request_line head = (method, path) → is_health method path = false →
        too_large (app_max_body_bytes st) head = None →
        find_route (routes (app_store st)) host = None →
        find_subdomain st host (relay w) = Some id →
        ∃ body, route_http st c (relay w1)
          = ([Reply (error_response §"503 Service Unavailable" body (c_https c))], Ok tt, relay w1))
   ∧ (∀ peer b, to_tunnel (tcp_accept peer true b (t_mux e) n (relay w1)).1.1
                = [DataFrame (t_mux e) (NewConn peer)])
   ∧ (t_paused e = false → (service cfg io ip (request POST [§"resume"]) w1).2 = w))
  ∧ (let '(es, a, w2) := service cfg io ip (request DELETE []) w in
     length (audits es) = 1%nat ∧ rs_status <$> a = Some 204 ∧ store w2 = store w
     ∧ lookup_tunnel id (relay w2) = Some (n, disconnect e)
     ∧ (t_disconnect_tx e = true → t_disconnected (disconnect e) = true)
     ∧ ∀ key m e', m ≠ n → lookup_tunnel key (relay w) = Some (m, e') →
         lookup_tunnel key (relay w2) = Some (m, e')).
Proof.
  intros Hauth Hip Hid Hne Hl request. split.
  - pose proof (request_reaches cfg io ip auth (PauseTunnel id) w Hid Hip) as [_ Hs].
    change (request_for auth (PauseTunnel id)) with (request POST [§"pause"]) in Hs. rewrite Hs.
    pose proof (pause_spec cfg auth Hauth io w id n e Hl) as HP.
    assert (He : (handle cfg io auth (PauseTunnel id) w).1.1 = []).
    { cbn [handle]. unfold admin_pause_tunnel. rewrite authorized_pass by done.
      unfold with_entry. by rewrite Hl. }
    destruct (handle cfg io auth (PauseTunnel id) w) as [[es a] w1].
    destruct HP as (Ha & Hhttp & Htcp & Hback). split_and!; try done. intros Hp.
    pose proof (request_reaches cfg io ip auth (ResumeTunnel id) w1 Hid Hip) as [_ Hs1].
    change (request_for auth (ResumeTunnel id)) with (request POST [§"resume"]) in Hs1.
    rewrite Hs1. by apply Hback.
  - pose proof (request_reaches cfg io ip auth (DisconnectTunnel id) w (conj Hid Hne) Hip) as [_ Hs].
    change (request_for auth (DisconnectTunnel id)) with (request DELETE []) in Hs. rewrite Hs.
    cbn [handle]. unfold admin_disconnect_tunnel. rewrite authorized_pass by done.
    unfold with_entry. rewrite Hl. unfold with_effects, updating, answer. rewrite app_nil_r.
    cbn [set_relay relay store]. split_and!; try done.
    + unfold disconnect_events, fire. by destruct (ad_webhook_url cfg).
    + rewrite (lookup_update _ _ _ _ n e) by done. by rewrite bool_decide_true.
    + intros Ht. cbn. rewrite Ht. apply orb_true_r.
    + intros key m e' Hm Hk. rewrite (lookup_update _ _ _ _ m e') by done.
      by rewrite bool_decide_false.
Qed.

(** ** Safe methods *)

Definition reads (e : endpoint) : bool :=
  match e with
  | On_serve_ui | On_health_check | On_ready_check | On_metrics | On_list_routes | On_list_tunnels
  | On_get_tunnel | On_get_ddos | On_get_requests | On_stats_history | On_tunnel_stats
  | On_audit_query | On_list_custom_domains | On_list_backends | On_get_logs | On_health_routes
  | On_get_status | On_get_settings | On_cf_list_tunnels | On_cf_tunnel_token | On_cf_list_zones
  | On_cf_list_dns => true
  | _ => false
  end.

Lemma get_endpoints m i e :
  m = GET ∨ m = HEAD → method_endpoint m (default [] (snd <$> api !! i)) = Some e → reads e = true.
Proof.
  intros Hm He. destruct (api !! i) as [[p methods]|] eqn:Ei; [|done].
  assert (T : forallb (λ pm, forallb (λ '(m, e), implb (bool_decide (m = GET ∨ m = HEAD)) (reads e)) pm.2)
                api = true) by (vm_compute; reflexivity).
  rewrite forallb_forall in T.
  specialize (T _ (proj1 (list_elem_of_In _ _) (list_elem_of_lookup_2 _ _ _ Ei))).
  cbn [snd fmap option_fmap option_map default] in *. cbn in He. clear Ei.
  induction methods as [|[m' e'] methods IH]; [done|]. cbn [method_endpoint] in He.
  cbn [forallb] in T. apply andb_true_iff in T as [T1 T2].
  destruct (decide (m = m' ∨ m = HEAD ∧ m' = GET)) as [Em|Em];
    [rewrite bool_decide_true in He by done|rewrite bool_decide_false in He by done; by apply IH].
  injection He as ->. by rewrite bool_decide_true in T1 by naive_solver.
Qed.

(** What looking may do outside: ask Cloudflare with a GET, or open a connection
    to an upstream of a stored route. *)
Definition looks (w : World) (e : effect) : Prop :=
  (∃ q, e = CfCall q ∧ cq_method q = Cloudflare.GET)
  ∨ ∃ route addr, route ∈ routes (store w)
      ∧ parse_upstream_addr (pr_upstream_url route) = Ok addr ∧ e = Dial addr.

Definition only_looks (h : handler) : Prop :=
  ∀ w, let '(es, _, w') := h w in Forall (looks w) es ∧ w' = w.

Lemma answer_looks status body : only_looks (answer status body).
Proof. intros w. by split. Qed.
Lemma with_entry_looks id k : (∀ n e, only_looks (k n e)) → only_looks (with_entry id k).
Proof.
  intros Hk w. unfold with_entry. destruct (lookup_tunnel id (relay w)) as [[n e]|]; [apply Hk|].
  apply answer_looks.
Qed.
Lemma authorized_looks cfg auth h : only_looks h → only_looks (authorized cfg auth h).
Proof. intros Hh. unfold authorized. destruct (check_admin_auth _ _); [done|apply answer_looks]. Qed.
Lemma cf_call_looks {A} (call : CfClient → cf_result A) success body :
  (∀ c, Forall (λ q, cq_method q = Cloudflare.GET) (call c).1) →
  only_looks (cf_call call success body).
Proof.
  intros Hc w. unfold cf_call. destruct (cf_client _) as [c|]; [|apply answer_looks].
  specialize (Hc c). destruct (call c) as [sent r]. unfold with_effects.
  assert (Hs : Forall (looks w) (CfCall <$> sent)).
  { apply Forall_fmap. eapply Forall_impl; [exact Hc|]. intros q Hq. left. by exists q. }
  destruct r; cbn; rewrite app_nil_r; by split.
Qed.

Lemma health_routes_looks io : only_looks (health_routes io).
Proof.
  intros w. unfold health_routes, with_effects. cbn. rewrite app_nil_r. split; [|done].
  apply Forall_forall. intros e (l & He & (route & -> & Hin)%list_elem_of_fmap)%list_elem_of_join.
  right. unfold route_dials in He. destruct (parse_upstream_addr _) as [addr|] eqn:Ea;
    [|by apply elem_of_nil in He].
  apply list_elem_of_singleton in He. by exists route, addr.
Qed.

Lemma gets_only cf_io cl :
  Forall (λ q, cq_method q = Cloudflare.GET) (list_tunnels cf_io cl).1
  ∧ (∀ id, Forall (λ q, cq_method q = Cloudflare.GET) (get_tunnel_token cf_io cl id).1)
  ∧ Forall (λ q, cq_method q = Cloudflare.GET) (list_zones cf_io cl).1
  ∧ (∀ z, Forall (λ q, cq_method q = Cloudflare.GET) (list_dns_records cf_io cl z).1).
Proof. split_and!; intros; by repeat constructor. Qed.

Lemma reads_look cfg io auth e args query body req :
  reads e = true → request_of e args query body = Ok req → only_looks (handle cfg io auth req).
Proof.
  intros He Hr. pose proof (gets_only (a_send io)) as HG.
  destruct e; try done; cbn [request_of] in Hr;
    repeat match type of Hr with
           | match ?a with _ => _ end = _ => destruct a; try done
           end; unfold with_query in Hr; repeat case_match; simplify_eq; cbn [handle];
    try apply authorized_looks; try apply with_entry_looks; intros;
    try apply cf_call_looks; try apply health_routes_looks; try apply answer_looks.
  all: try (intros w; by split).
  1: { intros w. unfold get_settings. destruct (masked _); by split. }
  all: intros cl; destruct (HG cl) as (? & ? & ? & ?); auto.
Qed.

(** C29: Looking changes nothing.  A GET, a HEAD or a preflight, whatever its path,
    query, headers and body and whoever sends it, leaves the relay's state and
    the store as they were.  All it does outside is to send GETs to Cloudflare
    and to open connections to the upstreams of stored routes; a preflight does
    not even that. *)
Theorem reads_change_nothing cfg io ip r w :
  hr_method r ∈ [GET; HEAD; OPTIONS] →
  let '(es, _, w') := service cfg io ip r w in
  Forall (looks w) es ∧ w' = w ∧ (hr_method r = OPTIONS → es = []).
Proof.
  intros Hm. unfold service.
  assert (U : hr_method r = GET ∨ hr_method r = HEAD → only_looks (answered cfg io ip r)).
  { intros Hr. unfold answered, from_allowed. destruct (negb _); [apply answer_looks|].
    unfold routed_to.
    destruct (route_at patterns (hr_path r)) as [[i args]|]; [|apply answer_looks].
    destruct (method_endpoint _ _) as [e|] eqn:Ee; [|apply answer_looks].
    destruct (mapM percent_decode args) as [args'|]; [|apply answer_looks].
    destruct (request_of e args' _ _) as [req|status] eqn:Eq; [|apply answer_looks].
    eapply reads_look; [by eapply get_endpoints|done]. }
  rewrite !elem_of_cons, elem_of_nil in Hm.
  destruct Hm as [Hm|[Hm|[Hm|[]]]]; rewrite Hm in *; [| |by split_and!].
  all: pose proof (U ltac:(auto) w) as V.
  all: destruct (answered cfg io ip r w) as [[es resp] w'], V as [Ves Vw]; by split_and!.
Qed.
End theorems.

(** ** Access *)

(** The configuration of the same interface with no token on it. *)
Definition untokened (cfg : AdminConfig) : AdminConfig :=
  {| ad_token := None; ad_cidrs := ad_cidrs cfg; ad_base_domain := ad_base_domain cfg;
     ad_http_port := ad_http_port cfg; ad_https_port := ad_https_port cfg;
     ad_webhook_url := ad_webhook_url cfg;
     ad_allow_custom_domains := ad_allow_custom_domains cfg;
     ad_custom_domain_allowlist := ad_custom_domain_allowlist cfg; ad_status := ad_status cfg;
     ad_version := ad_version cfg |}.

(** An answer that does nothing and tells nothing: it is the same whatever the
    relay and the store hold. *)
Definition turned_away (status : Z) (h : handler) : Prop :=
  ∃ body, ∀ w, h w = ([], Some {| rs_status := status; rs_body := body |}, w).

Section access.
Context `{Unicode} `{JsonFile} `{ConstantTimeEqLaws} `{Axum}.
Implicit Types (cfg : AdminConfig) (io : admin_io) (r : http_request) (req : admin_req).

Lemma answer_turned_away status body : turned_away status (answer status body).
Proof. by exists body. Qed.

(** Whoever has the token is answered as if there were none. *)
Lemma handle_untokened cfg io authorization req :
  check_admin_auth authorization (ad_token cfg) = true ∨ needs_token req = false →
  handle cfg io authorization req = handle (untokened cfg) io None req.
Proof.
  intros Hauth. assert (E : needs_token req = true → ∀ h, authorized cfg authorization h = h).
  { intros Hn h. unfold authorized. destruct Hauth as [->|Hauth]; [done|congruence]. }
  destruct req; cbn [needs_token] in E; try reflexivity; apply E; reflexivity.
Qed.

Lemma service_turned_away cfg io ip r status :
  hr_method r ≠ OPTIONS → turned_away status (answered cfg io ip r) →
  turned_away status (service cfg io ip r).
Proof.
  intros Hm [body Hb]. unfold turned_away, service.
  exists (if bool_decide (hr_method r = HEAD) then NoBody else body). intros w. rewrite (Hb w).
  destruct (hr_method r); (done || by destruct (bool_decide _)).
Qed.

Lemma access_run cfg io ip r tok arg :
  ad_token cfg = Some tok → forallb visible_ascii tok = true →
  ad_cidrs cfg = AdminCidr.admin_cidrs arg → (∀ v4, ip = V4 v4 → 0 ≤ v4 < 2 ^ 32) →
  let allowed := admits arg ip in
  let holder := hr_authorization r = Some (§"Bearer " ++ tok) in
  (hr_method r = OPTIONS → turned_away 200 (service cfg io ip r))
  ∧ (hr_method r ≠ OPTIONS → ¬ allowed → turned_away 403 (service cfg io ip r))
  ∧ (hr_method r ≠ OPTIONS → allowed →
     match routed_to r with
     | Own status => turned_away status (service cfg io ip r)
     | Operation req =>
       (needs_token req = true → ¬ holder → turned_away 401 (service cfg io ip r))
       ∧ (needs_token req = false ∨ holder → ∀ w,
          let '(es, resp, w') := service cfg io ip r w in
          let '(es0, resp0, w0) := handle (untokened cfg) io None req w in
          es = es0 ∧ w' = w0
          ∧ resp = if bool_decide (hr_method r = HEAD) then without_body resp0 else resp0)
     end).
Proof.
  intros Htok Hvis Hcidrs Hip allowed holder.
  pose proof (admits_spec arg ip Hip) as Hadm. rewrite <-Hcidrs in Hadm.
  split_and!; intros Hm.
  - unfold turned_away, service. rewrite Hm. by exists NoBody.
  - intros Hno. apply service_turned_away; [done|]. unfold answered, from_allowed.
    destruct (AdminCidr.ip_in_cidr ip (ad_cidrs cfg)); [by destruct Hno; apply Hadm|].
    apply answer_turned_away.
  - intros Hin%Hadm.
    assert (Ha : answered cfg io ip r = match routed_to r with
      | Own status => answer status (own_answer status)
      | Operation req => handle cfg io (hr_authorization r) req end)
      by (unfold answered, from_allowed; by rewrite Hin).
    destruct (routed_to r) as [status|req].
    + apply service_turned_away; [done|]. rewrite Ha. apply answer_turned_away.
    + split.
      * intros Hn Hh. apply service_turned_away; [done|]. rewrite Ha.
        rewrite (handle_needs_token cfg io _ req tok) by done. apply answer_turned_away.
      * intros Hh w. unfold service. rewrite Ha, (handle_untokened cfg).
        { destruct (handle (untokened cfg) io None req w) as [[es resp] w'].
          by destruct (hr_method r). }
        destruct Hh as [Hh|Hh]; [by right|left]. rewrite Htok, check_admin_auth_spec by done.
        by apply bool_decide_eq_true.
Qed.

(** Every answer either tells and does nothing or is for an allowed address and
    an operation whose token, if it asks for one, is there. *)
Lemma let_through cfg io ip r tok arg :
  ad_token cfg = Some tok → forallb visible_ascii tok = true →
  ad_cidrs cfg = AdminCidr.admin_cidrs arg → (∀ v4, ip = V4 v4 → 0 ≤ v4 < 2 ^ 32) →
  (∃ status, turned_away status (service cfg io ip r))
  ∨ hr_method r ≠ OPTIONS ∧ admits arg ip
    ∧ ∃ req, routed_to r = Operation req
      ∧ (needs_token req = true → hr_authorization r = Some (§"Bearer " ++ tok)).
Proof.
  intros Htok Hvis Hcidrs Hip.
  destruct (access_run cfg io ip r tok arg Htok Hvis Hcidrs Hip) as (Ho & Hno & Hin).
  destruct (decide (hr_method r = OPTIONS)) as [Hm|Hm]; [left; exists 200; auto|].
  destruct (AdminCidr.ip_in_cidr ip (AdminCidr.admin_cidrs arg)) eqn:Ei.
  - apply admits_spec in Ei; [|done]. specialize (Hin Hm Ei).
    destruct (routed_to r) as [status|req]; [left; by exists status|].
    destruct (decide (hr_authorization r = Some (§"Bearer " ++ tok))) as [Hh|Hh].
    + right. split_and!; [done..|]. by exists req.
    + destruct (needs_token req) eqn:En; [left; exists 401; by apply Hin|].
      right. split_and!; [done..|]. exists req. by rewrite En.
  - left. exists 403. apply Hno; [done|]. intros Ha. apply admits_spec in Ha; [congruence|done].
Qed.

(** C19: Who gets through to the admin port.  On a relay with a token, a preflight
    is answered with an empty 200 from anywhere.  Any other request from an
    address that [--admin-allow-cidr] does not let in gets 403; what the table
    or the extractors refuse gets their status; and one of the twenty
    operations on tunnels, statistics, domains, backends and logs without
    exactly [Bearer] and the token gets 401.  All these do nothing, and their
    answers depend on nothing the relay holds.  Every other request, the proxy
    routes, the settings and the Cloudflare calls without any token included,
    does and answers what it would on a relay without a token. *)
Theorem admin_access cfg io ip r tok arg :
  ad_token cfg = Some tok → forallb visible_ascii tok = true →
  ad_cidrs cfg = AdminCidr.admin_cidrs arg → (∀ v4, ip = V4 v4 → 0 ≤ v4 < 2 ^ 32) →
  let allowed := admits arg ip in
  let holder := hr_authorization r = Some (§"Bearer " ++ tok) in
  (hr_method r = OPTIONS → turned_away 200 (service cfg io ip r))
  ∧ (hr_method r ≠ OPTIONS → ¬ allowed → turned_away 403 (service cfg io ip r))
  ∧ (hr_method r ≠ OPTIONS → allowed →
     match routed_to r with
     | Own status => turned_away status (service cfg io ip r)
     | Operation req =>
       (needs_token req = true → ¬ holder → turned_away 401 (service cfg io ip r))
       ∧ (needs_token req = false ∨ holder → ∀ w,
          let '(es, resp, w') := service cfg io ip r w in
          let '(es0, resp0, w0) := handle (untokened cfg) io None req w in
          es = es0 ∧ w' = w0
          ∧ resp = if bool_decide (hr_method r = HEAD) then without_body resp0 else resp0)
     end).
Proof. apply access_run. Qed.
End access.


(** ** An axum, and witnesses *)

(** Of the patterns a path fits, the first that no other of them is more static
    than. *)
Definition best_route (ps : list (list segment)) (path : list str) : option (nat * list str) :=
  let fits := λ p, bool_decide (is_Some (captures p path)) in
  head (omap (λ '(i, p),
    if forallb (λ q, negb (fits q && more_static q p)) ps then pair i <$> captures p path else None)
    (imap pair ps)).

Lemma best_route_sound ps path i args :
  best_route ps path = Some (i, args) →
  ∃ p, ps !! i = Some p ∧ captures p path = Some args
  ∧ ∀ q, q ∈ ps → is_Some (captures q path) → more_static q p = false.
Proof.
  unfold best_route. intros Hh. apply head_Some_elem_of in Hh.
  apply list_elem_of_omap in Hh as ([j p] & Hin & Hp).
  apply elem_of_lookup_imap in Hin as (k & q & [= -> ->] & Hk).
  destruct (forallb _ ps) eqn:Ef; [|done]. apply fmap_Some in Hp as (a & Ha & [= -> ->]).
  exists q. split; [done|]. split; [done|]. intros q' Hin Hq'. rewrite forallb_forall in Ef.
  specialize (Ef q' (proj1 (list_elem_of_In _ _) Hin)). apply negb_true_iff in Ef.
  rewrite bool_decide_true in Ef by done. done.
Qed.

(** A pattern that is more static than another that fits gives way to no
    third. *)
Definition two_deep (ps : list (list segment)) : bool :=
  forallb (λ p, forallb (λ q, negb (compatible p q && more_static q p)
    || forallb (λ r, negb (compatible q r && more_static r q)) ps) ps) ps.

Lemma best_route_complete ps path p :
  two_deep ps = true → p ∈ ps → is_Some (captures p path) → is_Some (best_route ps path).
Proof.
  intros T Hp Hc.
  assert (G : ∀ q, q ∈ ps → is_Some (captures q path) →
              (∀ r, r ∈ ps → is_Some (captures r path) → more_static r q = false) →
              is_Some (best_route ps path)).
  { intros q Hq [a Ha] Hmax. unfold best_route.
    apply list_elem_of_lookup in Hq as [k Hk]. set (f := λ '(i, p), _).
    assert (Hin : (k, a) ∈ omap f (imap pair ps)).
    { apply list_elem_of_omap. exists (k, q). split.
      - apply elem_of_lookup_imap. by exists k, q.
      - unfold f. rewrite (proj2 (forallb_forall _ _)); [by rewrite Ha|].
        intros r Hr%list_elem_of_In. case_bool_decide as Er; [|done]. by rewrite Hmax. }
    destruct (omap f _); [by apply elem_of_nil in Hin|by eexists]. }
  destruct (existsb (λ q, bool_decide (is_Some (captures q path)) && more_static q p) ps) eqn:E.
  - apply existsb_exists in E as (q & Hq%list_elem_of_In & [Hcq Hms]%andb_true_iff).
    apply bool_decide_eq_true in Hcq.
    apply (G q Hq Hcq). intros r Hr Hcr. apply not_true_iff_false. intros Hrq.
    unfold two_deep in T. rewrite forallb_forall in T.
    specialize (T p (proj1 (list_elem_of_In _ _) Hp)).
    rewrite forallb_forall in T. specialize (T q (proj1 (list_elem_of_In _ _) Hq)).
    rewrite Hms, (captures_compatible p q path) in T by done. cbn [andb negb orb] in T.
    rewrite forallb_forall in T. specialize (T r (proj1 (list_elem_of_In _ _) Hr)).
    by rewrite Hrq, (captures_compatible q r path) in T.
  - apply (G p Hp Hc). intros r Hr Hcr. apply not_true_iff_false. intros Hrp.
    apply not_true_iff_false in E. apply E, existsb_exists. exists r.
    split; [by apply list_elem_of_In|]. by rewrite Hrp, bool_decide_true.
Qed.

Lemma two_deep_patterns : two_deep patterns = true.
Proof. vm_compute. reflexivity. Qed.

#[local] Instance demo_axum : Axum :=
  {| route_at := best_route; percent_decode := Some; own_answer := λ _, NoBody |}.
Lemma demo_sound path i args : best_route patterns path = Some (i, args) →
  ∃ p, patterns !! i = Some p ∧ captures p path = Some args.
Proof. intros (p & Hp & Hc & _)%best_route_sound. by exists p. Qed.
Lemma demo_static path i args p q :
  best_route patterns path = Some (i, args) → patterns !! i = Some p → q ∈ patterns →
  is_Some (captures q path) → more_static q p = false.
Proof.
  intros (p' & Hp' & _ & Hmax)%best_route_sound Hp. rewrite Hp in Hp'. injection Hp' as <-.
  apply Hmax.
Qed.
#[local] Instance demo_axum_laws : AxumLaws :=
  {| route_sound := demo_sound;
     route_complete := λ path p, best_route_complete patterns path p two_deep_patterns;
     route_static := demo_static |}.

Definition demo_request (m : http_method) (path : list str) (body : body_in) : http_request :=
  {| hr_method := m; hr_path := path; hr_query := []; hr_authorization := None; hr_body := body |}.

#[local] Existing Instance ascii_only.
#[local] Existing Instance bit_json.
#[local] Existing Instance slice_ct_eq.

Lemma disconnect_name_shadowed_witness :
  routed_to (demo_request DELETE [§"admin"; §"tunnels"; §"disconnect"] (NoJson 415)) = Own 405.
Proof. by apply disconnect_name_shadowed. Defined.

#[local] Existing Instance slice_ct_eq_laws.

(** A backend is added, over its request, at the place of the tunnel. *)
Lemma every_operation_has_its_request_witness :
  routed_to (request_for None (AddBackend §"app" (Some §"10.0.0.1:80") 3))
  = Operation (AddBackend §"app" (Some §"10.0.0.1:80") 3).
Proof.
  apply (every_operation_has_its_request demo_admin demo_io demo_ip None
           (AddBackend §"app" (Some §"10.0.0.1:80") 3) demo_world); [|reflexivity].
  split; [done|]. split; [unfold u32_max; lia|]. intros a [= <-]. by vm_compute.
Defined.

Lemma tunnel_controls_witness :
  let '(_, a, w2) :=
    service demo_admin demo_io demo_ip (request_for demo_auth (DisconnectTunnel §"app")) demo_world in
  rs_status <$> a = Some 204
  ∧ (snd <$> lookup_tunnel §"app" (relay w2))
    = Some (disconnect (entry_new 0 §"app" 1000 0 §"192.0.2.1")).
Proof.
  pose proof (tunnel_controls demo_admin demo_io demo_ip demo_auth demo_world §"app" 0%nat
    (entry_new 0 §"app" 1000 0 §"192.0.2.1") eq_refl eq_refl ltac:(by split) ltac:(discriminate)
    eq_refl) as HT.
  cbv zeta in HT. apply proj2 in HT.
  change (request_for demo_auth (DisconnectTunnel §"app"))
    with {| hr_method := DELETE; hr_path := [§"admin"; §"tunnels"; §"app"] ++ []; hr_query := [];
            hr_authorization := demo_auth; hr_body := NoJson 415 |}.
  destruct (service _ _ _ _ _) as [[es a] w2]. destruct HT as (_ & Ha & _ & Hl & _).
  split; [exact Ha|]. by rewrite Hl.
Defined.

(** An interface for the addresses of 192.0.2.0/24. *)
Definition filtered_admin : AdminConfig :=
  {| ad_token := Some §"s3cret"; ad_cidrs := AdminCidr.admin_cidrs (Some §"192.0.2.0/24");
     ad_base_domain := §"tunnel.example.com";
     ad_http_port := 80; ad_https_port := None; ad_webhook_url := None;
     ad_allow_custom_domains := true; ad_custom_domain_allowlist := ∅; ad_status := [];
     ad_version := §"0.2.0" |}.

(** Without the token, the list of tunnels is for nobody. *)
Lemma admin_access_witness :
  turned_away 401 (service filtered_admin demo_io demo_ip
                     (demo_request GET [§"api"; §"tunnels"] (NoJson 415))).
Proof.
  pose proof (admin_access filtered_admin demo_io demo_ip
    (demo_request GET [§"api"; §"tunnels"] (NoJson 415)) §"s3cret" (Some §"192.0.2.0/24")
    eq_refl eq_refl eq_refl ltac:(intros v4 [= <-]; lia)) as HT.
  cbv zeta in HT. destruct HT as (_ & _ & HT).
  assert (Ha : admits (Some §"192.0.2.0/24") demo_ip).
  { apply admits_spec; [intros v4 [= <-]; lia|by vm_compute]. }
  specialize (HT ltac:(discriminate) Ha).
  assert (Hr : routed_to (demo_request GET [§"api"; §"tunnels"] (NoJson 415)) = Operation ListTunnels)
    by (vm_compute; reflexivity).
  rewrite Hr in HT. exact (proj1 HT eq_refl ltac:(discriminate)).
Defined.

Lemma reads_change_nothing_witness :
  (service demo_admin demo_io demo_ip
     (demo_request GET [§"api"; §"routes"] (NoJson 415)) demo_world).2 = demo_world.
Proof.
  pose proof (reads_change_nothing demo_admin demo_io demo_ip
    (demo_request GET [§"api"; §"routes"] (NoJson 415)) demo_world ltac:(by left)) as Hw.
  destruct (service _ _ _ _ _) as [[es resp] w]. exact (proj1 (proj2 Hw)).
Defined.
