(* ===== verification/Issuance.v ===== *)
(** * Issuance: obtaining and renewing a certificate

    [AcmeClient::obtain_certificate] of [crates/seamless-relay/src/acme.rs] with
    the account, the challenges of both kinds, the polling and the storing, and
    the renewal task.  The ACME protocol (the crate [instant_acme]), the key
    generation and the Cloudflare service answer through [issue_io], a record of
    what each call returned; the errors kept are the outermost messages. *)

From S2P Require Import Prelude Text Calendar Json AuditLog Http Acme.
Local Open Scope Z_scope.

(** ** Configuration and answers *)

Record AcmeConfig := {
  ac_email : str;
  ac_domains : list str;
  ac_cloudflare_api_token : option str;
  ac_dir : str;
  ac_production : bool;
}.

(** [instant_acme]: an authorization and its challenges, as far as they are read. *)
Inductive challenge_type := Dns01 | Http01 | TlsAlpn01.
#[export] Instance challenge_type_eq_dec : EqDecision challenge_type.
Proof. solve_decision. Defined.

Record challenge := {
  ch_type : challenge_type;
  ch_url : str;
  ch_token : str;
}.
Inductive authz_status :=
| AuthzPending
| AuthzValid
| AuthzOther (debug : str).
Record authorization := {
  az_status : authz_status;
  az_domain : str;
  az_challenges : list challenge;
}.
Inductive order_status := OPending | OReady | OProcessing | OValid | OInvalid.

(** The answers that belong to one authorization: the key authorization and its
    DNS digest, the two replies of the Cloudflare API ([None] for one that does
    not arrive or is no JSON), and whether the server takes the notice. *)
Record authz_io := {
  z_key_auth : str;
  z_dns_value : str;
  z_zones : option Value;
  z_create : option Value;
  z_ready : bool;
}.

(** A write of a file: done, refused before the file was touched, or broken off
    with the file cut down to the first bytes. *)
Inductive write_result :=
| Wrote
| NotOpened
| Short (n : nat).

(** The answers of a run, in the order in which they are asked for.  [i_account]
    is what [Account::create] gave, [i_statuses] the answers of [refresh],
    [i_certificate] those of [certificate]; the lists may end while the run waits. *)
Record issue_io := {
  i_mkdir : bool;
  i_read_account : bool;
  i_parse_account : str → bool;
  i_load_account : bool;
  i_account : option str;
  i_new_order : bool;
  i_authorizations : option (list (authorization * authz_io));
  i_statuses : list (option order_status);
  i_key_pem : option str;
  i_params : bool;
  i_csr : bool;
  i_finalize : bool;
  i_certificate : list (option (option str));
  i_delete : str * str → bool;
  i_write : str → write_result;
  i_now : Z;
}.

(** ** State and effects *)

(** [acme_files] are the files by path, [challenge_tokens] the map shared with
    the challenge server, [txt_records] the records that stand at Cloudflare. *)
Record issue_state := {
  acme_files : gmap str str;
  challenge_tokens : gmap str str;
  txt_records : list (str * str);
}.
Definition set_files (f : gmap str str) (s : issue_state) : issue_state :=
  {| acme_files := f; challenge_tokens := challenge_tokens s; txt_records := txt_records s |}.
Definition set_tokens (t : gmap str str) (s : issue_state) : issue_state :=
  {| acme_files := acme_files s; challenge_tokens := t; txt_records := txt_records s |}.
Definition set_records (l : list (str * str)) (s : issue_state) : issue_state :=
  {| acme_files := acme_files s; challenge_tokens := challenge_tokens s; txt_records := l |}.

Inductive acme_effect :=
| NewAccount (contact : str) (production : bool)
| NewOrder (domains : list str)
| GetZone (url : str)
| CreateTxt (url : str) (body : Value)
| DeleteTxt (url : str)
| Sleep (secs : Z)
| SetReady (url : str)
| Refresh
| Finalize (domains : list str)
| Download
| Audit (v : Value).

(** A run fails with a message, or is still waiting when the answers end. *)
Inductive stop :=
| Failed (message : str)
| Waiting.

Definition acme (A : Type) : Type :=
  issue_state → list acme_effect * result stop A * issue_state.

#[export] Instance acme_ret : MRet acme := λ A a s, ([], Ok a, s).
#[export] Instance acme_bind : MBind acme := λ A B f m s,
  match m s with
  | (w, Ok a, s') => let '(w', r, s'') := f a s' in (w ++ w', r, s'')
  | (w, Err e, s') => (w, Err e, s')
  end.

Definition perform (w : list acme_effect) : acme unit := λ s, (w, Ok tt, s).
Definition modify (f : issue_state → issue_state) : acme unit := λ s, ([], Ok tt, f s).
Definition reading {A} (f : issue_state → A) : acme A := λ s, ([], Ok (f s), s).
Definition bail {A} (message : str) : acme A := λ s, ([], Err (Failed message), s).
Definition waiting {A} : acme A := λ s, ([], Err Waiting, s).

(** [r.context(message)?] *)
Definition context {A} (message : str) (r : option A) : acme A :=
  match r with Some a => mret a | None => bail message end.
Definition ensure (ok : bool) (message : str) : acme unit :=
  context message (if ok then Some tt else None).

(** ** Files *)

Definition acme_path (cfg : AcmeConfig) (name : str) : str := ac_dir cfg ++ §"/" ++ name.
Definition account_path (cfg : AcmeConfig) : str := acme_path cfg §"account.json".

(** [cert_paths]: of the first domain. *)
Definition cert_paths (cfg : AcmeConfig) : option (str * str) :=
  (λ d, (acme_path cfg (d ++ §".crt"), acme_path cfg (d ++ §".key"))) <$> head (ac_domains cfg).

(** [tokio::fs::write] truncates the file, then writes. *)
Definition write (io : issue_io) (path text message : str) : acme unit :=
  match i_write io path with
  | Wrote => modify (λ s, set_files (<[path := text]> (acme_files s)) s)
  | NotOpened => bail message
  | Short n =>
    modify (λ s, set_files (<[path := take n text]> (acme_files s)) s);;
    bail message
  end.

(** ** The account *)

Definition load_or_create_account (cfg : AcmeConfig) (io : issue_io) : acme unit :=
  stored ← reading (λ s, acme_files s !! account_path cfg);
  match stored with
  | Some json =>
    ensure (i_read_account io) §"reading account credentials";;
    ensure (i_parse_account io json) §"parsing account credentials";;
    ensure (i_load_account io) §"loading ACME account from credentials"
  | None =>
    perform [NewAccount (§"mailto:" ++ ac_email cfg) (ac_production cfg)];;
    json ← context §"registering ACME account" (i_account io);
    write io (account_path cfg) json §"saving account credentials"
  end.

(** ** The TXT record of a DNS-01 challenge *)

(** [v["k"]] and [v[n]] *)
Definition at_key (k : str) (v : Value) : Value := default Null (get k v).
Definition at_index (n : nat) (v : Value) : Value :=
  match v with Arr l => default Null (l !! n) | _ => Null end.

Definition cf_api : str := §"https://api.cloudflare.com/client/v4".
Definition zone_query (domain : str) : str := cf_api ++ §"/zones?name=" ++ zone_name domain.
Definition records_url (zone : str) : str := cf_api ++ §"/zones/" ++ zone ++ §"/dns_records".
Definition txt_body (domain value : str) : Value :=
  object [(§"type", Str §"TXT"); (§"name", Str (§"_acme-challenge." ++ domain));
          (§"content", Str value); (§"ttl", Int 60)].

(** [cf_get_zone_id] and [cf_create_txt_record]; every failure is reported under
    the message of the caller. *)
Definition cf_get_zone_id (domain message : str) (reply : option Value) : acme str :=
  perform [GetZone (zone_query domain)];;
  resp ← context message reply;
  context message (as_str (at_key §"id" (at_index 0 (at_key §"result" resp)))).

Definition cf_create_txt_record (domain value : str) (z : authz_io) : acme (str * str) :=
  let message := §"creating CF DNS TXT for " ++ domain in
  zone ← cf_get_zone_id domain message (z_zones z);
  perform [CreateTxt (records_url zone) (txt_body domain value)];;
  resp ← context message (z_create z);
  ensure (default false (as_bool (at_key §"success" resp))) message;;
  match as_str (at_key §"id" (at_key §"result" resp)) with
  | Some record =>
    modify (λ s, set_records (txt_records s ++ [(zone, record)]) s);; mret (zone, record)
  | None => bail message
  end.

(** [cf_delete_txt_record]; the caller logs a failure and goes on. *)
Definition cf_delete_txt_record (io : issue_io) (zr : str * str) : acme unit :=
  perform [DeleteTxt (records_url zr.1 ++ §"/" ++ zr.2)];;
  if i_delete io zr
  then modify (λ s, set_records (filter (λ x, x ≠ zr) (txt_records s)) s) else mret tt.

Fixpoint clean_up (io : issue_io) (made : list (str * str)) : acme unit :=
  match made with
  | [] => mret tt
  | zr :: rest => cf_delete_txt_record io zr;; clean_up io rest
  end.

(** ** Challenges *)

Definition wanted (cfg : AcmeConfig) : challenge_type :=
  match ac_cloudflare_api_token cfg with Some _ => Dns01 | None => Http01 end.
Definition type_name (t : challenge_type) : str :=
  match t with Dns01 => §"Dns01" | Http01 => §"Http01" | TlsAlpn01 => §"TlsAlpn01" end.
Definition find_challenge (cfg : AcmeConfig) (az : authorization) : option challenge :=
  head (filter (λ c, ch_type c = wanted cfg) (az_challenges az)).

(** One turn of the loop over the authorizations; the records made so far go
    through it. *)
Definition authorize (cfg : AcmeConfig) (made : list (str * str)) (az : authorization)
    (z : authz_io) : acme (list (str * str)) :=
  match az_status az with
  | AuthzValid => mret made
  | AuthzOther d => bail (§"unexpected authorization status: " ++ d)
  | AuthzPending =>
    c ← context (§"no " ++ type_name (wanted cfg) ++ §" challenge found") (find_challenge cfg az);
    made' ← match ac_cloudflare_api_token cfg with
            | Some _ =>
              zr ← cf_create_txt_record (az_domain az) (z_dns_value z) z;
              perform [Sleep 10];; mret (made ++ [zr])
            | None =>
              modify (λ s, set_tokens (<[ch_token c := z_key_auth z]> (challenge_tokens s)) s);;
              mret made
            end;
    perform [SetReady (ch_url c)];;
    ensure (z_ready z) §"setting challenge ready";;
    mret made'
  end.

Fixpoint authorize_all (cfg : AcmeConfig) (made : list (str * str))
    (zs : list (authorization * authz_io)) : acme (list (str * str)) :=
  match zs with
  | [] => mret made
  | (az, z) :: rest => made' ← authorize cfg made az z; authorize_all cfg made' rest
  end.

(** ** Polling *)

Definition max_attempts : nat := 24.

(** [left] attempts are left. *)
Fixpoint await_order (left : nat) (statuses : list (option order_status)) : acme unit :=
  match left with
  | O => mret tt
  | S left' =>
    perform [Sleep 5; Refresh];;
    match statuses with
    | [] => waiting
    | None :: _ => bail §"refreshing order"
    | Some (OReady | OValid) :: _ => mret tt
    | Some OInvalid :: _ =>
      bail (§"ACME order became invalid after "
            ++ show (Z.of_nat (max_attempts - left')) ++ §" attempts")
    | Some _ :: rest =>
      match left' with
      | O => bail §"ACME order did not complete within timeout"
      | _ => await_order left' rest
      end
    end
  end.

(** The loop has no bound but the answers. *)
Fixpoint download (answers : list (option (option str))) : acme str :=
  perform [Sleep 3; Download];;
  match answers with
  | [] => waiting
  | None :: _ => bail §"downloading certificate"
  | Some (Some pem) :: _ => mret pem
  | Some None :: rest => download rest
  end.

(** ** The whole run *)

(** From the account to the challenges. *)
Definition order_placed (cfg : AcmeConfig) (io : issue_io) : acme (list (str * str)) :=
  ensure (i_mkdir io) §"creating ACME directory";;
  load_or_create_account cfg io;;
  perform [NewOrder (ac_domains cfg)];;
  ensure (i_new_order io) §"creating ACME order";;
  zs ← context §"fetching authorizations" (i_authorizations io);
  authorize_all cfg [] zs.

(** From there to the certificate and its key. *)
Definition certificate_issued (cfg : AcmeConfig) (io : issue_io) : acme (str * str) :=
  await_order max_attempts (i_statuses io);;
  key_pem ← context §"generating key pair" (i_key_pem io);
  ensure (i_params io) §"creating cert params";;
  ensure (i_csr io) §"serializing CSR";;
  perform [Finalize (ac_domains cfg)];;
  ensure (i_finalize io) §"finalizing ACME order";;
  cert_chain_pem ← download (i_certificate io);
  mret (cert_chain_pem, key_pem).

(** The removal of what the challenges left, and the storing. *)
Definition cleaned (cfg : AcmeConfig) (io : issue_io) (made : list (str * str)) : acme unit :=
  match ac_cloudflare_api_token cfg with Some _ => clean_up io made | None => mret tt end;;
  modify (set_tokens ∅).

Definition stored (cfg : AcmeConfig) (io : issue_io) (cert key : str) : acme unit :=
  primary ← context §"no domains" (head (ac_domains cfg));
  let cert_path := acme_path cfg (primary ++ §".crt") in
  write io cert_path cert §"writing certificate";;
  write io (acme_path cfg (primary ++ §".key")) key §"writing private key";;
  perform [Audit (audit_event (i_now io) §"acme.cert_obtained"
                    [(§"domain", Str primary); (§"cert_path", Str cert_path)])].

Definition obtain_certificate (cfg : AcmeConfig) (io : issue_io) : acme (str * str) :=
  made ← order_placed cfg io;
  '(cert, key) ← certificate_issued cfg io;
  cleaned cfg io made;;
  stored cfg io cert key;;
  mret (cert, key).

(** ** Renewal *)

Section renewal.
Variable base64_decode : str → option str.

(** [needs_renewal] on the files; [readable] is that the certificate can be read
    as text. *)
Definition renewal_due (cfg : AcmeConfig) (readable : bool) (now : Z) (s : issue_state)
    : outcome bool :=
  needs_renewal base64_decode (ac_domains cfg)
    (paths ← cert_paths cfg;
     text ← acme_files s !! paths.1;
     Some (if readable then Some text else None)) now.

(** One tick of the renewal task, every twelve hours: [None] when the task is
    gone, by a panic, or still in the tick. *)
Definition renewal_tick (cfg : AcmeConfig) (readable : bool) (now : Z) (io : issue_io)
    (s : issue_state) : list acme_effect * option issue_state :=
  match renewal_due cfg readable now s with
  | Panic => ([], None)
  | Value_of false => ([], Some s)
  | Value_of true =>
    match obtain_certificate cfg io s with
    | (w, Ok _, s') =>
      (w ++ [Audit (audit_event (i_now io) §"acme.cert_renewed" [(§"domain", Str [])])], Some s')
    | (w, Err (Failed _), s') => (w, Some s')
    | (w, Err Waiting, _) => (w, None)
    end
  end.

(** A series of ticks. *)
Fixpoint renewal_task (cfg : AcmeConfig) (ticks : list (bool * Z * issue_io)) (s : issue_state)
    : option issue_state :=
  match ticks with
  | [] => Some s
  | (readable, now, io) :: rest => (renewal_tick cfg readable now io s).2 ≫= renewal_task cfg rest
  end.
End renewal.

(** ** Lemmas: runs *)

#[local] Strategy expand [certificate_issued order_placed obtain_certificate cleaned stored].

Lemma acme_bind_Ok {A B} (m : acme A) (f : A → acme B) s w b s' :
  (m ≫= f) s = (w, Ok b, s') →
  ∃ a w1 s1 w2, m s = (w1, Ok a, s1) ∧ f a s1 = (w2, Ok b, s') ∧ w = w1 ++ w2.
Proof.
  unfold mbind, acme_bind. destruct (m s) as [[w1 [a|e]] s1]; [|done].
  destruct (f a s1) as [[w2 r] s2] eqn:E. intros [= <- -> ->]. by exists a, w1, s1, w2.
Qed.

Lemma acme_bind_run {A B} (m : acme A) (f : A → acme B) s w1 a s1 w2 r s2 :
  m s = (w1, Ok a, s1) → f a s1 = (w2, r, s2) → (m ≫= f) s = (w1 ++ w2, r, s2).
Proof. intros Hm Hf. unfold mbind, acme_bind. by rewrite Hm, Hf. Qed.

Lemma acme_bind_pure {A B} (m : acme A) (f : A → acme B) s a s1 :
  m s = ([], Ok a, s1) → (m ≫= f) s = f a s1.
Proof. intros Hm. unfold mbind, acme_bind. rewrite Hm. by destruct (f a s1) as [[??]?]. Qed.

Lemma acme_bind_Err {A B} (m : acme A) (f : A → acme B) s w e s' :
  m s = (w, Err e, s') → (m ≫= f) s = (w, Err e, s').
Proof. intros H. unfold mbind, acme_bind. by rewrite H. Qed.

Lemma context_Ok {A} e (r : option A) s w a s' :
  context e r s = (w, Ok a, s') → r = Some a ∧ s' = s.
Proof. destruct r; [by intros [= _ <- <-]|done]. Qed.
Lemma ensure_Ok b e s w u s' : ensure b e s = (w, Ok u, s') → b = true ∧ s' = s.
Proof. destruct b; [by intros [= _ _ <-]|done]. Qed.

(** [m] leaves the part [p] of the state as it is, whatever comes of it. *)
Definition keeps {A P} (p : issue_state → P) (m : acme A) : Prop := ∀ s, p (m s).2 = p s.

Lemma keeps_bind {A B P} (p : issue_state → P) (m : acme A) (f : A → acme B) :
  keeps p m → (∀ a, keeps p (f a)) → keeps p (m ≫= f).
Proof.
  intros Hm Hf s. unfold mbind, acme_bind. specialize (Hm s).
  destruct (m s) as [[w [a|e]] s1]; [|done]. cbn in Hm. rewrite <-Hm, <-(Hf a s1).
  by destruct (f a s1) as [[w' r] s2].
Qed.

Lemma keeps_ret {A P} (p : issue_state → P) (a : A) : keeps p (mret a).
Proof. done. Qed.
Lemma keeps_perform {P} (p : issue_state → P) w : keeps p (perform w).
Proof. done. Qed.
Lemma keeps_bail {A P} (p : issue_state → P) e : keeps p (@bail A e).
Proof. done. Qed.
Lemma keeps_waiting {A P} (p : issue_state → P) : keeps p (@waiting A).
Proof. done. Qed.
Lemma keeps_reading {A P} (p : issue_state → P) (f : issue_state → A) : keeps p (reading f).
Proof. done. Qed.
Lemma keeps_context {A P} (p : issue_state → P) e (r : option A) : keeps p (context e r).
Proof. by destruct r. Qed.
Lemma keeps_ensure {P} (p : issue_state → P) b e : keeps p (ensure b e).
Proof. by destruct b. Qed.
Lemma keeps_modify {P} (p : issue_state → P) f : (∀ s, p (f s) = p s) → keeps p (modify f).
Proof. intros H s. apply H. Qed.

Create HintDb acme.
#[export] Hint Resolve keeps_ret keeps_perform keeps_bail keeps_waiting keeps_reading
  keeps_context keeps_ensure keeps_modify : acme.

(** Proves [keeps p m] along the structure of [m]. *)
Ltac keeps_tac :=
  repeat match goal with
  | |- keeps _ (mbind _ _) => apply keeps_bind; [|intros ?]
  | |- keeps _ (match ?x with _ => _ end) => destruct x
  | |- keeps _ _ => solve [auto 2 with acme]
  end.

(** The files but the account's. *)
Definition other_files (cfg : AcmeConfig) (s : issue_state) : gmap str str :=
  delete (account_path cfg) (acme_files s).

Lemma keeps_write_account cfg io json e :
  keeps (other_files cfg) (write io (account_path cfg) json e).
Proof.
  unfold write. keeps_tac; apply keeps_modify; intros s; apply delete_insert_eq.
Qed.
#[export] Hint Resolve keeps_write_account : acme.

Lemma keeps_authorize_all cfg made zs :
  keeps acme_files (authorize_all cfg made zs).
Proof.
  revert made. induction zs as [|[az z] zs IH]; intros made; cbn [authorize_all];
    [apply keeps_ret|].
  apply keeps_bind; [|done]. unfold authorize, cf_create_txt_record, cf_get_zone_id. keeps_tac.
Qed.

Lemma keeps_order_placed cfg io : keeps (other_files cfg) (order_placed cfg io).
Proof.
  unfold order_placed, load_or_create_account. keeps_tac.
  all: intros s; unfold other_files; by rewrite keeps_authorize_all.
Qed.

Lemma keeps_await {P} (p : issue_state → P) left statuses : keeps p (await_order left statuses).
Proof.
  revert statuses. induction left as [|left IH]; intros statuses; cbn [await_order]; keeps_tac.
Qed.

Lemma keeps_download {P} (p : issue_state → P) answers : keeps p (download answers).
Proof. induction answers as [|[[pem|]|] answers IH]; cbn [download]; keeps_tac. Qed.
#[export] Hint Resolve keeps_await keeps_download : acme.

(** Nothing of the state changes between the challenges and the clean-up. *)
Lemma keeps_certificate_issued cfg io : keeps id (certificate_issued cfg io).
Proof. unfold certificate_issued. keeps_tac. Qed.

Lemma keeps_cleaned cfg io made : keeps acme_files (cleaned cfg io made).
Proof.
  unfold cleaned. apply keeps_bind; [|intros; by apply keeps_modify].
  case_match; [|apply keeps_ret].
  induction made as [|zr made IH]; cbn [clean_up]; [apply keeps_ret|].
  apply keeps_bind; [|done]. unfold cf_delete_txt_record. keeps_tac.
Qed.

(** ** Lemmas: what each stage does *)

(** Names of the directory are told apart by their endings. *)
Lemma acme_path_inj cfg a b : acme_path cfg a = acme_path cfg b → a = b.
Proof. unfold acme_path. intros H. apply (inj _) in H. by injection H. Qed.

Lemma suffix_ne (a b p q : str) : last p ≠ last q → p ≠ [] → q ≠ [] → a ++ p ≠ b ++ q.
Proof.
  intros Hl Hp Hq H. apply (f_equal last) in H. rewrite !last_app in H.
  destruct (last p) eqn:Ep; [|by apply last_None in Ep].
  destruct (last q) eqn:Eq; [|by apply last_None in Eq]. congruence.
Qed.

Definition crt_path (cfg : AcmeConfig) (d : str) : str := acme_path cfg (d ++ §".crt").
Definition key_path (cfg : AcmeConfig) (d : str) : str := acme_path cfg (d ++ §".key").

Lemma crt_key_ne cfg d : crt_path cfg d ≠ key_path cfg d.
Proof. intros H%acme_path_inj. revert H. by apply suffix_ne. Qed.
Lemma crt_account_ne cfg d : crt_path cfg d ≠ account_path cfg.
Proof. intros H%acme_path_inj. revert H. by apply (suffix_ne d §"account" _ §".json"). Qed.
Lemma key_account_ne cfg d : key_path cfg d ≠ account_path cfg.
Proof. intros H%acme_path_inj. revert H. by apply (suffix_ne d §"account" _ §".json"). Qed.
#[export] Hint Resolve crt_key_ne crt_account_ne key_account_ne : acme.

Lemma other_files_lookup cfg s path :
  path ≠ account_path cfg → other_files cfg s !! path = acme_files s !! path.
Proof. intros. by apply lookup_delete_ne. Qed.

Lemma download_Ok answers s w cert s' :
  download answers s = (w, Ok cert, s') →
  s' = s ∧ ∃ n rest, answers = replicate n (Some None) ++ Some (Some cert) :: rest.
Proof.
  revert w. induction answers as [|[[pem|]|] answers IH]; intros w; [done|..]; [| |done].
  - intros [= _ <- <-]. split; [done|]. by exists 0%nat, answers.
  - cbn [download]. intros (?&?&?&?&[= <- <- <-]&H&_)%acme_bind_Ok.
    apply IH in H as (-> & n & rest & ->). split; [done|]. by exists (S n), rest.
Qed.

Lemma certificate_issued_Ok cfg io s w cert key s' :
  certificate_issued cfg io s = (w, Ok (cert, key), s') →
  s' = s ∧ i_key_pem io = Some key
  ∧ ∃ n rest, i_certificate io = replicate n (Some None) ++ Some (Some cert) :: rest.
Proof.
  intros H. pose proof (keeps_certificate_issued cfg io s) as Hs. rewrite H in Hs.
  split; [exact Hs|]. clear Hs. unfold certificate_issued in H.
  apply acme_bind_Ok in H as (_&?&?&?&_&H&_).
  apply acme_bind_Ok in H as (k&?&?&?&[Hk _]%context_Ok&H&_).
  do 4 apply acme_bind_Ok in H as (_&?&?&?&_&H&_).
  apply acme_bind_Ok in H as (c&?&?&?&(_&Hd)%download_Ok&H&_).
  injection H as _ -> -> _. by split.
Qed.

Lemma create_txt_Ok domain value z s w zr s' :
  cf_create_txt_record domain value z s = (w, Ok zr, s') →
  s' = set_records (txt_records s ++ [zr]) s.
Proof.
  unfold cf_create_txt_record, cf_get_zone_id.
  intros (zone&?&s4&?&Hz&H&_)%acme_bind_Ok.
  apply acme_bind_Ok in Hz as (?&?&?&?&[= <- <- <-]&Hz&_).
  apply acme_bind_Ok in Hz as (?&?&?&?&[_ ->]%context_Ok&[_ ->]%context_Ok&_).
  apply acme_bind_Ok in H as (?&?&?&?&[= <- <- <-]&H&_).
  apply acme_bind_Ok in H as (resp&?&?&?&[_ ->]%context_Ok&H&_).
  apply acme_bind_Ok in H as (?&?&?&?&[_ ->]%ensure_Ok&H&_).
  destruct (as_str _); [|done]. by injection H as _ <- <-.
Qed.

(** The records made are those that stand, in the order made. *)
Lemma authorize_records cfg made az z s w made' s' :
  authorize cfg made az z s = (w, Ok made', s') →
  ∃ new, made' = made ++ new ∧ txt_records s' = txt_records s ++ new
         ∧ (ac_cloudflare_api_token cfg = None → new = []).
Proof.
  unfold authorize. destruct (az_status az); [|intros [= _ <- <-]; exists []; by rewrite !app_nil_r|done].
  intros (c&?&s1&?&[_ ->]%context_Ok&H&_)%acme_bind_Ok.
  apply acme_bind_Ok in H as (m&?&s2&?&Hm&H&_).
  apply acme_bind_Ok in H as (?&?&?&?&[= <- <- <-]&H&_).
  apply acme_bind_Ok in H as (?&?&s3&?&[_ ->]%ensure_Ok&H&_).
  injection H as _ <- <-. destruct (ac_cloudflare_api_token cfg) as [t|].
  - apply acme_bind_Ok in Hm as (zr&?&s3&?&Hm&H&_). injection H as _ <- <-.
    exists [zr]. apply create_txt_Ok in Hm as ->. done.
  - injection Hm as _ <- <-. exists []. by rewrite !app_nil_r.
Qed.

Lemma authorize_all_records cfg zs made s w made' s' :
  authorize_all cfg made zs s = (w, Ok made', s') →
  ∃ new, made' = made ++ new ∧ txt_records s' = txt_records s ++ new
         ∧ (ac_cloudflare_api_token cfg = None → new = []).
Proof.
  revert made s w. induction zs as [|[az z] zs IH]; intros made s w; cbn [authorize_all].
  - intros [= _ <- <-]. exists []. by rewrite !app_nil_r.
  - intros (m&?&s1&?&(n1&->&Hn1&He1)%authorize_records&(n2&->&Hn2&He2)%IH&_)%acme_bind_Ok.
    exists (n1 ++ n2). rewrite Hn2, Hn1, !app_assoc. split_and!; [done..|].
    intros Hc. by rewrite He1, He2.
Qed.

Lemma elem_of_set_records zr l s : zr ∈ txt_records (set_records l s) ↔ zr ∈ l.
Proof. done. Qed.

Lemma delete_txt_run io zr s :
  cf_delete_txt_record io zr s
  = ([DeleteTxt (records_url zr.1 ++ §"/" ++ zr.2)], Ok tt,
     if i_delete io zr then set_records (filter (λ x, x ≠ zr) (txt_records s)) s else s).
Proof. unfold cf_delete_txt_record. by destruct (i_delete io zr). Qed.

(** The clean-up asks for every record, and those whose deletion succeeds are gone. *)
Lemma clean_up_run io made s :
  ∃ w s', clean_up io made s = (w, Ok tt, s')
  ∧ (∀ zr, zr ∈ txt_records s' ↔ zr ∈ txt_records s ∧ ¬ (zr ∈ made ∧ i_delete io zr = true))
  ∧ acme_files s' = acme_files s.
Proof.
  revert s. induction made as [|zr made IH]; intros s.
  - exists [], s. split; [done|]. split; [|done]. intros zr. set_solver.
  - cbn [clean_up]. pose proof (delete_txt_run io zr s) as Hd. set (s1 := if i_delete io zr then _ else _) in Hd.
    destruct (IH s1) as (w & s' & H & Hr & Hf). eexists _, s'.
    split; [by eapply acme_bind_run|]. split; [|rewrite Hf; unfold s1; by case_match].
    intros x. rewrite Hr. unfold s1. clear.
    destruct (decide (x = zr)) as [->|]; destruct (i_delete io zr) eqn:Ed;
      rewrite ?elem_of_set_records, ?list_elem_of_filter, elem_of_cons; intuition congruence.
Qed.

Lemma cleaned_run cfg io made s :
  ∃ w s', cleaned cfg io made s = (w, Ok tt, s') ∧ challenge_tokens s' = ∅
  ∧ acme_files s' = acme_files s
  ∧ ∀ zr, zr ∈ txt_records s' ↔
      zr ∈ txt_records s
      ∧ ¬ (is_Some (ac_cloudflare_api_token cfg) ∧ zr ∈ made ∧ i_delete io zr = true).
Proof.
  unfold cleaned. destruct (ac_cloudflare_api_token cfg) as [t|].
  - destruct (clean_up_run io made s) as (w & s' & H & Hr & Hf).
    eexists _, (set_tokens ∅ s'). split; [by eapply acme_bind_run|].
    split; [done|]. split; [done|]. intros zr. cbn. rewrite Hr. naive_solver.
  - exists [], (set_tokens ∅ s). split; [done|]. split; [done|]. split; [done|].
    intros zr. cbn. split; [|naive_solver]. intros H. split; [done|]. by intros [[? ?] _].
Qed.

Lemma write_Ok io path text message s w s' :
  write io path text message s = (w, Ok tt, s') →
  s' = set_files (<[path := text]> (acme_files s)) s.
Proof. unfold write. destruct (i_write io path); [by intros [= _ <-]|done|done]. Qed.

Lemma stored_Ok cfg io cert key s w s' :
  stored cfg io cert key s = (w, Ok tt, s') →
  ∃ d, head (ac_domains cfg) = Some d
  ∧ s' = set_files (<[key_path cfg d := key]> (<[crt_path cfg d := cert]> (acme_files s))) s.
Proof.
  unfold stored. intros (d&?&?&?&[Hd ->]%context_Ok&H&_)%acme_bind_Ok. exists d. split; [done|].
  apply acme_bind_Ok in H as ([]&?&?&?&->%write_Ok&H&_).
  apply acme_bind_Ok in H as ([]&?&?&?&->%write_Ok&[= _ <-]&_). done.
Qed.

(** The account and the order leave the records and the tokens alone. *)
Lemma keeps_account {P} (p : issue_state → P) cfg io :
  (∀ f s, p (set_files f s) = p s) → keeps p (load_or_create_account cfg io).
Proof.
  intros Hp. unfold load_or_create_account, write. keeps_tac; apply keeps_modify; intros; apply Hp.
Qed.

(** [order_placed] is the loop over the authorizations, in a state that differs
    in the account's file only. *)
Lemma order_placed_Ok cfg io s w made s1 :
  order_placed cfg io s = (w, Ok made, s1) →
  ∃ zs s0 w', i_authorizations io = Some zs ∧ authorize_all cfg [] zs s0 = (w', Ok made, s1)
  ∧ txt_records s0 = txt_records s ∧ challenge_tokens s0 = challenge_tokens s.
Proof.
  unfold order_placed. intros ([]&?&?&?&[_ ->]%ensure_Ok&H&_)%acme_bind_Ok.
  apply acme_bind_Ok in H as ([]&?&s0&?&Ha&H&_).
  apply acme_bind_Ok in H as ([]&?&?&?&[= <- <-]&H&_).
  apply acme_bind_Ok in H as ([]&?&?&?&[_ ->]%ensure_Ok&H&_).
  apply acme_bind_Ok in H as (zs&?&?&w'&[Hz ->]%context_Ok&H&_).
  exists zs, s0, w'. split; [done|]. split; [done|].
  pose proof (keeps_account txt_records cfg io (λ _ _, eq_refl) s) as H1.
  pose proof (keeps_account challenge_tokens cfg io (λ _ _, eq_refl) s) as H2.
  by rewrite Ha in H1, H2.
Qed.

Lemma order_records cfg io s w made s1 :
  order_placed cfg io s = (w, Ok made, s1) →
  txt_records s1 = txt_records s ++ made ∧ (ac_cloudflare_api_token cfg = None → made = []).
Proof.
  intros (zs & s0 & w' & _ & H & <- & _)%order_placed_Ok.
  by apply authorize_all_records in H as (new & -> & Hn & He).
Qed.

(** The stages of a run that returns a certificate. *)
Lemma obtain_Ok cfg io s w cert key s' :
  obtain_certificate cfg io s = (w, Ok (cert, key), s') →
  ∃ made w1 s1 s2 s3 d, order_placed cfg io s = (w1, Ok made, s1)
  ∧ (∃ w2, certificate_issued cfg io s1 = (w2, Ok (cert, key), s1))
  ∧ (∃ w3, cleaned cfg io made s1 = (w3, Ok tt, s2))
  ∧ head (ac_domains cfg) = Some d
  ∧ s3 = set_files (<[key_path cfg d := key]> (<[crt_path cfg d := cert]> (acme_files s2))) s2
  ∧ s' = s3.
Proof.
  unfold obtain_certificate. intros (made&w1&s1&?&H1&H&_)%acme_bind_Ok.
  apply acme_bind_Ok in H as ([c k]&w2&s2&?&H2&H&_).
  pose proof H2 as (-> & _)%certificate_issued_Ok.
  apply acme_bind_Ok in H as ([]&w3&s3&?&H3&H&_).
  apply acme_bind_Ok in H as ([]&w4&s4&?&(d & Hd & H4)%stored_Ok&H&_).
  injection H as _ <- <- <-. exists made, w1, s1, s3, s4, d. eauto 10.
Qed.

(** C27: What a successful run leaves.  The first domain's certificate and
    key are the ones the server issued for this run, every other file but the
    account's is untouched, no challenge token is left, and when Cloudflare
    carries out the deletions no TXT record is left either that was not there
    before. *)
Theorem issuance_spec cfg io s w cert key s' :
  obtain_certificate cfg io s = (w, Ok (cert, key), s') →
  i_key_pem io = Some key
  ∧ (∃ n rest, i_certificate io = replicate n (Some None) ++ Some (Some cert) :: rest)
  ∧ (∃ d, head (ac_domains cfg) = Some d
     ∧ acme_files s' !! crt_path cfg d = Some cert ∧ acme_files s' !! key_path cfg d = Some key
     ∧ ∀ p, p ≠ crt_path cfg d → p ≠ key_path cfg d → p ≠ account_path cfg →
            acme_files s' !! p = acme_files s !! p)
  ∧ challenge_tokens s' = ∅
  ∧ ((∀ zr, i_delete io zr = true) → ∀ zr, zr ∈ txt_records s' → zr ∈ txt_records s).
Proof.
  intros (made&w1&s1&s2&s3&d&Hp&[w2 Hi]&[w3 Hc]&Hd&->&->)%obtain_Ok.
  apply certificate_issued_Ok in Hi as (_ & Hk & Hcert). split; [done|]. split; [done|].
  destruct (cleaned_run cfg io made s1) as (w3' & s2' & Hc' & Ht & Hf & Hr).
  rewrite Hc in Hc'. injection Hc' as _ <-.
  split; [|split; [done|]].
  - exists d. split; [done|]. cbn. rewrite lookup_insert_ne, !lookup_insert_eq by auto with acme.
    split; [done|]. split; [done|]. intros p Hp1 Hp2 Hp3. rewrite !lookup_insert_ne by done.
    rewrite Hf, <-!(other_files_lookup cfg) by done.
    pose proof (keeps_order_placed cfg io s) as Ho. rewrite Hp in Ho. by rewrite <-Ho.
  - intros Hall zr. cbn. rewrite Hr, Hall. intros [Hin Hno].
    apply order_records in Hp as [Hn He]. rewrite Hn in Hin.
    apply elem_of_app in Hin as [?|Hin]; [done|]. destruct Hno. split; [|done].
    destruct (ac_cloudflare_api_token cfg); [done|]. rewrite He in Hin by done. set_solver.
Qed.

(** ** Lemmas: runs that fail *)

Lemma write_Wrote {A} io path text message (k : unit → acme A) s :
  i_write io path = Wrote →
  (write io path text message ≫= k) s = k tt (set_files (<[path := text]> (acme_files s)) s).
Proof. intros H. apply acme_bind_pure. unfold write. by rewrite H. Qed.

Lemma stored_eq cfg io cert key s d :
  head (ac_domains cfg) = Some d →
  stored cfg io cert key s
  = (write io (crt_path cfg d) cert §"writing certificate";;
     write io (key_path cfg d) key §"writing private key";;
     perform [Audit (audit_event (i_now io) §"acme.cert_obtained"
                       [(§"domain", Str d); (§"cert_path", Str (crt_path cfg d))])]) s.
Proof. intros Hd. unfold stored. rewrite Hd. by rewrite (acme_bind_pure _ _ s d s). Qed.

(** A run that fails stops before the storing or in it. *)
Lemma obtain_Err cfg io s w e s' :
  obtain_certificate cfg io s = (w, Err e, s') →
  other_files cfg s' = other_files cfg s
  ∨ ∃ cert key s3 w3, other_files cfg s3 = other_files cfg s
                      ∧ stored cfg io cert key s3 = (w3, Err e, s').
Proof.
  unfold obtain_certificate, mbind, acme_bind.
  pose proof (keeps_order_placed cfg io s) as H1.
  destruct (order_placed cfg io s) as [[w1 [made|e1]] s1]; cbn in H1; [|intros [= _ _ <-]; by left].
  pose proof (keeps_certificate_issued cfg io s1) as H2.
  destruct (certificate_issued cfg io s1) as [[w2 [[cert key]|e2]] s2]; cbn in H2; subst s2;
    [|intros [= _ _ <-]; by left].
  destruct (cleaned_run cfg io made s1) as (w3 & s3 & H3 & _ & Hf & _). rewrite H3.
  assert (other_files cfg s3 = other_files cfg s) as Ho by (by rewrite <-H1; unfold other_files; rewrite Hf).
  destruct (stored cfg io cert key s3) as [[w4 [[]|e4]] s4] eqn:H4; [done|].
  intros [= _ <- <-]. right. eauto 10.
Qed.

(** C32: A run that fails, at whatever point and for whatever reason, touches
    neither the certificate nor its key as long as the two files can be written:
    the relay keeps the pair it had. *)
Theorem failed_run_keeps_pair cfg io s w e s' d :
  obtain_certificate cfg io s = (w, Err e, s') → head (ac_domains cfg) = Some d →
  i_write io (crt_path cfg d) = Wrote → i_write io (key_path cfg d) = Wrote →
  acme_files s' !! crt_path cfg d = acme_files s !! crt_path cfg d
  ∧ acme_files s' !! key_path cfg d = acme_files s !! key_path cfg d.
Proof.
  intros H Hd Hc Hk. apply obtain_Err in H as [H|(cert & key & s3 & w3 & _ & H)].
  - rewrite <-!(other_files_lookup cfg) by auto with acme. by rewrite H.
  - exfalso. by rewrite (stored_eq _ _ _ _ _ d), (write_Wrote _ _ _ _ _ _ Hc),
      (write_Wrote _ _ _ _ _ _ Hk) in H.
Qed.

(** The stages that precede the storing, run one after the other. *)
Lemma obtain_upto_stored cfg io s w1 made s1 w2 cert key :
  order_placed cfg io s = (w1, Ok made, s1) →
  certificate_issued cfg io s1 = (w2, Ok (cert, key), s1) →
  ∃ w s3, acme_files s3 = acme_files s1 ∧ challenge_tokens s3 = ∅
  ∧ obtain_certificate cfg io s
    = let '(w', r, s') := (stored cfg io cert key;; mret (cert, key)) s3 in (w ++ w', r, s').
Proof.
  intros H1 H2. destruct (cleaned_run cfg io made s1) as (w3 & s3 & H3 & Ht & Hf & _).
  exists (w1 ++ w2 ++ w3), s3. split; [done|]. split; [done|].
  destruct ((stored cfg io cert key;; mret (cert, key)) s3) as [[w' r] s'] eqn:E.
  rewrite <-!app_assoc. eapply acme_bind_run; [done|]. eapply acme_bind_run; [done|].
  by eapply acme_bind_run.
Qed.

(** The pair is not stored as a pair.  When the certificate has been
    written and the key cannot be, the directory holds the new certificate with
    the old key, which no server can use; and as the renewal looks at the
    certificate alone, it finds nothing to do until thirty days before the new
    certificate expires. *)
Theorem half_stored_pair base64_decode cfg io s w1 made s1 w2 cert key d :
  order_placed cfg io s = (w1, Ok made, s1) →
  certificate_issued cfg io s1 = (w2, Ok (cert, key), s1) →
  head (ac_domains cfg) = Some d →
  i_write io (crt_path cfg d) = Wrote → i_write io (key_path cfg d) = NotOpened →
  ∃ w s', obtain_certificate cfg io s = (w, Err (Failed §"writing private key"), s')
  ∧ acme_files s' !! crt_path cfg d = Some cert
  ∧ acme_files s' !! key_path cfg d = acme_files s !! key_path cfg d
  ∧ ∀ now days io', days_until_expiry base64_decode now cert = Value_of (Some days) → 30 <= days →
      renewal_tick base64_decode cfg true now io' s' = ([], Some s').
Proof.
  intros H1 H2 Hd Hc Hk.
  destruct (obtain_upto_stored cfg io s w1 made s1 w2 cert key H1 H2) as (w & s3 & Hf & _ & ->).
  set (s' := set_files (<[crt_path cfg d := cert]> (acme_files s3)) s3).
  assert (stored cfg io cert key s3 = ([], Err (Failed §"writing private key"), s')) as Hs.
  { rewrite (stored_eq _ _ _ _ _ d), (write_Wrote _ _ _ _ _ _ Hc) by done.
    apply acme_bind_Err. unfold write. by rewrite Hk. }
  rewrite (acme_bind_Err _ _ _ _ _ _ Hs). exists (w ++ []), s'. split; [done|].
  assert (acme_files s' !! crt_path cfg d = Some cert) as Hcrt by (cbn; apply lookup_insert_eq).
  split; [done|]. split.
  - cbn. rewrite lookup_insert_ne, Hf by auto with acme.
    rewrite <-!(other_files_lookup cfg) by auto with acme.
    pose proof (keeps_order_placed cfg io s) as Ho. rewrite H1 in Ho. cbn in Ho. by rewrite <-Ho.
  - intros now days io' Hdays Hle. unfold renewal_tick, renewal_due, cert_paths. rewrite Hd.
    cbn [fmap option_fmap option_map mbind option_bind fst]. fold (crt_path cfg d). rewrite Hcrt.
    cbn [option_bind]. unfold needs_renewal. destruct (ac_domains cfg) as [|d' ds]; [done|].
    cbn [mbind option_bind]. rewrite Hdays. by rewrite (proj2 (Z.ltb_ge days 30)) by done.
Qed.

(** What a failed order leaves.  When the order becomes invalid, times
    out, or fails in any other way after the challenges were set up, the run ends
    in the state of that moment: every TXT record it made stays at Cloudflare and
    every token stays in the challenge server. *)
Theorem failed_order_leaks cfg io s w1 made s1 w2 e s2 :
  order_placed cfg io s = (w1, Ok made, s1) →
  certificate_issued cfg io s1 = (w2, Err e, s2) →
  obtain_certificate cfg io s = (w1 ++ w2, Err e, s1)
  ∧ txt_records s1 = txt_records s ++ made.
Proof.
  intros H1 H2. pose proof (keeps_certificate_issued cfg io s1) as Hs. rewrite H2 in Hs.
  cbn in Hs. subst s2. split; [|by apply order_records in H1 as [? _]].
  eapply acme_bind_run; [done|]. by apply acme_bind_Err.
Qed.

(** The wait for the certificate has no end of its own: as long as the server
    answers that there is none yet, the run goes on, and the task with it. *)
Theorem download_waits_for_ever answers s :
  Forall (λ a, a = Some None) answers → ∃ w, download answers s = (w, Err Waiting, s).
Proof.
  intros Ha. induction Ha as [|a answers -> _ [w IH]]; [by eexists|].
  cbn [download]. eexists. by eapply acme_bind_run.
Qed.

(** ** Lemmas: the challenges that are served *)

(** The challenge that answers a pending authorization without Cloudflare. *)
Definition answers_with (cfg : AcmeConfig) (az : authorization) (c : challenge) : Prop :=
  az_status az = AuthzPending ∧ find_challenge cfg az = Some c.

(** Key authorizations are a function of the token, as the protocol has it. *)
Definition keys_by_token (cfg : AcmeConfig) (zs : list (authorization * authz_io)) : Prop :=
  ∀ az z c az' z' c', (az, z) ∈ zs → (az', z') ∈ zs →
    answers_with cfg az c → answers_with cfg az' c' → ch_token c = ch_token c' →
    z_key_auth z = z_key_auth z'.

(** One turn stores the token of its challenge, and no other. *)
Lemma authorize_tokens cfg made az z s w made' s' :
  ac_cloudflare_api_token cfg = None → authorize cfg made az z s = (w, Ok made', s') →
  match az_status az with
  | AuthzPending => ∃ c, find_challenge cfg az = Some c
      ∧ challenge_tokens s' = <[ch_token c := z_key_auth z]> (challenge_tokens s)
  | _ => challenge_tokens s' = challenge_tokens s
  end.
Proof.
  intros Hn. unfold authorize. destruct (az_status az); [|by intros [= _ _ <-]|done].
  rewrite Hn. intros (c&?&?&?&[Hc ->]%context_Ok&H&_)%acme_bind_Ok. exists c. split; [done|].
  apply acme_bind_Ok in H as (m&?&?&?&Hm&H&_).
  apply acme_bind_Ok in Hm as (?&?&?&?&[= <- <- <-]&[= _ _ <-]&_).
  apply acme_bind_Ok in H as (?&?&?&?&[= <- <- <-]&H&_).
  apply acme_bind_Ok in H as (?&?&?&?&[_ ->]%ensure_Ok&[= _ _ <-]&_). done.
Qed.

(** A token stays, with its key, as long as no other key comes under it. *)
Lemma authorize_all_keeps_token cfg zs made s w made' s' t k :
  ac_cloudflare_api_token cfg = None → authorize_all cfg made zs s = (w, Ok made', s') →
  (∀ az z c, (az, z) ∈ zs → answers_with cfg az c → ch_token c = t → z_key_auth z = k) →
  challenge_tokens s !! t = Some k → challenge_tokens s' !! t = Some k.
Proof.
  intros Hn. revert made s w. induction zs as [|[az z] zs IH]; intros made s w; cbn [authorize_all].
  - by intros [= _ _ <-].
  - intros (m&?&s1&?&H1&H2&_)%acme_bind_Ok Hk Hs. eapply IH; [done|..].
    + intros az' z' c Hin. apply Hk. by right.
    + apply authorize_tokens in H1; [|done]. destruct (az_status az) eqn:Ea; [|by rewrite H1..].
      destruct H1 as (c & Hc & ->). destruct (decide (ch_token c = t)) as [<-|Hne].
      * rewrite lookup_insert_eq. f_equal. apply (Hk az z c); [by left|by split|done].
      * by rewrite lookup_insert_ne.
Qed.

Lemma authorize_all_tokens cfg zs made s w made' s' az z :
  ac_cloudflare_api_token cfg = None → keys_by_token cfg zs →
  authorize_all cfg made zs s = (w, Ok made', s') → (az, z) ∈ zs → az_status az = AuthzPending →
  ∃ c, find_challenge cfg az = Some c ∧ challenge_tokens s' !! ch_token c = Some (z_key_auth z).
Proof.
  intros Hn. revert made s w. induction zs as [|[az0 z0] zs IH]; intros made s w Hk; [set_solver|].
  cbn [authorize_all]. intros (m&?&s1&?&H1&H2&_)%acme_bind_Ok Hin Hp.
  apply elem_of_cons in Hin as [[= <- <-]|Hin].
  - apply authorize_tokens in H1; [|done]. rewrite Hp in H1. destruct H1 as (c & Hc & Ht).
    exists c. split; [done|]. eapply authorize_all_keeps_token; [done|done|..].
    + intros az' z' c' Hin' Ha' Heq. symmetry. eapply (Hk az z c az' z' c');
        [by left|by right|by split|done|done].
    + rewrite Ht. apply lookup_insert_eq.
  - eapply IH; [|done..]. intros ??????????. eapply Hk; by (done || right).
Qed.

(** C33: HTTP-01 works: by the time the order is polled, the challenge server
    answers the request of the certificate authority for the token of every
    pending authorization with the key authorization of that token. *)
Theorem challenges_served cfg io s w made s1 zs az z tail :
  ac_cloudflare_api_token cfg = None → order_placed cfg io s = (w, Ok made, s1) →
  i_authorizations io = Some zs → keys_by_token cfg zs →
  (az, z) ∈ zs → az_status az = AuthzPending →
  ∃ c, find_challenge cfg az = Some c
  ∧ (forallb plain (ch_token c) = true → ("/"%char ∉ ch_token c) →
     utf8_valid (challenge_request (PREFIX ++ ch_token c) tail) = true →
     challenge_response_to (challenge_tokens s1)
       (Some (challenge_request (PREFIX ++ ch_token c) tail))
     = Some (key_response (z_key_auth z))).
Proof.
  intros Hn (zs' & s0 & w' & Hz & H & _ & _)%order_placed_Ok Hz' Hk Hin Hp.
  rewrite Hz' in Hz. injection Hz as <-.
  destruct (authorize_all_tokens cfg zs [] s0 w' made s1 az z) as (c & Hc & Ht); [done..|].
  exists c. split; [done|]. intros Hpl Hs Hu.
  rewrite serves_token, Ht by done. done.
Qed.

(** ** Lemmas: runs that succeed *)

(** An authorization the relay can satisfy. *)
Definition granted (cfg : AcmeConfig) (z : authorization * authz_io) : Prop :=
  az_status z.1 = AuthzValid
  ∨ az_status z.1 = AuthzPending ∧ is_Some (find_challenge cfg z.1) ∧ z_ready z.2 = true
    ∧ (is_Some (ac_cloudflare_api_token cfg) → ∃ zones zone reply record,
         z_zones z.2 = Some zones
         ∧ as_str (at_key §"id" (at_index 0 (at_key §"result" zones))) = Some zone
         ∧ z_create z.2 = Some reply ∧ at_key §"success" reply = Bool true
         ∧ as_str (at_key §"id" (at_key §"result" reply)) = Some record).

Definition succeeds {A} (m : acme A) (s : issue_state) : Prop := ∃ w a s', m s = (w, Ok a, s').

Lemma succeeds_bind {A B} (m : acme A) (f : A → acme B) s :
  (∃ w a s1, m s = (w, Ok a, s1) ∧ succeeds (f a) s1) → succeeds (m ≫= f) s.
Proof. intros (w & a & s1 & Hm & w' & b & s2 & Hf). eexists _, _, _. by eapply acme_bind_run. Qed.

Lemma create_txt_succeeds domain value z s zones zone reply record :
  z_zones z = Some zones →
  as_str (at_key §"id" (at_index 0 (at_key §"result" zones))) = Some zone →
  z_create z = Some reply → at_key §"success" reply = Bool true →
  as_str (at_key §"id" (at_key §"result" reply)) = Some record →
  succeeds (cf_create_txt_record domain value z) s.
Proof.
  intros Hz Hzone Hr Hs Hid. unfold cf_create_txt_record, cf_get_zone_id. rewrite Hz, Hr.
  apply succeeds_bind. eexists _, zone, s. split.
  { eapply acme_bind_run; [done|]. eapply acme_bind_run; [done|]. by rewrite Hzone. }
  apply succeeds_bind. eexists _, tt, s. split; [done|].
  apply succeeds_bind. eexists _, reply, s. split; [done|].
  apply succeeds_bind. eexists _, tt, s. split; [by rewrite Hs|].
  rewrite Hid. by eexists _, _, _.
Qed.

Lemma authorize_succeeds cfg made az z s : granted cfg (az, z) → succeeds (authorize cfg made az z) s.
Proof.
  unfold granted, authorize. cbn [fst snd].
  intros [-> | (-> & [c ->] & Hready & Hcf)]; [by eexists _, _, _|].
  apply succeeds_bind. eexists _, c, s. split; [done|].
  assert (∀ made' s', succeeds (A := list (str * str)) (perform [SetReady (ch_url c)];;
    ensure (z_ready z) §"setting challenge ready";; mret made') s') as Hend.
  { intros made' s'. rewrite Hready. by eexists _, _, _. }
  apply succeeds_bind. destruct (ac_cloudflare_api_token cfg) as [t|]; [|eexists _, _, _; by split].
  destruct (Hcf (mk_is_Some _ _ eq_refl)) as (zones & zone & reply & record & Hz & Hzone & Hr & Hs & Hid).
  destruct (create_txt_succeeds (az_domain az) (z_dns_value z) z s zones zone reply record)
    as (w & zr & s1 & H); [done..|].
  eexists _, _, _. split; [|apply Hend].
  eapply acme_bind_run; [exact H|]. by eapply acme_bind_run.
Qed.

Lemma authorize_all_succeeds cfg made zs s :
  Forall (granted cfg) zs → succeeds (authorize_all cfg made zs) s.
Proof.
  intros Hz. revert made s. induction Hz as [|[az z] zs Hg _ IH]; intros made s; [by eexists _, _, _|].
  cbn [authorize_all]. apply succeeds_bind.
  destruct (authorize_succeeds cfg made az z s Hg) as (w & m & s1 & H). eauto 10.
Qed.

Definition in_progress (a : option order_status) : Prop := a = Some OPending ∨ a = Some OProcessing.
Definition done_status (a : option order_status) : Prop := a = Some OReady ∨ a = Some OValid.

Lemma await_succeeds left pre a rest s :
  Forall in_progress pre → done_status a → (length pre < left)%nat →
  ∃ w, await_order left (pre ++ a :: rest) s = (w, Ok tt, s).
Proof.
  intros Hp Ha. revert left. induction Hp as [|x pre Hx _ IH]; intros [|left] Hl; try (cbn in Hl; lia).
  - destruct Ha as [-> | ->]; by eexists.
  - destruct (IH left) as [w Hw]; [cbn in Hl; lia|]. destruct left as [|left]; [cbn in Hl; lia|].
    destruct Hx as [-> | ->]; eexists; cbn [await_order app]; by eapply acme_bind_run.
Qed.

Lemma download_succeeds n cert rest s :
  ∃ w, download (replicate n (Some None) ++ Some (Some cert) :: rest) s = (w, Ok cert, s).
Proof.
  induction n as [|n [w IH]]; [by eexists|]. cbn [replicate app download].
  eexists. by eapply acme_bind_run.
Qed.

(** The account is at hand: stored and loadable, or none is and one can be made. *)
Definition account_ready (cfg : AcmeConfig) (io : issue_io) (s : issue_state) : Prop :=
  match acme_files s !! account_path cfg with
  | Some json => i_read_account io = true ∧ i_parse_account io json = true ∧ i_load_account io = true
  | None => is_Some (i_account io)
  end.

Lemma account_succeeds cfg io s :
  account_ready cfg io s → i_write io (account_path cfg) = Wrote →
  succeeds (load_or_create_account cfg io) s.
Proof.
  unfold account_ready, load_or_create_account, succeeds, mbind, acme_bind, reading. cbn.
  destruct (acme_files s !! account_path cfg) as [json|].
  - intros (-> & -> & ->) _. by eexists _, _, _.
  - intros [json ->] Hw. unfold write. cbn. rewrite Hw. by eexists _, _, _.
Qed.

(** What a run needs to come to its end. *)
Record favourable (cfg : AcmeConfig) (io : issue_io) (s : issue_state) : Prop := {
  fav_mkdir : i_mkdir io = true;
  fav_account : account_ready cfg io s;
  fav_order : i_new_order io = true;
  fav_authz : ∃ zs, i_authorizations io = Some zs ∧ Forall (granted cfg) zs;
  fav_statuses : ∃ pre a rest, i_statuses io = pre ++ a :: rest
    ∧ Forall in_progress pre ∧ done_status a ∧ (length pre < max_attempts)%nat;
  fav_csr : i_params io = true ∧ i_csr io = true ∧ i_finalize io = true;
  fav_writes : ∀ p, i_write io p = Wrote;
  fav_domain : ac_domains cfg ≠ [];
}.

Lemma issued_succeeds cfg io s key n cert rest :
  favourable cfg io s → i_key_pem io = Some key →
  i_certificate io = replicate n (Some None) ++ Some (Some cert) :: rest →
  ∀ s1, ∃ w, certificate_issued cfg io s1 = (w, Ok (cert, key), s1).
Proof.
  intros [_ _ _ _ (pre & a & rest' & Hst & Hpre & Ha & Hl) (Hp & Hc & Hf) _ _] Hk Hcert s1.
  unfold certificate_issued. rewrite Hst, Hk, Hp, Hc, Hf, Hcert.
  destruct (await_succeeds max_attempts pre a rest' s1 Hpre Ha Hl) as [w1 H1].
  destruct (download_succeeds n cert rest s1) as [w2 H2].
  eexists. eapply acme_bind_run; [exact H1|]. do 5 (eapply acme_bind_run; [done|]).
  eapply acme_bind_run; [exact H2|done].
Qed.

(** C31: A run comes to its end.  When the account can be had, every
    authorization is settled or offers the challenge the relay knows and takes
    its answer, the order is ready within twenty-four polls, the certificate comes
    at some poll, and the files can be written, the run returns that certificate
    and the key made for it. *)
Theorem issuance_completes cfg io s key n cert rest :
  favourable cfg io s → i_key_pem io = Some key →
  i_certificate io = replicate n (Some None) ++ Some (Some cert) :: rest →
  ∃ w s', obtain_certificate cfg io s = (w, Ok (cert, key), s').
Proof.
  intros Hfav Hk Hcert. pose proof Hfav as [Hm Ha Ho (zs & Hz & Hg) _ _ Hw Hd].
  assert (succeeds (order_placed cfg io) s) as (w1 & made & s1 & H1).
  { unfold order_placed. rewrite Hm, Ho, Hz. apply succeeds_bind. eexists _, tt, s. split; [done|].
    apply succeeds_bind. destruct (account_succeeds cfg io s Ha (Hw _)) as (w & [] & s0 & H).
    eexists _, _, _. split; [exact H|]. do 2 (apply succeeds_bind; eexists _, _, _; split; [done|]).
    apply succeeds_bind. eexists _, zs, s0. split; [done|]. by apply authorize_all_succeeds. }
  destruct (issued_succeeds cfg io s key n cert rest Hfav Hk Hcert s1) as [w2 H2].
  destruct (obtain_upto_stored cfg io s w1 made s1 w2 cert key H1 H2) as (w & s3 & _ & _ & ->).
  destruct (ac_domains cfg) as [|d ds] eqn:Ed; [done|].
  assert (head (ac_domains cfg) = Some d) as Hd' by (by rewrite Ed).
  assert (succeeds (stored cfg io cert key) s3) as (w4 & [] & s4 & H4).
  { unfold succeeds. rewrite (stored_eq _ _ _ _ _ d), !(write_Wrote _ _ _ _ _ _ (Hw _)) by done.
    by eexists _, _, _. }
  rewrite (acme_bind_run _ _ _ _ _ _ [] (Ok (cert, key)) s4 H4) by done. by eexists _, _.
Qed.

(** ** Witnesses *)

Definition demo_acme (token : option str) : AcmeConfig :=
  {| ac_email := §"ops@a.example"; ac_domains := [§"a.example"]; ac_cloudflare_api_token := token;
     ac_dir := §"acme"; ac_production := true |}.

Definition demo_cert : str := demo_pem (demo_der §"0").

Definition demo_authz : authorization :=
  {| az_status := AuthzPending; az_domain := §"a.example";
     az_challenges := [{| ch_type := TlsAlpn01; ch_url := §"u0"; ch_token := §"t0" |};
                       {| ch_type := Http01; ch_url := §"u1"; ch_token := §"t1" |};
                       {| ch_type := Dns01; ch_url := §"u2"; ch_token := §"t2" |}] |}.

Definition demo_answers : authz_io :=
  {| z_key_auth := §"t1.key"; z_dns_value := §"digest";
     z_zones := Some (object [(§"result", Arr [object [(§"id", Str §"zone")]])]);
     z_create := Some (object [(§"success", Bool true);
                               (§"result", object [(§"id", Str §"record")])]);
     z_ready := true |}.

Definition demo_issue (statuses : list (option order_status)) (write : str → write_result)
    : issue_io :=
  {| i_mkdir := true; i_read_account := true; i_parse_account := λ _, true;
     i_load_account := true; i_account := Some §"{}"; i_new_order := true;
     i_authorizations := Some [(demo_authz, demo_answers)]; i_statuses := statuses;
     i_key_pem := Some §"new key"; i_params := true; i_csr := true; i_finalize := true;
     i_certificate := [Some None; Some (Some demo_cert)]; i_delete := λ _, true;
     i_write := write; i_now := 1700000000 |}.

Definition all_well : issue_io := demo_issue [Some OPending; Some OReady] (λ _, Wrote).
Definition refused_order : issue_io := demo_issue [Some OPending; Some OInvalid] (λ _, Wrote).
Definition key_refused : issue_io :=
  demo_issue [Some OReady]
    (λ p, if bool_decide (p = key_path (demo_acme None) §"a.example") then NotOpened else Wrote).

Definition demo_dir : issue_state :=
  {| acme_files := {[ §"acme/a.example.crt" := §"old"; §"acme/a.example.key" := §"old key" ]};
     challenge_tokens := ∅; txt_records := [] |}.

Lemma obtain_all_well token :
  token = None ∨ token = Some §"cf" →
  ∃ w s', obtain_certificate (demo_acme token) all_well demo_dir
          = (w, Ok (demo_cert, §"new key"), s').
Proof. intros [-> | ->]; by eexists _, _. Qed.

Lemma issuance_spec_witness :
  ∃ s', acme_files s' !! §"acme/a.example.crt" = Some demo_cert
  ∧ acme_files s' !! §"acme/a.example.key" = Some §"new key"
  ∧ challenge_tokens s' = ∅ ∧ ∀ zr, zr ∈ txt_records s' → zr ∈ txt_records demo_dir.
Proof.
  destruct (obtain_all_well (Some §"cf")) as (w & s' & H); [by right|]. exists s'.
  destruct (issuance_spec _ _ _ _ _ _ _ H) as (_ & _ & (d & Hd & Hc & Hk & _) & Ht & Hr).
  injection Hd as <-. split; [exact Hc|]. split; [exact Hk|]. split; [exact Ht|].
  apply Hr. reflexivity.
Defined.

Lemma favourable_witness token :
  token = None ∨ token = Some §"cf" → favourable (demo_acme token) all_well demo_dir.
Proof.
  intros Ht. split; try done.
  - by eexists.
  - exists [(demo_authz, demo_answers)]. split; [done|]. constructor; [|constructor]. right.
    destruct Ht as [-> | ->]; (split; [done|]; split; [by eexists|]; split; [done|]).
    + by intros [? [=]].
    + intros _. eexists _, §"zone", _, §"record". done.
  - exists [Some OPending], (Some OReady), []. split; [done|].
    split; [repeat constructor|]. split; [by left|]. unfold max_attempts. cbn. lia.
Qed.

Lemma issuance_completes_witness :
  ∃ w s', obtain_certificate (demo_acme None) all_well demo_dir
          = (w, Ok (demo_cert, §"new key"), s').
Proof.
  apply (issuance_completes (demo_acme None) all_well demo_dir §"new key" 1 demo_cert []);
    [apply favourable_witness; by left|reflexivity|reflexivity].
Defined.

Lemma failed_run_keeps_pair_witness :
  acme_files (obtain_certificate (demo_acme (Some §"cf")) refused_order demo_dir).2
    !! §"acme/a.example.key" = Some §"old key".
Proof.
  destruct (obtain_certificate (demo_acme (Some §"cf")) refused_order demo_dir)
    as [[w [r|e]] s'] eqn:H; [vm_compute in H; discriminate|].
  etrans; [apply (failed_run_keeps_pair _ _ _ _ _ _ §"a.example" H); reflexivity|reflexivity].
Defined.

Lemma half_stored_pair_witness :
  ∃ s', acme_files s' !! §"acme/a.example.crt" = Some demo_cert
  ∧ acme_files s' !! §"acme/a.example.key" = Some §"old key"
  ∧ renewal_tick hex_decode (demo_acme None) true 1700000000 all_well s' = ([], Some s').
Proof.
  destruct (order_placed (demo_acme None) key_refused demo_dir) as [[w1 [made|e]] s1] eqn:H1;
    [|discriminate].
  destruct (certificate_issued (demo_acme None) key_refused s1) as [[w2 r] s2] eqn:H2.
  assert (s2 = s1 ∧ r = Ok (demo_cert, §"new key")) as [-> ->]
    by (vm_compute in H2; injection H2 as _ <- <-; split; reflexivity).
  destruct (half_stored_pair hex_decode (demo_acme None) key_refused demo_dir w1 made s1 w2
    demo_cert §"new key" §"a.example" H1 H2) as (w & s' & _ & Hc & Hk & Hr); [reflexivity..|].
  exists s'. split; [exact Hc|]. split; [exact Hk|]. apply (Hr 1700000000 90); [reflexivity|lia].
Defined.

Lemma failed_order_leaks_witness :
  txt_records (obtain_certificate (demo_acme (Some §"cf")) refused_order demo_dir).2
  = [(§"zone", §"record")].
Proof.
  destruct (order_placed (demo_acme (Some §"cf")) refused_order demo_dir) as [[w1 [made|e]] s1] eqn:H1;
    [|discriminate].
  destruct (certificate_issued (demo_acme (Some §"cf")) refused_order s1) as [[w2 [r|e]] s2] eqn:H2;
    [vm_compute in H2; discriminate|].
  destruct (failed_order_leaks _ _ _ _ _ _ _ _ _ H1 H2) as [-> Hr].
  cbn [snd]. rewrite Hr. vm_compute in H1. injection H1 as _ <- _. reflexivity.
Defined.

Lemma download_waits_for_ever_witness :
  ∃ w, download (replicate 1000 (Some None)) demo_dir = (w, Err Waiting, demo_dir).
Proof. apply (download_waits_for_ever (replicate 1000 (Some None))). by apply Forall_replicate. Defined.

Lemma challenges_served_witness :
  ∃ s1, challenge_response_to (challenge_tokens s1)
    (Some (challenge_request (PREFIX ++ §"t1") (§"Host: a.example" ++ crlf ++ crlf)))
  = Some (key_response §"t1.key").
Proof.
  destruct (order_placed (demo_acme None) all_well demo_dir) as [[w1 [made|e]] s1] eqn:H1;
    [|discriminate].
  exists s1.
  destruct (challenges_served (demo_acme None) all_well demo_dir w1 made s1
    [(demo_authz, demo_answers)] demo_authz demo_answers (§"Host: a.example" ++ crlf ++ crlf))
    as (c & Hc & Hs); [reflexivity|exact H1|reflexivity| |by left|reflexivity|].
  - intros az z c az' z' c' [= <- <-]%list_elem_of_singleton [= <- <-]%list_elem_of_singleton _ _ _.
    reflexivity.
  - injection Hc as <-. apply Hs; [reflexivity| |reflexivity]. by apply (bool_decide_unpack _).
Defined.

(** Two short values under the tags of a time, before the validity, and the
    check panics: the renewal task is gone. *)
Example stray_tags_stop_renewal :
  let cert := demo_pem (demo_der (chr 0x17 :: chr 1 :: chr 65 :: chr 0x17 :: chr 1 :: §"B")) in
  renewal_tick hex_decode (demo_acme None) true 1700000000 all_well
    (set_files (<[ §"acme/a.example.crt" := cert ]> (acme_files demo_dir)) demo_dir) = ([], None).
Proof. reflexivity. Qed.
