(* ===== verification/Client.v ===== *)
(** * Client: the tunnel client

    [crates/seamless-client/src/main.rs] and [config.rs]: the configuration file
    and the flags over it, the session with the relay, and the reconnect loop. *)

From S2P Require Import Prelude Text Json Cidr Codec Policy RateLimit Metrics AuditLog.
From S2P Require Import Backends Tunnel HandleClient Store.
Local Open Scope Z_scope.

(** ** The configuration file *)

Record ClientConfig := {
  cc_relay : option str;
  cc_x25519 : option str;
  cc_kem : option str;
  cc_token : option str;
  cc_local : option str;
  cc_subdomain : option str;
  cc_tls_verify : bool;
}.

(** [#[derive(Default)]] *)
Definition config_default : ClientConfig :=
  {| cc_relay := None; cc_x25519 := None; cc_kem := None; cc_token := None; cc_local := None;
     cc_subdomain := None; cc_tls_verify := false |}.

(** A document is a table; a missing [tls_verify] is [default_true]. *)
Definition config_of_doc (m : list (str * Value)) : result str ClientConfig :=
  relay ← option_member string_of_value §"relay" m;
  x25519 ← option_member string_of_value §"x25519" m;
  kem ← option_member string_of_value §"kem" m;
  token ← option_member string_of_value §"token" m;
  local ← option_member string_of_value §"local" m;
  subdomain ← option_member string_of_value §"subdomain" m;
  tls_verify ← default_member (λ v, ok_or §"invalid type" (as_bool v)) true §"tls_verify" m;
  Ok {| cc_relay := relay; cc_x25519 := x25519; cc_kem := kem; cc_token := token;
        cc_local := local; cc_subdomain := subdomain; cc_tls_verify := tls_verify |}.

Section config.
(** The TOML parser. *)
Variable toml : str → option (list (str * Value)).

(** [load_from]: [read] is the text of the file, when it can be read. *)
Definition load_from (read : option str) : ClientConfig :=
  match read with
  | None => config_default
  | Some text =>
    match toml text with
    | None => config_default
    | Some m => match config_of_doc m with Ok cfg => cfg | Err _ => config_default end
    end
  end.
End config.

Inductive ConfigAction :=
| Init (relay x25519 kem token subdomain : option str)
| Show
| Clear.

Definition or_else {A} (a b : option A) : option A := match a with Some _ => a | None => b end.

(** [handle_config]: the configuration it saves, from the one it loads. *)
Definition handle_config (action : ConfigAction) (cfg : ClientConfig) : option ClientConfig :=
  match action with
  | Init relay x25519 kem token subdomain =>
    Some {| cc_relay := or_else relay (cc_relay cfg); cc_x25519 := or_else x25519 (cc_x25519 cfg);
            cc_kem := or_else kem (cc_kem cfg); cc_token := or_else token (cc_token cfg);
            cc_local := cc_local cfg; cc_subdomain := or_else subdomain (cc_subdomain cfg);
            cc_tls_verify := cc_tls_verify cfg |}
  | Show => None
  | Clear => Some config_default
  end.

(** ** The command line *)

Inductive Cmd :=
| CHttp (port : Z) (subdomain : option str)
| CTcp (port remote_port : Z)
| CConfig (action : ConfigAction).

Definition to_kind (cmd : Cmd) (saved_subdomain : option str) : option TunnelKind :=
  match cmd with
  | CHttp _ subdomain => Some (Http (or_else subdomain saved_subdomain))
  | CTcp _ remote_port => Some (Tcp remote_port)
  | CConfig _ => None
  end.

Definition local_target (cmd : Cmd) : option str :=
  match cmd with
  | CHttp port _ | CTcp port _ => Some (§"127.0.0.1:" ++ show port)
  | CConfig _ => None
  end.

Record Args := {
  a_relay : option str;
  a_x25519 : option str;
  a_kem : option str;
  a_token : option str;
  a_max_retries : Z;
  a_cmd : Cmd;
}.

(** What [main] runs a session with. *)
Record Session := {
  s_relay : str;
  s_x25519 : str;
  s_kem : str;
  s_token : option str;
  s_local_target : str;
  s_kind : TunnelKind;
}.

Section setup.
(** [hex::decode], and [pk_from_bytes] of the Seam library: the key's bytes. *)
Variable hex_decode : str → option str.
Variable kem_key : str → option str.

Definition parse_x25519 (s : str) : result str str :=
  bytes ← ok_or §"x25519 not hex" (hex_decode (trim s));
  if (length bytes =? 32)%nat then Ok bytes
  else Err (§"x25519 must be 32 bytes, got " ++ show (Z.of_nat (length bytes))).

Definition parse_kem (s : str) : result str str :=
  bytes ← ok_or §"kem key not hex" (hex_decode (trim s));
  ok_or (§"invalid ML-KEM-768 public key (" ++ show (Z.of_nat (length bytes)) ++ §" bytes)")
    (kem_key bytes).

(** The part of [main] before the loop. *)
Definition setup (args : Args) (saved : ClientConfig) : result str Session :=
  relay ← ok_or §"--relay required (or run `seamless config init --relay <addr>` to save it)"
            (or_else (a_relay args) (cc_relay saved));
  x25519 ← ok_or §"--x25519 required (or run `seamless config init --x25519 <hex>` to save it)"
             (or_else (a_x25519 args) (cc_x25519 saved));
  kem ← ok_or §"--kem required (or run `seamless config init --kem <hex>` to save it)"
          (or_else (a_kem args) (cc_kem saved));
  addr ← (if bool_decide (is_Some (parse_socket_addr relay)) then Ok relay
          else Err (§"invalid relay address: " ++ relay));
  x25519_pk ← parse_x25519 x25519;
  kem_pk ← parse_kem kem;
  target ← ok_or §"expected http or tcp subcommand" (local_target (a_cmd args));
  kind ← ok_or §"expected http or tcp subcommand" (to_kind (a_cmd args) (cc_subdomain saved));
  Ok {| s_relay := addr; s_x25519 := x25519_pk; s_kem := kem_pk;
        s_token := or_else (a_token args) (cc_token saved); s_local_target := target;
        s_kind := kind |}.
End setup.

(** ** A session *)

(** How the transport behaves up to the reply. *)
Inductive handshake :=
| BindFailed (e : str)
| ConnectFailed (e : str)
| RegisterFailed
| NoReply
| Replied (f : ControlFrame).

Definition register_frame (s : Session) : ControlFrame :=
  Register PROTOCOL_VERSION (s_token s) (s_kind s).

Definition permanent : str := §"PERMANENT".

(** [run_session]: once the tunnel is up it lasts until the mux closes.  [debug]
    is [{:?}] of a frame. *)
Definition run_session (debug : ControlFrame → str) (h : handshake) : result str unit :=
  match h with
  | BindFailed e => Err (§"seam bind: " ++ e)
  | ConnectFailed e => Err (§"seam connect: " ++ e)
  | RegisterFailed => Err §"sending register"
  | NoReply => Err §"awaiting register reply"
  | Replied (Registered _) => Ok tt
  | Replied (Error code message) =>
    Err (permanent ++ §" relay refused: " ++ show code ++ §" " ++ message)
  | Replied other => Err (§"unexpected reply: " ++ debug other)
  end.

(** [handle_incoming] up to the copy: the peer of the connection. *)
Definition handle_incoming (preamble : option ControlFrame) (local_ok : bool) : result str str :=
  match preamble with
  | Some (NewConn peer) => if local_ok then Ok peer else Err §"dialing local"
  | Some _ => Err §"expected NewConn"
  | None => Err §"reading NewConn preamble"
  end.

(** ** The reconnect loop *)

Record loop_state := {
  attempts : Z;
  backoff : option Z;
}.
Definition loop_start : loop_state := {| attempts := 0; backoff := None |}.

(** The delay after a number of failures; no delay instead of a zero one. *)
Definition delay_after (attempts : Z) : option Z :=
  let secs := if attempts =? 1 then 0 else if attempts =? 2 then 1 else if attempts =? 3 then 2
              else if attempts =? 4 then 4 else if attempts =? 5 then 8
              else if attempts =? 6 then 16 else 30 in
  if secs =? 0 then None else Some secs.

(** The end of one session: the next state, or the error [main] returns. *)
Definition after_session (max_retries : Z) (r : result str unit) (st : loop_state)
    : result str loop_state :=
  match r with
  | Ok _ => Ok loop_start
  | Err msg =>
    if contains_str permanent msg then Err msg
    else
      let attempts := wrap 32 (attempts st + 1) in
      if negb (max_retries =? 0) && (max_retries <=? attempts)
      then Err (§"giving up after " ++ show attempts ++ §" attempts")
      else Ok {| attempts := attempts; backoff := delay_after attempts |}
  end.

(** The delays slept before each further session, and how the loop stands. *)
Fixpoint reconnect (max_retries : Z) (sessions : list (result str unit)) (st : loop_state)
    : list (option Z) * result str loop_state :=
  match sessions with
  | [] => ([], Ok st)
  | r :: rest =>
    match after_session max_retries r st with
    | Err e => ([], Err e)
    | Ok st' => let '(ds, out) := reconnect max_retries rest st' in (backoff st' :: ds, out)
    end
  end.

(** ** Theorems: reconnecting *)

(** A failure that is retried. *)
Definition transient (r : result str unit) : Prop :=
  match r with Ok _ => False | Err msg => contains_str permanent msg = false end.

(** The schedule the code's comment gives: immediate, then 1 s, doubled up to
    30 s. *)
Definition schedule (k : Z) : option Z := if k <=? 1 then None else Some (Z.min 30 (2 ^ (k - 2))).

Lemma delay_schedule k : 1 <= k → delay_after k = schedule k.
Proof.
  intros Hk. unfold delay_after, schedule.
  destruct (Z.eqb_spec k 1) as [->|H1]; [done|]. rewrite (proj2 (Z.leb_gt k 1)) by lia.
  destruct (Z.eqb_spec k 2) as [->|H2]; [done|]. destruct (Z.eqb_spec k 3) as [->|H3]; [done|].
  destruct (Z.eqb_spec k 4) as [->|H4]; [done|]. destruct (Z.eqb_spec k 5) as [->|H5]; [done|].
  destruct (Z.eqb_spec k 6) as [->|H6]; [done|]. cbn. f_equal.
  assert (2 ^ 5 <= 2 ^ (k - 2)) by (apply Z.pow_le_mono_r; lia). lia.
Qed.

Definition failed_times (k : Z) : loop_state :=
  {| attempts := k; backoff := if k =? 0 then None else schedule k |}.

Lemma after_failure n r k :
  transient r → 0 <= k → k + 1 <= u32_max →
  after_session n r (failed_times k)
  = if negb (n =? 0) && (n <=? k + 1)
    then Err (§"giving up after " ++ show (k + 1) ++ §" attempts")
    else Ok (failed_times (k + 1)).
Proof.
  intros Hr Hk Hmax. destruct r as [?|msg]; [done|]. cbn [after_session failed_times attempts].
  unfold transient in Hr. rewrite Hr, wrap_small by (unfold u32_max in *; lia).
  unfold failed_times. rewrite (proj2 (Z.eqb_neq (k + 1) 0)), delay_schedule by lia. done.
Qed.

Lemma reconnect_failures n fails k :
  Forall transient fails → 0 <= k → k + Z.of_nat (length fails) <= u32_max → 0 <= n →
  (n = 0 ∨ k < n) →
  reconnect n fails (failed_times k)
  = if negb (n =? 0) && (n <=? k + Z.of_nat (length fails))
    then ((λ i : nat, schedule (k + Z.of_nat i)) <$> seq 1 (Z.to_nat (n - k) - 1),
          Err (§"giving up after " ++ show n ++ §" attempts"))
    else ((λ i : nat, schedule (k + Z.of_nat i)) <$> seq 1 (length fails),
          Ok (failed_times (k + Z.of_nat (length fails)))).
Proof.
  intros Hf. revert k. induction Hf as [|r fails Hr Hf IH]; intros k Hk Hmax Hn Hkn.
  - cbn [length reconnect]. rewrite Z.add_0_r.
    replace (negb (n =? 0) && (n <=? k)) with false; [done|].
    destruct Hkn as [->|Hkn]; [done|]. rewrite (proj2 (Z.leb_gt n k)) by lia. by rewrite andb_false_r.
  - cbn [length] in *. cbn [reconnect]. rewrite after_failure by (done || lia).
    assert (Hlen : k + Z.of_nat (S (length fails)) = k + 1 + Z.of_nat (length fails)) by lia.
    destruct (negb (n =? 0) && (n <=? k + 1)) eqn:E.
    + bool_to_prop. destruct E as [E1 E2]. assert (n = k + 1) as -> by lia.
      rewrite (proj2 (Z.eqb_neq _ _)), (proj2 (Z.leb_le _ _)) by lia. cbn [negb andb].
      by replace (Z.to_nat (k + 1 - k) - 1)%nat with 0%nat by lia.
    + assert (Hkn' : n = 0 ∨ k + 1 < n) by (bool_to_prop; lia).
      rewrite IH by lia. rewrite Hlen.
      assert (Hb : backoff (failed_times (k + 1)) = schedule (k + 1))
        by (cbn; by rewrite (proj2 (Z.eqb_neq _ _)) by lia).
      assert (Hshift : ∀ m, (λ i : nat, schedule (k + 1 + Z.of_nat i)) <$> seq 1 m
                      = (λ i : nat, schedule (k + Z.of_nat i)) <$> seq 2 m).
      { intros m. rewrite <-(fmap_S_seq 1 m), <-list_fmap_compose. apply list_fmap_ext.
        intros _ x _. cbn. f_equal. lia. }
      rewrite Hb. destruct (negb (n =? 0) && (n <=? k + 1 + Z.of_nat (length fails))) eqn:E';
        rewrite Hshift.
      * bool_to_prop. destruct E' as [E1 E2].
        replace (Z.to_nat (n - k) - 1)%nat with (S (Z.to_nat (n - (k + 1)) - 1)) by lia.
        cbn [seq fmap list_fmap]. by replace (k + Z.of_nat 1) with (k + 1) by lia.
      * cbn [seq fmap list_fmap]. by replace (k + Z.of_nat 1) with (k + 1) by lia.
Qed.

(** C35: the reconnect schedule.  After consecutive transient failures the client
    waits nothing, 1 s, 2 s, 4 s, 8 s, 16 s and then 30 s each time.  With a
    limit of [n] it gives up at the [n]-th failure in a row, not sooner and not
    later, and without a limit never.  From the start that makes [n]
    connections, of which the first is no reconnect; after an established
    session has dropped it makes [n] reconnects, the first at once. *)
Theorem reconnect_schedule n fails :
  Forall transient fails → Z.of_nat (length fails) <= u32_max → 0 <= n →
  let expected :=
    if negb (n =? 0) && (n <=? Z.of_nat (length fails))
    then ((λ i : nat, schedule (Z.of_nat i)) <$> seq 1 (Z.to_nat n - 1),
          Err (§"giving up after " ++ show n ++ §" attempts"))
    else ((λ i : nat, schedule (Z.of_nat i)) <$> seq 1 (length fails),
          Ok (failed_times (Z.of_nat (length fails)))) in
  reconnect n fails loop_start = expected
  ∧ ∀ st, reconnect n (Ok tt :: fails) st = (None :: expected.1, expected.2).
Proof.
  intros Hf Hmax Hn expected.
  assert (E : reconnect n fails loop_start = expected).
  { change loop_start with (failed_times 0).
    rewrite reconnect_failures by (done || lia). by rewrite Z.sub_0_r. }
  split; [exact E|]. intros st. cbn [reconnect after_session]. rewrite E. by destruct expected.
Qed.

Lemma reconnect_schedule_witness :
  reconnect 0 (replicate 8 (Err §"seam connect: timeout")) loop_start
  = ([None; Some 1; Some 2; Some 4; Some 8; Some 16; Some 30; Some 30], Ok (failed_times 8))
  ∧ reconnect 1 [Ok tt; Err §"seam connect: timeout"] loop_start
    = ([None], Err §"giving up after 1 attempts").
Proof.
  split.
  - apply (reconnect_schedule 0 (replicate 8 (Err §"seam connect: timeout"))).
    + by repeat constructor.
    + vm_compute. discriminate.
    + lia.
  - apply (reconnect_schedule 1 [Err §"seam connect: timeout"]).
    + by repeat constructor.
    + vm_compute. discriminate.
    + lia.
Defined.

(** A session that ends in good order costs nothing.  Each time the relay
    closes an established session the client starts over at once, with the count
    of failures reset: no number of such sessions is ever followed by a delay, and
    with fewer than [--max-retries] failures between two of them the client never
    gives up. *)
Theorem clean_sessions_never_back_off n k fails :
  Forall transient fails → Z.of_nat (length fails) < n → n <= u32_max →
  reconnect n (replicate k (Ok tt)) loop_start = (replicate k None, Ok loop_start)
  ∧ (reconnect n (mjoin (replicate k (fails ++ [Ok tt]))) loop_start).2 = Ok loop_start.
Proof.
  intros Hf Hl Hn. split.
  { induction k as [|k IH]; [done|]. cbn [replicate reconnect after_session]. by rewrite IH. }
  induction k as [|k IH]; [done|].
  change (mjoin (replicate (S k) (fails ++ [Ok tt])))
    with ((fails ++ [Ok tt]) ++ mjoin (replicate k (fails ++ [Ok tt]))).
  assert (A : ∀ l1 l2 st, (reconnect n (l1 ++ l2) st).2
    = match (reconnect n l1 st).2 with Ok st' => (reconnect n l2 st').2 | Err e => Err e end).
  { induction l1 as [|r l1 IH1]; intros l2 st0; [done|]. cbn [app reconnect].
    destruct (after_session n r st0) as [st1|e]; [|done]. specialize (IH1 l2 st1).
    destruct (reconnect n (l1 ++ l2) st1), (reconnect n l1 st1). done. }
  rewrite A, A. change loop_start with (failed_times 0) at 1.
  rewrite reconnect_failures by (done || lia).
  replace (negb (n =? 0) && (n <=? 0 + Z.of_nat (length fails))) with false
    by (symmetry; apply andb_false_iff; right; apply Z.leb_gt; lia).
  cbn [snd reconnect after_session]. exact IH.
Qed.

Lemma clean_sessions_never_back_off_witness :
  reconnect 1 (replicate 5 (Ok tt)) loop_start = (replicate 5 None, Ok loop_start).
Proof.
  apply (clean_sessions_never_back_off 1 5 []); [constructor|cbn; lia|unfold u32_max; lia].
Defined.

(** ** Theorems: with the relay *)

Section refusal.
Context `{Unicode} `{ConstantTimeEq}.

Lemma contains_prefix p s : contains_str p (p ++ s) = true.
Proof. apply (contains_str_app p [] s). Qed.

(** Every refusal is final.  Whatever error frame the relay's admission sends,
    the 429 of its rate limiter and the 503 of a full relay ("try again later")
    included, the client that receives it exits at once, with retries left or
    not. *)
Theorem refusals_are_permanent ctx first now handshake_ms instant s code debug n rest :
  Z.of_nat (size (tunnels s)) <= u32_max → verdict_of ctx first instant s = Refuse code →
  let '(w, _, _) := admission ctx first now handshake_ms instant s in
  ∃ f, frames w = [f]
       ∧ ∃ e, reconnect n (run_session debug (Replied f) :: rest) loop_start = ([], Err e).
Proof.
  intros Hsize Hv. pose proof (admission_cases ctx first now handshake_ms instant s Hsize) as HA.
  destruct (admission ctx first now handshake_ms instant s) as [[w r] s'].
  rewrite Hv in HA. destruct HA as [(_ & message & Hw) _].
  exists (Error code message). split; [done|]. cbn [run_session reconnect after_session].
  rewrite contains_prefix. by eexists.
Qed.
End refusal.

Lemma refusals_are_permanent_witness :
  let full_relay := demo_relay (entry_new 0 §"app" 1000 0 §"192.0.2.1") in
  let ctx := {| base_domain := §"tunnel.example.com"; http_port := 80; https_port := None;
     auth := auth_open; client_ip := §"192.0.2.7"; webhook_url := None;
     max_tunnels_per_ip := 0; max_tunnels := 1;
     reserved_subdomains := reserved_new []; subdomain_prefix := {| prefix := None |};
     subdomain_length := 8; blocklist := blocklist_disabled;
     ip_denylist := IpDenyList.disabled; tunnel_keepalive := 0 |} in
  let '(w, _, _) :=
    admission (H0 := slice_ct_eq) ctx (demo_first §"web") 0 0 0 full_relay in
  ∃ f, frames w = [f]
       ∧ ∃ e, reconnect 0 (run_session (λ _, []) (Replied f) :: []) loop_start = ([], Err e).
Proof.
  intros full_relay ctx.
  assert (Hs : Z.of_nat (size (tunnels full_relay)) <= u32_max) by (vm_compute; discriminate).
  assert (Hv : verdict_of (H0 := slice_ct_eq) ctx (demo_first §"web") 0 full_relay
               = Refuse 503) by (vm_compute; reflexivity).
  exact (refusals_are_permanent (H0 := slice_ct_eq) ctx (demo_first §"web") 0 0 0
    full_relay 503 (λ _, []) 0 [] Hs Hv).
Defined.

(** ** Theorems: configuration *)

(** [config init] stands for the flags.  Running without flags after a
    [config init] is running with the flags it was given, for every subcommand and
    whatever was saved before. *)
Theorem init_stands_for_flags hex_decode kem_key relay x25519 kem token subdomain cfg max_retries cmd :
  let flags r x k t := {| a_relay := r; a_x25519 := x; a_kem := k; a_token := t;
                          a_max_retries := max_retries; a_cmd := cmd |} in
  let with_sub := match cmd with
                  | CHttp port sub => CHttp port (or_else sub subdomain)
                  | _ => cmd
                  end in
  ∃ saved, handle_config (Init relay x25519 kem token subdomain) cfg = Some saved
  ∧ setup hex_decode kem_key (flags None None None None) saved
    = setup hex_decode kem_key
        {| a_relay := relay; a_x25519 := x25519; a_kem := kem; a_token := token;
           a_max_retries := max_retries; a_cmd := with_sub |} cfg.
Proof.
  intros flags with_sub. eexists. split; [done|].
  unfold setup, flags, with_sub. cbn. destruct cmd as [port sub|port remote|action]; cbn; try done.
  destruct sub; done.
Qed.

(** The default of [tls_verify] is two defaults.  A configuration file without
    the key gives [true], as the documentation says; without a file, with one
    that does not parse, and after [config clear], it is [false]. *)
Theorem tls_verify_defaults toml text bad :
  toml text = Some [] → toml bad = None →
  cc_tls_verify (load_from toml (Some text)) = true
  ∧ cc_tls_verify (load_from toml None) = false
  ∧ cc_tls_verify (load_from toml (Some bad)) = false
  ∧ cc_tls_verify <$> handle_config Clear (load_from toml (Some text)) = Some false.
Proof. intros Ht Hb. unfold load_from. rewrite Ht, Hb. by split_and!. Qed.

Lemma tls_verify_defaults_witness :
  cc_tls_verify (load_from (λ s, if bool_decide (s = []) then Some [] else None) None) = false.
Proof.
  apply (tls_verify_defaults (λ s, if bool_decide (s = []) then Some [] else None) [] §"=");
    reflexivity.
Defined.
