(* ===== verification/ClientFile.v ===== *)
(** * ClientFile: the configuration file of the client

    [config.rs] of [crates/seamless-client/src]: where the file is, how it is
    written, and the [config] command of [main.rs] on it.  The file system is a
    map from paths to texts; a step of [save] may fail, or be the last before the
    process stops.  The TOML library is the interface [TomlDoc]. *)

From S2P Require Import Prelude Text Json Codec Store Client.
Local Open Scope Z_scope.

(** ** The file *)

(** [toml]: a document read as a table, and a table printed. *)
Class TomlDoc := {
  toml_parse : str → option (list (str * Value));
  toml_print : list (str * Value) → option str;
}.
(** A table of texts and truth values under different keys is read back as it
    was printed. *)
Definition flat (v : Value) : bool := match v with Str _ | Bool _ => true | _ => false end.
Class TomlDocLaws `{TomlDoc} := {
  toml_print_parse m text :
    NoDup m.*1 → forallb (λ kv, flat kv.2) m = true → toml_print m = Some text →
    toml_parse text = Some m;
}.

(** [dirs::config_dir] is a parameter. *)
Definition config_folder (config_dir : option str) : str := default §"." config_dir ++ §"/seamless".
Definition default_config_path (config_dir : option str) : str :=
  config_folder config_dir ++ §"/config.toml".
(** [with_extension("toml.tmp")] *)
Definition tmp_path (config_dir : option str) : str :=
  config_folder config_dir ++ §"/config.toml.tmp".

(** The table of a configuration: [None] has no key. *)
Definition entry (k : str) (o : option str) : list (str * Value) :=
  match o with Some s => [(k, Str s)] | None => [] end.
Definition doc_of_config (c : ClientConfig) : list (str * Value) :=
  entry §"relay" (cc_relay c) ++ entry §"x25519" (cc_x25519 c) ++ entry §"kem" (cc_kem c)
  ++ entry §"token" (cc_token c) ++ entry §"local" (cc_local c)
  ++ entry §"subdomain" (cc_subdomain c) ++ [(§"tls_verify", Bool (cc_tls_verify c))].

(** Where [save] fails or is stopped; a write can leave part of its text. *)
Inductive fault :=
| NoFolder
| WriteFails (left : option str)
| RenameFails.

Section file.
Context `{TomlDoc}.
Implicit Types (fs : gmap str str).

Definition load fs (config_dir : option str) : ClientConfig :=
  load_from toml_parse (fs !! default_config_path config_dir).

Definition save (stop : option fault) (config_dir : option str) (cfg : ClientConfig) fs
    : result str unit * gmap str str :=
  match stop with
  | Some NoFolder => (Err §"create config dir", fs)
  | _ =>
    match toml_print (doc_of_config cfg) with
    | None => (Err §"serialize config", fs)
    | Some text =>
      match stop with
      | Some (WriteFails (Some part)) =>
        (Err §"write config tmp", <[tmp_path config_dir := part]> fs)
      | Some (WriteFails None) => (Err §"write config tmp", fs)
      | Some RenameFails => (Err §"atomic rename config", <[tmp_path config_dir := text]> fs)
      | _ => (Ok tt, <[default_config_path config_dir := text]> (delete (tmp_path config_dir) fs))
      end
    end
  end.

(** The [config] command; [show] saves nothing. *)
Definition config_command (stop : option fault) (config_dir : option str) (action : ConfigAction) fs
    : result str unit * gmap str str :=
  match handle_config action (load fs config_dir) with
  | Some cfg => save stop config_dir cfg fs
  | None => (Ok tt, fs)
  end.

(** The start of the client: [--config] or the default path. *)
Definition client_setup (hex_decode kem_key : str → option str) (config_dir : option str)
    (config_flag : option str) (args : Args) fs : result str Session :=
  setup hex_decode kem_key args
    (load_from toml_parse (fs !! default (default_config_path config_dir) config_flag)).
End file.

(** ** Lemmas *)

Section theorems.
Context `{TomlDocLaws}.
Implicit Types (fs : gmap str str).

Lemma doc_flat c : forallb (λ kv, flat kv.2) (doc_of_config c) = true.
Proof.
  unfold doc_of_config, entry. by destruct c as [[] [] [] [] [] [] ?].
Qed.

Lemma doc_keys c : NoDup (doc_of_config c).*1.
Proof.
  unfold doc_of_config, entry.
  destruct c as [[] [] [] [] [] [] ?]; cbn; apply (bool_decide_unpack _); reflexivity.
Qed.

Lemma config_of_doc_of_config c : config_of_doc (doc_of_config c) = Ok c.
Proof. unfold doc_of_config, entry. by destruct c as [[] [] [] [] [] [] ?]. Qed.

Lemma load_printed c text : toml_print (doc_of_config c) = Some text →
  load_from toml_parse (Some text) = c.
Proof.
  intros Hp. unfold load_from.
  rewrite (toml_print_parse _ _ (doc_keys c) (doc_flat c) Hp). by rewrite config_of_doc_of_config.
Qed.

Lemma tmp_not_config dir : tmp_path dir ≠ default_config_path dir.
Proof.
  unfold tmp_path, default_config_path. intros E%app_inv_head. discriminate.
Qed.

Lemma save_atomic_run stop dir cfg fs res fs' :
  save stop dir cfg fs = (res, fs') →
  load fs' dir = (if is_ok res then cfg else load fs dir)
  ∧ ∀ p, p ≠ default_config_path dir → p ≠ tmp_path dir → fs' !! p = fs !! p.
Proof.
  pose proof (tmp_not_config dir) as Hne. unfold save, load. intros Hs.
  destruct (toml_print (doc_of_config cfg)) as [text|] eqn:Ep;
    destruct stop as [[|[part|]|]|]; injection Hs as <- <-; cbn [is_ok].
  all: try (split; [done|by intros]).
  all: try (split; [by rewrite lookup_insert_ne|intros p ? ?; by rewrite lookup_insert_ne]).
  rewrite lookup_insert_eq. split; [by apply load_printed|].
  intros p ? ?. by rewrite lookup_insert_ne, lookup_delete_ne.
Qed.

(** A [config] command is all or nothing.  Wherever it fails or is stopped, the
    file loads as before; when it reports success the file loads as exactly the
    configuration it was to save, and no other file is touched but the temporary
    one beside it. *)
Theorem config_command_atomic stop dir action fs res fs' :
  config_command stop dir action fs = (res, fs') →
  load fs' dir
  = (if is_ok res then default (load fs dir) (handle_config action (load fs dir)) else load fs dir)
  ∧ ∀ p, p ≠ default_config_path dir → p ≠ tmp_path dir → fs' !! p = fs !! p.
Proof.
  unfold config_command. destruct (handle_config action (load fs dir)) as [cfg|].
  - apply save_atomic_run.
  - intros [= <- <-]. by split.
Qed.

(** C30: [config init] is remembered.  After one that succeeded, a client started
    without flags runs the session it would have run with the flags of the
    [init] over the file as it was before. *)
Theorem init_is_remembered hex_decode kem_key stop dir relay x25519 kem token subdomain fs fs'
    max_retries port remote_port sub tcp :
  config_command stop dir (Init relay x25519 kem token subdomain) fs = (Ok tt, fs') →
  let cmd s := if tcp : bool then CTcp port remote_port else CHttp port s in
  client_setup hex_decode kem_key dir None
    {| a_relay := None; a_x25519 := None; a_kem := None; a_token := None;
       a_max_retries := max_retries; a_cmd := cmd sub |} fs'
  = client_setup hex_decode kem_key dir None
      {| a_relay := relay; a_x25519 := x25519; a_kem := kem; a_token := token;
         a_max_retries := max_retries; a_cmd := cmd (or_else sub subdomain) |} fs.
Proof.
  intros Hc cmd. unfold config_command in Hc. cbn [handle_config] in Hc.
  apply save_atomic_run in Hc as [Hl _]. cbn [is_ok] in Hl. unfold client_setup. cbn [default].
  unfold load in Hl. rewrite Hl. unfold cmd, setup. destruct tcp; cbn; [done|]. by destruct sub.
Qed.
End theorems.

(** ** Witnesses *)

(** A format in the place of TOML: a text is its length in unary, a point, and
    the text; a member is its key, a tag, and a text's text. *)
Definition put (s : str) : str := replicate (length s) "x"%char ++ "."%char :: s.
Fixpoint take_put (n : nat) (s : str) : option (str * str) :=
  match s with
  | c :: r => if bool_decide (c = "x"%char) then take_put (S n) r else Some (take n r, drop n r)
  | [] => None
  end.
Lemma take_put_put s r : take_put 0 (put s ++ r) = Some (s, r).
Proof.
  unfold put. rewrite <-app_assoc.
  assert (G : ∀ k n, take_put n (replicate k "x"%char ++ ("."%char :: s) ++ r)
                     = Some (take (k + n) (s ++ r), drop (k + n) (s ++ r))).
  { induction k as [|k IH]; intros n; [done|]. cbn. rewrite IH. by rewrite Nat.add_succ_r. }
  rewrite G, Nat.add_0_r. by rewrite take_app_length, drop_app_length.
Qed.

Definition put_member (kv : str * Value) : str :=
  put kv.1 ++ match kv.2 with Str s => "s"%char :: put s | Bool true => ["t"%char] | _ => ["f"%char] end.
Fixpoint take_members (fuel : nat) (text : str) : option (list (str * Value)) :=
  match fuel, text with
  | _, [] => Some []
  | O, _ => None
  | S fuel, _ =>
    '(k, r) ← take_put 0 text;
    match r with
    | c :: r =>
      if bool_decide (c = "s"%char)
      then '(s, r) ← take_put 0 r; cons (k, Str s) <$> take_members fuel r
      else cons (k, Bool (bool_decide (c = "t"%char))) <$> take_members fuel r
    | [] => None
    end
  end.
Lemma take_members_put m fuel :
  forallb (λ kv, flat kv.2) m = true → (length m ≤ fuel)%nat →
  take_members fuel (concat (map put_member m)) = Some m.
Proof.
  revert fuel. induction m as [|[k v] m IH]; intros fuel Hf Hl; [by destruct fuel|].
  destruct fuel as [|fuel]; [by cbn in Hl; lia|]. cbn [forallb snd] in Hf.
  apply andb_true_iff in Hf as [Hv Hm]. specialize (IH fuel Hm ltac:(cbn in Hl; lia)).
  cbn [map concat]. unfold put_member at 1. cbn [fst snd].
  rewrite <-!app_assoc. unfold take_members; fold take_members.
  destruct (put k ++ _) as [|c0 r0] eqn:E0.
  { apply (f_equal length) in E0. unfold put in E0. rewrite !length_app in E0. cbn in E0. lia. }
  rewrite <-E0, take_put_put. cbn [mbind option_bind].
  destruct v as [|[]| | |s| |]; try done; cbn [app].
  - rewrite bool_decide_false by done. by rewrite IH.
  - rewrite bool_decide_false by done. by rewrite IH.
  - rewrite bool_decide_true by done. rewrite take_put_put. cbn [mbind option_bind]. by rewrite IH.
Qed.

#[local] Instance put_toml : TomlDoc :=
  {| toml_parse text := take_members (length text) text;
     toml_print m := if (length m <=? length (concat (map put_member m)))%nat
                     then Some (concat (map put_member m)) else None |}.
#[local] Instance put_toml_laws : TomlDocLaws.
Proof.
  split. intros m text _ Hf. cbn. destruct (_ <=? _)%nat eqn:E; [|done]. intros [= <-].
  apply take_members_put; [done|]. by apply Nat.leb_le.
Defined.

Definition demo_home : gmap str str := {[ §"other" := §"text" ]}.

(** The rename fails: nothing is saved. *)
Lemma config_command_atomic_witness :
  load (config_command (Some RenameFails) (Some §"/c") (Init (Some §"r:1") None None None None)
          demo_home).2 (Some §"/c")
  = config_default.
Proof.
  rewrite (proj1 (config_command_atomic (Some RenameFails) (Some §"/c")
    (Init (Some §"r:1") None None None None) demo_home _ _ (surjective_pairing _))).
  vm_compute. reflexivity.
Defined.

Lemma init_is_remembered_witness :
  let fs' := (config_command None None (Init (Some §"192.0.2.1:4433") (Some §"x") (Some §"k") None
                                          (Some §"app")) demo_home).2 in
  match client_setup (λ _, Some (replicate 32 "a"%char)) Some None None
          {| a_relay := None; a_x25519 := None; a_kem := None; a_token := None; a_max_retries := 0;
             a_cmd := CHttp 3000 None |} fs' with
  | Ok session => s_kind session = Http (Some §"app")
  | Err _ => False
  end.
Proof.
  intros fs'.
  rewrite (init_is_remembered (λ _, Some (replicate 32 "a"%char)) Some None None
    (Some §"192.0.2.1:4433") (Some §"x") (Some §"k") None (Some §"app") demo_home fs' 0 3000 0 None
    false); [vm_compute; reflexivity|].
  apply injective_projections; [vm_compute; reflexivity|reflexivity].
Defined.
