(* ===== verification/Config.v ===== *)
(** * Config: the relay's configuration and start

    [crates/seamless-relay/src/main.rs]: the configuration file, the command
    line and how [apply_file_config] joins them, the checks [main] makes before
    it starts, the relay's identity, and the reload on SIGHUP.  The fields come
    in the order of [apply_file_config]. *)

From S2P Require Import Prelude Text Json Cidr Policy Store Passthrough.
Local Open Scope Z_scope.

(** ** The records *)

Record FileConfig := {
  fc_seam_addr : option str;
  fc_http_addr : option str;
  fc_admin_addr : option str;
  fc_base_domain : option str;
  fc_store : option str;
  fc_log_level : option str;
  fc_log_format : option str;
  fc_cipher : option str;
  fc_max_tunnels_per_ip : option Z;
  fc_rate_limit : option Z;
  fc_max_tunnels : option Z;
  fc_tls_self_signed : option bool;
  fc_auth_file : option str;
  fc_admin_token : option str;
  fc_https_addr : option str;
  fc_tls_cert : option str;
  fc_tls_key : option str;
  fc_webhook_url : option str;
  fc_admin_allow_cidr : option str;
  fc_admin_tls_cert : option str;
  fc_admin_tls_key : option str;
  fc_admin_client_ca : option str;
  fc_reserved_subdomains : option str;
  fc_subdomain_prefix : option str;
  fc_subdomain_length : option Z;
  fc_tunnel_max_age : option Z;
  fc_max_body_size : option Z;
  fc_blocklist_file : option str;
  fc_ip_denylist_file : option str;
  fc_audit_log : option str;
  fc_tunnel_keepalive : option Z;
  fc_acme_email : option str;
  fc_acme_domains : option str;
  fc_acme_dir : option str;
  fc_cloudflare_api_token : option str;
  fc_acme_production : option bool;
  fc_allow_custom_domains : option bool;
  fc_custom_domain_allowlist : option str;
  fc_tcp_passthrough : option (list str);
  fc_geoip_db : option str;
  fc_block_countries : option str;
}.

Definition file_config_default : FileConfig :=
  {| fc_seam_addr := None;
     fc_http_addr := None;
     fc_admin_addr := None;
     fc_base_domain := None;
     fc_store := None;
     fc_log_level := None;
     fc_log_format := None;
     fc_cipher := None;
     fc_max_tunnels_per_ip := None;
     fc_rate_limit := None;
     fc_max_tunnels := None;
     fc_tls_self_signed := None;
     fc_auth_file := None;
     fc_admin_token := None;
     fc_https_addr := None;
     fc_tls_cert := None;
     fc_tls_key := None;
     fc_webhook_url := None;
     fc_admin_allow_cidr := None;
     fc_admin_tls_cert := None;
     fc_admin_tls_key := None;
     fc_admin_client_ca := None;
     fc_reserved_subdomains := None;
     fc_subdomain_prefix := None;
     fc_subdomain_length := None;
     fc_tunnel_max_age := None;
     fc_max_body_size := None;
     fc_blocklist_file := None;
     fc_ip_denylist_file := None;
     fc_audit_log := None;
     fc_tunnel_keepalive := None;
     fc_acme_email := None;
     fc_acme_domains := None;
     fc_acme_dir := None;
     fc_cloudflare_api_token := None;
     fc_acme_production := None;
     fc_allow_custom_domains := None;
     fc_custom_domain_allowlist := None;
     fc_tcp_passthrough := None;
     fc_geoip_db := None;
     fc_block_countries := None |}.

Record Args := {
  ar_config : option str;
  ar_seam_addr : socket_addr;
  ar_http_addr : socket_addr;
  ar_admin_addr : socket_addr;
  ar_base_domain : str;
  ar_store : str;
  ar_log_level : str;
  ar_log_format : str;
  ar_cipher : str;
  ar_max_tunnels_per_ip : Z;
  ar_rate_limit : Z;
  ar_max_tunnels : Z;
  ar_tls_self_signed : bool;
  ar_auth_file : option str;
  ar_admin_token : option str;
  ar_https_addr : option socket_addr;
  ar_tls_cert : option str;
  ar_tls_key : option str;
  ar_webhook_url : option str;
  ar_admin_allow_cidr : option str;
  ar_admin_tls_cert : option str;
  ar_admin_tls_key : option str;
  ar_admin_client_ca : option str;
  ar_reserved_subdomains : option str;
  ar_subdomain_prefix : option str;
  ar_subdomain_length : Z;
  ar_tunnel_max_age : Z;
  ar_max_body_size : Z;
  ar_blocklist_file : option str;
  ar_ip_denylist_file : option str;
  ar_audit_log : option str;
  ar_tunnel_keepalive : Z;
  ar_acme_email : option str;
  ar_acme_domains : option str;
  ar_acme_dir : option str;
  ar_cloudflare_api_token : option str;
  ar_acme_production : bool;
  ar_allow_custom_domains : bool;
  ar_custom_domain_allowlist : option str;
  ar_tcp_passthrough : list str;
  ar_geoip_db : option str;
  ar_block_countries : option str;
}.

(** The command line without flags. *)
Definition args_default : Args :=
  {| ar_config := None;
     ar_seam_addr := (V4 0, 4443, 0);
     ar_http_addr := (V4 0, 8080, 0);
     ar_admin_addr := (V4 0, 8088, 0);
     ar_base_domain := §"localhost";
     ar_store := §"seamless-relay.json";
     ar_log_level := §"info";
     ar_log_format := §"text";
     ar_cipher := §"chacha20poly1305";
     ar_max_tunnels_per_ip := 10;
     ar_rate_limit := 10;
     ar_max_tunnels := 1000;
     ar_tls_self_signed := false;
     ar_auth_file := None;
     ar_admin_token := None;
     ar_https_addr := None;
     ar_tls_cert := None;
     ar_tls_key := None;
     ar_webhook_url := None;
     ar_admin_allow_cidr := None;
     ar_admin_tls_cert := None;
     ar_admin_tls_key := None;
     ar_admin_client_ca := None;
     ar_reserved_subdomains := None;
     ar_subdomain_prefix := None;
     ar_subdomain_length := 8;
     ar_tunnel_max_age := 0;
     ar_max_body_size := 10485760;
     ar_blocklist_file := None;
     ar_ip_denylist_file := None;
     ar_audit_log := None;
     ar_tunnel_keepalive := 30;
     ar_acme_email := None;
     ar_acme_domains := None;
     ar_acme_dir := None;
     ar_cloudflare_api_token := None;
     ar_acme_production := false;
     ar_allow_custom_domains := false;
     ar_custom_domain_allowlist := None;
     ar_tcp_passthrough := [];
     ar_geoip_db := None;
     ar_block_countries := None |}.

(** A field still at its default takes the file's value. *)
Definition at_default {A} `{EqDecision A} (d v : A) (file : option A) : A :=
  if bool_decide (v = d) then default v file else v.
Definition addr_at_default (d v : socket_addr) (file : option str) : socket_addr :=
  if bool_decide (v = d) then default v (file ≫= parse_socket_addr) else v.
Definition unset {A} (v file : option A) : option A :=
  match v with Some _ => v | None => file end.
Definition flag (v : bool) (file : option bool) : bool := if v then v else default v file.

Definition apply_file_config (args : Args) (cfg : FileConfig) : Args :=
  {| ar_config := ar_config args;
     ar_seam_addr := addr_at_default (V4 0, 4443, 0) (ar_seam_addr args) (fc_seam_addr cfg);
     ar_http_addr := addr_at_default (V4 0, 8080, 0) (ar_http_addr args) (fc_http_addr cfg);
     ar_admin_addr := addr_at_default (V4 0, 8088, 0) (ar_admin_addr args) (fc_admin_addr cfg);
     ar_base_domain := at_default §"localhost" (ar_base_domain args) (fc_base_domain cfg);
     ar_store := at_default §"seamless-relay.json" (ar_store args) (fc_store cfg);
     ar_log_level := at_default §"info" (ar_log_level args) (fc_log_level cfg);
     ar_log_format := at_default §"text" (ar_log_format args) (fc_log_format cfg);
     ar_cipher := at_default §"chacha20poly1305" (ar_cipher args) (fc_cipher cfg);
     ar_max_tunnels_per_ip := at_default 10 (ar_max_tunnels_per_ip args) (fc_max_tunnels_per_ip cfg);
     ar_rate_limit := at_default 10 (ar_rate_limit args) (fc_rate_limit cfg);
     ar_max_tunnels := at_default 1000 (ar_max_tunnels args) (fc_max_tunnels cfg);
     ar_tls_self_signed := flag (ar_tls_self_signed args) (fc_tls_self_signed cfg);
     ar_auth_file := unset (ar_auth_file args) (fc_auth_file cfg);
     ar_admin_token := unset (ar_admin_token args) (fc_admin_token cfg);
     ar_https_addr := unset (ar_https_addr args) (fc_https_addr cfg ≫= parse_socket_addr);
     ar_tls_cert := unset (ar_tls_cert args) (fc_tls_cert cfg);
     ar_tls_key := unset (ar_tls_key args) (fc_tls_key cfg);
     ar_webhook_url := unset (ar_webhook_url args) (fc_webhook_url cfg);
     ar_admin_allow_cidr := unset (ar_admin_allow_cidr args) (fc_admin_allow_cidr cfg);
     ar_admin_tls_cert := unset (ar_admin_tls_cert args) (fc_admin_tls_cert cfg);
     ar_admin_tls_key := unset (ar_admin_tls_key args) (fc_admin_tls_key cfg);
     ar_admin_client_ca := unset (ar_admin_client_ca args) (fc_admin_client_ca cfg);
     ar_reserved_subdomains := unset (ar_reserved_subdomains args) (fc_reserved_subdomains cfg);
     ar_subdomain_prefix := unset (ar_subdomain_prefix args) (fc_subdomain_prefix cfg);
     ar_subdomain_length := at_default 8 (ar_subdomain_length args) (fc_subdomain_length cfg);
     ar_tunnel_max_age := at_default 0 (ar_tunnel_max_age args) (fc_tunnel_max_age cfg);
     ar_max_body_size := at_default 10485760 (ar_max_body_size args) (fc_max_body_size cfg);
     ar_blocklist_file := unset (ar_blocklist_file args) (fc_blocklist_file cfg);
     ar_ip_denylist_file := unset (ar_ip_denylist_file args) (fc_ip_denylist_file cfg);
     ar_audit_log := unset (ar_audit_log args) (fc_audit_log cfg);
     ar_tunnel_keepalive := at_default 30 (ar_tunnel_keepalive args) (fc_tunnel_keepalive cfg);
     ar_acme_email := unset (ar_acme_email args) (fc_acme_email cfg);
     ar_acme_domains := unset (ar_acme_domains args) (fc_acme_domains cfg);
     ar_acme_dir := unset (ar_acme_dir args) (fc_acme_dir cfg);
     ar_cloudflare_api_token := unset (ar_cloudflare_api_token args) (fc_cloudflare_api_token cfg);
     ar_acme_production := flag (ar_acme_production args) (fc_acme_production cfg);
     ar_allow_custom_domains := flag (ar_allow_custom_domains args) (fc_allow_custom_domains cfg);
     ar_custom_domain_allowlist := unset (ar_custom_domain_allowlist args) (fc_custom_domain_allowlist cfg);
     ar_tcp_passthrough := at_default [] (ar_tcp_passthrough args) (fc_tcp_passthrough cfg);
     ar_geoip_db := unset (ar_geoip_db args) (fc_geoip_db cfg);
     ar_block_countries := unset (ar_block_countries args) (fc_block_countries cfg) |}.

Section start.
(** The TOML parser with the derived deserializer. *)
Variable toml : str → option FileConfig.

Definition join_path (dir name : str) : str := dir ++ §"/" ++ name.

(** [load_file_config]: [fs] reads a file, [home] is the variable [HOME]. *)
Definition load_file_config (fs : files) (home : option str) (explicit_path : option str)
    : FileConfig * option str :=
  match explicit_path with
  | Some p =>
    match fs p with
    | Ok text => match toml text with
                 | Some cfg => (cfg, Some p)
                 | None => (file_config_default, None)
                 end
    | Err _ => (file_config_default, None)
    end
  | None =>
    let try p := match fs p with
                 | Ok text => (λ cfg, (cfg, Some p)) <$> toml text
                 | Err _ => None
                 end in
    match home ≫= (λ h, try (join_path h §".config/seamless/relay.toml")) with
    | Some r => r
    | None => default (file_config_default, None) (try §"/etc/seamless/relay.toml")
    end
  end.

Definition configured (fs : files) (home : option str) (args : Args) : Args :=
  apply_file_config args (load_file_config fs home (ar_config args)).1.

(** ** The checks of [main] *)

Inductive https_mode :=
| HttpsOff
| HttpsSelfSigned
| HttpsFiles (cert key : str).

Definition https_setup (args : Args) : result str https_mode :=
  match ar_https_addr args with
  | None => Ok HttpsOff
  | Some _ =>
    if ar_tls_self_signed args then Ok HttpsSelfSigned
    else match ar_tls_cert args, ar_tls_key args with
         | Some cert, Some key => Ok (HttpsFiles cert key)
         | _, _ => Err §"--https-addr requires either --tls-self-signed or both --tls-cert and --tls-key"
         end
  end.

(** The certificate, the key and the client authority of the admin port. *)
Definition admin_tls (args : Args) : result str (option (str * str * option str)) :=
  match ar_admin_tls_cert args, ar_admin_tls_key args with
  | Some cert, Some key => Ok (Some (cert, key, ar_admin_client_ca args))
  | None, None => Ok None
  | _, _ => Err §"--admin-tls-cert and --admin-tls-key must both be set (or neither)"
  end.

Fixpoint passthrough_rules (raws : list str) : result str (list TcpPassthroughConfig) :=
  match raws with
  | [] => Ok []
  | raw :: rest => cfg ← parse raw; cfgs ← passthrough_rules rest; Ok (cfg :: cfgs)
  end.

(** The admission policy [main] starts with. *)
Definition auth_of (fs : files) (args : Args) : result LoadError AuthPolicy :=
  match ar_auth_file args with
  | Some p => auth_from_file fs p
  | None => Ok auth_open
  end.

Context `{Unicode}.

Definition custom_domain_allowlist (args : Args) : gset str :=
  list_to_set (comma_list (ar_custom_domain_allowlist args)).

Definition acme_domains (args : Args) : list str :=
  filter (λ s, s ≠ [])
    (trim <$> split_char ","%char (default (ar_base_domain args) (ar_acme_domains args))).
End start.

(** ** Identity *)

Section identity.
Context `{JsonFile}.
(** [hex], and the serialised key pair of the Seam library. *)
Variable hex_encode : str → str.
Variable hex_decode : str → option str.
Variable from_bytes : str → option str.

(** [generated] are the bytes of a fresh key pair, [sched] how the operations
    of the [save] at [path] go, one after the other; [None] when it is over
    before the save is. *)
Definition load_or_create_identity (generated : str) (sched : list (bool * nat)) (path : str)
    (s : Store) (disk : fsys) : option (result str str) * Store * fsys :=
  match identity_hex s with
  | Some hex =>
    (Some (bytes ← ok_or §"invalid identity hex in store" (hex_decode hex);
           ok_or §"corrupt identity in store — delete seamless-relay.json to regenerate"
             (from_bytes bytes)), s, disk)
  | None =>
    let s' := {| routes := routes s; cf := cf s; identity_hex := Some (hex_encode generated);
                 identity_x25519_hex := identity_x25519_hex s;
                 identity_kem_pk_hex := identity_kem_pk_hex s;
                 identity_kem_sk_hex := identity_kem_sk_hex s |} in
    let '(pc, disk') := save_run path sched (save_start s') disk in
    (match pc with
     | Saved => Some (Ok generated)
     | Store.Failed => Some (Err §"save")
     | _ => None
     end, s', disk')
  end.
End identity.

(** ** SIGHUP *)

Record Policies := {
  p_auth : AuthPolicy;
  p_blocklist : SubdomainBlocklist;
  p_denylist : IpDenyList.IpDenyList;
}.

Definition sighup `{Unicode} (fs : files) (auth_file : option str) (p : Policies) : Policies :=
  {| p_auth := match auth_file with
               | Some path => (reload_from_file fs path (p_auth p)).2
               | None => p_auth p
               end;
     p_blocklist := if blocklist_is_enabled (p_blocklist p) then blocklist_reload fs (p_blocklist p)
                    else p_blocklist p;
     p_denylist := if IpDenyList.is_enabled (p_denylist p) then IpDenyList.reload fs (p_denylist p)
                   else p_denylist p |}.

(** ** Theorems: the file and the flags *)

Lemma at_default_none {A} `{EqDecision A} (d v : A) : at_default d v None = v.
Proof. unfold at_default. by case_bool_decide. Qed.
Lemma addr_at_default_none d v : addr_at_default d v None = v.
Proof. unfold addr_at_default. by case_bool_decide. Qed.
Lemma unset_none {A} (v : option A) : unset v None = v.
Proof. by destruct v. Qed.
Lemma flag_none v : flag v None = v.
Proof. by destruct v. Qed.
Lemma at_default_twice {A} `{EqDecision A} (d v : A) f :
  at_default d (at_default d v f) f = at_default d v f.
Proof. unfold at_default. destruct f; repeat case_bool_decide; done. Qed.
Lemma addr_at_default_twice d v f :
  addr_at_default d (addr_at_default d v f) f = addr_at_default d v f.
Proof. unfold addr_at_default. destruct (f ≫= parse_socket_addr); repeat case_bool_decide; done. Qed.
Lemma unset_twice {A} (v f : option A) : unset (unset v f) f = unset v f.
Proof. by destruct v, f. Qed.
Lemma flag_twice v f : flag (flag v f) f = flag v f.
Proof. by destruct v as [], f as [[]|]. Qed.

(** Joining the file changes only what it names, and joining it again changes
    nothing: an empty file leaves the command line as it is, and the result of
    [apply_file_config] is stable under the same file. *)
Theorem apply_file_config_stable args cfg :
  apply_file_config args file_config_default = args
  ∧ apply_file_config (apply_file_config args cfg) cfg = apply_file_config args cfg.
Proof.
  split; destruct args; unfold apply_file_config, file_config_default; f_equal;
    eauto using at_default_none, addr_at_default_none, unset_none, flag_none,
      at_default_twice, addr_at_default_twice, unset_twice, flag_twice.
Qed.

(** A flag that spells out the default loses to the file.  The code cannot tell
    it from a flag that is not there: any other value given for the rate limit
    wins over the file, the value 10 does not, and the same holds of the address
    of the admin interface; an address in the file that does not parse is
    passed over, and the interface stays open on every address. *)
Theorem explicit_default_loses args cfg limit text :
  fc_rate_limit cfg = Some limit → fc_admin_addr cfg = Some text →
  ar_rate_limit (apply_file_config args cfg)
  = (if ar_rate_limit args =? 10 then limit else ar_rate_limit args)
  ∧ (ar_admin_addr args = (V4 0, 8088, 0) →
     ar_admin_addr (apply_file_config args cfg)
     = match parse_socket_addr text with Some a => a | None => (V4 0, 8088, 0) end).
Proof.
  intros Hl Ha. cbn. rewrite Hl, Ha. split.
  - unfold at_default. destruct (Z.eqb_spec (ar_rate_limit args) 10) as [->|Hne].
    + by rewrite bool_decide_true.
    + by rewrite bool_decide_false.
  - intros ->. unfold addr_at_default. rewrite bool_decide_true by done. cbn.
    by destruct (parse_socket_addr text).
Qed.

Definition demo_file : FileConfig :=
  {| fc_seam_addr := None; fc_http_addr := None; fc_admin_addr := Some §"127.0.0.1";
     fc_base_domain := None; fc_store := None; fc_log_level := None; fc_log_format := None;
     fc_cipher := None; fc_max_tunnels_per_ip := None; fc_rate_limit := Some 0;
     fc_max_tunnels := None; fc_tls_self_signed := None; fc_auth_file := None;
     fc_admin_token := None; fc_https_addr := None; fc_tls_cert := None; fc_tls_key := None;
     fc_webhook_url := None; fc_admin_allow_cidr := None; fc_admin_tls_cert := None;
     fc_admin_tls_key := None; fc_admin_client_ca := None; fc_reserved_subdomains := None;
     fc_subdomain_prefix := None; fc_subdomain_length := None; fc_tunnel_max_age := None;
     fc_max_body_size := None; fc_blocklist_file := None; fc_ip_denylist_file := None;
     fc_audit_log := None; fc_tunnel_keepalive := None; fc_acme_email := None;
     fc_acme_domains := None; fc_acme_dir := None; fc_cloudflare_api_token := None;
     fc_acme_production := None; fc_allow_custom_domains := None;
     fc_custom_domain_allowlist := None; fc_tcp_passthrough := None; fc_geoip_db := None;
     fc_block_countries := None |}.

Lemma explicit_default_loses_witness :
  ar_rate_limit (apply_file_config args_default demo_file) = 0
  ∧ ar_admin_addr (apply_file_config args_default demo_file) = (V4 0, 8088, 0).
Proof.
  destruct (explicit_default_loses args_default demo_file 0 §"127.0.0.1" eq_refl eq_refl) as [H1 H2].
  split; [exact H1|exact (H2 eq_refl)].
Defined.

(** A configuration that cannot be used is no configuration.  When the file
    named with [--config] cannot be read or does not parse, the relay starts all
    the same with the command line alone: with nothing else on it, without
    authentication and without an admin token.  A token file that cannot be
    read, in contrast, stops the start. *)
Theorem bad_config_opens_relay toml fs home args p :
  ar_config args = Some p →
  (match fs p with Ok text => toml text = None | Err _ => True end) →
  configured toml fs home args = args
  ∧ (ar_auth_file args = None → auth_of fs (configured toml fs home args) = Ok auth_open)
  ∧ ∀ f, ar_auth_file args = Some f → is_ok (fs f) = false →
         is_ok (auth_of fs (configured toml fs home args)) = false.
Proof.
  intros Hc Hbad. assert (E : configured toml fs home args = args).
  { unfold configured, load_file_config. rewrite Hc.
    assert (A : apply_file_config args file_config_default = args).
    { destruct args; unfold apply_file_config, file_config_default; f_equal;
        eauto using at_default_none, addr_at_default_none, unset_none, flag_none. }
    destruct (fs p) as [text|e]; [rewrite Hbad|]; exact A. }
  rewrite E. unfold auth_of. split; [done|]. split; [by intros ->|].
  intros f -> Hf. unfold auth_from_file, load_token_set. by destruct (fs f).
Qed.

Lemma bad_config_opens_relay_witness :
  let args := {| ar_config := Some §"/etc/relay.toml"; ar_seam_addr := (V4 0, 4443, 0);
     ar_http_addr := (V4 0, 8080, 0); ar_admin_addr := (V4 0, 8088, 0);
     ar_base_domain := §"localhost"; ar_store := §"s.json"; ar_log_level := §"info";
     ar_log_format := §"text"; ar_cipher := §"aes256gcm"; ar_max_tunnels_per_ip := 10;
     ar_rate_limit := 10; ar_max_tunnels := 1000; ar_tls_self_signed := false;
     ar_auth_file := None; ar_admin_token := None; ar_https_addr := None; ar_tls_cert := None;
     ar_tls_key := None; ar_webhook_url := None; ar_admin_allow_cidr := None;
     ar_admin_tls_cert := None; ar_admin_tls_key := None; ar_admin_client_ca := None;
     ar_reserved_subdomains := None; ar_subdomain_prefix := None; ar_subdomain_length := 8;
     ar_tunnel_max_age := 0; ar_max_body_size := 10485760; ar_blocklist_file := None;
     ar_ip_denylist_file := None; ar_audit_log := None; ar_tunnel_keepalive := 30;
     ar_acme_email := None; ar_acme_domains := None; ar_acme_dir := None;
     ar_cloudflare_api_token := None; ar_acme_production := false;
     ar_allow_custom_domains := false; ar_custom_domain_allowlist := None;
     ar_tcp_passthrough := []; ar_geoip_db := None; ar_block_countries := None |} in
  let fs := (λ _, Ok §"auth_file = tokens.txt") in
  auth_of fs (configured (λ _, None) fs None args) = Ok auth_open.
Proof.
  intros args fs.
  exact (proj1 (proj2 (bad_config_opens_relay (λ _, None) fs None args §"/etc/relay.toml"
    eq_refl eq_refl)) eq_refl).
Defined.

(** A reload when the files are gone.  With no file readable, a SIGHUP keeps
    the tokens and the blocked names as they were, but takes every block off
    the deny list: an address that was refused is admitted from then on. *)
Theorem sighup_unreadable `{Unicode} fs auth_file p :
  (∀ q, is_ok (fs q) = false) → IpDenyList.path (p_denylist p) ≠ None →
  let p' := sighup fs auth_file p in
  p_auth p' = p_auth p ∧ p_blocklist p' = p_blocklist p
  ∧ ∀ ip, IpDenyList.is_denied (p_denylist p') ip = false.
Proof.
  intros Hfs Hpath. assert (E : ∀ q, ∃ e, fs q = Err e)
    by (intros q; specialize (Hfs q); destruct (fs q) as [?|e]; [done|by exists e]).
  unfold sighup. cbn [p_auth p_blocklist p_denylist]. split_and!.
  - destruct auth_file as [q|]; [|done]. unfold reload_from_file, load_token_set.
    destruct (E q) as [e ->]. by destruct (allowed (p_auth p)).
  - unfold blocklist_is_enabled, blocklist_reload.
    destruct (blocklist_path (p_blocklist p)) as [q|]; [|by case_bool_decide].
    destruct (E q) as [e ->]. by case_bool_decide.
  - intros ip. destruct (IpDenyList.path (p_denylist p)) as [q|] eqn:Ep; [|done].
    unfold IpDenyList.is_enabled. rewrite Ep, bool_decide_true by eauto.
    unfold IpDenyList.reload, IpDenyList.parse_denylist_file. rewrite Ep.
    destruct (E q) as [e ->]. unfold IpDenyList.is_denied. cbn.
    by destruct (IpDenyList.to_ipv4_u32 ip).
Qed.

Lemma sighup_unreadable_witness :
  let dl := {| IpDenyList.entries := [(0x0a000000, 0xff000000)]; IpDenyList.path := Some §"deny" |} in
  let p := {| p_auth := auth_open; p_blocklist := blocklist_disabled; p_denylist := dl |} in
  IpDenyList.is_denied dl (V4 0x0a000001) = true
  ∧ IpDenyList.is_denied
      (p_denylist (sighup (H := ascii_only) (λ _, Err §"not found") None p)) (V4 0x0a000001) = false.
Proof.
  intros dl p. split; [reflexivity|].
  assert (Hp : IpDenyList.path (p_denylist p) ≠ None) by discriminate.
  apply (sighup_unreadable (H := ascii_only) (λ _, Err §"not found") None p (λ _, eq_refl) Hp).
Defined.
