(* ===== verification/Tls.v ===== *)
(** * Tls: the acceptors of the HTTPS ingress and of the admin port

    [crates/seamless-relay/src/tls.rs], and the parts of
    [crates/seamless-relay/src/main.rs] that choose an acceptor and exchange it on
    SIGUSR1.  The PEM parsers, the certificate generator and the checks of
    [rustls] are parameters; a server configuration is what the code asks of
    [rustls]. *)

From S2P Require Import Prelude Text Cidr Policy Config.
Local Open Scope Z_scope.

Inductive tls_version := TLS12 | TLS13.

(** A [ServerConfig]: [sc_client_auth] are the roots a client certificate must
    be signed by, when one is demanded. *)
Record ServerConfig := {
  sc_versions : list tls_version;
  sc_client_auth : option (list str);
  sc_certs : list str;
  sc_key : str;
}.

Section tls.
(** [rustls_pemfile]: the certificates of a PEM text and its first key, when
    there is one; [None] for a text that does not parse. *)
Variable certs : str → option (list str).
Variable private_key : str → option (option str).
(** [rustls]: whether a root can be added, a verifier be built of the roots, and
    the certificates be served with the key. *)
Variable add_root : str → bool.
Variable build_verifier : list str → bool.
Variable single_cert : list str → str → bool.
(** [rcgen]: a self-signed certificate for the domains and its key, as PEM. *)
Variable self_signed : list str → result str (str * str).

Definition require {A} (message : str) (r : option A) : result str A := ok_or message r.

(** [std::fs::read] *)
Definition read_file (fs : files) (path message : str) : result str str :=
  match fs path with Ok text => Ok text | Err _ => Err (message ++ §" " ++ path) end.

(** [with_single_cert] on a builder for TLS 1.3 alone. *)
Definition server_config (client_auth : option (list str)) (chain : list str) (key message : str)
    : result str ServerConfig :=
  if single_cert chain key
  then Ok {| sc_versions := [TLS13]; sc_client_auth := client_auth; sc_certs := chain;
             sc_key := key |}
  else Err message.

(** ** The ingress *)

Definition acceptor_from_pem (cert_pem key_pem : str) : result str ServerConfig :=
  chain ← require §"parsing TLS certificate PEM" (certs cert_pem);
  if bool_decide (chain = []) then Err §"no certificates found in cert PEM"
  else
    key ← require §"parsing TLS private key PEM" (private_key key_pem);
    key ← require §"no private key found in key PEM" key;
    server_config None chain key §"building TLS 1.3-only server config".

Definition acceptor_from_files (fs : files) (cert_path key_path : str) : result str ServerConfig :=
  cert_pem ← read_file fs cert_path §"reading TLS cert";
  key_pem ← read_file fs key_path §"reading TLS key";
  acceptor_from_pem cert_pem key_pem.

Definition self_signed_acceptor (domains : list str) : result str ServerConfig :=
  '(cert_pem, key_pem) ← self_signed domains;
  acceptor_from_pem cert_pem key_pem.

(** The acceptor [main] starts with: none without [--https-addr]. *)
Definition base_acceptor (fs : files) (args : Args) : result str (option ServerConfig) :=
  mode ← https_setup args;
  match mode with
  | HttpsOff => Ok None
  | HttpsSelfSigned =>
    match self_signed_acceptor [ar_base_domain args] with
    | Ok a => Ok (Some a)
    | Err _ => Err §"failed to generate self-signed TLS cert"
    end
  | HttpsFiles cert key =>
    match acceptor_from_files fs cert key with
    | Ok a => Ok (Some a)
    | Err _ => Err (§"failed to load TLS cert from '" ++ cert ++ §"' / key from '" ++ key ++ §"'")
    end
  end.

(** SIGUSR1: [hot] is the acceptor new connections are given. *)
Definition sigusr1 (fs : files) (args : Args) (hot : ServerConfig) : ServerConfig :=
  let result :=
    if ar_tls_self_signed args then Some (self_signed_acceptor [ar_base_domain args])
    else match ar_tls_cert args, ar_tls_key args with
         | Some cert, Some key => Some (acceptor_from_files fs cert key)
         | _, _ => None
         end in
  match result with
  | Some (Ok new_acceptor) => new_acceptor
  | _ => hot
  end.

(** ** The admin port *)

Definition client_roots (fs : files) (ca_path : str) : result str (list str) :=
  ca_pem ← read_file fs ca_path §"reading admin client CA";
  roots ← require §"parsing admin client CA PEM" (certs ca_pem);
  if bool_decide (roots = []) then Err §"no certificates found in admin client CA PEM"
  else if forallb add_root roots
  then if build_verifier roots then Ok roots else Err §"building mTLS client verifier"
  else Err §"adding client CA certificate to root store".

Definition admin_tls_acceptor (fs : files) (cert_path key_path : str)
    (client_ca_path : option str) : result str ServerConfig :=
  cert_pem ← read_file fs cert_path §"reading admin TLS cert";
  key_pem ← read_file fs key_path §"reading admin TLS key";
  server_certs ← require §"parsing admin TLS certificate PEM" (certs cert_pem);
  if bool_decide (server_certs = []) then Err §"no certificates found in admin TLS cert PEM"
  else
    key ← require §"parsing admin TLS private key PEM" (private_key key_pem);
    key ← require §"no private key found in admin TLS key PEM" key;
    match client_ca_path with
    | Some ca_path =>
      roots ← client_roots fs ca_path;
      server_config (Some roots) server_certs key §"building admin mTLS server config"
    | None => server_config None server_certs key §"building admin TLS server config"
    end.

(** What the admin port is served with: [None] is plain HTTP. *)
Definition admin_acceptor (fs : files) (args : Args) : result str (option ServerConfig) :=
  tls ← admin_tls args;
  match tls with
  | Some (cert, key, ca) => a ← admin_tls_acceptor fs cert key ca; Ok (Some a)
  | None => Ok None
  end.

(** ** Lemmas *)

Lemma result_bind_Ok {E A B} (r : result E A) (f : A → result E B) b :
  r ≫= f = Ok b → ∃ a, r = Ok a ∧ f a = Ok b.
Proof. destruct r as [a|]; [by exists a|done]. Qed.

Lemma require_Ok {A} e (o : option A) a : require e o = Ok a → o = Some a.
Proof. destruct o; by intros [= ->]. Qed.
Lemma read_file_Ok fs path e text : read_file fs path e = Ok text → fs path = Ok text.
Proof. unfold read_file. destruct (fs path); by intros [= ->]. Qed.

Lemma server_config_Ok auth chain key e a :
  server_config auth chain key e = Ok a →
  single_cert chain key = true
  ∧ a = {| sc_versions := [TLS13]; sc_client_auth := auth; sc_certs := chain; sc_key := key |}.
Proof. unfold server_config. case_match; [by intros [= <-]|done]. Qed.

(** What an acceptor serves: the certificates and the key of two PEM texts. *)
Definition serves (cert_pem key_pem : str) (a : ServerConfig) : Prop :=
  certs cert_pem = Some (sc_certs a) ∧ sc_certs a ≠ []
  ∧ private_key key_pem = Some (Some (sc_key a)) ∧ single_cert (sc_certs a) (sc_key a) = true
  ∧ sc_versions a = [TLS13].

Lemma acceptor_from_pem_Ok cert_pem key_pem a :
  acceptor_from_pem cert_pem key_pem = Ok a → serves cert_pem key_pem a ∧ sc_client_auth a = None.
Proof.
  unfold acceptor_from_pem. intros (chain & Hc%require_Ok & H)%result_bind_Ok.
  case_bool_decide; [done|]. apply result_bind_Ok in H as (k & Hk%require_Ok & H).
  apply result_bind_Ok in H as (k' & ->%require_Ok & H). by apply server_config_Ok in H as [? ->].
Qed.

Lemma client_roots_Ok fs ca roots :
  client_roots fs ca = Ok roots →
  ∃ pem, fs ca = Ok pem ∧ certs pem = Some roots ∧ roots ≠ [].
Proof.
  unfold client_roots. intros (pem & Hp%read_file_Ok & H)%result_bind_Ok. exists pem.
  apply result_bind_Ok in H as (rs & Hr%require_Ok & H). case_bool_decide; [done|].
  case_match; [|done]. case_match; [|done]. by injection H as <-.
Qed.

Lemma admin_acceptor_strict fs args cert key a :
  ar_admin_tls_cert args = Some cert → ar_admin_tls_key args = Some key →
  admin_acceptor fs args = Ok a →
  ∃ cert_pem key_pem conf, a = Some conf ∧ fs cert = Ok cert_pem ∧ fs key = Ok key_pem
  ∧ serves cert_pem key_pem conf
  ∧ match ar_admin_client_ca args with
    | None => sc_client_auth conf = None
    | Some ca => ∃ pem roots, fs ca = Ok pem ∧ certs pem = Some roots ∧ roots ≠ []
                              ∧ sc_client_auth conf = Some roots
    end.
Proof.
  intros Hc Hk. unfold admin_acceptor, admin_tls. rewrite Hc, Hk. cbn [mbind result_bind].
  intros (conf & H & [= <-])%result_bind_Ok. unfold admin_tls_acceptor in H.
  apply result_bind_Ok in H as (cert_pem & Hcp%read_file_Ok & H).
  apply result_bind_Ok in H as (key_pem & Hkp%read_file_Ok & H).
  apply result_bind_Ok in H as (chain & Hchain%require_Ok & H).
  case_bool_decide; [done|]. apply result_bind_Ok in H as (k & Hk1%require_Ok & H).
  apply result_bind_Ok in H as (k' & ->%require_Ok & H). exists cert_pem, key_pem, conf.
  destruct (ar_admin_client_ca args) as [ca|].
  - apply result_bind_Ok in H as (roots & (pem & Hp & Hr & Hne)%client_roots_Ok & H).
    apply server_config_Ok in H as [? ->]. split_and!; try done. by exists pem, roots.
  - by apply server_config_Ok in H as [? ->].
Qed.

(** The admin port is as strict as it was asked to be.  Every acceptor it
    is served with speaks TLS 1.3 alone and presents the configured certificate;
    with a client authority configured it demands a certificate signed by one of
    that file's roots, of which there is at least one: a file that is missing,
    empty, unreadable or wrong stops the start instead. *)
Theorem admin_tls_strict fs args cert key a :
  ar_admin_tls_cert args = Some cert → ar_admin_tls_key args = Some key →
  admin_acceptor fs args = Ok a →
  ∃ cert_pem key_pem conf, a = Some conf ∧ fs cert = Ok cert_pem ∧ fs key = Ok key_pem
  ∧ serves cert_pem key_pem conf
  ∧ match ar_admin_client_ca args with
    | None => sc_client_auth conf = None
    | Some ca => ∃ pem roots, fs ca = Ok pem ∧ certs pem = Some roots ∧ roots ≠ []
                              ∧ sc_client_auth conf = Some roots
    end.
Proof. apply admin_acceptor_strict. Qed.

(** A client authority on its own does nothing.  Without a certificate
    for the port [--admin-client-ca] is passed over, and the interface is served
    over plain HTTP to clients without certificates. *)
Theorem client_ca_alone_ignored fs args :
  ar_admin_tls_cert args = None → ar_admin_tls_key args = None → admin_acceptor fs args = Ok None.
Proof. intros Hc Hk. unfold admin_acceptor, admin_tls. by rewrite Hc, Hk. Qed.

(** Signals, each with the files of its moment. *)
Definition rotations (args : Args) (fss : list files) (hot : ServerConfig) : ServerConfig :=
  foldl (λ hot fs, sigusr1 fs args hot) hot fss.

(** The acceptor of the files, where it can be built. *)
Definition built (args : Args) (fs : files) : option ServerConfig :=
  match base_acceptor fs args with Ok a => a | Err _ => None end.

Lemma sigusr1_built args fs hot :
  is_Some (ar_https_addr args) → sigusr1 fs args hot = default hot (built args fs).
Proof.
  intros [addr Ha]. unfold sigusr1, built, base_acceptor, https_setup. rewrite Ha.
  destruct (ar_tls_self_signed args).
  - cbn [mbind result_bind]. by destruct (self_signed_acceptor _).
  - destruct (ar_tls_cert args), (ar_tls_key args); try done. cbn [mbind result_bind].
    by destruct (acceptor_from_files _ _ _).
Qed.

Lemma rotations_last_good args fs0 fss hot :
  is_Some (ar_https_addr args) → base_acceptor fs0 args = Ok (Some hot) →
  last (omap (built args) (fs0 :: fss)) = Some (rotations args fss hot).
Proof.
  intros Ha H0. cbn [omap list_omap]. unfold built at 1. rewrite H0.
  clear H0. unfold rotations. revert hot. induction fss as [|fs fss IH]; intros hot; [done|].
  cbn [foldl omap list_omap]. rewrite sigusr1_built by done.
  destruct (built args fs) as [conf|]; cbn [default]; [|apply IH].
  rewrite last_cons_cons. apply IH.
Qed.
(** Rotation never takes the ingress down.  After any number of SIGUSR1
    the acceptor is the one of the last moment, the start included, at which the
    files gave one; a signal with broken files changes nothing. *)
Theorem rotations_serve_last_good args fs0 fss hot :
  is_Some (ar_https_addr args) → base_acceptor fs0 args = Ok (Some hot) →
  last (omap (built args) (fs0 :: fss)) = Some (rotations args fss hot).
Proof. apply rotations_last_good. Qed.
End tls.

(** ** Witnesses *)

Definition tls_file : FileConfig :=
  {| fc_seam_addr := None; fc_http_addr := None; fc_admin_addr := None;
     fc_base_domain := None; fc_store := None; fc_log_level := None; fc_log_format := None;
     fc_cipher := None; fc_max_tunnels_per_ip := None; fc_rate_limit := None;
     fc_max_tunnels := None; fc_tls_self_signed := None; fc_auth_file := None;
     fc_admin_token := None; fc_https_addr := Some §"0.0.0.0:8443"; fc_tls_cert := Some §"c";
     fc_tls_key := Some §"k"; fc_webhook_url := None; fc_admin_allow_cidr := None;
     fc_admin_tls_cert := Some §"c"; fc_admin_tls_key := Some §"k";
     fc_admin_client_ca := Some §"ca"; fc_reserved_subdomains := None;
     fc_subdomain_prefix := None; fc_subdomain_length := None; fc_tunnel_max_age := None;
     fc_max_body_size := None; fc_blocklist_file := None; fc_ip_denylist_file := None;
     fc_audit_log := None; fc_tunnel_keepalive := None; fc_acme_email := None;
     fc_acme_domains := None; fc_acme_dir := None; fc_cloudflare_api_token := None;
     fc_acme_production := None; fc_allow_custom_domains := None;
     fc_custom_domain_allowlist := None; fc_tcp_passthrough := None; fc_geoip_db := None;
     fc_block_countries := None |}.
Definition tls_args : Args := apply_file_config args_default tls_file.

(** A PEM text is the list of the lines of its certificates or keys. *)
Definition line_certs (pem : str) : option (list str) := Some (lines pem).
Definition line_key (pem : str) : option (option str) := Some (head (lines pem)).
Definition tls_files (cert : str) : files := λ p,
  if bool_decide (p = §"c") then Ok cert
  else if bool_decide (p = §"k") then Ok §"key"
  else if bool_decide (p = §"ca") then Ok §"root" else Err §"no such file".

Lemma admin_tls_strict_witness :
  ∃ conf, admin_acceptor line_certs line_key (λ _, true) (λ _, true) (λ _ _, true)
            (tls_files §"cert") tls_args = Ok (Some conf)
  ∧ sc_client_auth conf = Some [§"root"].
Proof.
  destruct (admin_acceptor line_certs line_key (λ _, true) (λ _, true) (λ _ _, true)
              (tls_files §"cert") tls_args) as [a|e] eqn:E; [|discriminate].
  destruct (admin_tls_strict line_certs line_key (λ _, true) (λ _, true) (λ _ _, true)
    (tls_files §"cert") tls_args §"c" §"k" a eq_refl eq_refl E)
    as (cp & kp & conf & -> & _ & _ & _ & pem & roots & Hp & Hr & _ & Hauth).
  exists conf. split; [reflexivity|]. injection Hp as <-. injection Hr as <-. exact Hauth.
Defined.

Definition old_acceptor : ServerConfig :=
  {| sc_versions := [TLS13]; sc_client_auth := None; sc_certs := [§"old"]; sc_key := §"key" |}.

Lemma rotations_serve_last_good_witness :
  let conf := rotations line_certs line_key (λ _ _, true) (λ _, Err []) tls_args
                [tls_files §"new"; tls_files []] old_acceptor in
  last (omap (built line_certs line_key (λ _ _, true) (λ _, Err []) tls_args)
          [tls_files §"old"; tls_files §"new"; tls_files []]) = Some conf
  ∧ sc_certs conf = [§"new"].
Proof.
  split; [|reflexivity].
  apply (rotations_serve_last_good line_certs line_key (λ _ _, true) (λ _, Err []) tls_args
    (tls_files §"old") [tls_files §"new"; tls_files []] old_acceptor); [by eexists|reflexivity].
Defined.

Lemma client_ca_alone_ignored_witness :
  admin_acceptor line_certs line_key (λ _, true) (λ _, true) (λ _ _, true) (tls_files §"cert")
    args_default = Ok None.
Proof. apply client_ca_alone_ignored; reflexivity. Defined.
