(* ===== verification/Start.v ===== *)
(** * Start: [main] of the relay

    [main] of [crates/seamless-relay/src/main.rs] from the parsed command line
    to the accept loop: what is loaded and checked, in which order, which tasks
    are spawned in between, with what state, and how the start can end.  The
    parts it calls are those of the other files; the libraries behind them are
    one record of operations, [Libraries].  The tasks themselves are modelled
    where they belong ([Admin], [Ingress], [Passthrough], [Tls], [Issuance],
    [Config], [Tunnel]); here a spawned task is a value. *)

From S2P Require Import Prelude Text Json Cidr Addr Codec Policy RateLimit Metrics AuditLog Backends.
From S2P Require Import Tunnel HandleClient Http Store Ingress Cloudflare Admin Passthrough.
From S2P Require Import Acme Issuance Config Tls.
Local Open Scope Z_scope.

(** ** Libraries and inputs *)

(** The TOML reader, [hex], the key pair of the Seam library with its two public
    keys, MaxMind's reader, the PEM and TLS libraries, and base64. *)
Class Libraries := {
  l_toml : str → option FileConfig;
  l_hex_encode : str → str;
  l_hex_decode : str → option str;
  l_from_bytes : str → option str;
  l_x25519 : str → str;
  l_kem : str → str;
  l_open_readfile : str → option country_db;
  l_certs : str → option (list str);
  l_private_key : str → option (option str);
  l_add_root : str → bool;
  l_build_verifier : list str → bool;
  l_single_cert : list str → str → bool;
  l_self_signed : list str → result str (str * str);
  l_base64_decode : str → option str;
}.

(** The command line and the surroundings of one start: [b_files] are the text
    files, [b_store] the file system with the store, [b_generated] a fresh key
    pair and [b_save] how the operations of saving it go, [b_readable], [b_now] and
    [b_acme] what the initial issuance meets, [b_bind] whether the Seam port is
    free. *)
Record boot_io := {
  b_args : Args;
  b_files : files;
  b_home : option str;
  b_store : fsys;
  b_generated : str;
  b_save : list (bool * nat);
  b_readable : bool;
  b_now : Z;
  b_acme : issue_io;
  b_bind : bool;
}.

(** ** State *)

(** [AppState] as [main] builds it.  Tunnels, ports, custom domains, logs,
    metrics and history start empty and are not repeated; [s_policies] are the
    three that SIGHUP reloads. *)
Record AppState := {
  s_store : Store;
  s_store_path : str;
  s_base_domain : str;
  s_x25519 : str;
  s_kem : str;
  s_seam_addr : str;
  s_http_port : Z;
  s_https_port : option Z;
  s_policies : Policies;
  s_admin_token : option str;
  s_cipher : str;
  s_auth_file : option str;
  s_webhook_url : option str;
  s_max_tunnels_per_ip : Z;
  s_max_tunnels : Z;
  s_rate_limiter : RateLimiter.RateLimiter;
  s_admin_cidrs : list (Z * Z);
  s_config_file : option str;
  s_reserved_subdomains : ReservedSubdomains;
  s_subdomain_prefix : SubdomainPrefix;
  s_subdomain_length : nat;
  s_tunnel_max_age : Z;
  s_max_body_bytes : Z;
  s_audit_log : AuditLog;
  s_tunnel_keepalive : Z;
  s_allow_custom_domains : bool;
  s_custom_domain_allowlist : gset str;
  s_geoip : GeoipFilter;
}.

(** The tasks, with what they are given besides the state. *)
Inductive task :=
| AuditWriter (path : str)
| AdminServer (addr : socket_addr) (tls : option ServerConfig)
| PassthroughListener (cfg : TcpPassthroughConfig)
| HttpIngress (addr : socket_addr)
| CertRotation
| HttpsIngress (addr : socket_addr) (acceptor : ServerConfig)
| ChallengeServer
| Renewal (cfg : AcmeConfig)
| PolicyReload
| TunnelExpiry (max_age : Z)
| StatsHistory
| Shutdown.

Inductive start_error :=
| StoreError (e : str)
| IdentityError (e : str)
| TokenFileError (e : LoadError)
| PassthroughError (e : str)
| AdminTlsError (e : str)
| HttpsError (e : str)
| SeamBindError.

(** How a start ends that does not reach the accept loop: [main] returns an
    error, it waits for the certificate authority, it panics, or the process is
    killed while it saves its identity. *)
Inductive ending :=
| Stopped (e : start_error)
| Stuck
| Crashed
| Killed.

(** ** The monad of [main]: the tasks spawned so far, and a result *)

Definition boot (A : Type) : Type := list task * result ending A.

#[export] Instance boot_ret : MRet boot := λ A a, ([], Ok a).
#[export] Instance boot_bind : MBind boot := λ A B f m,
  match m with
  | (w, Ok a) => let '(w', r) := f a in (w ++ w', r)
  | (w, Err e) => (w, Err e)
  end.

Definition spawn (ts : list task) : boot unit := (ts, Ok tt).
Definition halt {A} (e : ending) : boot A := ([], Err e).
Definition checked {E A} (error : E → start_error) (r : result E A) : boot A :=
  match r with Ok a => mret a | Err e => halt (Stopped (error e)) end.

Section main.
Context `{Unicode} `{JsonFile} `{Libraries}.

(** The command line joined with the file, and the file's path. *)
Definition main_args (io : boot_io) : Args := configured l_toml (b_files io) (b_home io) (b_args io).
Definition main_config_file (io : boot_io) : option str :=
  (load_file_config l_toml (b_files io) (b_home io) (ar_config (b_args io))).2.

Definition main_identity (io : boot_io) (s : Store) : option (result str str) * Store * fsys :=
  load_or_create_identity l_hex_encode l_hex_decode l_from_bytes (b_generated io) (b_save io)
    (ar_store (main_args io)) s (b_store io).

Definition main_geoip (args : Args) : GeoipFilter :=
  geoip_new l_open_readfile (ar_geoip_db args)
    (filter (λ s, s ≠ []) (trim <$> split_char ","%char (default [] (ar_block_countries args)))).

Definition main_policies (fs : files) (args : Args) (auth : AuthPolicy) : Policies :=
  {| p_auth := auth;
     p_blocklist := match ar_blocklist_file args with
                    | Some path => blocklist_from_file fs path
                    | None => blocklist_disabled
                    end;
     p_denylist := match ar_ip_denylist_file args with
                   | Some path => IpDenyList.from_file fs path
                   | None => IpDenyList.disabled
                   end |}.

Definition app_state (io : boot_io) (store : Store) (identity : str) (auth : AuthPolicy) : AppState :=
  let args := main_args io in
  {| s_store := store; s_store_path := ar_store args;
     s_base_domain := ar_base_domain args;
     s_x25519 := l_hex_encode (l_x25519 identity); s_kem := l_hex_encode (l_kem identity);
     s_seam_addr := show_socket_addr (ar_seam_addr args);
     s_http_port := (ar_http_addr args).1.2;
     s_https_port := (λ a : socket_addr, a.1.2) <$> ar_https_addr args;
     s_policies := main_policies (b_files io) args auth;
     s_admin_token := ar_admin_token args; s_cipher := ar_cipher args;
     s_auth_file := ar_auth_file args; s_webhook_url := ar_webhook_url args;
     s_max_tunnels_per_ip := ar_max_tunnels_per_ip args; s_max_tunnels := ar_max_tunnels args;
     s_rate_limiter := RateLimiter.new (ar_rate_limit args) 60000000000;
     s_admin_cidrs := AdminCidr.admin_cidrs (ar_admin_allow_cidr args);
     s_config_file := main_config_file io;
     s_reserved_subdomains := reserved_of (ar_reserved_subdomains args);
     s_subdomain_prefix := subdomain_prefix_of (ar_subdomain_prefix args);
     s_subdomain_length := clamp_subdomain_length (Z.to_nat (ar_subdomain_length args));
     s_tunnel_max_age := ar_tunnel_max_age args; s_max_body_bytes := ar_max_body_size args;
     s_audit_log := match ar_audit_log args with Some _ => audit_start | None => audit_disabled end;
     s_tunnel_keepalive := ar_tunnel_keepalive args;
     s_allow_custom_domains := ar_allow_custom_domains args;
     s_custom_domain_allowlist := custom_domain_allowlist args;
     s_geoip := main_geoip args |}.

(** ** The steps of [main] *)

Definition main_admin_tls (io : boot_io) : result str (option ServerConfig) :=
  admin_acceptor l_certs l_private_key l_add_root l_build_verifier l_single_cert
    (b_files io) (main_args io).
Definition main_https (io : boot_io) : result str (option ServerConfig) :=
  base_acceptor l_certs l_private_key l_single_cert l_self_signed (b_files io) (main_args io).

(** Up to the first listener: everything that can refuse the start without a
    port having been opened. *)
Definition prepared (io : boot_io)
    : boot (AppState * list TcpPassthroughConfig * option ServerConfig) :=
  let args := main_args io in
  store ← checked StoreError (load (b_store io) (ar_store args));
  let '(identity, store, _) := main_identity io store in
  identity ← match identity with Some r => checked IdentityError r | None => halt Killed end;
  auth ← checked TokenFileError (auth_of (b_files io) args);
  spawn (match ar_audit_log args with Some path => [AuditWriter path] | None => [] end);;
  cfgs ← checked PassthroughError (passthrough_rules (ar_tcp_passthrough args));
  tls ← checked AdminTlsError (main_admin_tls io);
  mret (app_state io store identity auth, cfgs, tls).

(** The HTTPS ingress and the task that exchanges its certificate. *)
Definition https_started (io : boot_io) : boot unit :=
  base ← checked HttpsError (main_https io);
  match base, ar_https_addr (main_args io) with
  | Some acceptor, Some https_addr => spawn [CertRotation; HttpsIngress https_addr acceptor]
  | _, _ => mret tt
  end.

(** The configuration of the certificate client, with [--acme-email]. *)
Definition acme_config (args : Args) (home : option str) : option AcmeConfig :=
  (λ email, {| ac_email := email; ac_domains := acme_domains args;
               ac_cloudflare_api_token := ar_cloudflare_api_token args;
               ac_dir := match ar_acme_dir args with
                         | Some dir => dir
                         | None => join_path (default §"/tmp" home) §".local/share/seamless/acme"
                         end;
               ac_production := ar_acme_production args |}) <$> ar_acme_email args.

(** The initial certificate, for which [main] waits; the state of the
    directory, the tokens and the records after it. *)
Definition initial_certificate (io : boot_io) (cfg : AcmeConfig) (s : issue_state)
    : boot issue_state :=
  match renewal_due l_base64_decode cfg (b_readable io) (b_now io) s with
  | Panic => halt Crashed
  | Value_of false => mret s
  | Value_of true =>
    match obtain_certificate cfg (b_acme io) s with
    | (_, Ok _, s') | (_, Err (Failed _), s') => mret s'
    | (_, Err Waiting, _) => halt Stuck
    end
  end.

Definition acme_started (io : boot_io) (s : issue_state) : boot issue_state :=
  match acme_config (main_args io) (b_home io) with
  | None => mret s
  | Some cfg =>
    spawn (match ac_cloudflare_api_token cfg with None => [ChallengeServer] | Some _ => [] end);;
    s' ← initial_certificate io cfg s;
    spawn [Renewal cfg];;
    mret s'
  end.

Definition background (args : Args) : list task :=
  [PolicyReload] ++ (if 0 <? ar_tunnel_max_age args then [TunnelExpiry (ar_tunnel_max_age args)] else [])
  ++ [StatsHistory; Shutdown].

(** [main], up to the accept loop. *)
Definition main (io : boot_io) (s : issue_state) : boot (AppState * issue_state) :=
  let args := main_args io in
  '(state, cfgs, tls) ← prepared io;
  spawn [AdminServer (ar_admin_addr args) tls];;
  spawn (PassthroughListener <$> cfgs);;
  spawn [HttpIngress (ar_http_addr args)];;
  https_started io;;
  s' ← acme_started io s;
  spawn (background args);;
  (if b_bind io then mret tt else halt (Stopped SeamBindError));;
  mret (state, s').

(** ** The accept loop *)

(** What a client of this address is handled with, under the policies of the
    moment. *)
Definition conn_ctx (st : AppState) (p : Policies) (remote : ip_addr) : ConnCtx :=
  {| base_domain := s_base_domain st; http_port := s_http_port st; https_port := s_https_port st;
     auth := p_auth p; client_ip := show_ip remote; webhook_url := s_webhook_url st;
     max_tunnels_per_ip := s_max_tunnels_per_ip st; max_tunnels := s_max_tunnels st;
     reserved_subdomains := s_reserved_subdomains st; subdomain_prefix := s_subdomain_prefix st;
     subdomain_length := s_subdomain_length st; blocklist := p_blocklist p;
     ip_denylist := p_denylist p; tunnel_keepalive := s_tunnel_keepalive st |}.

(** What the loop meets, and the reloads of the SIGHUP task between. *)
Inductive server_event :=
| Accepted (remote : ip_addr)
| NoMore
| CtrlC
| Hangup (fs : files).

(** The contexts handed to [handle_client], and whether the loop has ended. *)
Fixpoint server_loop (st : AppState) (p : Policies) (evs : list server_event)
    : list ConnCtx * bool :=
  match evs with
  | [] => ([], false)
  | Accepted remote :: rest =>
    let '(ctxs, ended) := server_loop st p rest in (conn_ctx st p remote :: ctxs, ended)
  | Hangup fs :: rest => server_loop st (sighup fs (s_auth_file st) p) rest
  | NoMore :: _ | CtrlC :: _ => ([], true)
  end.

(** The state as the admin interface and the ingress see it. *)
Definition status_fields (st : AppState) : list (str * Value) :=
  [(§"seam_addr", Str (s_seam_addr st)); (§"x25519_pubkey", Str (s_x25519 st));
   (§"kem_pubkey", Str (s_kem st)); (§"base_domain", Str (s_base_domain st));
   (§"cipher", Str (s_cipher st)); (§"https", Bool (bool_decide (is_Some (s_https_port st))));
   (§"auth_enabled", Bool (bool_decide (is_Some (s_auth_file st))));
   (§"auth_file", opt_value Str (s_auth_file st));
   (§"config_file", opt_value Str (s_config_file st));
   (§"max_tunnels", Int (s_max_tunnels st));
   (§"max_tunnels_per_ip", Int (s_max_tunnels_per_ip st))].

Definition admin_config (st : AppState) (version : str) : AdminConfig :=
  {| ad_token := s_admin_token st; ad_cidrs := s_admin_cidrs st;
     ad_base_domain := s_base_domain st; ad_http_port := s_http_port st;
     ad_https_port := s_https_port st; ad_webhook_url := s_webhook_url st;
     ad_allow_custom_domains := s_allow_custom_domains st;
     ad_custom_domain_allowlist := s_custom_domain_allowlist st;
     ad_status := status_fields st; ad_version := version |}.

Definition ingress_state (st : AppState) (store : Store) (version : str) : Ingress.AppState :=
  {| app_base_domain := s_base_domain st; app_store := store; app_geoip := s_geoip st;
     app_max_body_bytes := s_max_body_bytes st; app_version := version |}.
End main.

(** ** Lemmas: runs of [boot] *)

Lemma boot_bind_Ok {A B} (m : boot A) (f : A → boot B) w b :
  m ≫= f = (w, Ok b) → ∃ a w1 w2, m = (w1, Ok a) ∧ f a = (w2, Ok b) ∧ w = w1 ++ w2.
Proof.
  unfold mbind, boot_bind. destruct m as [w1 [a|e]]; [|done].
  destruct (f a) as [w2 r] eqn:E. intros [= <- ->]. by exists a, w1, w2.
Qed.

Lemma boot_bind_result {A B} (m : boot A) (f : A → boot B) :
  (m ≫= f).2 = match m.2 with Ok a => (f a).2 | Err e => Err e end.
Proof. unfold mbind, boot_bind. destruct m as [w [a|e]]; [|done]. cbn [snd]. by destruct (f a). Qed.

(** The tasks of a sequence. *)
Lemma boot_bind_tasks {A B} (m : boot A) (f : A → boot B) t :
  t ∈ (m ≫= f).1 ↔ t ∈ m.1 ∨ ∃ a, m.2 = Ok a ∧ t ∈ (f a).1.
Proof.
  unfold mbind, boot_bind. destruct m as [w [a|e]]; cbn [fst snd].
  - destruct (f a) as [w' r] eqn:E. cbn [fst]. rewrite elem_of_app. split.
    + intros [?|?]; [by left|]. right. exists a. by rewrite E.
    + intros [?|(a' & [= <-] & Ht)]; [by left|]. rewrite E in Ht. by right.
  - split; [by left|]. intros [?|(a & ? & _)]; done.
Qed.

Lemma checked_result {E A} (error : E → start_error) (r : result E A) :
  checked error r = match r with Ok a => ([], Ok a) | Err e => ([], Err (Stopped (error e))) end.
Proof. by destruct r. Qed.

Section main_theorems.
Context `{Unicode} `{JsonFile} `{Libraries}.
Implicit Types (io : boot_io) (s : issue_state).

(** ** What can stop a start *)

Definition error_of {E A} (error : E → start_error) (r : result E A) : option ending :=
  match r with Ok _ => None | Err e => Some (Stopped (error e)) end.

(** The store and the key pair, when both can be had. *)
Definition store_and_identity io : option (str * Store) :=
  match load (b_store io) (ar_store (main_args io)) with
  | Ok store =>
    match main_identity io store with (Some (Ok i), store', _) => Some (i, store') | _ => None end
  | Err _ => None
  end.
Definition identity_obstacle io : option ending :=
  match load (b_store io) (ar_store (main_args io)) with
  | Ok store => match (main_identity io store).1.1 with
                | Some r => error_of IdentityError r
                | None => Some Killed
                end
  | Err e => Some (Stopped (StoreError e))
  end.

(** The certificate authority lets the start wait, or its files crash it. *)
Definition acme_obstacle io s : option ending :=
  cfg ← acme_config (main_args io) (b_home io);
  match renewal_due l_base64_decode cfg (b_readable io) (b_now io) s with
  | Panic => Some Crashed
  | Value_of true => match obtain_certificate cfg (b_acme io) s with
                     | (_, Err Waiting, _) => Some Stuck
                     | _ => None
                     end
  | Value_of false => None
  end.

Lemma prepared_result io :
  (prepared io).2
  = match omap id (take 4 [identity_obstacle io;
           error_of TokenFileError (auth_of (b_files io) (main_args io));
           error_of PassthroughError (passthrough_rules (ar_tcp_passthrough (main_args io)));
           error_of AdminTlsError (main_admin_tls io)]), store_and_identity io,
          auth_of (b_files io) (main_args io),
          passthrough_rules (ar_tcp_passthrough (main_args io)), main_admin_tls io with
    | [], Some (i, store), Ok auth, Ok cfgs, Ok tls => Ok (app_state io store i auth, cfgs, tls)
    | e :: _, _, _, _, _ => Err e
    | [], _, _, _, _ => Err Stuck
    end.
Proof.
  unfold prepared, identity_obstacle, store_and_identity. cbn [take].
  rewrite boot_bind_result, checked_result.
  destruct (load _ _) as [store|e]; [|done]. cbn [snd].
  destruct (main_identity io store) as [[[[i|e]|] store'] disk]; rewrite boot_bind_result;
    rewrite 1?checked_result; [|done..]. cbn [snd fst error_of].
  rewrite boot_bind_result, checked_result.
  destruct (auth_of _ _) as [auth|e]; [|done]. cbn [snd error_of].
  rewrite boot_bind_result. cbn [spawn snd].
  rewrite boot_bind_result, checked_result.
  destruct (passthrough_rules _) as [cfgs|e]; [|done]. cbn [snd error_of].
  rewrite boot_bind_result, checked_result. by destruct (main_admin_tls io).
Qed.

Lemma https_started_result io :
  (https_started io).2 = match error_of HttpsError (main_https io) with Some e => Err e | None => Ok tt end.
Proof.
  unfold https_started. rewrite boot_bind_result, checked_result.
  destruct (main_https io) as [[a|]|e]; cbn [snd error_of]; [|done..].
  by destruct (ar_https_addr (main_args io)).
Qed.

Lemma acme_started_result io s :
  match acme_obstacle io s with
  | Some e => (acme_started io s).2 = Err e
  | None => ∃ s', (acme_started io s).2 = Ok s'
  end.
Proof.
  unfold acme_started, acme_obstacle. destruct (acme_config _ _) as [cfg|]; [|by eexists].
  cbn [mbind option_bind]. rewrite boot_bind_result. cbn [spawn snd].
  rewrite boot_bind_result. unfold initial_certificate.
  destruct (renewal_due _ _ _ _ _) as [[|]|]; [|by eexists|done].
  destruct (obtain_certificate _ _ _) as [[w [a|[e|]]] s']; [by eexists..|done].
Qed.

(** ** What a start opens *)

(** What a task owes to the tests: the writer of the audit log starts once the
    tokens are loaded, everything else after the last of them, with what they
    gave. *)
Definition justified io (t : task) : Prop :=
  match t with
  | AuditWriter path => ar_audit_log (main_args io) = Some path
                        ∧ is_ok (auth_of (b_files io) (main_args io)) = true
  | _ => ∃ st cfgs tls, (prepared io).2 = Ok (st, cfgs, tls)
         ∧ match t with
           | AdminServer addr tls' =>
             addr = ar_admin_addr (main_args io) ∧ main_admin_tls io = Ok tls'
           | PassthroughListener cfg =>
             ∃ cfgs, passthrough_rules (ar_tcp_passthrough (main_args io)) = Ok cfgs ∧ cfg ∈ cfgs
           | HttpIngress addr => addr = ar_http_addr (main_args io)
           | HttpsIngress addr a =>
             ar_https_addr (main_args io) = Some addr ∧ main_https io = Ok (Some a)
           | ChallengeServer => ar_cloudflare_api_token (main_args io) = None
           | Renewal cfg => acme_config (main_args io) (b_home io) = Some cfg
           | TunnelExpiry max_age => max_age = ar_tunnel_max_age (main_args io) ∧ 0 < max_age
           | _ => True
           end
  end.

Lemma prepared_Ok io w st cfgs tls :
  prepared io = (w, Ok (st, cfgs, tls)) →
  ∃ i store auth, store_and_identity io = Some (i, store)
  ∧ auth_of (b_files io) (main_args io) = Ok auth
  ∧ passthrough_rules (ar_tcp_passthrough (main_args io)) = Ok cfgs
  ∧ main_admin_tls io = Ok tls ∧ st = app_state io store i auth.
Proof.
  intros E. pose proof (prepared_result io) as R. rewrite E in R. cbn [snd] in R.
  destruct (omap id _) as [|e l]; [|done].
  destruct (store_and_identity io) as [[i store]|]; [|done].
  destruct (auth_of _ _) as [auth|]; [|done]. destruct (passthrough_rules _); [|done].
  destruct (main_admin_tls io); [|done]. injection R as -> -> ->. by exists i, store, auth.
Qed.

(** One step of a sequence: the task is spawned by it or later. *)
#[local] Tactic Notation "boot_step" hyp(H) "as" ident(a) ident(Ha) :=
  apply boot_bind_tasks in H as [H|(a & Ha & H)];
  [try (by apply elem_of_nil in H)|cbv beta in H].

Lemma checked_tasks {E A} (error : E → start_error) (r : result E A) t : t ∉ (checked error r).1.
Proof. rewrite checked_result. destruct r; apply not_elem_of_nil. Qed.

Lemma checked_Ok {E A} (error : E → start_error) (r : result E A) a :
  (checked error r).2 = Ok a → r = Ok a.
Proof. rewrite checked_result. destruct r; by intros [= ->]. Qed.

Lemma prepared_tasks io t :
  t ∈ (prepared io).1 →
  ∃ path, t = AuditWriter path ∧ ar_audit_log (main_args io) = Some path
          ∧ is_ok (auth_of (b_files io) (main_args io)) = true.
Proof.
  unfold prepared. intros Ht.
  boot_step Ht as store Hstore; [by apply checked_tasks in Ht|].
  destruct (main_identity io _) as [[r store'] disk].
  boot_step Ht as i Hi; [destruct r; [by apply checked_tasks in Ht|by apply elem_of_nil in Ht]|].
  boot_step Ht as auth Hauth; [by apply checked_tasks in Ht|]. apply checked_Ok in Hauth.
  boot_step Ht as u Hu.
  - destruct (ar_audit_log (main_args io)) as [path|]; [|by apply elem_of_nil in Ht].
    apply list_elem_of_singleton in Ht as ->. exists path. by rewrite Hauth.
  - boot_step Ht as cfgs Hcfgs; [by apply checked_tasks in Ht|].
    boot_step Ht as tls Htls; [by apply checked_tasks in Ht|]. by apply elem_of_nil in Ht.
Qed.

Lemma https_tasks io t :
  t ∈ (https_started io).1 →
  ∃ addr a, ar_https_addr (main_args io) = Some addr ∧ main_https io = Ok (Some a)
            ∧ (t = CertRotation ∨ t = HttpsIngress addr a).
Proof.
  unfold https_started. intros Ht. boot_step Ht as base Hb; [by apply checked_tasks in Ht|].
  apply checked_Ok in Hb. destruct base as [a|]; [|by apply elem_of_nil in Ht].
  destruct (ar_https_addr (main_args io)) as [addr|]; [|by apply elem_of_nil in Ht].
  cbn [spawn fst] in Ht. rewrite !elem_of_cons, elem_of_nil in Ht.
  exists addr, a. destruct Ht as [->|[->|[]]]; auto.
Qed.

Lemma acme_config_token args home cfg :
  acme_config args home = Some cfg → ac_cloudflare_api_token cfg = ar_cloudflare_api_token args.
Proof. unfold acme_config. destruct (ar_acme_email args); [|done]. by intros [= <-]. Qed.

Lemma acme_tasks io s t :
  t ∈ (acme_started io s).1 →
  t = ChallengeServer ∧ ar_cloudflare_api_token (main_args io) = None
  ∨ ∃ cfg, t = Renewal cfg ∧ acme_config (main_args io) (b_home io) = Some cfg.
Proof.
  unfold acme_started. intros Ht.
  destruct (acme_config _ _) as [cfg|] eqn:Ec; [|by apply elem_of_nil in Ht].
  boot_step Ht as u Hu.
  - left. rewrite (acme_config_token _ _ _ Ec) in Ht.
    destruct (ar_cloudflare_api_token (main_args io)) eqn:Et; [by apply elem_of_nil in Ht|].
    by apply list_elem_of_singleton in Ht.
  - right. boot_step Ht as s' Hs'.
    + unfold initial_certificate in Ht. repeat case_match; by apply elem_of_nil in Ht.
    + boot_step Ht as u' Hu'; [|by apply elem_of_nil in Ht].
      apply list_elem_of_singleton in Ht. by exists cfg.
Qed.

Lemma background_tasks args t :
  t ∈ background args →
  match t with
  | PolicyReload | StatsHistory | Shutdown => True
  | TunnelExpiry max_age => max_age = ar_tunnel_max_age args ∧ 0 < max_age
  | _ => False
  end.
Proof.
  unfold background. rewrite !elem_of_app, !elem_of_cons, !elem_of_nil.
  destruct (Z.ltb_spec 0 (ar_tunnel_max_age args)); rewrite ?elem_of_cons, ?elem_of_nil;
    intros Ht; repeat destruct Ht as [Ht|Ht]; subst; done.
Qed.

Lemma main_tasks io s t : t ∈ (main io s).1 → justified io t.
Proof.
  unfold main. intros Ht.
  boot_step Ht as r Hr; [by apply prepared_tasks in Ht as (path & -> & ? & ?)|].
  destruct r as [[st cfgs] tls]. destruct (prepared io) as [w r] eqn:Ep. cbn [snd] in Hr. subst r.
  pose proof (prepared_Ok _ _ _ _ _ Ep) as (i & store & auth & _ & _ & Hcfgs & Htls & _).
  assert (P : ∀ Q : Prop, Q → ∃ st cfgs tls, (prepared io).2 = Ok (st, cfgs, tls) ∧ Q)
    by (intros Q HQ; exists st, cfgs, tls; by rewrite Ep).
  boot_step Ht as u1 Hu1; [apply list_elem_of_singleton in Ht as ->; by apply P|].
  boot_step Ht as u2 Hu2.
  { apply list_elem_of_fmap in Ht as (cfg & -> & Hin). apply P. by exists cfgs. }
  boot_step Ht as u3 Hu3; [apply list_elem_of_singleton in Ht as ->; by apply P|].
  boot_step Ht as u4 Hu4; [apply https_tasks in Ht as (addr & a & ? & ? & [-> | ->]); by apply P|].
  boot_step Ht as s' Hu5.
  { apply acme_tasks in Ht as [[-> ?]|(cfg & -> & ?)]; by apply P. }
  boot_step Ht as u6 Hu6; [apply background_tasks in Ht; destruct t; try done; by apply P|].
  boot_step Ht as u7 Hu7; [destruct (b_bind io); by apply elem_of_nil in Ht|].
  by apply elem_of_nil in Ht.
Qed.

(** Nothing is opened before everything is loaded.  Each task a start
    spawns, however the start ends, owes to the tests before it: apart from the
    writer of the audit log none exists before the store, the identity, the
    tokens, the passthrough rules and the TLS settings of the admin port were
    all found good, and the listeners have the addresses, rules and acceptors
    these gave. *)
Theorem tasks_justified io s t : t ∈ (main io s).1 → justified io t.
Proof. apply main_tasks. Qed.

(** ** The certificate authority at the start *)

(** The tasks of a start that got past the TLS settings. *)
Lemma main_early_tasks io s st cfgs tls t :
  (prepared io).2 = Ok (st, cfgs, tls) →
  t ∈ [AdminServer (ar_admin_addr (main_args io)) tls; HttpIngress (ar_http_addr (main_args io))] →
  t ∈ (main io s).1.
Proof.
  intros E Ht. unfold main. apply boot_bind_tasks. right. exists (st, cfgs, tls). split; [done|].
  rewrite !elem_of_cons, elem_of_nil in Ht. destruct Ht as [->|[->|[]]];
    repeat (apply boot_bind_tasks; first [left; by left|right; exists tt; split; [done|]]).
Qed.

(** A certificate authority that answers without ever issuing holds the
    whole relay.  [main] waits for the initial certificate before it opens the
    Seam port and before it starts the tasks that reload policies, expire
    tunnels and shut down: the admin interface and the HTTP ingress are up and
    answer, but no tunnel client is ever accepted and no signal is handled. *)
Theorem acme_holds_start io s cfg w s' :
  is_ok (prepared io).2 = true → is_ok (main_https io) = true →
  acme_config (main_args io) (b_home io) = Some cfg →
  renewal_due l_base64_decode cfg (b_readable io) (b_now io) s = Value_of true →
  obtain_certificate cfg (b_acme io) s = (w, Err Waiting, s') →
  (main io s).2 = Err Stuck
  ∧ (∃ tls, AdminServer (ar_admin_addr (main_args io)) tls ∈ (main io s).1)
  ∧ HttpIngress (ar_http_addr (main_args io)) ∈ (main io s).1
  ∧ ∀ t, t ∈ background (main_args io) → t ∉ (main io s).1.
Proof.
  intros Hprep Hhttps Hcfg Hdue Hwait.
  destruct (prepared io).2 as [[[st cfgs] tls]|] eqn:Ep; [|done].
  assert (Hacme : (acme_started io s).2 = Err Stuck).
  { pose proof (acme_started_result io s) as Ha. unfold acme_obstacle in Ha.
    rewrite Hcfg in Ha. cbn [mbind option_bind] in Ha. by rewrite Hdue, Hwait in Ha. }
  assert (Hhs : (https_started io).2 = Ok tt).
  { rewrite https_started_result. by destruct (main_https io). }
  split; [|split; [|split]].
  - unfold main. rewrite boot_bind_result, Ep.
    repeat (rewrite boot_bind_result; cbn [spawn snd]). by rewrite Hhs, Hacme.
  - exists tls. eapply main_early_tasks; [done|by left].
  - eapply main_early_tasks; [done|by right; left].
  - intros t Ht%background_tasks Hin. unfold main in Hin.
    boot_step Hin as r Hr; [apply prepared_tasks in Hin as (path & -> & _); done|].
    destruct r as [[st' cfgs'] tls'].
    boot_step Hin as u1 Hu1; [by apply list_elem_of_singleton in Hin as ->|].
    boot_step Hin as u2 Hu2; [by apply list_elem_of_fmap in Hin as (cfg' & -> & _)|].
    boot_step Hin as u3 Hu3; [by apply list_elem_of_singleton in Hin as ->|].
    boot_step Hin as u4 Hu4; [by apply https_tasks in Hin as (addr & a & _ & _ & [-> | ->])|].
    boot_step Hin as s'' Hu5; [|by rewrite Hacme in Hu5].
    by apply acme_tasks in Hin as [[-> _]|(cfg' & -> & _)].
Qed.

(** A certificate from the authority never opens the HTTPS port.  With
    [--https-addr] but neither a self-signed certificate nor both files, the
    start is refused before the certificate client is even set up, whatever the
    ACME options are. *)
Theorem acme_does_not_replace_files io s addr :
  ar_https_addr (main_args io) = Some addr → ar_tls_self_signed (main_args io) = false →
  ar_tls_cert (main_args io) = None ∨ ar_tls_key (main_args io) = None →
  is_ok (main io s).2 = false
  ∧ ∀ t, t ∈ (main io s).1 → match t with HttpsIngress _ _ | ChallengeServer | Renewal _ => False
                                         | _ => True end.
Proof.
  intros Haddr Hself Hfiles.
  assert (Hbad : ∃ e, main_https io = Err e).
  { unfold main_https, base_acceptor, https_setup. rewrite Haddr, Hself.
    destruct Hfiles as [-> | ->]; [by eexists|].
    destruct (ar_tls_cert (main_args io)); by eexists. }
  destruct Hbad as [e He].
  assert (Hhs : (https_started io).2 = Err (Stopped (HttpsError e))).
  { rewrite https_started_result. by rewrite He. }
  split.
  - unfold main. rewrite boot_bind_result. destruct (prepared io).2 as [[[st cfgs] tls]|]; [|done].
    repeat (rewrite boot_bind_result; cbn [spawn snd]). by rewrite Hhs.
  - intros t Hin. unfold main in Hin.
    boot_step Hin as r Hr; [apply prepared_tasks in Hin as (path & -> & _); done|].
    destruct r as [[st' cfgs'] tls'].
    boot_step Hin as u1 Hu1; [by apply list_elem_of_singleton in Hin as ->|].
    boot_step Hin as u2 Hu2; [by apply list_elem_of_fmap in Hin as (cfg' & -> & _)|].
    boot_step Hin as u3 Hu3; [by apply list_elem_of_singleton in Hin as ->|].
    boot_step Hin as u4 Hu4; [|by rewrite Hhs in Hu4].
    apply https_tasks in Hin as (addr' & a & _ & Hok & _). by rewrite He in Hok.
Qed.
End main_theorems.

(** ** Who is admitted to a relay that was started *)

#[local] Existing Instance loads_dec.

Section admitted.
Context `{Unicode} `{JsonFile} `{Libraries} `{ConstantTimeEqLaws}.

Lemma auth_check_Ok self set token :
  allowed self = Some set → auth_check self token = Ok tt → ∃ t, token = Some t ∧ t ∈ set.
Proof.
  intros Ha. unfold auth_check. rewrite Ha. destruct token as [t|]; [|done].
  rewrite fold_hits by auto. intros Hc. exists t. split; [done|].
  case_bool_decide as E; [|done]. destruct E as [|E]; [done|]. by apply elem_of_elements.
Qed.

(** The policies after a series of SIGHUPs. *)
Definition sighups (auth_file : option str) (fss : list files) (p : Policies) : Policies :=
  foldl (λ p fs, sighup fs auth_file p) p fss.

Lemma sighups_auth path fss p : p_auth (sighups (Some path) fss p) = reloads fss path (p_auth p).
Proof. revert p. induction fss as [|fs fss IH]; intros p; [done|]. apply IH. Qed.

(** A deny list that is not in use stays the empty one. *)
Lemma sighups_denylist auth_file fss p :
  (IpDenyList.is_enabled (p_denylist p) = false → p_denylist p = IpDenyList.disabled) →
  let p' := sighups auth_file fss p in
  IpDenyList.is_enabled (p_denylist p') = false → p_denylist p' = IpDenyList.disabled.
Proof.
  revert p. induction fss as [|fs fss IH]; intros p Hp; [done|]. apply IH.
  cbn [sighup p_denylist]. destruct (IpDenyList.is_enabled (p_denylist p)) eqn:E; [|by intros _; apply Hp].
  unfold IpDenyList.reload, IpDenyList.is_enabled in *.
  destruct (IpDenyList.path (p_denylist p)) eqn:Ep; [|done].
  intros Hd. by rewrite bool_decide_true in Hd by by eexists.
Qed.

Lemma main_policies_denylist fs args auth :
  let dl := p_denylist (main_policies fs args auth) in
  IpDenyList.is_enabled dl = false → dl = IpDenyList.disabled.
Proof.
  cbn [main_policies p_denylist]. destruct (ar_ip_denylist_file args); [|done].
  intros Hd. done.
Qed.

(** The text of the address stands for the address. *)
Lemma denied_address st p remote :
  ip_wf remote →
  (IpDenyList.is_enabled (p_denylist p) = false → p_denylist p = IpDenyList.disabled) →
  denied (conn_ctx st p remote) = IpDenyList.is_denied (p_denylist p) remote.
Proof.
  intros Hwf Hd. unfold denied. cbn [conn_ctx ip_denylist client_ip].
  rewrite parse_show_ip_run by done.
  destruct (IpDenyList.is_enabled (p_denylist p)) eqn:E; [done|]. rewrite Hd by done.
  unfold IpDenyList.is_denied. by destruct (IpDenyList.to_ipv4_u32 remote).
Qed.

Lemma main_Ok io s st s' :
  (main io s).2 = Ok (st, s') →
  ∃ i store auth, auth_of (b_files io) (main_args io) = Ok auth ∧ st = app_state io store i auth.
Proof.
  unfold main. rewrite boot_bind_result. destruct (prepared io) as [w [[[st' cfgs] tls]|e]] eqn:E;
    [|done]. apply prepared_Ok in E as (i & store & auth & _ & Ha & _ & _ & ->).
  cbn [snd]. intros Hm. exists i, store, auth. split; [done|].
  repeat (rewrite boot_bind_result in Hm; cbn [spawn snd] in Hm).
  destruct (https_started io).2; [|done]. destruct (acme_started io s).2; [|done].
  repeat (rewrite boot_bind_result in Hm; cbn [spawn snd] in Hm).
  destruct (b_bind io); [|done]. by injection Hm as <- _.
Qed.

Lemma admission_admits ctx first now handshake_ms instant r w kind r' :
  Z.of_nat (size (tunnels r)) <= u32_max →
  admission ctx first now handshake_ms instant r = (w, Ok kind, r') →
  denied ctx = false ∧
  ∃ token, first = Got (Register PROTOCOL_VERSION token kind) ∧ auth_check (auth ctx) token = Ok tt.
Proof.
  intros Hsize E. pose proof (admission_cases ctx first now handshake_ms instant r Hsize) as Hc.
  rewrite E in Hc. destruct Hc as [Hc _]. unfold verdict_of in Hc.
  destruct (denied ctx); [by destruct Hc|]. split; [done|].
  destruct first as [| | | |[version token k| | | |]]; try by destruct Hc.
  destruct (Z.eqb_spec version PROTOCOL_VERSION) as [->|]; [|by destruct Hc]. cbn [negb] in Hc.
  destruct (auth_check (auth ctx) token) as [[]|[]] eqn:Ea; [|by destruct Hc..].
  repeat case_match; destruct Hc as [Hc _]; simplify_eq. by exists token.
Qed.

(** C3: A relay started with a token file stays closed from end to end.
    Whatever the configuration file and the flags say besides, and whatever
    SIGHUP has reloaded since: a client that is admitted sent one of the tokens
    of the last version of that file that could be loaded, and its address, in
    whichever form the socket gave it, is in no block of the deny list as last
    read. *)
Theorem admitted_hold_tokens io s st s' path fss remote first now handshake_ms instant r w kind r' :
  (main io s).2 = Ok (st, s') → ar_auth_file (main_args io) = Some path → ip_wf remote →
  Z.of_nat (size (tunnels r)) <= u32_max →
  let p := sighups (s_auth_file st) fss (s_policies st) in
  admission (conn_ctx st p remote) first now handshake_ms instant r = (w, Ok kind, r') →
  (∃ token fs text, first = Got (Register PROTOCOL_VERSION (Some token) kind)
     ∧ last (filter (loads path) (b_files io :: fss)) = Some fs
     ∧ fs path = Ok text ∧ tokens_of text token)
  ∧ IpDenyList.is_denied (p_denylist p) remote = false.
Proof.
  intros Hmain Hpath Hwf Hsize p Hadm.
  destruct (main_Ok _ _ _ _ Hmain) as (i & store & auth & Hauth & Hst).
  apply admission_admits in Hadm as (Hden & token & -> & Hok); [|done].
  assert (Hfile : s_auth_file st = Some path) by by rewrite Hst.
  split.
  - unfold auth_of in Hauth. rewrite Hpath in Hauth. unfold auth_from_file in Hauth.
    destruct (load_token_set (b_files io) path) as [set|] eqn:El; [|done].
    injection Hauth as <-.
    destruct (protected_reloads path fss [b_files io] {| allowed := Some set |})
      as (set' & fs & text & Ha & _ & Hlast & Htext & Hset).
    { by apply (protected_loaded path []). }
    cbn [conn_ctx HandleClient.auth] in Hok. unfold p in Hok.
    rewrite Hfile, sighups_auth, Hst in Hok. cbn [app_state s_policies main_policies p_auth] in Hok.
    destruct (auth_check_Ok _ _ _ Ha Hok) as (t & -> & Ht).
    exists t, fs, text. split; [done|]. split; [done|]. split; [done|]. by apply Hset.
  - rewrite <-denied_address with (st := st); [done|done|].
    apply sighups_denylist. rewrite Hst. apply main_policies_denylist.
Qed.
End admitted.

(** ** The configuration a relay runs with *)

(** Where a setting comes from: the command line when it says something else
    than the built-in value, or the file is silent; the file otherwise. *)
Definition effective {A} (built_in flag : A) (file : option A) (v : A) : Prop :=
  (flag ≠ built_in ∨ file = None) ∧ v = flag ∨ flag = built_in ∧ file = Some v.
Definition chosen {A} (flag file v : option A) : Prop :=
  flag ≠ None ∧ v = flag ∨ flag = None ∧ v = file.
Definition switched_on (flag : bool) (file : option bool) (v : bool) : Prop :=
  v = true ↔ flag = true ∨ file = Some true.

Lemma at_default_effective {A} `{EqDecision A} (d v : A) file : effective d v file (at_default d v file).
Proof. unfold effective, at_default. destruct file; case_bool_decide; naive_solver. Qed.
Lemma addr_effective d v file :
  effective d v (file ≫= parse_socket_addr) (addr_at_default d v file).
Proof.
  unfold effective, addr_at_default. destruct (file ≫= parse_socket_addr); case_bool_decide; naive_solver.
Qed.
Lemma unset_chosen {A} (v file : option A) : chosen v file (unset v file).
Proof. unfold chosen. destruct v; [by left|by right]. Qed.
Lemma flag_switched v file : switched_on v file (flag v file).
Proof. unfold switched_on. destruct v, file as [[]|]; naive_solver. Qed.

#[local] Hint Resolve at_default_effective addr_effective unset_chosen flag_switched : core.

Section configured.
Context `{Unicode} `{JsonFile} `{Libraries}.
Implicit Types (io : boot_io) (s : issue_state).

(** The files the configuration may be in, and the first that can be used; a
    file that was named is the only one. *)
Definition candidates io : list str :=
  match ar_config (b_args io) with
  | Some p => [p]
  | None => match b_home io with Some h => [h ++ §"/.config/seamless/relay.toml"] | None => [] end
            ++ [§"/etc/seamless/relay.toml"]
  end.
Definition usable io (p : str) : option FileConfig :=
  match b_files io p with Ok text => l_toml text | Err _ => None end.
Definition file_of io : FileConfig := default file_config_default (head (omap (usable io) (candidates io))).

Lemma main_args_file io : main_args io = apply_file_config (b_args io) (file_of io).
Proof.
  unfold main_args, configured. f_equal. unfold load_file_config, file_of, candidates.
  destruct (ar_config (b_args io)) as [p|].
  - cbn. unfold usable. destruct (b_files io p) as [text|]; [|done]. by destruct (l_toml text).
  - destruct (b_home io) as [h|]; cbn; unfold join_path.
    + change (h ++ §"/" ++ §".config/seamless/relay.toml") with (h ++ §"/.config/seamless/relay.toml").
      unfold usable. destruct (b_files io (h ++ _)) as [text|]; [destruct (l_toml text); [done|]|];
        cbn; (destruct (b_files io _) as [text'|]; [|done]; by destruct (l_toml text')).
    + unfold usable. destruct (b_files io _) as [text|]; [|done]. by destruct (l_toml text).
Qed.

(** The tasks of a start that came to its end. *)
Lemma main_run io s st s' :
  (main io s).2 = Ok (st, s') →
  ∃ i store auth cfgs tls https acme,
    st = app_state io store i auth
    ∧ passthrough_rules (ar_tcp_passthrough (main_args io)) = Ok cfgs ∧ main_https io = Ok https
    ∧ (∀ t, t ∈ acme → t = ChallengeServer ∨ ∃ cfg, t = Renewal cfg)
    ∧ (main io s).1
      = (match ar_audit_log (main_args io) with Some path => [AuditWriter path] | None => [] end)
        ++ [AdminServer (ar_admin_addr (main_args io)) tls] ++ (PassthroughListener <$> cfgs)
        ++ [HttpIngress (ar_http_addr (main_args io))]
        ++ (match https, ar_https_addr (main_args io) with
            | Some acceptor, Some addr => [CertRotation; HttpsIngress addr acceptor]
            | _, _ => []
            end)
        ++ acme ++ background (main_args io).
Proof.
  destruct (main io s) as [w r] eqn:E. cbn [snd fst]. intros ->. unfold main in E.
  apply boot_bind_Ok in E as ([[st1 cfgs] tls] & w1 & w2 & Ep & E & ->).
  pose proof (prepared_Ok _ _ _ _ _ Ep) as (i & store & auth & _ & _ & Hcfgs & _ & ->).
  assert (Hw1 : w1 = match ar_audit_log (main_args io) with
                     | Some path => [AuditWriter path] | None => [] end).
  { unfold prepared in Ep. destruct (load _ _) as [store0|]; [|done].
    cbn in Ep. destruct (main_identity io store0) as [[[[i0|]|] store1] disk]; try done. cbn in Ep.
    destruct (auth_of _ _); [|done]. cbn in Ep. destruct (passthrough_rules _); [|done]. cbn in Ep.
    destruct (main_admin_tls io); [|done]. cbn in Ep. injection Ep as <- _ _ _ _. by rewrite app_nil_r. }
  apply boot_bind_Ok in E as (? & ? & ? & [= <- <-] & E & ->).
  apply boot_bind_Ok in E as (? & ? & ? & [= <- <-] & E & ->).
  apply boot_bind_Ok in E as (? & ? & ? & [= <- <-] & E & ->).
  apply boot_bind_Ok in E as ([] & wh & ? & Eh & E & ->).
  apply boot_bind_Ok in E as (s1 & wa & ? & Ea & E & ->).
  apply boot_bind_Ok in E as (? & ? & ? & [= <- <-] & E & ->).
  destruct (b_bind io); [|done]. injection E as <- <- <-.
  unfold https_started in Eh. destruct (main_https io) as [https|]; [|done].
  exists i, store, auth, cfgs, tls, https, wa. split_and!; try done.
  - intros t Ht. destruct (acme_tasks io s t) as [[-> _]|(cfg & -> & _)];
      [by rewrite Ea|by left|right; by exists cfg].
  - rewrite app_nil_r, Hw1. do 4 f_equal.
    destruct https as [acceptor|]; [destruct (ar_https_addr (main_args io))|];
      by injection Eh as <-.
Qed.

(** What the parts of a relay with this state and these tasks work with, for
    the flags [a] and the file [f]: the sessions ([ctx]), the ingress ([ing]),
    the admin interface ([adm]), the limiter and the tasks. *)
Record configured_as (a : Args) (f : FileConfig) (st : AppState) (tasks : list task) (ctx : ConnCtx)
    (ing : Ingress.AppState) (adm : AdminConfig) : Prop := {
  ca_max : effective 1000 (ar_max_tunnels a) (fc_max_tunnels f) (max_tunnels ctx);
  ca_per_ip : effective 10 (ar_max_tunnels_per_ip a) (fc_max_tunnels_per_ip f) (max_tunnels_per_ip ctx);
  ca_rate : effective 10 (ar_rate_limit a) (fc_rate_limit f) (RateLimiter.max (s_rate_limiter st))
            ∧ RateLimiter.window (s_rate_limiter st) = 60 * 10 ^ 9;
  ca_keepalive : effective 30 (ar_tunnel_keepalive a) (fc_tunnel_keepalive f) (tunnel_keepalive ctx);
  ca_body : effective (10 * 2 ^ 20) (ar_max_body_size a) (fc_max_body_size f) (app_max_body_bytes ing);
  ca_length : ∃ n, effective 8 (ar_subdomain_length a) (fc_subdomain_length f) n
                   ∧ subdomain_length ctx = Z.to_nat (Z.max n 6);
  ca_age : ∃ n, effective 0 (ar_tunnel_max_age a) (fc_tunnel_max_age f) n
                ∧ ∀ m, TunnelExpiry m ∈ tasks ↔ m = n ∧ 0 < n;
  ca_domain : effective §"localhost" (ar_base_domain a) (fc_base_domain f) (base_domain ctx)
              ∧ app_base_domain ing = base_domain ctx ∧ ad_base_domain adm = base_domain ctx;
  ca_store : effective §"seamless-relay.json" (ar_store a) (fc_store f) (s_store_path st);
  ca_http : ∃ addr, effective (V4 0, 8080, 0) (ar_http_addr a) (fc_http_addr f ≫= parse_socket_addr) addr
                    ∧ HttpIngress addr ∈ tasks ∧ http_port ctx = addr.1.2 ∧ ad_http_port adm = addr.1.2;
  ca_https : ∃ addr, chosen (ar_https_addr a) (fc_https_addr f ≫= parse_socket_addr) addr
                     ∧ https_port ctx = (λ x : socket_addr, x.1.2) <$> addr
                     ∧ ad_https_port adm = https_port ctx
                     ∧ ∀ x, addr = Some x ↔ ∃ acceptor, HttpsIngress x acceptor ∈ tasks;
  ca_admin : ∃ addr tls, effective (V4 0, 8088, 0) (ar_admin_addr a)
                           (fc_admin_addr f ≫= parse_socket_addr) addr
                         ∧ AdminServer addr tls ∈ tasks;
  ca_token : chosen (ar_admin_token a) (fc_admin_token f) (ad_token adm);
  ca_cidrs : ∃ v, chosen (ar_admin_allow_cidr a) (fc_admin_allow_cidr f) v
                  ∧ ad_cidrs adm = AdminCidr.admin_cidrs v;
  ca_webhook : chosen (ar_webhook_url a) (fc_webhook_url f) (webhook_url ctx)
               ∧ ad_webhook_url adm = webhook_url ctx;
  ca_reserved : ∃ v, chosen (ar_reserved_subdomains a) (fc_reserved_subdomains f) v
                     ∧ reserved_subdomains ctx = reserved_of v;
  ca_prefix : ∃ v, chosen (ar_subdomain_prefix a) (fc_subdomain_prefix f) v
                   ∧ subdomain_prefix ctx = subdomain_prefix_of v;
  ca_blocklist : ∃ v, chosen (ar_blocklist_file a) (fc_blocklist_file f) v
                      ∧ blocklist_path (blocklist ctx) = v;
  ca_denylist : ∃ v, chosen (ar_ip_denylist_file a) (fc_ip_denylist_file f) v
                     ∧ IpDenyList.path (ip_denylist ctx) = v;
  ca_auth_file : chosen (ar_auth_file a) (fc_auth_file f) (s_auth_file st);
  ca_audit : ∃ v, chosen (ar_audit_log a) (fc_audit_log f) v
                  ∧ ∀ path, AuditWriter path ∈ tasks ↔ v = Some path;
  ca_domains : switched_on (ar_allow_custom_domains a) (fc_allow_custom_domains f)
                 (ad_allow_custom_domains adm)
               ∧ ∃ v, chosen (ar_custom_domain_allowlist a) (fc_custom_domain_allowlist f) v
                      ∧ ad_custom_domain_allowlist adm = list_to_set (comma_list v);
  ca_rules : ∃ v cfgs, effective [] (ar_tcp_passthrough a) (fc_tcp_passthrough f) v
                       ∧ passthrough_rules v = Ok cfgs
                       ∧ ∀ cfg, PassthroughListener cfg ∈ tasks ↔ cfg ∈ cfgs;
}.

(** What is among the tasks of a start that came to its end. *)
Lemma main_run_tasks io s st s' :
  (main io s).2 = Ok (st, s') →
  ∃ i store auth cfgs tls https,
    st = app_state io store i auth
    ∧ passthrough_rules (ar_tcp_passthrough (main_args io)) = Ok cfgs ∧ main_https io = Ok https
    ∧ ∀ t, match t with
           | AuditWriter path => t ∈ (main io s).1 ↔ ar_audit_log (main_args io) = Some path
           | AdminServer addr tls' =>
             t ∈ (main io s).1 ↔ addr = ar_admin_addr (main_args io) ∧ tls' = tls
           | PassthroughListener cfg => t ∈ (main io s).1 ↔ cfg ∈ cfgs
           | HttpIngress addr => t ∈ (main io s).1 ↔ addr = ar_http_addr (main_args io)
           | HttpsIngress addr acceptor =>
             t ∈ (main io s).1 ↔ https = Some acceptor ∧ ar_https_addr (main_args io) = Some addr
           | TunnelExpiry n =>
             t ∈ (main io s).1 ↔ n = ar_tunnel_max_age (main_args io) ∧ 0 < ar_tunnel_max_age (main_args io)
           | _ => True
           end.
Proof.
  intros (i & store & auth & cfgs & tls & https & acme & Hst & Hcfgs & Hhttps & Hacme & Hl)%main_run.
  exists i, store, auth, cfgs, tls, https. split_and!; try done. intros t.
  assert (HA : ∀ b, b = true → (match t with ChallengeServer | Renewal _ => false | _ => true end) = b →
                    t ∉ acme).
  { intros b -> Hb Ht. destruct (Hacme t Ht) as [->|[cfg ->]]; done. }
  specialize (HA true eq_refl).
  assert (P1 : t ∈ (match ar_audit_log (main_args io) with Some path => [AuditWriter path] | None => [] end)
               ↔ ∃ path, t = AuditWriter path ∧ ar_audit_log (main_args io) = Some path).
  { destruct (ar_audit_log (main_args io)); rewrite ?elem_of_cons, elem_of_nil; naive_solver. }
  assert (P2 : t ∈ (match https, ar_https_addr (main_args io) with
                    | Some acceptor, Some addr => [CertRotation; HttpsIngress addr acceptor]
                    | _, _ => [] end)
               ↔ ∃ acceptor addr, (t = CertRotation ∨ t = HttpsIngress addr acceptor)
                   ∧ https = Some acceptor ∧ ar_https_addr (main_args io) = Some addr).
  { destruct https, (ar_https_addr (main_args io)); rewrite ?elem_of_cons, elem_of_nil; naive_solver. }
  assert (P3 : t ∈ background (main_args io)
               ↔ t = PolicyReload ∨ t = StatsHistory ∨ t = Shutdown
                 ∨ t = TunnelExpiry (ar_tunnel_max_age (main_args io))
                   ∧ 0 < ar_tunnel_max_age (main_args io)).
  { unfold background. rewrite !elem_of_app.
    destruct (Z.ltb_spec 0 (ar_tunnel_max_age (main_args io)));
      rewrite !elem_of_cons, !elem_of_nil; naive_solver lia. }
  destruct t; try done;
    rewrite Hl, !elem_of_app, P1, P2, P3, list_elem_of_fmap, !list_elem_of_singleton;
    clear -HA; naive_solver.
Qed.

End configured.

(** ** The identity of a relay *)

Section identity.
Context `{Unicode} `{JsonFileLaws} `{Libraries} `{ConstantTimeEq}.
Implicit Types (io : boot_io) (s : issue_state).

(** The file system after the identity was looked up or made. *)
Definition main_disk io : fsys :=
  match load (b_store io) (ar_store (main_args io)) with
  | Ok store => (main_identity io store).2
  | Err _ => b_store io
  end.

(** What the admin interface can make of a store, one request after another. *)
Definition edited (store store' : Store) : Prop :=
  ∃ cfg aio auth req w, Admin.store w = store ∧ Admin.store (handle cfg aio auth req w).2 = store'.

Lemma handle_identity cfg aio auth req w :
  identity_hex (Admin.store (handle cfg aio auth req w).2) = identity_hex (Admin.store w).
Proof.
  assert (E : ∀ w', Admin.store w' = Admin.store w → identity_hex (Admin.store w') = identity_hex (Admin.store w))
    by (by intros w' ->).
  destruct req; cbn [handle]; try done;
    try (apply E, authorized_store, with_entry_store; intros r e; done);
    try (apply E, authorized_store; done);
    try (autounfold with admin; by rewrite cf_call_world).
  - unfold create_route. cbv zeta. destruct (_ || _); [done|]. by destruct (existsb _ _).
  - unfold update_route. cbv zeta. by destruct (update_first _ _ _) as [[]|].
  - unfold delete_route. cbv zeta. by destruct (_ <? _)%nat.
  - apply E, authorized_store. cbv zeta. destruct (bool_decide _); [done|]. by destruct (matching _ _).
  - apply E, authorized_store. cbv zeta. destruct (_ || _); [done|].
    destruct (tunnels _ !! _); [|done]. by destruct (_ && _).
  - apply E, authorized_store. cbv zeta. by case_match.
  - apply E, authorized_store. destruct addr; [|done]. by apply with_entry_store.
  - apply E, authorized_store, with_entry_store. intros r e. by destruct (drop_backend _ _).
  - apply E, authorized_store, with_entry_store. intros r e. by destruct (find_backend _ _).
  - unfold get_settings. by destruct (masked _).
Qed.

Lemma edited_identity store store' : rtc edited store store' → identity_hex store' = identity_hex store.
Proof.
  induction 1 as [|store store1 store' (cfg & aio & auth & req & w & <- & <-) _ IH]; [done|].
  by rewrite IH, handle_identity.
Qed.

(** A store with another identity in it is as good a document. *)
Lemma plain_identity store hex :
  plain_data (store_to_value store) = true → utf8_valid hex = true →
  plain_data (store_to_value {| routes := routes store; cf := cf store; identity_hex := Some hex;
                 identity_x25519_hex := identity_x25519_hex store;
                 identity_kem_pk_hex := identity_kem_pk_hex store;
                 identity_kem_sk_hex := identity_kem_sk_hex store |}) = true.
Proof.
  unfold store_to_value. cbn [routes cf identity_hex identity_x25519_hex identity_kem_pk_hex
    identity_kem_sk_hex opt_value plain_data]. rewrite !forallb_app. cbn [forallb fst snd].
  intros Hp Hh. apply andb_true_iff in Hp as [Hp Hrest]. rewrite Hrest, andb_true_r.
  rewrite !andb_true_iff in Hp |- *. cbn [plain_data]. by destruct Hp as (? & ? & [? _] & ?).
Qed.

(** What the start found out about the identity, when it came to its end. *)
Lemma main_identity_Ok io s st s' :
  (main io s).2 = Ok (st, s') →
  ∃ i store, load (b_store io) (ar_store (main_args io)) = Ok store
  ∧ main_identity io store = (Some (Ok i), s_store st, main_disk io)
  ∧ s_x25519 st = l_hex_encode (l_x25519 i) ∧ s_kem st = l_hex_encode (l_kem i).
Proof.
  unfold main, main_disk. rewrite boot_bind_result.
  destruct (prepared io) as [w [[[st' cfgs] tls]|e]] eqn:E; [|done].
  apply prepared_Ok in E as (i & store' & auth & Hi & _ & _ & _ & ->). cbn [snd]. intros Hm.
  repeat (rewrite boot_bind_result in Hm; cbn [spawn snd] in Hm).
  destruct (https_started io).2; [|done]. destruct (acme_started io s).2; [|done].
  repeat (rewrite boot_bind_result in Hm; cbn [spawn snd] in Hm).
  destruct (b_bind io); [|done]. injection Hm as <- _. unfold store_and_identity in Hi.
  destruct (load _ _) as [store|]; [|done]. exists i, store. split; [done|].
  destruct (main_identity io store) as [[[[i'|]|] store1] disk]; simplify_eq. done.
Qed.

(** Making an identity: what may be on the disk afterwards, and what is when the
    save returned. *)
Lemma made_identity io store :
  let path := ar_store (main_args io) in
  (∀ b, utf8_valid (l_hex_encode b) = true) →
  own_file (b_store io) path → load (b_store io) path = Ok store → identity_hex store = None →
  store_wf store → plain_data (store_to_value store) = true →
  let '(r, new, disk) := main_identity io store in
  identity_hex new = Some (l_hex_encode (b_generated io)) ∧ routes new = routes store
  ∧ cf new = cf store ∧ (load disk path = Ok store ∨ load disk path = Ok new)
  ∧ ∀ i, r = Some (Ok i) → i = b_generated io ∧ load disk path = Ok new.
Proof.
  intros path Hhex Hown Hload Hnone Hwf Hplain. unfold main_identity, load_or_create_identity.
  rewrite Hnone. set (new := {| routes := routes store |}). fold path.
  pose proof (save_run_inv path (to_string_pretty (store_to_value new)) (b_store io) (b_save io)
    (save_start new, b_store io) Hown (conj eq_refl eq_refl)) as Hinv.
  cbn [fst snd] in Hinv. apply load_inv in Hinv as [Hor Hsaved]; [|done|by apply plain_identity].
  destruct (save_run path (b_save io) (save_start new) (b_store io)) as [pc disk].
  cbn [fst snd] in Hor, Hsaved. rewrite Hload in Hor. split_and!; [done..|].
  intros i Hi. destruct pc; simplify_eq. auto.
Qed.

Lemma stored_identity io store text :
  identity_hex store = Some text →
  main_identity io store
  = (Some match l_hex_decode text with
          | Some b => ok_or §"corrupt identity in store — delete seamless-relay.json to regenerate"
                        (l_from_bytes b)
          | None => Err §"invalid identity hex in store"
          end, store, b_store io).
Proof.
  intros Ht. unfold main_identity, load_or_create_identity. rewrite Ht.
  by destruct (l_hex_decode text).
Qed.

(** C38: A relay keeps its identity.  Take a start whose store has no identity.
    If it reaches the accept loop, the file of the store, written step by step,
    loads as the store the relay runs with, which is the old one with the key
    pair it made; and every later start with that path, on any file that loads
    as that store or as what the admin interface has made of it since, whatever
    else is configured, generated or reloaded then, announces the same public
    keys and writes nothing.  However the first start ends, killed in the middle
    of its save included, the file loads as the old store or with that key
    pair.  A store whose text is no key pair stops the start, and is not
    replaced. *)
Theorem identity_persists io s store :
  let path := ar_store (main_args io) in
  (∀ b, l_hex_decode (l_hex_encode b) = Some b) → (∀ b, utf8_valid (l_hex_encode b) = true) →
  l_from_bytes (b_generated io) = Some (b_generated io) →
  own_file (b_store io) path → load (b_store io) path = Ok store → identity_hex store = None →
  store_wf store → plain_data (store_to_value store) = true →
  (load (main_disk io) path = Ok store
   ∨ ∃ new, load (main_disk io) path = Ok new ∧ routes new = routes store ∧ cf new = cf store
       ∧ identity_hex new = Some (l_hex_encode (b_generated io)))
  ∧ (∀ st s', (main io s).2 = Ok (st, s') →
     load (main_disk io) path = Ok (s_store st)
     ∧ routes (s_store st) = routes store ∧ cf (s_store st) = cf store
     ∧ ∀ io2 s2 store2 st2 s2', ar_store (main_args io2) = path →
         load (b_store io2) path = Ok store2 → rtc edited (s_store st) store2 →
         (main io2 s2).2 = Ok (st2, s2') →
         s_x25519 st2 = s_x25519 st ∧ s_kem st2 = s_kem st ∧ s_store st2 = store2
         ∧ main_disk io2 = b_store io2)
  ∧ ∀ io2 s2 store2 text, load (b_store io2) (ar_store (main_args io2)) = Ok store2 →
      identity_hex store2 = Some text → l_hex_decode text ≫= l_from_bytes = None →
      (∃ e, (main io2 s2).2 = Err (Stopped (IdentityError e))) ∧ main_disk io2 = b_store io2.
Proof.
  intros path Hhex Hutf Hfrom Hown Hload Hnone Hwf Hplain.
  pose proof (made_identity io store Hutf Hown Hload Hnone Hwf Hplain) as Hmade. cbv zeta in Hmade.
  split; [|split].
  - unfold main_disk. fold path in Hmade |- *. rewrite Hload.
    destruct (main_identity io store) as [[r new] disk].
    destruct Hmade as (Hid & Hr & Hc & [Hl|Hl] & _); [by left|right]. by exists new.
  - intros st s' (i & store' & Hl & Hmain & Hx & Hk)%main_identity_Ok. fold path in Hl.
    rewrite Hload in Hl. injection Hl as <-. rewrite Hmain in Hmade.
    destruct Hmade as (Hid & Hr & Hc & _ & Hok). destruct (Hok i eq_refl) as [-> Hdisk].
    split_and!; [done..|]. intros io2 s2 store2 st2 s2' Hpath Hl2 Hed.
    intros (i2 & store2' & Hl2' & Hmain2 & Hx2 & Hk2)%main_identity_Ok.
    rewrite Hpath, Hl2 in Hl2'. injection Hl2' as <-.
    rewrite (stored_identity io2 store2 (l_hex_encode (b_generated io))) in Hmain2
      by (by rewrite (edited_identity _ _ Hed)).
    rewrite Hhex, Hfrom in Hmain2. cbn [ok_or] in Hmain2. injection Hmain2 as <- <- <-.
    by rewrite Hx, Hx2, Hk, Hk2.
  - intros io2 s2 store2 text Hl2 Ht Hbad.
    assert (Hm : ∃ e, main_identity io2 store2 = (Some (Err e), store2, b_store io2)).
    { rewrite (stored_identity io2 store2 text Ht). destruct (l_hex_decode text) as [b|]; [|by eexists].
      cbn in Hbad. rewrite Hbad. by eexists. }
    destruct Hm as [e Hm]. split; [|unfold main_disk; by rewrite Hl2, Hm].
    exists e. unfold main. rewrite boot_bind_result, prepared_result. unfold identity_obstacle.
    by rewrite Hl2, Hm.
Qed.
End identity.

(** ** The accept loop *)

Section loop.
Context `{Unicode} `{JsonFile} `{Libraries}.

(** The files of the reloads among some events, and whether the loop goes on. *)
Definition hangups (evs : list server_event) : list files :=
  omap (λ e, match e with Hangup fs => Some fs | _ => None end) evs.
Definition goes_on (e : server_event) : bool :=
  match e with NoMore | CtrlC => false | _ => true end.

(** Every client that connects before the end of the loop is handled, in the
    order of arrival, under the limits and names of the start and the policies
    of the last reload before it; none after the end. *)
Theorem server_loop_handles st p pre remote post :
  forallb goes_on pre = true →
  (server_loop st p (pre ++ Accepted remote :: post)).1
  = (server_loop st p pre).1
    ++ conn_ctx st (sighups (s_auth_file st) (hangups pre) p) remote
    :: (server_loop st (sighups (s_auth_file st) (hangups pre) p) post).1
  ∧ ∀ e, goes_on e = false →
      (server_loop st p (pre ++ e :: post)) = ((server_loop st p pre).1, true).
Proof.
  revert p. induction pre as [|ev pre IH]; intros p Hpre.
  - split; [cbn; by destruct (server_loop st p post)|]. by intros [] He.
  - cbn [forallb] in Hpre. apply andb_true_iff in Hpre as [Hev Hpre].
    destruct ev as [r| | |fs]; try done; cbn [app server_loop].
    + destruct (IH p Hpre) as [IH1 IH2]. split.
      * destruct (server_loop st p (pre ++ Accepted remote :: post)) as [c1 b1] eqn:E1.
        destruct (server_loop st p pre) as [c2 b2]. cbn [fst] in *. by rewrite IH1.
      * intros e He. specialize (IH2 e He). rewrite IH2.
        by destruct (server_loop st p pre).
    + apply IH. done.
Qed.
End loop.

(** ** Witnesses *)

(** A configuration file with a token file and a deny list. *)
Definition start_file (https_addr acme_email : option str) : FileConfig :=
  {| fc_seam_addr := None; fc_http_addr := Some §"[::]:80"; fc_admin_addr := None;
     fc_base_domain := Some §"a.example"; fc_store := None; fc_log_level := None;
     fc_log_format := None; fc_cipher := None; fc_max_tunnels_per_ip := None;
     fc_rate_limit := Some 0; fc_max_tunnels := None; fc_tls_self_signed := None;
     fc_auth_file := Some §"t"; fc_admin_token := None; fc_https_addr := https_addr;
     fc_tls_cert := None; fc_tls_key := None; fc_webhook_url := None;
     fc_admin_allow_cidr := None; fc_admin_tls_cert := None; fc_admin_tls_key := None;
     fc_admin_client_ca := None; fc_reserved_subdomains := None; fc_subdomain_prefix := None;
     fc_subdomain_length := None; fc_tunnel_max_age := None; fc_max_body_size := None;
     fc_blocklist_file := None; fc_ip_denylist_file := Some §"d"; fc_audit_log := None;
     fc_tunnel_keepalive := None; fc_acme_email := acme_email; fc_acme_domains := None;
     fc_acme_dir := Some §"acme"; fc_cloudflare_api_token := None; fc_acme_production := None;
     fc_allow_custom_domains := None; fc_custom_domain_allowlist := None;
     fc_tcp_passthrough := Some [§"5432:db:5432"]; fc_geoip_db := None;
     fc_block_countries := None |}.

Definition demo_libraries (https_addr acme_email : option str) : Libraries :=
  {| l_toml := λ _, Some (start_file https_addr acme_email); l_hex_encode := id;
     l_hex_decode := Some; l_from_bytes := Some; l_x25519 := id; l_kem := id;
     l_open_readfile := λ _, None; l_certs := line_certs; l_private_key := line_key;
     l_add_root := λ _, true; l_build_verifier := λ _, true; l_single_cert := λ _ _, true;
     l_self_signed := λ _, Err []; l_base64_decode := λ _, None |}.

Definition start_files (tokens : str) : files := λ p,
  if bool_decide (p = §"/etc/seamless/relay.toml") then Ok []
  else if bool_decide (p = §"t") then Ok tokens
  else if bool_decide (p = §"d") then Ok §"10.0.0.0/8" else Err §"no such file".

(** A server that answers every question about the certificate with not yet. *)
Definition never_issued : issue_io :=
  {| i_mkdir := true; i_read_account := true; i_parse_account := λ _, true;
     i_load_account := true; i_account := Some §"{}"; i_new_order := true;
     i_authorizations := Some [(demo_authz, demo_answers)]; i_statuses := [Some OReady];
     i_key_pem := Some §"new key"; i_params := true; i_csr := true; i_finalize := true;
     i_certificate := replicate 100 (Some None); i_delete := λ _, true;
     i_write := λ _, Wrote; i_now := 1700000000 |}.

(** A save of a small store: create, one write, the end of the text, rename. *)
Definition demo_save : list (bool * nat) :=
  [(true, 0%nat); (true, Z.to_nat 5000); (true, 0%nat); (true, 0%nat)].

Definition demo_boot : boot_io :=
  {| b_args := args_default; b_files := start_files §"tok"; b_home := None; b_store := demo_fs;
     b_generated := §"key pair"; b_save := demo_save; b_readable := true; b_now := 1700000000;
     b_acme := never_issued; b_bind := true |}.

Definition no_certificate : issue_state :=
  {| acme_files := ∅; challenge_tokens := ∅; txt_records := [] |}.

#[local] Existing Instance ascii_only.
#[local] Existing Instance bit_json.
#[local] Existing Instance slice_ct_eq.
#[local] Existing Instance slice_ct_eq_laws.

(** The start of that relay, and the state it runs with. *)
#[local] Instance demo_libs : Libraries := demo_libraries None None.
Definition demo_start := main demo_boot no_certificate.
Definition demo_state : AppState :=
  app_state demo_boot (main_identity demo_boot store_default).1.2 §"key pair"
    {| allowed := Some {[§"tok"]} |}.

Lemma demo_started : demo_start.2 = Ok (demo_state, no_certificate).
Proof. vm_compute. reflexivity. Qed.

Example demo_start_tasks :
  demo_start.1 = [AdminServer (V4 0, 8088, 0) None;
                  PassthroughListener {| listen_port := 5432; backend_host := §"db"; backend_port := 5432 |};
                  HttpIngress (V6 0, 80, 0); PolicyReload; StatsHistory; Shutdown].
Proof. vm_compute. reflexivity. Qed.

Lemma tasks_justified_witness : justified demo_boot (HttpIngress (V6 0, 80, 0)).
Proof.
  apply (tasks_justified demo_boot no_certificate). change (main _ _) with demo_start.
  rewrite demo_start_tasks. right. right. by left.
Defined.


(** Key pairs written in zeros and ones. *)
Definition identity_libs : Libraries :=
  {| l_toml := λ _, Some (start_file None None); l_hex_encode := λ b, pos_text (encode b);
     l_hex_decode := λ s, decode (text_pos s); l_from_bytes := Some; l_x25519 := id; l_kem := id;
     l_open_readfile := λ _, None; l_certs := line_certs; l_private_key := line_key;
     l_add_root := λ _, true; l_build_verifier := λ _, true; l_single_cert := λ _ _, true;
     l_self_signed := λ _, Err []; l_base64_decode := λ _, None |}.

(** Two starts of a relay, the second with another key pair at hand. *)
Definition first_boot : boot_io :=
  {| b_args := args_default; b_files := start_files §"tok"; b_home := None;
     b_store := demo_fs; b_generated := §"k"; b_save := demo_save;
     b_readable := true; b_now := 1700000000; b_acme := never_issued; b_bind := true |}.
Definition second_boot : boot_io :=
  {| b_args := args_default; b_files := start_files §"tok"; b_home := None;
     b_store := main_disk (H2 := identity_libs) first_boot; b_generated := §"l"; b_save := [];
     b_readable := true; b_now := 1700000000; b_acme := never_issued; b_bind := true |}.

Lemma identity_persists_witness :
  match (main (H1 := identity_libs) first_boot no_certificate).2,
        (main (H1 := identity_libs) second_boot no_certificate).2 with
  | Ok (st, _), Ok (st2, _) => s_x25519 st2 = s_x25519 st
  | _, _ => False
  end.
Proof.
  assert (H1 : is_ok (main (H1 := identity_libs) first_boot no_certificate).2 = true)
    by (vm_compute; reflexivity).
  assert (H2 : is_ok (main (H1 := identity_libs) second_boot no_certificate).2 = true)
    by (vm_compute; reflexivity).
  destruct (main first_boot no_certificate).2 as [[st s']|] eqn:E1; [|done].
  destruct (main second_boot no_certificate).2 as [[st2 s2']|] eqn:E2; [|done].
  destruct (identity_persists (H1 := bit_json_laws) (H2 := identity_libs) first_boot no_certificate store_default)
    as (_ & HT & _); [|by intros b; apply utf8_ascii, pos_text_ascii|done|by intros i Hi|done..|constructor|
      reflexivity|].
  - intros b. cbn. by rewrite text_pos_text, decode_encode.
  - destruct (HT st s' E1) as (Hdisk & _ & _ & HT2).
    by destruct (HT2 second_boot no_certificate (s_store st) st2 s2') as (? & _).
Defined.

Definition demo_hello : first_frame := Got (Register 1 (Some §"new") (Http None)).
Definition demo_sighups : Policies :=
  sighups (s_auth_file demo_state) [start_files §"new"; start_files []] (s_policies demo_state).

Lemma admitted_hold_tokens_witness :
  (∃ token fs text, demo_hello = Got (Register PROTOCOL_VERSION (Some token) (Http None))
     ∧ last (filter (loads §"t") [start_files §"tok"; start_files §"new"; start_files []]) = Some fs
     ∧ fs §"t" = Ok text ∧ tokens_of text token)
  ∧ IpDenyList.is_denied (p_denylist demo_sighups) (V4 0xc0000207) = false.
Proof.
  destruct (admission (conn_ctx demo_state demo_sighups (V4 0xc0000207)) demo_hello 0 0 0
              (relay_new (s_rate_limiter demo_state))) as [[w [kind|e]] r'] eqn:E;
    [|vm_compute in E; discriminate].
  assert (Hk : kind = Http None) by (vm_compute in E; congruence). subst kind.
  refine (admitted_hold_tokens demo_boot no_certificate demo_state no_certificate §"t"
    [start_files §"new"; start_files []] (V4 0xc0000207) demo_hello 0 0 0
    (relay_new (s_rate_limiter demo_state)) w (Http None) r' demo_started _ _ _ E);
    [reflexivity|split; [discriminate|reflexivity]|discriminate].
Defined.

Lemma server_loop_handles_witness :
  (server_loop demo_state (s_policies demo_state)
     [Hangup (start_files §"new"); Accepted (V6 1); CtrlC; Accepted (V6 2)]).1
  = [conn_ctx demo_state (sighups (Some §"t") [start_files §"new"] (s_policies demo_state)) (V6 1)].
Proof.
  rewrite (proj1 (server_loop_handles demo_state (s_policies demo_state)
    [Hangup (start_files §"new")] (V6 1) [CtrlC; Accepted (V6 2)] eq_refl)). reflexivity.
Defined.

Lemma acme_holds_start_witness :
  let io := demo_boot in
  let libs := demo_libraries None (Some §"ops@a.example") in
  (main (H1 := libs) io no_certificate).2 = Err Stuck
  ∧ HttpIngress (V6 0, 80, 0) ∈ (main (H1 := libs) io no_certificate).1.
Proof.
  intros io libs.
  destruct (acme_config (main_args (H1 := libs) io) None) as [cfg|] eqn:Ec; [|discriminate].
  destruct (obtain_certificate cfg never_issued no_certificate) as [[w [a|[m|]]] s'] eqn:Eo;
    [injection Ec as <-; vm_compute in Eo; discriminate..|].
  destruct (acme_holds_start (H1 := libs) io no_certificate cfg w s') as (H1 & _ & H3 & _);
    [by vm_compute|reflexivity|exact Ec| |exact Eo|by split].
  injection Ec as <-. reflexivity.
Defined.

Lemma acme_does_not_replace_files_witness :
  is_ok (main (H1 := demo_libraries (Some §"0.0.0.0:443") (Some §"ops@a.example"))
           demo_boot no_certificate).2 = false.
Proof.
  apply (acme_does_not_replace_files (H1 := demo_libraries (Some §"0.0.0.0:443") (Some §"ops@a.example"))
    demo_boot no_certificate (V4 0, 443, 0)); [vm_compute; reflexivity|reflexivity|by left].
Defined.
