(* ===== verification/Listeners.v ===== *)
(** * Listeners: the accept loops, and what they share

    The loops of [ingress.rs], [tunnel.rs] ([run_tcp_listener]),
    [tcp_passthrough.rs], [acme.rs] and [admin.rs] that accept connections, what
    they do when accepting fails, and the composition of those that share state
    in a relay that was started: the Seam port and the passthrough listeners
    share the rate limiter and the deny list, the HTTPS ingress and SIGUSR1 the
    acceptor, the connections of the admin port the state of the relay. *)

From S2P Require Import Prelude Text Json Cidr Addr Codec Policy RateLimit Metrics AuditLog Backends.
From S2P Require Import Tunnel HandleClient Http Store Ingress Cloudflare Admin Passthrough.
From S2P Require Import Acme Router Issuance Config Tls Start.
Local Open Scope Z_scope.

(** ** A loop around [accept] *)

(** [accept().await?] ends the loop with the first error; a loop that logs the
    error and continues does not. *)
Inductive on_error := Propagate | Continue.

(** The tasks spawned, and whether the loop has ended.  [bound] is whether the
    port could be bound at all. *)
Fixpoint accept_loop {A B} (e : on_error) (task : A → B) (accepts : list (option A)) : list B * bool :=
  match accepts with
  | [] => ([], false)
  | Some a :: rest => let '(ts, ended) := accept_loop e task rest in (task a :: ts, ended)
  | None :: rest =>
    match e with
    | Propagate => ([], true)
    | Continue => accept_loop e task rest
    end
  end.
Definition listener {B} (bound : bool) (loop : list B * bool) : list B * bool :=
  if bound then loop else ([], true).

(** [rustls]: the outcome of a handshake with a server so configured, for what
    the client presents: protocol version and cipher suite. *)
Class Handshake := handshake : ServerConfig → str → option (str * str).

(** ** The ingress and the challenge server *)

Section loops.
Context `{Unicode} `{Handshake}.
Implicit Types (st : Start.AppState) (version : str).

(** A connection, and the store at its time. *)
Definition run_http_ingress st version (bound : bool) (accepts : list (option (Store * conn)))
    : list (M unit) * bool :=
  listener bound (accept_loop Propagate
    (λ '(store, c), route_http (ingress_state st store version) c) accepts).

Inductive https_event :=
| HttpsAccept (v : option (Store * conn * str))
| Sigusr1 (fs : files).

(** [hot] is the acceptor, which a connection takes a copy of.  A task is that
    copy with what is done with the connection. *)
Fixpoint https_loop st version (rotate : files → ServerConfig → ServerConfig)
    (hot : ServerConfig) (evs : list https_event) : list (ServerConfig * M unit) * bool :=
  match evs with
  | [] => ([], false)
  | Sigusr1 fs :: rest => https_loop st version rotate (rotate fs hot) rest
  | HttpsAccept None :: _ => ([], true)
  | HttpsAccept (Some (store, c, hello)) :: rest =>
    let '(ts, ended) := https_loop st version rotate hot rest in
    ((hot, https_connection (ingress_state st store version) c (handshake hot hello)) :: ts, ended)
  end.

Definition run_https_ingress `{Libraries} st version (args : Args) (bound : bool)
    (hot : ServerConfig) (evs : list https_event) : list (ServerConfig * M unit) * bool :=
  listener bound (https_loop st version
    (λ fs, sigusr1 l_certs l_private_key l_single_cert l_self_signed fs args) hot evs).

(** The challenge server: the tokens at the time of the request, and its bytes. *)
Definition run_acme_http_server (bound : bool) (accepts : list (option (gmap str str * option str)))
    : list (option str) * bool :=
  listener bound (accept_loop Continue
    (λ '(tokens, read), challenge_response_to tokens read) accepts).

(** The listener of a TCP tunnel, until its session drops the sender. *)
Inductive tcp_event :=
| TcpAccept (v : option (str * bool * option (Z * Z)))
| TcpShutdown.

Fixpoint run_tcp_listener (mux r : nat) (evs : list tcp_event) : list (M unit) * bool :=
  match evs with
  | [] => ([], false)
  | TcpShutdown :: _ => ([], true)
  | TcpAccept None :: rest => run_tcp_listener mux r rest
  | TcpAccept (Some (peer, preamble_ok, copied)) :: rest =>
    let '(ts, ended) := run_tcp_listener mux r rest in
    (tcp_accept peer preamble_ok copied mux r :: ts, ended)
  end.
End loops.

(** ** The front: Seam clients and passthrough connections *)

(** One run of the accept loop of a passthrough listener; [None] is an error of
    [accept]. *)
Definition passthrough_accept `{Unicode} (cfg : TcpPassthroughConfig) (dl : IpDenyList.IpDenyList)
    (geo : GeoipFilter) (peer : option socket_addr) (now instant : Z)
    (rl : RateLimiter.RateLimiter) : list effect * decision * RateLimiter.RateLimiter :=
  match peer with
  | None => ([], Dropped, rl)
  | Some peer =>
    accept cfg dl geo peer.1.1 (show_socket_addr peer) (show_ip peer.1.1) now instant rl
  end.

(** What happens, in the order in which the limiter is asked: a Seam client, a
    connection of a passthrough listener, a SIGHUP; [Meanwhile r] stands for all
    that changes the rest of the relay's state. *)
Inductive front_event :=
| SeamClient (remote : ip_addr) (first : first_frame) (now handshake_ms instant : Z)
| PassthroughConn (cfg : TcpPassthroughConfig) (peer : option socket_addr) (now instant : Z)
| Sighup (fs : files)
| Meanwhile (r : Relay).

(** What was let through. *)
Inductive grant :=
| Registering (remote : ip_addr) (instant : Z)
| Forwarding (cfg : TcpPassthroughConfig) (peer : socket_addr) (instant : Z).
Definition grant_ip (g : grant) : ip_addr :=
  match g with Registering ip _ => ip | Forwarding _ peer _ => peer.1.1 end.
Definition grant_instant (g : grant) : Z :=
  match g with Registering _ t | Forwarding _ _ t => t end.

Section front.
Context `{Unicode} `{ConstantTimeEq}.
Implicit Types (st : Start.AppState) (p : Policies) (r : Relay).

Definition front_step st p r (ev : front_event) : list grant * Policies * Relay :=
  match ev with
  | SeamClient remote first now handshake_ms instant =>
    match enter (conn_ctx st p remote) first now handshake_ms instant r with
    | (_, Ok _, r') => ([Registering remote instant], p, r')
    | (_, Err _, r') => ([], p, r')
    end
  | PassthroughConn cfg peer now instant =>
    match passthrough_accept cfg (p_denylist p) (s_geoip st) peer now instant (rate_limiter r), peer with
    | (_, Forwarded, rl), Some peer => ([Forwarding cfg peer instant], p, set_rate_limiter rl r)
    | (_, _, rl), _ => ([], p, set_rate_limiter rl r)
    end
  | Sighup fs => ([], sighup fs (s_auth_file st) p, r)
  | Meanwhile r' => ([], p, set_rate_limiter (rate_limiter r) r')
  end.

Fixpoint front_run st p r (evs : list front_event) : list grant :=
  match evs with
  | [] => []
  | ev :: rest =>
    let '(gs, p', r') := front_step st p r ev in gs ++ front_run st p' r' rest
  end.
End front.

(** ** The admin port *)

(** A connection is accepted, or fails to be, with its peer, whether the service
    for it could be made, and what the client presents; a request comes in on
    the [k]th connection that was established.  Without TLS the connections are
    axum's. *)
Inductive admin_event :=
| AdminConn (v : option (socket_addr * bool * str))
| AdminRequest (k : nat) (io : admin_io) (r : http_request).

(** A request with the connection it came in on, and what was done about it. *)
Record exchange := {
  x_peer : socket_addr;
  x_hello : str;
  x_io : admin_io;
  x_request : http_request;
  x_before : World;
  x_effects : list effect;
  x_response : option response;
  x_after : World;
}.

Section admin.
Context `{Unicode} `{JsonFile} `{ConstantTimeEq} `{Axum} `{Handshake}.

(** The connections that are up, with what their clients presented. *)
Definition admin_accept (tls : option ServerConfig) (v : option (socket_addr * bool * str))
    (conns : list (socket_addr * str)) : list (socket_addr * str) :=
  match v, tls with
  | None, _ => conns
  | Some (peer, _, hello), None => conns ++ [(peer, hello)]
  | Some (peer, made, hello), Some acceptor =>
    if made
    then match handshake acceptor hello with
         | Some _ => conns ++ [(peer, hello)]
         | None => conns
         end
    else conns
  end.

Fixpoint serve_admin (cfg : AdminConfig) (tls : option ServerConfig)
    (conns : list (socket_addr * str)) (w : World) (evs : list admin_event) : list exchange :=
  match evs with
  | [] => []
  | AdminConn v :: rest => serve_admin cfg tls (admin_accept tls v conns) w rest
  | AdminRequest k io r :: rest =>
    match conns !! k with
    | None => serve_admin cfg tls conns w rest
    | Some (peer, hello) =>
      let '(es, resp, w') := service cfg io peer.1.1 r w in
      {| x_peer := peer; x_hello := hello; x_io := io; x_request := r; x_before := w;
         x_effects := es; x_response := resp; x_after := w' |}
      :: serve_admin cfg tls conns w' rest
    end
  end.

(** [start_admin] *)
Definition start_admin (st : Start.AppState) (version : str) (tls : option ServerConfig)
    (bound : bool) (w : World) (evs : list admin_event) : list exchange :=
  if bound then serve_admin (admin_config st version) tls [] w evs else [].
End admin.

(** ** Lemmas: the limiter of the front *)

Section limit.
Context `{Unicode} `{JsonFile} `{Libraries} `{ConstantTimeEq}.
Implicit Types (st : Start.AppState) (p : Policies) (r : Relay) (rl : RateLimiter.RateLimiter).

(** A client is let in exactly when the limiter says so, if it is asked. *)
Lemma enter_limiter ctx first now handshake_ms instant r :
  let '(_, res, r') := enter ctx first now handshake_ms instant r in
  is_ok res = false ∧ rate_limiter r' = rate_limiter r
  ∨ RateLimiter.check_and_record (rate_limiter r) (client_ip ctx) instant
    = (is_ok res, rate_limiter r').
Proof.
  unfold enter. rewrite bind_run, deny_run. destruct (denied ctx); [by left|].
  rewrite bind_run. destruct first as [| | | |f]; try by left.
  destruct f as [version token kind| | | |]; try by left.
  cbn [frame_stage]. destruct (negb (version =? PROTOCOL_VERSION)).
  { rewrite reject_run. by left. }
  cbn [mret M_ret]. unfold auth_stage. rewrite bind_run.
  destruct (auth_check (auth ctx) token) as [[]|[]]; [|rewrite reject_run; by left..].
  cbn [Tunnel.perform]. rewrite bind_run. unfold rate_stage.
  destruct (RateLimiter.check_and_record _ _ _) as [[] rl]; [by right|]. rewrite reject_run. by right.
Qed.

Lemma accept_limiter cfg dl geo ip peer text now instant rl :
  let '(_, d, rl') := accept cfg dl geo ip peer text now instant rl in
  d = Dropped ∧ rl' = rl
  ∨ RateLimiter.check_and_record rl text instant
    = (match d with Forwarded => true | Dropped => false end, rl')
    ∧ IpDenyList.is_denied dl ip = false ∧ (geo_is_blocked geo ip 0).1 = false.
Proof.
  unfold accept. destruct (IpDenyList.is_denied dl ip); [by left|].
  destruct (country_code geo ip), (geo_is_blocked geo ip 0).1; try by left.
  all: destruct (RateLimiter.check_and_record rl text instant) as [[] rl'] eqn:E; by right.
Qed.

(** The grants as the limiter knows them, and the instants at which it may be
    asked. *)
Definition grant_call (g : grant) : str * Z := (show_ip (grant_ip g), grant_instant g).
Definition asked (ev : front_event) : option Z :=
  match ev with
  | SeamClient _ _ _ _ t | PassthroughConn _ _ _ t => Some t
  | _ => None
  end.
Definition addresses_wf (ev : front_event) : Prop :=
  match ev with
  | SeamClient ip _ _ _ _ => ip_wf ip
  | PassthroughConn _ (Some peer) _ _ => ip_wf peer.1.1
  | _ => True
  end.

(** One step: it asks the limiter at most once, and grants what that allows. *)
Lemma front_step_limiter st p r ev :
  let '(gs, _, r') := front_step st p r ev in
  gs = [] ∧ rate_limiter r' = rate_limiter r
  ∨ ∃ text t ok, asked ev = Some t
    ∧ RateLimiter.check_and_record (rate_limiter r) text t = (ok, rate_limiter r')
    ∧ grant_call <$> gs = if ok then [(text, t)] else [].
Proof.
  destruct ev as [remote first now ms t|cfg peer now t|fs|r0]; cbn [front_step]; [| |by left..].
  - pose proof (enter_limiter (conn_ctx st p remote) first now ms t r) as He.
    destruct (enter _ _ _ _ _ _) as [[w res] r'].
    destruct res as [k|e]; destruct He as [[? He]|He]; try done; try (by left);
      right; eexists _, t, _; split_and!; try done; exact He.
  - unfold passthrough_accept. destruct peer as [peer|]; [|by left].
    pose proof (accept_limiter cfg (p_denylist p) (s_geoip st) peer.1.1 (show_socket_addr peer)
      (show_ip peer.1.1) now t (rate_limiter r)) as Ha.
    destruct (accept _ _ _ _ _ _ _ _ _) as [[es d] rl].
    destruct d; destruct Ha as [[? ->]|(Ha & _)]; try done; try (by left; destruct r);
      right; by eexists _, t, _.
Qed.

(** A run: its grants are the admitted calls of one series of calls to the
    limiter, made at instants of the run. *)
Lemma front_run_calls st p r evs :
  ∃ calls, grant_call <$> front_run st p r evs
           = RateLimiter.admitted calls (RateLimiter.run (rate_limiter r) calls).1
           ∧ sublist (calls.*2) (omap asked evs).
Proof.
  revert p r. induction evs as [|ev evs IH]; intros p r; [by exists []|].
  cbn [front_run omap list_omap]. pose proof (front_step_limiter st p r ev) as Hs.
  destruct (front_step st p r ev) as [[gs p'] r']. destruct (IH p' r') as (calls & Hg & Hsub).
  destruct Hs as [[-> E]|(text & t & ok & -> & Hc & Hgs)].
  - exists calls. rewrite <-E. split; [done|]. destruct (asked ev); [by constructor|done].
  - exists ((text, t) :: calls). rewrite fmap_app, Hgs, Hg. cbn [RateLimiter.run].
    rewrite Hc. destruct (RateLimiter.run _ calls) as [oks rl]. cbn [fst RateLimiter.admitted].
    split; [by destruct ok|]. by constructor.
Qed.

Lemma front_run_addresses st p r evs :
  Forall addresses_wf evs → Forall (λ g, ip_wf (grant_ip g)) (front_run st p r evs).
Proof.
  intros Hwf. revert p r. induction Hwf as [|ev evs Hev _ IH]; intros p r; [constructor|].
  cbn [front_run]. destruct (front_step st p r ev) as [[gs p'] r'] eqn:E.
  apply Forall_app. split; [|apply IH].
  destruct ev as [remote first now ms t|cfg [peer|] now t|fs|r0]; cbn [front_step] in E;
    repeat case_match; simplify_eq; repeat constructor; done.
Qed.

(** The instants of the grants of an address are those the limiter recorded
    under its text. *)
Lemma grant_times ip gs :
  ip_wf ip → Forall (λ g, ip_wf (grant_ip g)) gs →
  grant_instant <$> filter (λ g, grant_ip g = ip) gs
  = RateLimiter.admitted_times (show_ip ip) (grant_call <$> gs).
Proof.
  intros Hip. unfold RateLimiter.admitted_times.
  induction 1 as [|g gs Hg _ IH]; [done|]. rewrite fmap_cons, !filter_cons. cbn [grant_call fst].
  destruct (decide (grant_ip g = ip)) as [E|E].
  - rewrite decide_True by by rewrite E. rewrite !fmap_cons. by f_equal.
  - rewrite decide_False; [done|]. contradict E. by apply show_ip_inj.
Qed.

Lemma StronglySorted_sublist (l k : list Z) :
  sublist l k → StronglySorted Z.le k → StronglySorted Z.le l.
Proof.
  intros Hs. induction Hs as [|x l k Hs IH|x l k Hs IH]; intros Hk; [done|..];
    apply StronglySorted_inv in Hk as [Hk Hall]; [|by apply IH].
  constructor; [by apply IH|]. by rewrite Forall_forall in *; eauto using elem_of_sublist.
Qed.

(** C9: One budget for an address, however it comes.  In a relay that was
    started, of everything that is let in for an address, registrations on the
    Seam port and connections of all passthrough listeners together, any two that
    are [--rate-limit] apart are at least a minute apart in time; reloads and
    whatever the rest of the relay does in between change nothing about it, and
    no other address counts towards it. *)
Theorem one_budget_per_address io s st s' p ip evs i a b :
  (main io s).2 = Ok (st, s') → 0 < ar_rate_limit (main_args io) →
  ip_wf ip → Forall addresses_wf evs → Sorted Z.le (omap asked evs) →
  Z.of_nat (length evs) < 2 ^ 32 →
  let times := grant_instant <$> filter (λ g, grant_ip g = ip)
                 (front_run st p (relay_new (s_rate_limiter st)) evs) in
  times !! i = Some a → times !! (i + Z.to_nat (ar_rate_limit (main_args io)))%nat = Some b →
  60000000000 ≤ b - a.
Proof.
  intros Hm Hmax Hip Hwf Hs Hlen times Ha Hb.
  apply main_Ok in Hm as (id & store & auth & _ & Hst).
  unfold times in *. rewrite grant_times in Ha, Hb by auto using front_run_addresses.
  destruct (front_run_calls st p (relay_new (s_rate_limiter st)) evs) as (calls & Hg & Hsub).
  rewrite Hg in Ha, Hb. cbn [relay_new rate_limiter] in Ha, Hb. rewrite Hst in Ha, Hb.
  cbn [app_state s_rate_limiter] in Ha, Hb.
  apply (run_spaced (ar_rate_limit (main_args io)) 60000000000 calls (show_ip ip) i a b);
    [done|done| | |done|done].
  - apply StronglySorted_Sorted. eapply StronglySorted_sublist; [done|].
    apply Sorted_StronglySorted; [intros ???; lia|done].
  - apply sublist_length in Hsub. rewrite length_fmap in Hsub.
    assert (length (omap asked evs) ≤ length evs)%nat; [|lia].
    clear. induction evs as [|ev evs IH]; [done|]. cbn [omap list_omap length].
    destruct (asked ev); simpl; lia.
Qed.

(** The reloads among some events. *)
Definition reloads_of (evs : list front_event) : list files :=
  omap (λ ev, match ev with Sighup fs => Some fs | _ => None end) evs.

Lemma front_run_policies st p r evs cfg peer t :
  Forwarding cfg peer t ∈ front_run st p r evs →
  ∃ pre now post, evs = pre ++ PassthroughConn cfg (Some peer) now t :: post
  ∧ IpDenyList.is_denied (p_denylist (sighups (s_auth_file st) (reloads_of pre) p)) peer.1.1 = false
  ∧ (geo_is_blocked (s_geoip st) peer.1.1 0).1 = false.
Proof.
  revert p r. induction evs as [|ev evs IH]; intros p r; [intros []%elem_of_nil|].
  cbn [front_run]. destruct (front_step st p r ev) as [[gs p'] r'] eqn:E.
  intros [Hin|Hin]%elem_of_app.
  - exists []. destruct ev as [remote first now ms t'|cfg' [peer'|] now t'|fs|r0];
      cbn [front_step] in E.
    1, 3-5: repeat case_match; simplify_eq; rewrite ?elem_of_nil, ?list_elem_of_singleton in Hin; done.
    cbn [passthrough_accept] in E.
    pose proof (accept_limiter cfg' (p_denylist p) (s_geoip st) peer'.1.1 (show_socket_addr peer')
      (show_ip peer'.1.1) now t' (rate_limiter r)) as Ha.
    destruct (accept _ _ _ _ _ _ _ _ _) as [[es []] rl]; simplify_eq.
    { by apply elem_of_nil in Hin. }
    apply list_elem_of_singleton in Hin as [= <- <- <-]. exists now, evs. split; [done|].
    by destruct Ha as [[? _]|(_ & ? & ?)].
  - destruct (IH p' r' Hin) as (pre & now & post & -> & Hd & Hgeo).
    exists (ev :: pre), now, post. split; [done|]. split; [|done].
    destruct ev as [remote first now' ms t'|cfg' peer' now' t'|fs|r0]; cbn [front_step] in E;
      repeat case_match; simplify_eq; done.
Qed.

(** No passthrough connection gets round the filters.  What a started relay
    forwards to a backend comes from an address that is in no block of the
    deny list as last reloaded before it, nor in a blocked country; and it was
    accepted for that rule. *)
Theorem forwarded_passed_filters io s st s' evs cfg peer t :
  (main io s).2 = Ok (st, s') →
  Forwarding cfg peer t ∈ front_run st (s_policies st) (relay_new (s_rate_limiter st)) evs →
  ∃ pre now post, evs = pre ++ PassthroughConn cfg (Some peer) now t :: post
  ∧ IpDenyList.is_denied
      (p_denylist (sighups (ar_auth_file (main_args io)) (reloads_of pre) (s_policies st)))
      peer.1.1 = false
  ∧ (geo_is_blocked (main_geoip (main_args io)) peer.1.1 0).1 = false.
Proof.
  intros (id & store & auth & _ & ->)%main_Ok Hin. by apply front_run_policies in Hin.
Qed.
End limit.

(** ** Errors of [accept] *)

Lemma accept_loop_stops {A B} (task : A → B) ok post :
  accept_loop Propagate task ((Some <$> ok) ++ None :: post) = (task <$> ok, true).
Proof. induction ok as [|a ok IH]; [done|]. rewrite fmap_cons. cbn. by rewrite IH. Qed.

Lemma accept_loop_goes_on {A B} (task : A → B) accepts :
  accept_loop Continue task accepts = (task <$> omap id accepts, false).
Proof. induction accepts as [|[a|] l IH]; [done|cbn; by rewrite IH|done]. Qed.

Definition https_good (ev : https_event) : bool :=
  match ev with HttpsAccept None => false | _ => true end.
Definition tcp_good (ev : tcp_event) : bool := match ev with TcpAccept None => false | _ => true end.
Definition front_good (ev : front_event) : bool :=
  match ev with PassthroughConn _ None _ _ => false | _ => true end.

Lemma https_loop_prefix `{Unicode} `{Handshake} st version rotate hot pre post :
  forallb https_good pre = true →
  let signals := omap (λ ev, match ev with Sigusr1 fs => Some fs | _ => None end) pre in
  https_loop st version rotate hot (pre ++ post)
  = let '(ts, ended) := https_loop st version rotate (foldl (λ h fs, rotate fs h) hot signals) post in
    ((https_loop st version rotate hot pre).1 ++ ts, ended).
Proof.
  cbv zeta. revert hot. induction pre as [|ev pre IH]; intros hot Hpre.
  - cbn. by destruct (https_loop _ _ _ hot post).
  - cbn [forallb] in Hpre. apply andb_true_iff in Hpre as [Hev Hpre].
    destruct ev as [[[[store c] hello]|]|fs]; [|done|by apply IH].
    cbn [app https_loop]. rewrite IH by done. cbn [omap list_omap].
    destruct (https_loop _ _ _ hot pre) as [t1 b1]. by destruct (https_loop _ _ _ _ post).
Qed.

(** C28: Which listeners outlive an error of [accept].  The first one ends the
    HTTP and the HTTPS ingress for good: the connections before it are served,
    those after it never, for nothing starts the tasks again.  A tunnel's TCP
    listener, the passthrough listeners and the challenge server go on as if
    nothing had happened. *)
Theorem accept_error_ends_ingress `{Unicode} `{Handshake} `{Libraries} `{ConstantTimeEq}
    st version args hot p r m n ok post pre https_post evs tcps challenges :
  (run_http_ingress st version true ((Some <$> ok) ++ None :: post)
   = ((λ '(store, c), route_http (ingress_state st store version) c) <$> ok, true))
  ∧ (forallb https_good pre = true →
     run_https_ingress st version args true hot (pre ++ HttpsAccept None :: https_post)
     = ((run_https_ingress st version args true hot pre).1, true))
  ∧ run_tcp_listener m n tcps = run_tcp_listener m n (filter (λ ev, tcp_good ev = true) tcps)
  ∧ front_run st p r evs = front_run st p r (filter (λ ev, front_good ev = true) evs)
  ∧ run_acme_http_server true challenges
    = ((λ '(tokens, read), challenge_response_to tokens read) <$> omap id challenges, false).
Proof.
  split; [apply accept_loop_stops|]. split; [|split; [|split]].
  - intros Hpre. unfold run_https_ingress, listener. rewrite https_loop_prefix by done.
    cbn [https_loop]. by rewrite app_nil_r.
  - induction tcps as [|[[[[peer ok'] copied]|]|] tcps IH]; [done|..]; rewrite filter_cons; cbn;
      try done; by rewrite IH.
  - revert p r. induction evs as [|ev evs IH]; intros p r; [done|]. rewrite filter_cons.
    case_decide as Hg; cbn [front_run].
    + destruct (front_step st p r ev) as [[gs p'] r']. by rewrite IH.
    + destruct ev as [| cfg [peer|] now t| |]; try done. cbn [front_step passthrough_accept].
      rewrite IH. by destruct r.
  - apply accept_loop_goes_on.
Qed.

(** ** The certificates the ingress presents *)

Section certificates.
Context `{Unicode} `{JsonFile} `{Libraries} `{Handshake}.

Definition signals_of (evs : list https_event) : list files :=
  omap (λ ev, match ev with Sigusr1 fs => Some fs | _ => None end) evs.

(** C16: A client of the HTTPS ingress meets the certificate of its moment.  The
    ingress a start has spawned serves every connection, until accepting fails,
    with the acceptor of the last moment, the start or a SIGUSR1 before the
    connection, at which the files gave one: there always is one, and neither a
    broken file nor an earlier connection can take it away. *)
Theorem https_presents_last_good io s addr hot st version pre store c hello post :
  HttpsIngress addr hot ∈ (main io s).1 → forallb https_good pre = true →
  let run := run_https_ingress st version (main_args io) true in
  ∃ conf, last (omap (built l_certs l_private_key l_single_cert l_self_signed (main_args io))
                  (b_files io :: signals_of pre)) = Some conf
  ∧ (run hot (pre ++ HttpsAccept (Some (store, c, hello)) :: post)).1
    = (run hot pre).1
      ++ (conf, https_connection (ingress_state st store version) c (handshake conf hello))
      :: (run conf post).1.
Proof.
  intros Hin Hpre run. apply main_tasks in Hin as (_ & _ & _ & _ & Haddr & Hbase).
  pose proof (rotations_last_good l_certs l_private_key l_single_cert l_self_signed (main_args io)
    (b_files io) (signals_of pre) hot) as Hlast. rewrite Haddr in Hlast.
  eexists. split; [apply Hlast; [by eexists|exact Hbase]|].
  unfold run, run_https_ingress, listener. rewrite https_loop_prefix by done.
  cbn [https_loop]. unfold rotations, signals_of.
  set (conf := foldl _ _ _). set (rest := https_loop _ _ _ _ post).
  by destruct rest.
Qed.
End certificates.

(** ** Who gets to the admin interface *)

(** [rustls]: with client authentication a handshake succeeds only for a
    certificate that one of the roots has signed. *)
Class HandshakeLaws `{Handshake} := {
  signed_by : str → str → Prop;
  handshake_signed conf hello roots :
    sc_client_auth conf = Some roots → is_Some (handshake conf hello) →
    ∃ root, root ∈ roots ∧ signed_by root hello;
}.

Section gate.
Context `{Unicode} `{JsonFile} `{Libraries} `{ConstantTimeEqLaws} `{Axum} `{HandshakeLaws}.

(** What holds of every exchange of the port: its connection came through the
    handshake, and the answer is that of [service]. *)
Definition exchanged (cfg : AdminConfig) (tls : option ServerConfig) (x : exchange) : Prop :=
  (∀ conf, tls = Some conf → is_Some (handshake conf (x_hello x)))
  ∧ service cfg (x_io x) (x_peer x).1.1 (x_request x) (x_before x)
    = (x_effects x, x_response x, x_after x).

Lemma serve_admin_exchanged cfg tls conns w evs :
  Forall (λ c, ∀ conf, tls = Some conf → is_Some (handshake conf c.2)) conns →
  Forall (exchanged cfg tls) (serve_admin cfg tls conns w evs).
Proof.
  revert conns w. induction evs as [|[v|k io r] evs IH]; intros conns w Hc; [done|..].
  - cbn [serve_admin]. apply IH. unfold admin_accept. destruct v as [[[peer made] hello]|]; [|done].
    destruct tls as [acceptor|]; [|by apply Forall_app; repeat constructor].
    destruct made; [|done]. destruct (handshake acceptor hello) eqn:E; [|done].
    apply Forall_app; split; [done|]. constructor; [|done]. intros conf [= <-]. cbn [snd]. rewrite E. by eexists.
  - cbn [serve_admin]. destruct (conns !! k) as [[peer hello]|] eqn:Ek; [|by apply IH].
    destruct (service cfg io peer.1.1 r w) as [[es resp] w'] eqn:Es.
    constructor; [|by apply IH]. split; [|exact Es].
    exact (Forall_lookup_1 _ _ _ _ Hc Ek).
Qed.

(** C8: The admin port is guarded three times.  In a relay whose configuration
    has a certificate, a client authority and a token for the admin port,
    whatever else is in it: every HTTP request that is answered at all, whatever
    its method, path and headers, came over a connection whose client holds a
    certificate signed by a root of that file.  And either it did nothing,
    changed nothing and was told nothing, its answer being the same whatever the
    relay and the store hold, as for a preflight, a request from outside or
    one that is no operation; or it is an operation asked for from an address that
    [--admin-allow-cidr] lets in, and, if it is one of those for holders of the
    token, with exactly that token. *)
Theorem admin_gate io s st cfgs tls' addr tls cert key ca tok version bound w evs x :
  (prepared io).2 = Ok (st, cfgs, tls') → AdminServer addr tls ∈ (main io s).1 →
  ar_admin_tls_cert (main_args io) = Some cert → ar_admin_tls_key (main_args io) = Some key →
  ar_admin_client_ca (main_args io) = Some ca →
  ar_admin_token (main_args io) = Some tok → forallb visible_ascii tok = true →
  x ∈ start_admin st version tls bound w evs →
  (∀ v4, (x_peer x).1.1 = V4 v4 → 0 ≤ v4 < 2 ^ 32) →
  (∃ pem roots root, b_files io ca = Ok pem ∧ l_certs pem = Some roots ∧ root ∈ roots
     ∧ signed_by root (x_hello x))
  ∧ (x_effects x = [] ∧ x_after x = x_before x
     ∧ (∀ w0, service (admin_config st version) (x_io x) (x_peer x).1.1 (x_request x) w0
              = ([], x_response x, w0))
     ∨ admits (ar_admin_allow_cidr (main_args io)) (x_peer x).1.1
       ∧ ∃ req, routed_to (x_request x) = Operation req
         ∧ (needs_token req = true → hr_authorization (x_request x) = Some (§"Bearer " ++ tok))).
Proof.
  intros Hprep Hin Hcert Hkey Hca Htok Hvis Hx Hip.
  apply main_tasks in Hin as (_ & _ & _ & _ & _ & Htls).
  destruct (prepared io) as [wr res] eqn:Ep. cbn [snd] in Hprep. subst res.
  apply prepared_Ok in Ep as (i & store & auth & _ & _ & _ & _ & ->).
  destruct (admin_acceptor_strict l_certs l_private_key l_add_root l_build_verifier l_single_cert
    (b_files io) (main_args io) cert key tls Hcert Hkey Htls)
    as (cp & kp & conf & -> & _ & _ & _ & Hauth).
  rewrite Hca in Hauth. destruct Hauth as (pem & roots & Hpem & Hroots & _ & Hauth).
  unfold start_admin in Hx. destruct bound; [|by apply elem_of_nil in Hx].
  assert (Hall := serve_admin_exchanged (admin_config (app_state io store i auth) version)
    (Some conf) [] w evs (Forall_nil_2 _)).
  rewrite Forall_forall in Hall. destruct (Hall x Hx) as [Hhs Hserve]. split.
  - destruct (handshake_signed conf (x_hello x) roots Hauth (Hhs conf eq_refl)) as (root & ? & ?).
    by exists pem, roots, root.
  - destruct (let_through (admin_config (app_state io store i auth) version) (x_io x)
      (x_peer x).1.1 (x_request x) tok (ar_admin_allow_cidr (main_args io))) as
      [(status & body & Hb)|(_ & ? & ?)]; [done..| |by right].
    left. rewrite Hb in Hserve. injection Hserve as <- Hresp <-. split_and!; try done.
    intros w0. by rewrite Hb, Hresp.
Qed.
End gate.

(** ** Witnesses *)

(** A relay with a certificate on both ports, a client authority and a token
    for the admin port, one connection a minute and a deny list. *)
Definition guarded_file : FileConfig :=
  {| fc_seam_addr := None; fc_http_addr := None; fc_admin_addr := Some §"[::]:8443";
     fc_base_domain := Some §"a.example"; fc_store := None; fc_log_level := None;
     fc_log_format := None; fc_cipher := None; fc_max_tunnels_per_ip := None;
     fc_rate_limit := Some 1; fc_max_tunnels := None; fc_tls_self_signed := None;
     fc_auth_file := None; fc_admin_token := Some §"secret";
     fc_https_addr := Some §"0.0.0.0:443"; fc_tls_cert := Some §"c"; fc_tls_key := Some §"k";
     fc_webhook_url := None; fc_admin_allow_cidr := Some §"10.0.0.0/8";
     fc_admin_tls_cert := Some §"c"; fc_admin_tls_key := Some §"k";
     fc_admin_client_ca := Some §"ca"; fc_reserved_subdomains := None;
     fc_subdomain_prefix := None; fc_subdomain_length := None; fc_tunnel_max_age := None;
     fc_max_body_size := None; fc_blocklist_file := None; fc_ip_denylist_file := Some §"d";
     fc_audit_log := None; fc_tunnel_keepalive := None; fc_acme_email := None;
     fc_acme_domains := None; fc_acme_dir := None; fc_cloudflare_api_token := None;
     fc_acme_production := None; fc_allow_custom_domains := None;
     fc_custom_domain_allowlist := None; fc_tcp_passthrough := Some [§"5432:db:5432"];
     fc_geoip_db := None; fc_block_countries := None |}.

Definition guarded_files (cert denied : str) : files := λ p,
  if bool_decide (p = §"/etc/seamless/relay.toml") then Ok []
  else if bool_decide (p = §"d") then Ok denied
  else tls_files cert p.

Definition guarded_boot : boot_io :=
  {| b_args := args_default; b_files := guarded_files §"cert" §"192.0.2.0/24"; b_home := None;
     b_store := demo_fs; b_generated := §"key pair"; b_save := demo_save; b_readable := true;
     b_now := 0; b_acme := never_issued; b_bind := true |}.

#[local] Existing Instance ascii_only.
#[local] Existing Instance bit_json.
#[local] Existing Instance slice_ct_eq.
#[local] Existing Instance slice_ct_eq_laws.
#[local] Existing Instance demo_axum.

#[local] Instance guarded_libs : Libraries :=
  {| l_toml := λ _, Some guarded_file; l_hex_encode := id; l_hex_decode := Some;
     l_from_bytes := Some; l_x25519 := id; l_kem := id; l_open_readfile := λ _, None;
     l_certs := line_certs; l_private_key := line_key; l_add_root := λ _, true;
     l_build_verifier := λ _, true; l_single_cert := λ _ _, true; l_self_signed := λ _, Err [];
     l_base64_decode := λ _, None |}.

(** A client presents the name of the root it was signed by. *)
#[local] Instance demo_handshake : Handshake := λ conf hello,
  match sc_client_auth conf with
  | Some roots => if bool_decide (hello ∈ roots) then Some (§"TLSv1_3", §"TLS13_AES_128_GCM_SHA256")
                  else None
  | None => Some (§"TLSv1_3", §"TLS13_AES_128_GCM_SHA256")
  end.
#[local] Instance demo_handshake_laws : HandshakeLaws.
Proof.
  refine {| signed_by := eq |}. intros conf hello roots Ha Hs. unfold handshake, demo_handshake in Hs.
  rewrite Ha in Hs. case_bool_decide; [by eexists|by destruct Hs].
Defined.

Definition guarded_state : Start.AppState :=
  app_state guarded_boot (main_identity guarded_boot store_default).1.2 §"key pair" auth_open.

Lemma guarded_started : (main guarded_boot no_certificate).2 = Ok (guarded_state, no_certificate).
Proof. vm_compute. reflexivity. Qed.

(** A registration, a connection refused for want of budget, an error, a denied
    address, and a connection a minute after the registration. *)
Definition rule : TcpPassthroughConfig :=
  {| listen_port := 5432; backend_host := §"db"; backend_port := 5432 |}.
Definition demo_front : list front_event :=
  [SeamClient (V4 0x0a000001) (Got (Register 1 None (Http None))) 0 0 0;
   PassthroughConn rule (Some (V4 0x0a000001, 4000, 0)) 1 1000000000;
   PassthroughConn rule None 1 1000000000;
   PassthroughConn rule (Some (V4 0xc0000201, 4000, 0)) 2 2000000000;
   Sighup (guarded_files §"cert" §"198.51.100.0/24");
   PassthroughConn rule (Some (V4 0xc0000201, 4000, 0)) 3 3000000000;
   PassthroughConn rule (Some (V4 0x0a000001, 4001, 0)) 60 60000000000].

Example demo_front_run :
  front_run guarded_state (s_policies guarded_state) (relay_new (s_rate_limiter guarded_state))
    demo_front
  = [Registering (V4 0x0a000001) 0; Forwarding rule (V4 0xc0000201, 4000, 0) 3000000000;
     Forwarding rule (V4 0x0a000001, 4001, 0) 60000000000].
Proof. vm_compute. reflexivity. Qed.

Lemma one_budget_per_address_witness : 60000000000 ≤ 60000000000 - 0.
Proof.
  apply (one_budget_per_address guarded_boot no_certificate guarded_state no_certificate
    (s_policies guarded_state) (V4 0x0a000001) demo_front 0 0 60000000000 guarded_started);
    [reflexivity|by split| |by apply (bool_decide_unpack _)|reflexivity|
     rewrite demo_front_run; reflexivity..].
  repeat constructor; discriminate.
Defined.

Lemma forwarded_passed_filters_witness :
  ∃ pre now post, demo_front = pre ++ PassthroughConn rule (Some (V4 0xc0000201, 4000, 0)) now
                                     3000000000 :: post.
Proof.
  destruct (forwarded_passed_filters guarded_boot no_certificate guarded_state no_certificate
    demo_front rule (V4 0xc0000201, 4000, 0) 3000000000 guarded_started)
    as (pre & now & post & E & _); [|by exists pre, now, post].
  rewrite demo_front_run. right. by left.
Defined.

Lemma guarded_admin_acceptor :
  main_admin_tls guarded_boot
  = Ok (Some {| sc_versions := [TLS13]; sc_client_auth := Some [§"root"]; sc_certs := [§"cert"];
                sc_key := §"key" |}).
Proof. vm_compute. reflexivity. Qed.

Definition guarded_task : task :=
  AdminServer (V6 0, 8443, 0)
    (Some {| sc_versions := [TLS13]; sc_client_auth := Some [§"root"]; sc_certs := [§"cert"];
             sc_key := §"key" |}).

Definition demo_https_conn : Store * conn * str :=
  (store_default, demo_conn §"GET / HTTP/1.1", §"hello").
Definition demo_acceptor (cert : str) : ServerConfig :=
  {| sc_versions := [TLS13]; sc_client_auth := None; sc_certs := [cert]; sc_key := §"key" |}.

Lemma guarded_tasks :
  (main guarded_boot no_certificate).1
  = [guarded_task; PassthroughListener rule; HttpIngress (ar_http_addr (main_args guarded_boot));
     CertRotation; HttpsIngress (V4 0, 443, 0) (demo_acceptor §"cert"); PolicyReload; StatsHistory;
     Shutdown].
Proof. vm_compute. reflexivity. Qed.

(** Two SIGUSR1, one with new files and one with broken ones. *)
Lemma https_presents_last_good_witness :
  ∃ conf, sc_certs conf = [§"new"]
  ∧ (run_https_ingress guarded_state §"1.0" (main_args guarded_boot) true (demo_acceptor §"cert")
       [Sigusr1 (guarded_files §"new" []); Sigusr1 (guarded_files [] []);
        HttpsAccept (Some demo_https_conn)]).1
    = [(conf, https_connection (ingress_state guarded_state store_default §"1.0")
                (demo_conn §"GET / HTTP/1.1") (handshake conf §"hello"))].
Proof.
  destruct (https_presents_last_good guarded_boot no_certificate (V4 0, 443, 0)
    (demo_acceptor §"cert") guarded_state §"1.0"
    [Sigusr1 (guarded_files §"new" []); Sigusr1 (guarded_files [] [])] store_default
    (demo_conn §"GET / HTTP/1.1") §"hello" []) as (conf & Hc & Hrun); [|reflexivity|].
  { rewrite guarded_tasks. do 4 right. by left. }
  exists conf. split; [|exact Hrun]. vm_compute in Hc. by injection Hc as <-.
Defined.

Lemma accept_error_ends_ingress_witness :
  run_https_ingress guarded_state §"1.0" (main_args guarded_boot) true (demo_acceptor §"cert")
    [Sigusr1 (guarded_files [] []); HttpsAccept None; HttpsAccept (Some demo_https_conn)]
  = ([], true).
Proof.
  apply (accept_error_ends_ingress guarded_state §"1.0" (main_args guarded_boot)
    (demo_acceptor §"cert") (s_policies guarded_state) (relay_new (s_rate_limiter guarded_state)) 0 0
    [] [] [Sigusr1 (guarded_files [] [])] [HttpsAccept (Some demo_https_conn)] [] [] []).
  reflexivity.
Defined.

(** A request without the token, over a connection of a signed client; the
    connection of a client that is not signed never comes up. *)
Definition demo_admin_events : list admin_event :=
  [AdminConn (Some (V4 0x0a000001, 5000, 0, true, §"nobody"));
   AdminConn (Some (V4 0x0a000001, 5001, 0, true, §"root"));
   AdminRequest 0 demo_io (request_for None (PauseTunnel §"app"));
   AdminRequest 1 demo_io (request_for None HealthCheck)].

Definition demo_exchanges : list exchange :=
  start_admin guarded_state §"1.0"
    (Some {| sc_versions := [TLS13]; sc_client_auth := Some [§"root"]; sc_certs := [§"cert"];
             sc_key := §"key" |}) true demo_world demo_admin_events.

Lemma admin_gate_witness :
  match demo_exchanges with
  | [x] => (x_effects x = [] ∧ x_after x = x_before x) ∧ rs_status <$> x_response x = Some 401
           ∧ signed_by §"root" (x_hello x)
  | _ => False
  end.
Proof.
  destruct (prepared guarded_boot) as [w [[[st cfgs] tls]|]] eqn:Ep;
    [|vm_compute in Ep; discriminate].
  assert (Hst : (prepared guarded_boot).2 = Ok (guarded_state, cfgs, tls)).
  { rewrite Ep. vm_compute in Ep. injection Ep as _ <- _ _. reflexivity. }
  destruct demo_exchanges as [|x [|? ?]] eqn:E; try (vm_compute in E; discriminate).
  destruct (admin_gate guarded_boot no_certificate guarded_state cfgs tls (V6 0, 8443, 0)
    (Some {| sc_versions := [TLS13]; sc_client_auth := Some [§"root"]; sc_certs := [§"cert"];
             sc_key := §"key" |}) §"c" §"k" §"ca" §"secret" §"1.0" true demo_world
    demo_admin_events x Hst) as [(pem & roots & root & Hp & Hr & Hin & Hs) Hx];
    [rewrite guarded_tasks; by left|reflexivity..|change (x ∈ demo_exchanges); rewrite E; by left| |].
  { vm_compute in E. injection E as <-. intros v4 [= <-]. lia. }
  vm_compute in Hp. injection Hp as <-. vm_compute in Hr. injection Hr as <-.
  apply list_elem_of_singleton in Hin as ->.
  split; [|split; [|exact Hs]].
  - destruct Hx as [(He & Ha & _)|(_ & req & Hreq & Htok)]; [by split|]. exfalso.
    vm_compute in E. injection E as <-. vm_compute in Hreq. injection Hreq as <-.
    by specialize (Htok eq_refl).
  - vm_compute in E. by injection E as <-.
Defined.
