(* ===== verification/EndToEnd.v ===== *)
(** * EndToEnd: from the start of a relay to a request that reaches a client

    The promise of the program, across its parts: [Start.main] builds the state,
    the accept loop of the Seam port makes the context a client is handled with,
    [HandleClient] registers the tunnel and answers with its URL, and the HTTP
    ingress of the same relay takes the request for that URL to the client. *)

From S2P Require Import Prelude Text Json Cidr Addr Codec Policy RateLimit Metrics AuditLog Backends.
From S2P Require Import Tunnel HandleClient Http Store Ingress Config Start Listeners.
Local Open Scope Z_scope.

Section end_to_end.
Context `{Unicode} `{JsonFile} `{Libraries}.

(** The name of a registration is one that can be asked for: an automatic one
    because its length was clamped by [main] and fits in a label. *)
Lemma registered_name st p remote mux draw subdomain now instant r w sub ref url r' arg :
  s_subdomain_length st = clamp_subdomain_length arg → (arg ≤ 63)%nat → in_chars draw →
  http_register (conn_ctx st p remote) mux draw subdomain now instant true r
  = (w, Ok (sub, ref, url), r') →
  validate_subdomain sub = Ok tt
  ∧ url = http_url (s_base_domain st) (s_http_port st) (s_https_port st) sub
  ∧ lookup_tunnel sub r' = Some (ref, entry_new mux sub now instant (show_ip remote))
  ∧ frames w = [Registered url].
Proof.
  intros Hlen Harg Hd E.
  pose proof (http_register_run (conn_ctx st p remote) mux draw subdomain now instant r Hd) as HR.
  rewrite E in HR. destruct HR as (Hname & _ & _ & -> & -> & Hf). split; [|split; [done|split; [|done]]].
  - destruct subdomain as [name|]; [by destruct Hname as [-> [? _]]|].
    destruct (random_subdomain_valid draw arg Hd) as (s & Hs & _ & Hv).
    cbn [conn_ctx HandleClient.subdomain_length] in Hname. rewrite Hlen, Hs in Hname.
    injection Hname as <-. by apply Hv.
  - unfold lookup_tunnel. rewrite tunnels_with_tunnel, lookup_insert_eq. cbn [mbind option_bind].
    unfold with_tunnel. cbn [heap set_tunnels set_heap]. by rewrite lookup_insert_eq.
Qed.

(** C2: A tunnel of a started relay works.  Whatever the configuration: when
    [main] has reached its accept loop and a client that it accepted, under
    whatever policies are in force by then, registers an HTTP tunnel, the client
    is told one URL; and as long as that registration stands, a browser's request
    for the URL at the HTTP ingress of this relay reaches the client, with the
    relay's headers added and no answer of the relay's own, and is counted and
    logged in the tunnel's entry.  What can stand in between is named: a country
    block, a static route or a custom domain for that very host, a paused tunnel,
    its protection, and writes that fail. *)
Theorem started_tunnel_works io s st s' p remote mux draw subdomain now instant r w sub ref url r' :
  (main io s).2 = Ok (st, s') → in_chars draw → ar_subdomain_length (main_args io) ≤ 63 →
  forallb plain (ar_base_domain (main_args io)) = true →
  (":"%char ∉ ar_base_domain (main_args io)) →
  http_register (conn_ctx st p remote) mux draw subdomain now instant true r
  = (w, Ok (sub, ref, url), r') →
  frames w = [Registered url]
  ∧ lookup_tunnel sub r' = Some (ref, entry_new mux sub now instant (show_ip remote))
  ∧ ∀ store version c path s2 e,
    let app := ingress_state st store version in
    forallb plain path = true → is_health §"GET" path = false →
    read_head (c_reads c) [] = (get_request path (authority url), Complete) →
    lookup_tunnel sub s2 = Some (ref, e) → t_paused e = false → DDoS.enabled (t_ddos e) = false →
    open_way app c (authority url) s2 → c_preamble_ok c = true → c_head_ok c = true →
    let fwd := inject_forwarding_headers (get_request path (authority url)) (c_peer_ip c) (c_https c) in
    ∃ task, run_http_ingress st version true [Some (store, c)] = ([task], false)
    ∧ let '(w2, o, s3) := task s2 in
      o = Ok tt ∧ to_tunnel w2 = [DataFrame (t_mux e) (NewConn (c_peer c)); DataBytes (t_mux e) fwd]
      ∧ replies w2 = [] ∧ heap s3 !! ref = Some (served c path (Z.of_nat (length fwd)) e).
Proof.
  intros Hm Hd Hlen Hplain Hcolon E. apply main_Ok in Hm as (i & store0 & auth & _ & Hst).
  destruct (registered_name st p remote mux draw subdomain now instant r w sub ref url r'
    (Z.to_nat (ar_subdomain_length (main_args io)))) as (Hsub & -> & Hlook & Hf);
    [by rewrite Hst|lia|done|done|].
  split; [done|]. split; [done|]. intros store version c path s2 e app Hpath Hh Hread Hl Hp Hdd Hopen Hpre
    Hhead fwd. exists (route_http app c). split; [done|].
  apply (tunnel_url_reaches app c s2 (conn_ctx st p remote) sub path ref e); try done;
    cbn [conn_ctx base_domain]; rewrite Hst; done.
Qed.
End end_to_end.

(** ** Witness *)

#[local] Existing Instance ascii_only.
#[local] Existing Instance bit_json.
#[local] Existing Instance guarded_libs.

Definition demo_context : ConnCtx :=
  conn_ctx guarded_state (s_policies guarded_state) (V4 0x0a000001).
Definition demo_registration :=
  http_register demo_context 7 (λ _, 0) (Some §"app") 1000 0 true
    (relay_new (s_rate_limiter guarded_state)).

Lemma started_tunnel_works_witness :
  match demo_registration with
  | (w, Ok (sub, ref, url), r') =>
    frames w = [Registered §"https://app.a.example"]
    ∧ let request := get_request §"/" (authority url) in
      let '(w2, _, _) :=
        route_http (ingress_state guarded_state store_default §"1.0") (demo_conn request) r' in
      to_tunnel w2 = [DataFrame 7 (NewConn §"192.0.2.9:4711");
                      DataBytes 7 (inject_forwarding_headers request §"192.0.2.9" false)]
  | _ => False
  end.
Proof.
  assert (Hreg : demo_registration.1.2 = Ok (§"app", 0%nat, §"https://app.a.example"))
    by (vm_compute; reflexivity).
  assert (Hcustom : custom_domains demo_registration.2 !! host_only §"app.a.example" = None)
    by (vm_compute; reflexivity).
  destruct demo_registration as [[w res] r'] eqn:E. cbn [fst snd] in *. subst res.
  assert (Hd : in_chars (λ _, 0)) by (intros i; lia).
  assert (Hcolon : ":"%char ∉ ar_base_domain (main_args guarded_boot)) by by apply (bool_decide_unpack _).
  assert (Hlen : ar_subdomain_length (main_args guarded_boot) ≤ 63) by (vm_compute; discriminate).
  destruct (started_tunnel_works guarded_boot no_certificate guarded_state no_certificate
    (s_policies guarded_state) (V4 0x0a000001) 7 (λ _, 0) (Some §"app") 1000 0
    (relay_new (s_rate_limiter guarded_state)) w §"app" 0%nat §"https://app.a.example" r' guarded_started
    Hd Hlen eq_refl Hcolon E) as (Hf & Hlook & Hreach).
  split; [exact Hf|].
  set (request := get_request §"/" (authority §"https://app.a.example")).
  destruct (Hreach store_default §"1.0" (demo_conn request) §"/" r' _ eq_refl eq_refl eq_refl Hlook
    eq_refl eq_refl) as (task & Ht & Hrun); [by split_and!|reflexivity|reflexivity|].
  injection Ht as <-.
  destruct (route_http _ (demo_conn request) r') as [[w2 o] s3]. apply Hrun.
Defined.
